(* ===== verification/_CoqProject ===== *)
-Q . S2P
Prelude.v
GoStrings.v
GoTime.v
GoQuote.v
GoHttp.v
GoUrl.v
CacheControl.v
Keys.v
Resource.v
Config.v
Vfs.v
CacheState.v
Metrics.v
Ledger.v
Admission.v
Markers.v
Generations.v
Policy.v
Validator.v
Publication.v
Program.v
Lookup.v
Serve.v
Conduct.v
Reuse.v
Effort.v
Path.v
Origin.v
Flights.v
Locks.v
StoredHeader.v
Staging.v
Store.v
Staged.v
Transaction.v
Retrieve.v
Startup.v
Freshen.v
CacheInterface.v
Contract.v
DiskCache.v
Streamer.v
Preconditions.v
Lifecycle.v
System.v
Transparency.v
Coalescing.v
