(* ===== verification/Prelude.v ===== *)
(** * httpcache-kit: a verification library

    The repository is an HTTP cache for Go: a handler ([handler.go] and the
    files split from it) in front of an upstream handler, and a disk cache
    ([cache.go]) behind it, joined by the interface [Cache].  This library
    models both, function by function, and proves what each promises.

    ** The program and its parts

    A request enters [Handler.ServeHTTP].  The policy decides whether it is
    looked up; the lookup asks the cache for the base entry and its Vary
    variant, and judges them against the invalidation markers; a miss is
    coalesced with the other misses of its key and fetched; a stored response
    is served, or first validated at the origin by a conditional request, whose
    304 refreshes it and whose full response replaces it.  A response that is
    fetched streams to the client while it is staged, and is stored when it is
    complete.  A successful unsafe request invalidates its URL and those its
    response names.  The cache keeps an entry in two files named by the hash
    of its key, a ledger of sizes in LRU order that bounds what it keeps, and
    a map of invalidation markers with a journal on disk.

    ** Files, in dependency order

    The language and its standard library, as far as the source uses them:
    - [Prelude]: notations, tactics, hints, sums over lists and maps.
    - [GoStrings], [GoTime], [GoQuote], [GoHttp], [GoUrl]: strings, instants
      and 64-bit durations, [strconv.Quote], [http.Header] with the helpers of
      [header.go], [url.URL] and its rendering.

    Values and decisions:
    - [CacheControl] ([cachecontrol.go]): parser, accessors and printer.
    - [Keys] ([key.go], Vary readers of [handler.go] and [validator.go]).
    - [Resource] ([resource.go]): freshness, age, orderings.
    - [Config] ([cache_config.go]): options and their validation.
    - [Policy] ([handler.go]): what is looked up, stored, fresh, validated.
    - [Validator] ([validator.go], [conditional_response.go]): the conditional
      request, the merge of a 304, warnings, trailers.
    - [Origin] ([handler.go], [miss_coordinator.go]): invalidation targets.

    The disk cache ([cache.go], [integrity.go], [cache_provenance.go]):
    - [Vfs]: the file system below, as classes with laws and instances.
    - [CacheState]: the fields of [cache] as one record.
    - [Ledger], [Admission]: LRU entries, reservations, eviction, sweeps; the
      critical sections as the transition system [ledger_step].
    - [Markers]: [Invalidate], the journal, restoration, [Cleanup], [Purge].
    - [Generations]: stores, refreshes and lookups against invalidations that
      may overlap, as the transition system of [generationMu].
    - [Locks]: [lockKey] and its callers, as the transition system [lock_step].
    - [StoredHeader]: the text of a header file in both formats.
    - [Store]: [StoreContext] in a state monad [ST] over the cache, with an
      environment [Env] that answers the clock, the context and every failure;
      [Staged] and [Transaction] hold the frames of its steps and the proof of
      publication and rollback.
    - [Retrieve]: [Header], [Retrieve], [RetrieveForRecheck], corrupt entries.
    - [Startup]: the constructors, the scan of existing entries.
    - [Freshen]: [Freshen] and the comparison of generations.
    - [Contract]: the cache as a map that forgets, and the refinement.
    - [Lifecycle]: the constructors over memory and over a directory, the
      cleanup goroutine and [Close] as the transition system [running_step],
      the open files of a retrieved resource ([cache_provenance.go]).
    - [Metrics] ([metrics.go], [prometheusmetrics]): the interface [Metrics],
      the default of the process, the recorder of a handler, Prometheus.

    The handler:
    - [Publication] ([handler_publication.go]): freshness evidence for a cache
      that gives none.
    - [Program]: programs over external operations, monitors and [safe].
    - [Lookup], [Serve] ([handler.go], [conditional_response.go],
      [miss_coordinator.go]): the request path as such a program; [Conduct],
      [Path] and [Reuse] prove what every run of it does, [Effort] how long it
      can be.
    - [Flights]: [claimMiss], [finishMiss], background writes and [Shutdown].
    - [Staging] ([staging_budget.go]): leases on temporary space.
    - [Streamer]: [responseStreamer], [pipeUpstream], [passUpstream] and the
      store of what was fetched, over any response writer.
    - [Preconditions] ([client_preconditions.go]): the conditions of a client,
      [serveResource], the validation exchange and its delivery.

    The composition:
    - [CacheInterface] (the interfaces of [cache.go]): a cache as the class
      [Cache], and what a handler relies on as the class [CacheLaws];
      [DiskCache] makes the disk cache an instance of both.
    - [System]: the constructors of a handler, the operations of the request
      path interpreted over any such cache and any recorder ([hop_run]), and
      the transition system [system_step] of any number of requests, operation
      by operation, with the background stores, the upkeep of the cache and a
      shutdown.
    - [Transparency], [Coalescing]: its invariants and theorems.

    A definition bears the name of the Go function it translates; a method
    that shares its name with another has its type or a lower-case prefix in
    front ([cc_Get], [rw_Write], [pw_Write]).  A function that reads the clock
    takes the instants it reads, in the order of the calls.

    ** What the theorems show

    - The whole system, over any cache with the laws: a stored response given
      to a client is what the origin wrote in an answer for such a key, and what
      was stored is given again without the origin ([Transparency]); who waits
      for a flight waits for somebody who works, and a shutdown for stores that
      end ([Coalescing]).
    - Reuse: a stored response reaches a client fresh, or confirmed by the
      origin after it was fenced ([Reuse]); no lookup calls fresh what began
      before a finished invalidation ([Generations], [Publication] for an
      opaque cache); the conditions of reuse and storage ([Policy]).
    - Delivery: what is piped or fetched reaches the client as the origin sent
      it, a mutation is invalidated before its client hears of it (where the
      first status is final), and what is stored is what the origin wrote
      ([Streamer]); the conditions of a client are answered as RFC 9110 orders
      them, on a hit and on a validation, with and without a staging budget
      ([Preconditions]).
    - Storage: a store publishes all or nothing ([Transaction]); what is stored
      is retrieved, also after a restart ([Retrieve], [Startup]); torn and
      corrupt files are misses ([Retrieve]); a refresh changes one generation
      ([Freshen]); the whole cache refines a forgetful map ([Contract]).
    - Capacity: the ledger is exact in every interleaving, and bounded by the
      limit and what refused removals left since the last admission; evictions
      are the least recently used ones needed ([Admission]); staged
      bytes are charged exactly ([Staging]).
    - Markers survive crashes and restarts, in the journal of a generic file
      system and in the one file of a disk cache ([Markers]); keys are injective
      ([Keys]); parsers and printers round trip ([CacheControl],
      [StoredHeader]).
    - Conduct: resources are closed once, clients answered once, flights and
      leases released ([Conduct], [Flights], [Locks]); a request ends, and asks
      the origin three times at most ([Effort]); [Close] joins the
      cleanup, and files are closed once ([Lifecycle]); the recorder counts
      what happened ([Metrics]).

    Each property has a doc comment with its claim id; one with hypotheses has
    a witness named after it that applies it to a concrete run.  Examples that
    end a file show where the code departs from its intent.

    ** Bounds and fuel

    Loops over lists and strings are structural.  [parse_loop],
    [duration_loop], [mime_loop], [read_continued] and [etag_loop] have fuel:
    the length of their input, or one more, and each turn consumes a byte
    ([ParseCacheControl_total], [ReadMIMEHeader_back] and [etag_loop_list] use
    it).  [dec_digits] has fuel for the digits of a 64-bit number.  The loop of
    [resolveMiss] waits for other requests and has no bound: [resolve_loop]
    takes the number of its turns and stops in the operation [OutOfFuel] after
    them, which no theorem counts as an answer; every turn but the last waits
    for one fill, and a request does at most 72 operations and 18 for each of
    them ([Effort]); without a coordinator one turn ends the loop.  Durations and entry sizes wrap at 64 bits; the
    counters of the ledger are integers, which [capacity_never_exceeded] shows
    to fit 64 bits.

    ** Outside the model

    - Parameters, as classes with laws where something is assumed and with an
      instance for the witnesses: the file system and the operating system
      ([VFS], [OsFiles], [VfsDirs]), HTTP dates ([HttpDate]), JSON markers
      ([MarkerJSON]), SHA-256, base64, JSON and RFC 3339 of header records
      ([RecordText]), [url.Parse] ([UrlParser]), the printable runes
      ([Unicode]), staging budgets ([StagingBudget]), the sniffed content type
      and multipart ranges ([ContentLibrary]).
    - [strings.EqualFold], [ToLower] and [TrimSpace] treat bytes of 0x80 and
      above as themselves.
    - Locks are the order they impose: a critical section is one step.  In
      [System] an operation of the cache ([Store], [Freshen], [Invalidate]) is
      one step, which waits until its keys are free; what happens inside one is
      the matter of [Generations], [Admission] and [Transaction].
    - In [System] the statuses of an origin are valid ones (informational ones,
      then a final one, no switch of protocols: [valid_statuses]), and what is
      stored or refreshed has a header that a header file can carry
      ([storable], [refreshable]: [plain_header]).  The same header condition
      is a hypothesis in [Contract], [Retrieve], [Startup] and [Freshen].  In
      [Streamer] most is said of an origin whose first status is a final one
      ([final_first]); what happens after an informational one is stated
      beside it: the statuses after the first are lost, and nothing is
      stored or invalidated.
    - In [Generations] the lock of a key is left out (more runs than the code
      has) and the cleanup of markers is no step.
    - An upstream is a script of calls on its writer: a header map it keeps
      from an earlier call, and its panics in [pipeUpstream] and
      [passUpstream], are not modelled.
    - What identifies a file ([os.SameFile]) is a number that the file system
      gives ([fs_identity]); that a file kept open keeps its number from being
      used again is the operating system's, and is not stated.
    - Prometheus collectors ([PrometheusClient]) and the directories of the
      operating system below a disk cache are parameters; logging
      ([logger.go]) has no effect on anything modelled. *)

From Stdlib Require Export Ascii String.
From stdpp Require Export base gmap sets list strings sorting.
From Stdlib Require Export ZArith Lia.

#[export] Set Default Goal Selector "!".

Declare Scope go_scope.
Delimit Scope go_scope with go.

(** ** Booleans of the Go conditions *)

Notation "x '=?s' y" := (String.eqb x y) (at level 70, no associativity) : go_scope.
Notation "a '<>?s' b" := (negb (String.eqb a b)) (at level 70, no associativity) : go_scope.

Open Scope go_scope.
Open Scope Z_scope.

(** The empty string tests of the source ([s != ""]). *)
Definition nonempty (s : string) : bool := match s with EmptyString => false | _ => true end.

(** Sum of a list of integers (sizes, reservations). *)
Definition zsum (l : list Z) : Z := foldr Z.add 0 l.

(** Sum of the values of a map of sizes. *)
Definition map_zsum `{Countable K} (m : gmap K Z) : Z := map_fold (λ _ v acc, v + acc) 0 m.

(** ** Automation *)

Create HintDb httpcache.
Create Rewrite HintDb httpcache.

(** Case analysis on the scrutinee of the first [match]/[if] of the goal. *)
Ltac case_goal :=
  match goal with
  | |- context [match ?x with _ => _ end] => destruct x eqn:?
  end.

(** Turn boolean hypotheses into propositions. *)
Ltac unbool :=
  repeat match goal with
  | H : _ && _ = true |- _ => apply andb_true_iff in H as [? ?]
  | H : _ || _ = false |- _ => apply orb_false_iff in H as [? ?]
  | H : negb _ = true |- _ => apply negb_true_iff in H
  | H : negb _ = false |- _ => apply negb_false_iff in H
  | H : String.eqb _ _ = true |- _ => apply String.eqb_eq in H
  | H : String.eqb _ _ = false |- _ => apply String.eqb_neq in H
  | H : Z.eqb _ _ = true |- _ => apply Z.eqb_eq in H
  | H : Z.eqb _ _ = false |- _ => apply Z.eqb_neq in H
  | H : Z.ltb _ _ = true |- _ => apply Z.ltb_lt in H
  | H : Z.ltb _ _ = false |- _ => apply Z.ltb_ge in H
  | H : Z.leb _ _ = true |- _ => apply Z.leb_le in H
  | H : Z.leb _ _ = false |- _ => apply Z.leb_gt in H
  | H : bool_decide _ = true |- _ => apply bool_decide_eq_true in H
  | H : bool_decide _ = false |- _ => apply bool_decide_eq_false in H
  end.

(** ** Sums *)

Lemma zsum_app l1 l2 : zsum (l1 ++ l2) = zsum l1 + zsum l2.
Proof. induction l1 as [|x l1 IH]; simpl; lia. Qed.

Lemma zsum_perm l1 l2 : l1 ≡ₚ l2 → zsum l1 = zsum l2.
Proof. induction 1; simpl; lia. Qed.

Lemma zsum_nonneg l : Forall (λ x, 0 ≤ x) l → 0 ≤ zsum l.
Proof. induction 1; simpl; lia. Qed.

Lemma elem_of_rev {A} (l : list A) x : x ∈ rev l ↔ x ∈ l.
Proof. by rewrite <- (Permutation_rev l). Qed.

Lemma NoDup_rev_list {A} (l : list A) : NoDup l → NoDup (rev l).
Proof. by rewrite <- (Permutation_rev l). Qed.

Section map_zsum.
Context `{Countable K}.
Implicit Types m : gmap K Z.

Lemma map_zsum_empty : map_zsum (∅ : gmap K Z) = 0.
Proof. done. Qed.

Lemma map_zsum_insert_None m k v : m !! k = None → map_zsum (<[k:=v]> m) = v + map_zsum m.
Proof.
  intros Hk. unfold map_zsum. rewrite map_fold_insert_L; [done | | done].
  intros. lia.
Qed.

Lemma map_zsum_delete m k : map_zsum (delete k m) = map_zsum m - default 0 (m !! k).
Proof.
  destruct (m !! k) as [v|] eqn:Hk; simpl.
  - rewrite <- (insert_delete_id m k v Hk) at 2.
    rewrite map_zsum_insert_None by apply lookup_delete_eq. lia.
  - rewrite delete_id by done. lia.
Qed.

Lemma map_zsum_insert m k v : map_zsum (<[k:=v]> m) = map_zsum m - default 0 (m !! k) + v.
Proof.
  rewrite <- insert_delete_eq, map_zsum_insert_None, map_zsum_delete; [lia|].
  apply lookup_delete_eq.
Qed.

Lemma map_zsum_nonneg m : map_Forall (λ _ v, 0 ≤ v) m → 0 ≤ map_zsum m.
Proof.
  induction m as [|k v m Hk IH] using map_ind; intros Hm; [done|].
  rewrite map_zsum_insert_None by done.
  rewrite map_Forall_insert in Hm by done. destruct Hm as [? Hm]. specialize (IH Hm). lia.
Qed.

Lemma map_zsum_lookup_le m k v :
  map_Forall (λ _ v, 0 ≤ v) m → m !! k = Some v → v ≤ map_zsum m.
Proof.
  intros Hm Hk. rewrite <- (insert_delete_id m k v Hk).
  rewrite map_zsum_insert_None by apply lookup_delete_eq.
  pose proof (map_zsum_nonneg (delete k m)) as Hn.
  enough (0 ≤ map_zsum (delete k m)) by lia.
  apply Hn. by apply map_Forall_delete.
Qed.

Lemma map_zsum_mono (m1 m2 : gmap K Z) :
  map_Forall (λ _ v, 0 ≤ v) m2 → m1 ⊆ m2 → map_zsum m1 ≤ map_zsum m2.
Proof.
  revert m2. induction m1 as [|k v m1 Hk IH] using map_ind; intros m2 Hm Hsub.
  - rewrite map_zsum_empty. by apply map_zsum_nonneg.
  - assert (m2 !! k = Some v) as Hk2.
    { apply (lookup_weaken _ _ _ _ (lookup_insert_eq m1 k v) Hsub). }
    assert (m1 ⊆ delete k m2) as Hsub'.
    { rewrite <- (delete_insert_id m1 k v Hk). by apply delete_mono. }
    pose proof (IH _ (map_Forall_delete _ _ k Hm) Hsub') as Hle.
    rewrite map_zsum_delete, Hk2 in Hle. simpl in Hle.
    rewrite map_zsum_insert_None by done. lia.
Qed.
End map_zsum.

#[export] Hint Rewrite @map_zsum_empty @map_zsum_insert @map_zsum_delete : httpcache.
#[export] Hint Resolve map_zsum_nonneg zsum_nonneg : httpcache.
