(* ===== verification/GoStrings.v ===== *)
(** * Byte strings of the Go standard library

    Go strings are byte strings: they are modelled by [string] (one [ascii]
    per byte).  This file holds the functions of the packages [strings],
    [strconv] and [sort] that the repository calls.  Case mapping
    ([strings.ToLower], [strings.EqualFold]) is the ASCII one: bytes of 0x80
    and above are left alone, where Go would fold the letters of valid UTF-8
    sequences; header names, directives, schemes and host names are ASCII. *)

From S2P Require Import Prelude.

(** ** Bytes *)

Definition byte_val (c : ascii) : Z := Z.of_N (N_of_ascii c).
Definition byte_of (z : Z) : ascii := ascii_of_N (Z.to_N z).
Definition in_range (lo hi : Z) (c : ascii) : bool := (lo <=? byte_val c) && (byte_val c <=? hi).
Definition is_upper (c : ascii) : bool := in_range 65 90 c.
Definition is_lower (c : ascii) : bool := in_range 97 122 c.
Definition is_digit (c : ascii) : bool := in_range 48 57 c.
Definition lower_byte (c : ascii) : ascii := if is_upper c then byte_of (byte_val c + 32) else c.
Definition upper_byte (c : ascii) : ascii := if is_lower c then byte_of (byte_val c - 32) else c.

Definition dquote : ascii := "034"%char.
Definition backslash : ascii := "092"%char.
Definition us : ascii := "031"%char.
Definition cr : ascii := "013"%char.
Definition lf : ascii := "010"%char.
Definition tab : ascii := "009"%char.

(** The string of one byte. *)
Definition str1 (c : ascii) : string := String c EmptyString.

(** ** Traversals *)

Fixpoint str_map (f : ascii → ascii) (s : string) : string :=
  match s with
  | EmptyString => EmptyString
  | String c s => String (f c) (str_map f s)
  end.

Fixpoint str_forall (p : ascii → bool) (s : string) : bool :=
  match s with
  | EmptyString => true
  | String c s => p c && str_forall p s
  end.

(** The longest prefix whose bytes satisfy [p], and what follows it:
    [s[:i]] and [s[i:]] for the index [i] of the first other byte. *)
Fixpoint take_while (p : ascii → bool) (s : string) : string :=
  match s with
  | EmptyString => EmptyString
  | String c s => if p c then String c (take_while p s) else EmptyString
  end.

Fixpoint drop_while (p : ascii → bool) (s : string) : string :=
  match s with
  | EmptyString => EmptyString
  | String c s' => if p c then drop_while p s' else s
  end.

(** Remove the bytes satisfying [p] from the end. *)
Fixpoint trim_right (p : ascii → bool) (s : string) : string :=
  match s with
  | EmptyString => EmptyString
  | String c s =>
      let r := trim_right p s in
      match r with
      | EmptyString => if p c then EmptyString else String c EmptyString
      | _ => String c r
      end
  end.

Definition trim (p : ascii → bool) (s : string) : string := trim_right p (drop_while p s).

(** ** Package [strings] *)

Definition ToLower : string → string := str_map lower_byte.
Definition EqualFold (s t : string) : bool := String.eqb (ToLower s) (ToLower t).

(** [strings.TrimSpace]: the ASCII white space of [unicode.IsSpace]. *)
Definition is_go_space (c : ascii) : bool :=
  match byte_val c with 9 | 10 | 11 | 12 | 13 | 32 => true | _ => false end.
Definition TrimSpace : string → string := trim is_go_space.

(** [len] of a string, at Go's [int] *)
Definition str_len (s : string) : Z := Z.of_nat (String.length s).

Definition Join (parts : list string) (sep : string) : string := String.concat sep parts.

(** [strings.Split] at a single byte: never empty. *)
Fixpoint Split (sep : ascii) (s : string) : list string :=
  match s with
  | EmptyString => [EmptyString]
  | String c s =>
      if Ascii.eqb c sep then EmptyString :: Split sep s
      else match Split sep s with
           | [] => [str1 c]
           | w :: ws => String c w :: ws
           end
  end.

Fixpoint HasPrefix (s pre : string) : bool :=
  match pre, s with
  | EmptyString, _ => true
  | String c pre, String d s => Ascii.eqb c d && HasPrefix s pre
  | String _ _, EmptyString => false
  end.

Definition HasSuffix (s suf : string) : bool :=
  let n := String.length s in let m := String.length suf in
  (m <=? n)%nat && (String.substring (n - m) m s =?s suf).

Definition TrimSuffix (s suf : string) : string :=
  if HasSuffix s suf then String.substring 0 (String.length s - String.length suf) s else s.

(** ** Package [sort]: [sort.Strings] is the bytewise order *)

Definition sort_strings (l : list string) : list string := merge_sort String.le l.

(** [slices.Sort] followed by [slices.Compact], on strings. *)
Fixpoint compact (l : list string) : list string :=
  match l with
  | [] => []
  | x :: l' => match compact l' with
               | [] => [x]
               | y :: r => if x =?s y then y :: r else x :: y :: r
               end
  end.

(** ** Decimal and hexadecimal digits *)

Definition digit_val (c : ascii) : option Z :=
  if is_digit c then Some (byte_val c - 48) else None.

(** The value of a run of digits, left to right; [None] on any other byte. *)
Fixpoint digits_acc (s : string) (acc : Z) : option Z :=
  match s with
  | EmptyString => Some acc
  | String c s => match digit_val c with Some d => digits_acc s (10 * acc + d) | None => None end
  end.

Definition max_int64 : Z := 2 ^ 63 - 1.
Definition min_int64 : Z := - 2 ^ 63.

(** [strconv.ParseInt(s, 10, 64)] and [strconv.Atoi] (64-bit [int]): an
    optional sign, at least one digit, and the range check. *)
Definition ParseInt (s : string) : option Z :=
  let '(neg, body) := match s with
    | String "-" r => (true, r)
    | String "+" r => (false, r)
    | _ => (false, s)
    end%char in
  if nonempty body then
    match digits_acc body 0 with
    | Some n => let v := if neg : bool then - n else n in
                if (min_int64 <=? v) && (v <=? max_int64) then Some v else None
    | None => None
    end
  else None.

Definition dec_digit (d : Z) : ascii := byte_of (48 + d).

(** Decimal digits of a non-negative integer, most significant first, on a
    bounded number of digits. *)
Fixpoint dec_digits (fuel : nat) (n : Z) (acc : string) : string :=
  match fuel with
  | O => acc
  | S fuel => let acc := String (dec_digit (n mod 10)) acc in
              if n <? 10 then acc else dec_digits fuel (n / 10) acc
  end.

(** [strconv.Itoa] on an [int64]: 19 digits are enough. *)
Definition Itoa (n : Z) : string :=
  if n <? 0 then String "-" (dec_digits 20 (- n) EmptyString) else dec_digits 20 n EmptyString.

Definition hex_digit (d : Z) : ascii := if d <? 10 then byte_of (48 + d) else byte_of (87 + d).
Definition hex_digit_upper (d : Z) : ascii := if d <? 10 then byte_of (48 + d) else byte_of (55 + d).

(** [n] lower-case hexadecimal digits of [v], most significant first. *)
Fixpoint hex_fixed (n : nat) (v : Z) : string :=
  match n with
  | O => EmptyString
  | S n => String (hex_digit (v / 16 ^ Z.of_nat n mod 16)) (hex_fixed n v)
  end.

Definition unhex (c : ascii) : option Z :=
  if is_digit c then Some (byte_val c - 48)
  else if in_range 97 102 c then Some (byte_val c - 87)
  else if in_range 65 70 c then Some (byte_val c - 55)
  else None.

(** ** Lemmas *)

Lemma str_app_nil_l s : (EmptyString +:+ s)%string = s.
Proof. done. Qed.

Lemma str_app_cons c s t : (String c s +:+ t)%string = String c (s +:+ t)%string.
Proof. done. Qed.

Lemma str_app_nil_r s : (s +:+ EmptyString)%string = s.
Proof. induction s as [|c s IH]; [done|]. by rewrite str_app_cons, IH. Qed.

Lemma str_app_assoc s t u : (s +:+ (t +:+ u))%string = ((s +:+ t) +:+ u)%string.
Proof. induction s as [|c s IH]; [done|]. by rewrite !str_app_cons, IH. Qed.

Create Rewrite HintDb str.
#[export] Hint Rewrite str_app_nil_l str_app_cons str_app_nil_r : str.

Lemma str_length_app s t :
  String.length (s +:+ t)%string = (String.length s + String.length t)%nat.
Proof. induction s as [|c s IH]; [done|]. rewrite str_app_cons; simpl. by rewrite IH. Qed.

Lemma str_app_inj_r s t u : (s +:+ u)%string = (t +:+ u)%string → s = t.
Proof.
  revert t. induction s as [|c s IH]; intros [|d t] Heq; [done|..].
  - apply (f_equal String.length) in Heq. rewrite !str_length_app in Heq. simpl in Heq. lia.
  - apply (f_equal String.length) in Heq. rewrite !str_length_app in Heq. simpl in Heq. lia.
  - rewrite !str_app_cons in Heq. injection Heq as -> Heq. f_equal. by apply IH.
Qed.

Lemma str_forall_app p s t : str_forall p (s +:+ t)%string = str_forall p s && str_forall p t.
Proof.
  induction s as [|c s IH]; [done|]. rewrite str_app_cons; simpl. by rewrite IH, andb_assoc.
Qed.

Lemma take_drop_while p s : (take_while p s +:+ drop_while p s)%string = s.
Proof.
  induction s as [|c s IH]; [done|]; simpl. destruct (p c); [|done].
  by rewrite str_app_cons, IH.
Qed.

Lemma take_while_forall p s : str_forall p (take_while p s) = true.
Proof. induction s as [|c s IH]; [done|]; simpl. destruct (p c) eqn:Hc; simpl; by rewrite ?Hc. Qed.

Lemma drop_while_length p s : (String.length (drop_while p s) ≤ String.length s)%nat.
Proof. induction s as [|c s IH]; simpl; [lia|]. destruct (p c); simpl; lia. Qed.

(** A prefix without the stop byte, followed by it, is recovered exactly. *)
Lemma app_stop_inj (stop : ascii) s1 s2 t1 t2 :
  str_forall (λ c, negb (Ascii.eqb c stop)) s1 = true →
  str_forall (λ c, negb (Ascii.eqb c stop)) s2 = true →
  (s1 +:+ String stop t1)%string = (s2 +:+ String stop t2)%string →
  s1 = s2 ∧ t1 = t2.
Proof.
  revert s2. induction s1 as [|c s1 IH]; intros [|d s2] H1 H2 Heq;
    rewrite ?str_app_nil_l, ?str_app_cons in Heq; simpl in H1, H2.
  - by injection Heq as ->.
  - injection Heq as -> _. by rewrite Ascii.eqb_refl in H2.
  - injection Heq as -> _. by rewrite Ascii.eqb_refl in H1.
  - injection Heq as -> Heq. unbool. destruct (IH s2) as [-> ->]; auto.
Qed.

Lemma ToLower_app s t : ToLower (s +:+ t)%string = (ToLower s +:+ ToLower t)%string.
Proof. induction s as [|c s IH]; [done|]. unfold ToLower in *. rewrite !str_app_cons; simpl. by rewrite IH. Qed.

Lemma lower_byte_idemp c : lower_byte (lower_byte c) = lower_byte c.
Proof. by destruct c as [[][][][][][][][]]. Qed.

Lemma ToLower_idemp s : ToLower (ToLower s) = ToLower s.
Proof.
  unfold ToLower. induction s as [|c s IH]; [done|]. simpl. by rewrite lower_byte_idemp, IH.
Qed.

(** [EqualFold] is an equivalence: equality of the lower-case forms. *)
Definition fold_eq (s t : string) : Prop := EqualFold s t = true.

Lemma EqualFold_true s t : EqualFold s t = true ↔ ToLower s = ToLower t.
Proof. unfold EqualFold. by rewrite String.eqb_eq. Qed.

#[export] Instance fold_eq_equiv : Equivalence fold_eq.
Proof.
  unfold fold_eq. split; [intros s|intros s t|intros s t u]; rewrite !EqualFold_true; congruence.
Qed.

Lemma EqualFold_refl s : EqualFold s s = true.
Proof. by apply EqualFold_true. Qed.

Lemma EqualFold_lower s t : EqualFold (ToLower s) t = EqualFold s t.
Proof. unfold EqualFold. by rewrite ToLower_idemp. Qed.

#[export] Instance EqualFold_proper : Proper (fold_eq ==> fold_eq ==> eq) EqualFold.
Proof.
  intros s s' Hs t t' Ht. unfold fold_eq in *. rewrite EqualFold_true in *.
  unfold EqualFold. by rewrite Hs, Ht.
Qed.

Lemma sort_strings_perm l : sort_strings l ≡ₚ l.
Proof. apply merge_sort_Permutation. Qed.

Lemma sort_strings_sorted l : Sorted String.le (sort_strings l).
Proof. apply (Sorted_merge_sort String.le). Qed.

(** Sorting forgets the order of its input: what makes the code's results
    independent of Go's map iteration order. *)
Lemma sort_strings_proper l1 l2 : l1 ≡ₚ l2 → sort_strings l1 = sort_strings l2.
Proof.
  intros Hp. apply (Sorted_unique String.le); [apply sort_strings_sorted..|].
  by rewrite !sort_strings_perm.
Qed.

#[export] Instance sort_strings_Proper : Proper (Permutation ==> eq) sort_strings.
Proof. intros l1 l2. apply sort_strings_proper. Qed.

Lemma elem_of_sort_strings x l : x ∈ sort_strings l ↔ x ∈ l.
Proof. by rewrite sort_strings_perm. Qed.

#[export] Hint Resolve EqualFold_refl sort_strings_sorted sort_strings_perm : httpcache.

Lemma str_substring_prefix s t : String.substring 0 (String.length s) (s +:+ t)%string = s.
Proof.
  induction s as [|c s IH]; [by destruct t|]. rewrite str_app_cons; simpl. by rewrite IH.
Qed.

Lemma str_substring_all t : String.substring 0 (String.length t) t = t.
Proof. rewrite <- (str_app_nil_r t) at 2. apply str_substring_prefix. Qed.

Lemma str_substring_suffix s t :
  String.substring (String.length s) (String.length t) (s +:+ t)%string = t.
Proof.
  induction s as [|c s IH]; [rewrite str_app_nil_l; apply str_substring_all|].
  by rewrite str_app_cons.
Qed.

Lemma TrimSuffix_app s suf : TrimSuffix (s +:+ suf)%string suf = s.
Proof.
  unfold TrimSuffix, HasSuffix. rewrite !str_length_app, Nat.add_sub, str_substring_suffix.
  rewrite String.eqb_refl, (proj2 (Nat.leb_le _ _)) by lia. apply str_substring_prefix.
Qed.

(** Reading back a run of bytes that the next byte ends. *)
Definition stops (p : ascii → bool) (rest : string) : Prop :=
  match rest with EmptyString => True | String c _ => p c = false end.

Lemma take_while_stop p s rest :
  str_forall p s = true → stops p rest → take_while p (s +:+ rest)%string = s.
Proof.
  intros Hs Hr. induction s as [|c s IH].
  - rewrite str_app_nil_l. destruct rest as [|d rest]; [done|]. simpl in *. by rewrite Hr.
  - rewrite str_app_cons; simpl in *. unbool. rewrite H, IH; done.
Qed.

Lemma drop_while_stop p s rest :
  str_forall p s = true → stops p rest → drop_while p (s +:+ rest)%string = rest.
Proof.
  intros Hs Hr. induction s as [|c s IH].
  - rewrite str_app_nil_l. destruct rest as [|d rest]; [done|]. simpl in *. by rewrite Hr.
  - rewrite str_app_cons; simpl in *. unbool. by rewrite H, IH.
Qed.

Lemma Join_cons x y l sep : Join (x :: y :: l) sep = (x +:+ sep +:+ Join (y :: l) sep)%string.
Proof. done. Qed.

Lemma str_le_total_lt s t : String.ltb s t = false → String.le t s.
Proof.
  unfold String.ltb, String.le, String.leb. rewrite (String.compare_antisym s t).
  destruct (String.compare t s); simpl; done.
Qed.

Lemma str_lt_le s t : String.ltb s t = true → String.le s t.
Proof. unfold String.ltb, String.le, String.leb. destruct (String.compare s t); simpl; done. Qed.

Lemma str_cons_inj c s t : String c s = String c t → s = t.
Proof. by intros [= ->]. Qed.

(** Decimal printing and parsing back. *)
Lemma digit_val_dec d : 0 ≤ d < 10 → digit_val (dec_digit d) = Some d.
Proof.
  intros Hd. assert (d = 0 ∨ d = 1 ∨ d = 2 ∨ d = 3 ∨ d = 4 ∨ d = 5 ∨ d = 6 ∨ d = 7 ∨ d = 8 ∨ d = 9) as H by lia.
  by repeat destruct H as [->|H]; subst.
Qed.

Lemma is_digit_dec d : 0 ≤ d < 10 → is_digit (dec_digit d) = true.
Proof. intros Hd%digit_val_dec. unfold digit_val in Hd. by destruct (is_digit _). Qed.

Lemma digits_acc_dec fuel n acc :
  0 ≤ n < 10 ^ Z.of_nat fuel → digits_acc (dec_digits fuel n acc) 0 = digits_acc acc n.
Proof.
  revert n acc. induction fuel as [|fuel IH]; intros n acc Hn.
  { simpl in Hn. replace n with 0 by lia. done. }
  rewrite Nat2Z.inj_succ, Z.pow_succ_r in Hn by lia. cbn [dec_digits].
  pose proof (Z.mod_pos_bound n 10 ltac:(lia)) as Hmod.
  destruct (n <? 10) eqn:Hlt; unbool.
  - cbn [digits_acc]. by rewrite digit_val_dec, Z.mod_small by lia.
  - rewrite IH by (Z.div_mod_to_equations; lia). cbn [digits_acc]. rewrite digit_val_dec by lia.
    f_equal. Z.div_mod_to_equations; lia.
Qed.

Lemma dec_digits_head fuel n acc :
  0 ≤ n → ∃ c s, dec_digits (S fuel) n acc = String c s ∧ is_digit c = true.
Proof.
  assert (∀ f m a, 0 ≤ m → (∃ c s, a = String c s ∧ is_digit c = true) →
    ∃ c s, dec_digits f m a = String c s ∧ is_digit c = true) as Hgen.
  { induction f as [|f IH]; intros m a Hm Ha; [done|]. cbn [dec_digits].
    assert (∃ c s, String (dec_digit (m mod 10)) a = String c s ∧ is_digit c = true) as Hd.
    { eexists _, _. split; [done|]. by apply is_digit_dec, Z.mod_pos_bound. }
    destruct (m <? 10); [done|]. apply IH; [apply Z.div_pos; lia|done]. }
  intros Hn. cbn [dec_digits].
  assert (∃ c s, String (dec_digit (n mod 10)) acc = String c s ∧ is_digit c = true) as Hd.
  { eexists _, _. split; [done|]. by apply is_digit_dec, Z.mod_pos_bound. }
  destruct (n <? 10); [done|]. apply Hgen; [apply Z.div_pos; lia|done].
Qed.

Lemma ParseInt_Itoa n : 0 ≤ n ≤ max_int64 → ParseInt (Itoa n) = Some n.
Proof.
  intros Hn. unfold Itoa. rewrite (proj2 (Z.ltb_ge n 0)) by lia.
  destruct (dec_digits_head 19 n EmptyString) as (c & s & Hd & Hc); [lia|].
  pose proof (digits_acc_dec 20 n EmptyString) as Hv. rewrite Hd in *.
  assert (digits_acc (String c s) 0 = Some n) as Hv'.
  { rewrite Hv; [done|]. unfold max_int64 in Hn. simpl. lia. }
  unfold ParseInt.
  assert ((let '(neg, body) := match String c s with
    | String "-" r => (true, r) | String "+" r => (false, r) | _ => (false, String c s) end%char in
    (neg, body)) = (false, String c s)) as Hsign.
  { destruct c as [[][][][][][][][]]; try reflexivity; vm_compute in Hc; done. }
  destruct (match String c s with
    | String "-" r => (true, r) | String "+" r => (false, r) | _ => (false, String c s) end%char) as [neg body].
  injection Hsign as -> ->. cbn [nonempty]. rewrite Hv'.
  rewrite (proj2 (Z.leb_le min_int64 n)), (proj2 (Z.leb_le n max_int64)) by (unfold min_int64; lia). done.
Qed.
