(* ===== verification/GoTime.v ===== *)
(** * Time of the Go standard library

    An instant ([time.Time]) is its number of nanoseconds since the zero time
    of Go (January 1, year 1, UTC), so [IsZero] is equality to 0.  A
    [time.Duration] is a signed 64-bit number of nanoseconds: sums and
    products wrap, [Time.Sub] saturates.  [ParseDuration] follows the Go
    source, its binary64 arithmetic on fractions being that of [SpecFloat].
    The textual HTTP dates ([http.ParseTime], [Time.Format(http.TimeFormat)])
    are the operations of the class [HttpDate], whose law is the documented
    round trip to the second. *)

From Stdlib Require Import SpecFloat.
From S2P Require Import Prelude GoStrings.

(** ** Instants and durations *)

Abbreviation Time := Z (only parsing).
Abbreviation Duration := Z (only parsing).

Definition zero_time : Time := 0.
Definition IsZero (t : Time) : bool := t =? 0.
Definition After (t u : Time) : bool := u <? t.
Definition Before (t u : Time) : bool := t <? u.

Definition nanosecond : Duration := 1.
Definition second : Duration := 10 ^ 9.
Definition minute : Duration := 60 * second.
Definition hour : Duration := 60 * minute.

(** Two's complement reading of the low 64 bits. *)
Definition wrap64 (z : Z) : Z := (z + 2 ^ 63) mod 2 ^ 64 - 2 ^ 63.
Definition int64 (z : Z) : Prop := min_int64 ≤ z ≤ max_int64.

Definition dur_add (a b : Duration) : Duration := wrap64 (a + b).
Definition dur_sub (a b : Duration) : Duration := wrap64 (a - b).
Definition dur_mul (a b : Duration) : Duration := wrap64 (a * b).
Definition dur_neg (a : Duration) : Duration := wrap64 (- a).

(** [Time.Sub] saturates at the bounds of [Duration]. *)
Definition Sub (t u : Time) : Duration := Z.max min_int64 (Z.min max_int64 (t - u)).
(** [Time.Add]; the repository adds only [-retention] and [-TTL]. *)
Definition Add (t : Time) (d : Duration) : Time := t + d.

(** ** binary64 helpers (53 bits of precision, maximal exponent 1024) *)

Definition float_of (z : Z) : spec_float := binary_normalize 53 1024 z 0 false.
Definition float_mul : spec_float → spec_float → spec_float := SFmul 53 1024.
Definition float_div : spec_float → spec_float → spec_float := SFdiv 53 1024.
Definition float_add : spec_float → spec_float → spec_float := SFadd 53 1024.

(** Truncation towards zero of a finite value. *)
Definition float_trunc (f : spec_float) : Z :=
  match f with
  | S754_finite s m e =>
      let v := if 0 <=? e then Zpos m * 2 ^ e else Zpos m / 2 ^ (- e) in
      if s then - v else v
  | _ => 0
  end.

(** ** [time.ParseDuration] *)

Definition unit_of (u : string) : option Z :=
  if u =?s "ns" then Some nanosecond
  else if u =?s "us" then Some (10 ^ 3)
  else if u =?s (String "194" (String "181" "s")) then Some (10 ^ 3)
  else if u =?s (String "206" (String "188" "s")) then Some (10 ^ 3)
  else if u =?s "ms" then Some (10 ^ 6)
  else if u =?s "s" then Some second
  else if u =?s "m" then Some minute
  else if u =?s "h" then Some hour
  else None.

(** The leading digits: value and rest; [None] when it exceeds 2^63. *)
Fixpoint leadingInt (s : string) (x : Z) : option (Z * string) :=
  match s with
  | String c s' =>
      match digit_val c with
      | Some d =>
          if 2 ^ 63 / 10 <? x then None
          else let x := x * 10 + d in
               if 2 ^ 63 <? x then None else leadingInt s' x
      | None => Some (x, s)
      end
  | EmptyString => Some (x, s)
  end.

(** The digits of a fraction: value, power of ten (exponent), rest; digits
    past the 64-bit range are consumed and dropped. *)
Fixpoint leadingFraction (s : string) (x scale : Z) (overflow : bool) : Z * Z * string :=
  match s with
  | String c s' =>
      match digit_val c with
      | Some d =>
          if overflow then leadingFraction s' x scale true
          else if (2 ^ 63 - 1) / 10 <? x then leadingFraction s' x scale true
          else let y := x * 10 + d in
               if 2 ^ 63 <? y then leadingFraction s' x scale true
               else leadingFraction s' y (scale * 10) false
      | None => (x, scale, s)
      end
  | EmptyString => (x, scale, s)
  end.

Definition is_unit_byte (c : ascii) : bool := negb (Ascii.eqb c "."%char || is_digit c).

(** One [number unit] component: its value in nanoseconds and the rest. *)
Definition duration_component (s : string) : option (Z * string) :=
  match s with
  | EmptyString => None
  | String c0 _ =>
      if is_unit_byte c0 then None else
      match leadingInt s 0 with
      | None => None
      | Some (v, s1) =>
          let pre := negb (String.length s =? String.length s1)%nat in
          let '(f, scale, s2, post) := match s1 with
            | String "." r => let '(f, scale, r') := leadingFraction r 0 1 false in
                              (f, scale, r', negb (String.length r =? String.length r')%nat)
            | _ => (0, 1, s1, false)
            end%char in
          if negb (pre || post) then None else
          let u := take_while is_unit_byte s2 in
          match unit_of u with
          | None => None
          | Some unit =>
              if 2 ^ 63 / unit <? v then None else
              let v := v * unit in
              let v := if 0 <? f
                       then v + float_trunc (float_mul (float_of f) (float_div (float_of unit) (float_of scale)))
                       else v in
              if 2 ^ 63 <? v then None else Some (v, drop_while is_unit_byte s2)
          end
      end
  end.

Fixpoint duration_loop (fuel : nat) (s : string) (d : Z) : option Z :=
  match s with
  | EmptyString => Some d
  | _ => match fuel with
         | O => None
         | S fuel =>
             match duration_component s with
             | None => None
             | Some (v, s') => let d := (d + v) mod 2 ^ 64 in
                               if 2 ^ 63 <? d then None else duration_loop fuel s' d
             end
         end
  end.

Definition ParseDuration (s : string) : option Duration :=
  let '(neg, body) := match s with
    | String "-" r => (true, r)
    | String "+" r => (false, r)
    | _ => (false, s)
    end%char in
  if body =?s "0" then Some 0
  else if negb (nonempty body) then None
  else match duration_loop (String.length body) body 0 with
       | None => None
       | Some d => if neg : bool then Some (- d)
                   else if max_int64 <? d then None else Some d
       end.

(** ** HTTP dates *)

Class HttpDate := {
  ParseTime : string → option Time;
  FormatTime : Time → string;
}.

(** The first instant of year 10000, past the years an HTTP date can write. *)
Definition max_http_time : Time := 315537897600 * second.

Class HttpDateLaws (D : HttpDate) : Prop := {
  format_nonempty : ∀ t, 0 ≤ t < max_http_time → nonempty (FormatTime t) = true;
  parse_format : ∀ t, 0 ≤ t < max_http_time → ParseTime (FormatTime t) = Some (t - t mod second);
}.

(** The current instant, on the scale of the model: 2024-01-01. *)
Definition example_now : Time := 63839664000 * second.

(** A concrete instance for examples: seconds since the zero time. *)
Definition stamp_date : HttpDate :=
  {| ParseTime := λ s, (λ n, n * second) <$> ParseInt s; FormatTime := λ t, Itoa (t / second) |}.

(** ** Lemmas *)

Lemma wrap64_id z : int64 z → wrap64 z = z.
Proof. unfold int64, wrap64, min_int64, max_int64. intros ?. rewrite Z.mod_small; lia. Qed.

Lemma wrap64_int64 z : int64 (wrap64 z).
Proof.
  unfold int64, wrap64, min_int64, max_int64.
  pose proof (Z.mod_pos_bound (z + 2 ^ 63) (2 ^ 64)). lia.
Qed.

Lemma Sub_int64 t u : int64 (Sub t u).
Proof. unfold int64, Sub, min_int64, max_int64. lia. Qed.

Lemma Sub_exact t u : int64 (t - u) → Sub t u = t - u.
Proof. unfold int64, Sub, min_int64, max_int64. lia. Qed.

Lemma After_true t u : After t u = true ↔ u < t.
Proof. apply Z.ltb_lt. Qed.
Lemma After_false t u : After t u = false ↔ t ≤ u.
Proof. apply Z.ltb_ge. Qed.
Lemma Before_true t u : Before t u = true ↔ t < u.
Proof. apply Z.ltb_lt. Qed.
Lemma Before_false t u : Before t u = false ↔ u ≤ t.
Proof. apply Z.ltb_ge. Qed.

#[export] Hint Resolve wrap64_int64 Sub_int64 : httpcache.
Create Rewrite HintDb time.
#[export] Hint Rewrite After_true After_false Before_true Before_false : time.

Example ParseDuration_seconds : ParseDuration "60s" = Some (60 * second).
Proof. reflexivity. Qed.
Example ParseDuration_fraction : ParseDuration "1.5s" = Some (1500 * 10 ^ 6).
Proof. vm_compute. reflexivity. Qed.
Example ParseDuration_mixed : ParseDuration "-1h2m3s" = Some (- (3723 * second)).
Proof. vm_compute. reflexivity. Qed.
Example ParseDuration_empty : ParseDuration "s" = None.
Proof. reflexivity. Qed.
Example ParseDuration_overflow : ParseDuration "9223372037s" = None.
Proof. vm_compute. reflexivity. Qed.

Lemma digits_acc_ge ds x n : 0 ≤ x → digits_acc ds x = Some n → x ≤ n.
Proof.
  revert x. induction ds as [|c ds IH]; intros x Hx; simpl; [by intros [= <-]|].
  unfold digit_val. destruct (is_digit c) eqn:Hc; [|done]. unfold is_digit, in_range in Hc. unbool.
  intros Hn%IH; lia.
Qed.

Lemma leadingInt_digits ds rest x n :
  stops is_digit rest → 0 ≤ x ≤ 2 ^ 63 → digits_acc ds x = Some n →
  leadingInt (ds +:+ rest)%string x = if n <=? 2 ^ 63 then Some (n, rest) else None.
Proof.
  intros Hrest. revert x. induction ds as [|c ds IH]; intros x Hx; cbn [digits_acc].
  - intros [= ->]. rewrite str_app_nil_l, (proj2 (Z.leb_le _ _)) by lia.
    destruct rest as [|d rest]; [done|]. simpl in Hrest. cbn [leadingInt]. unfold digit_val. by rewrite Hrest.
  - rewrite str_app_cons. cbn [leadingInt]. destruct (digit_val c) as [d|] eqn:Hd; [|done].
    assert (0 ≤ d ≤ 9) as Hdb.
    { unfold digit_val in Hd. destruct (is_digit c) eqn:Hc; [|done].
      unfold is_digit, in_range in Hc. unbool. injection Hd as <-. lia. }
    intros Hn. pose proof (digits_acc_ge ds (10 * x + d) n ltac:(lia) Hn) as Hge.
    replace (x * 10 + d) with (10 * x + d) by lia.
    destruct (2 ^ 63 / 10 <? x) eqn:Hbig; unbool.
    + rewrite (proj2 (Z.leb_gt _ _)); [done|]. change (2 ^ 63 / 10) with 922337203685477580 in Hbig. lia.
    + destruct (2 ^ 63 <? 10 * x + d) eqn:Hbig2; unbool.
      * rewrite (proj2 (Z.leb_gt _ _)); [done|]. lia.
      * apply IH; [lia|done].
Qed.

Lemma digits_not_sign c ds x n : digits_acc (String c ds) x = Some n → is_digit c = true.
Proof. simpl. unfold digit_val. by destruct (is_digit c). Qed.

(** A decimal number of seconds, as the delta-seconds of a directive. *)
Lemma ParseDuration_decimal ds n :
  nonempty ds = true → digits_acc ds 0 = Some n →
  ParseDuration (ds +:+ "s")%string = if n <=? 9223372036 then Some (n * second) else None.
Proof.
  intros Hne Hn. destruct ds as [|c ds]; [done|].
  pose proof (digits_not_sign _ _ _ _ Hn) as Hc.
  pose proof (digits_acc_ge _ _ _ (Z.le_refl 0) Hn) as Hpos.
  pose proof (leadingInt_digits (String c ds) "s" 0 n eq_refl ltac:(lia) Hn) as Hlead.
  unfold ParseDuration.
  assert (((String c ds +:+ "s")%string =?s "0") = false) as Hz.
  { rewrite str_app_cons. apply String.eqb_neq. intros [= _ Heq]. apply (f_equal String.length) in Heq.
    rewrite str_length_app in Heq. simpl in Heq. lia. }
  transitivity (match duration_loop (String.length (String c ds +:+ "s")%string) (String c ds +:+ "s")%string 0 with
       | None => None
       | Some d => if max_int64 <? d then None else Some d
       end).
  { rewrite str_app_cons in *. destruct c as [[][][][][][][][]]; try (vm_compute in Hc; done);
      cbv beta iota; by rewrite Hz. }
  rewrite str_app_cons in *. cbn [String.length duration_loop].
  assert (duration_component (String c (ds +:+ "s")%string)
    = if n <=? 9223372036 then Some (n * second, EmptyString) else None) as ->.
  { unfold duration_component.
    assert (is_unit_byte c = false) as -> by (unfold is_unit_byte; rewrite Hc, orb_true_r; done).
    rewrite Hlead. destruct (n <=? 2 ^ 63) eqn:Hle; unbool.
    - assert ((String.length (String c (ds +:+ "s")%string) =? String.length "s")%nat = false) as ->.
      { apply Nat.eqb_neq. simpl. rewrite str_length_app. simpl. lia. }
      cbn [negb orb]. change (take_while is_unit_byte "s") with "s"%string.
      change (unit_of "s") with (Some second). change (drop_while is_unit_byte "s") with EmptyString.
      change (0 <? 0) with false. cbv beta iota zeta.
      change (2 ^ 63 / second) with 9223372036.
      destruct (n <=? 9223372036) eqn:H2; unbool.
      + rewrite (proj2 (Z.ltb_ge 9223372036 n)) by lia. rewrite (proj2 (Z.ltb_ge (2 ^ 63) _)); [done|].
        unfold second. lia.
      + rewrite (proj2 (Z.ltb_lt 9223372036 n)) by lia. done.
    - rewrite (proj2 (Z.leb_gt n 9223372036)) by lia. done. }
  destruct (n <=? 9223372036) eqn:H2; [|done]. unbool.
  assert (0 ≤ n * second ≤ max_int64) as Hb by (unfold second, max_int64; lia).
  rewrite Z.add_0_l, Z.mod_small by (unfold max_int64 in Hb; lia).
  rewrite (proj2 (Z.ltb_ge _ _)) by (unfold max_int64 in *; lia).
  assert (∀ fuel d, duration_loop fuel EmptyString d = Some d) as -> by (by intros []).
  by rewrite (proj2 (Z.ltb_ge _ _)) by lia.
Qed.

Lemma stamp_date_laws : HttpDateLaws stamp_date.
Proof.
  assert (∀ t, 0 ≤ t < max_http_time → 0 ≤ t / second ≤ max_int64) as Hb.
  { intros t Ht. unfold max_http_time, second, max_int64 in *. Z.div_mod_to_equations. lia. }
  split; intros t Ht%Hb; simpl.
  - unfold Itoa. rewrite (proj2 (Z.ltb_ge _ _)) by lia.
    by destruct (dec_digits_head 19 (t / second) EmptyString) as (c & s & -> & _); [lia|].
  - rewrite ParseInt_Itoa by done. simpl. f_equal. unfold second. Z.div_mod_to_equations. lia.
Qed.
