(* ===== verification/GoQuote.v ===== *)
(** * [strconv.Quote]

    The double-quoted Go rendering of a byte string: printable runes are
    copied, the others and the invalid bytes are escaped.  Which runes of
    0x80 and above are printable is the Unicode table of the standard library,
    the operation of the class [Unicode]; nothing is assumed of it.  The
    decoder [unquote_body] recovers the quoted string and whatever follows
    it, which makes [Quote] injective and self-delimiting. *)

From S2P Require Import Prelude GoStrings.

Class Unicode := IsPrint : Z → bool.

(** ** UTF-8 *)

Definition cont (c : ascii) : bool := in_range 128 191 c.

(** The rune of a valid two, three or four byte sequence. *)
Definition rune2 (c c1 : ascii) : option Z :=
  if in_range 194 223 c && cont c1
  then Some ((byte_val c - 192) * 64 + (byte_val c1 - 128)) else None.

Definition rune3 (c c1 c2 : ascii) : option Z :=
  let lo := if byte_val c =? 224 then 160 else 128 in
  let hi := if byte_val c =? 237 then 159 else 191 in
  if in_range 224 239 c && (in_range lo hi c1 && cont c2)
  then Some ((byte_val c - 224) * 4096 + (byte_val c1 - 128) * 64 + (byte_val c2 - 128)) else None.

Definition rune4 (c c1 c2 c3 : ascii) : option Z :=
  let lo := if byte_val c =? 240 then 144 else 128 in
  let hi := if byte_val c =? 244 then 143 else 191 in
  if in_range 240 244 c && (in_range lo hi c1 && (cont c2 && cont c3))
  then Some ((byte_val c - 240) * 262144 + (byte_val c1 - 128) * 4096
             + (byte_val c2 - 128) * 64 + (byte_val c3 - 128)) else None.

(** [utf8.AppendRune] on a valid rune. *)
Definition utf8_encode (r : Z) : string :=
  if r <? 128 then str1 (byte_of r)
  else if r <? 2048 then String (byte_of (192 + r / 64)) (str1 (byte_of (128 + r mod 64)))
  else if r <? 65536
  then String (byte_of (224 + r / 4096))
         (String (byte_of (128 + r / 64 mod 64)) (str1 (byte_of (128 + r mod 64))))
  else String (byte_of (240 + r / 262144))
         (String (byte_of (128 + r / 4096 mod 64))
            (String (byte_of (128 + r / 64 mod 64)) (str1 (byte_of (128 + r mod 64))))).

(** ** Quoting *)

Definition escape_byte (c : ascii) : string :=
  String backslash (String "x" (hex_fixed 2 (byte_val c))).

Definition quote_ascii (c : ascii) : string :=
  match byte_val c with
  | 34 | 92 => String backslash (str1 c)
  | 7 => String backslash "a" | 8 => String backslash "b" | 12 => String backslash "f"
  | 10 => String backslash "n" | 13 => String backslash "r" | 9 => String backslash "t"
  | 11 => String backslash "v"
  | b => if (b <? 32) || (b =? 127) then escape_byte c else str1 c
  end.

Section Quote.
Context `{Unicode}.

Definition quote_rune (r : Z) (bytes : string) : string :=
  if IsPrint r then bytes
  else if r <? 65536 then String backslash (String "u" (hex_fixed 4 r))
  else String backslash (String "U" (hex_fixed 8 r)).

Fixpoint quote_body (s : string) : string :=
  match s with
  | EmptyString => EmptyString
  | String c s1 =>
      if byte_val c <? 128 then (quote_ascii c +:+ quote_body s1)%string else
      match s1 with
      | EmptyString => (escape_byte c +:+ quote_body s1)%string
      | String c1 s2 =>
          match rune2 c c1 with
          | Some r => (quote_rune r (String c (str1 c1)) +:+ quote_body s2)%string
          | None =>
              match s2 with
              | EmptyString => (escape_byte c +:+ quote_body s1)%string
              | String c2 s3 =>
                  match rune3 c c1 c2 with
                  | Some r => (quote_rune r (String c (String c1 (str1 c2))) +:+ quote_body s3)%string
                  | None =>
                      match s3 with
                      | EmptyString => (escape_byte c +:+ quote_body s1)%string
                      | String c3 s4 =>
                          match rune4 c c1 c2 c3 with
                          | Some r => (quote_rune r (String c (String c1 (String c2 (str1 c3))))
                                         +:+ quote_body s4)%string
                          | None => (escape_byte c +:+ quote_body s1)%string
                          end
                      end
                  end
              end
          end
      end
  end.

Definition Quote (s : string) : string := String dquote (quote_body s +:+ str1 dquote)%string.
End Quote.

(** ** Decoding a quoted body, up to the closing quote *)

Fixpoint hex_value (s : string) (acc : Z) : option Z :=
  match s with
  | EmptyString => Some acc
  | String c s => match unhex c with Some d => hex_value s (16 * acc + d) | None => None end
  end.

Definition push (p : string) (o : option (string * string)) : option (string * string) :=
  match o with Some (s, t) => Some ((p +:+ s)%string, t) | None => None end.

Fixpoint unquote_body (q : string) : option (string * string) :=
  match q with
  | EmptyString => None
  | String c q1 =>
      if Ascii.eqb c dquote then Some (EmptyString, q1)
      else if negb (Ascii.eqb c backslash) then push (str1 c) (unquote_body q1)
      else match q1 with
      | String "x" (String h1 (String h2 r)) =>
          match hex_value (String h1 (str1 h2)) 0 with
          | Some v => push (str1 (byte_of v)) (unquote_body r) | None => None end
      | String "u" (String h1 (String h2 (String h3 (String h4 r)))) =>
          match hex_value (String h1 (String h2 (String h3 (str1 h4)))) 0 with
          | Some v => push (utf8_encode v) (unquote_body r) | None => None end
      | String "U" (String h1 (String h2 (String h3 (String h4
                   (String h5 (String h6 (String h7 (String h8 r)))))))) =>
          match hex_value (String h1 (String h2 (String h3 (String h4
                          (String h5 (String h6 (String h7 (str1 h8)))))))) 0 with
          | Some v => push (utf8_encode v) (unquote_body r) | None => None end
      | String "a" r => push (str1 "007") (unquote_body r)
      | String "b" r => push (str1 "008") (unquote_body r)
      | String "f" r => push (str1 "012") (unquote_body r)
      | String "n" r => push (str1 lf) (unquote_body r)
      | String "r" r => push (str1 cr) (unquote_body r)
      | String "t" r => push (str1 tab) (unquote_body r)
      | String "v" r => push (str1 "011") (unquote_body r)
      | String d r => if Ascii.eqb d dquote || Ascii.eqb d backslash
                      then push (str1 d) (unquote_body r) else None
      | EmptyString => None
      end
  end%char.

(** ** Lemmas *)

Lemma byte_of_val c : byte_of (byte_val c) = c.
Proof. by destruct c as [[][][][][][][][]]. Qed.

Lemma byte_val_bound c : 0 ≤ byte_val c < 256.
Proof. destruct c as [[][][][][][][][]]; vm_compute; split; congruence. Qed.

Lemma unhex_hex_digit d : 0 ≤ d < 16 → unhex (hex_digit d) = Some d.
Proof.
  intros Hd.
  assert (d = 0 ∨ d = 1 ∨ d = 2 ∨ d = 3 ∨ d = 4 ∨ d = 5 ∨ d = 6 ∨ d = 7 ∨ d = 8 ∨ d = 9 ∨ d = 10
    ∨ d = 11 ∨ d = 12 ∨ d = 13 ∨ d = 14 ∨ d = 15) as Hcases by lia.
  by repeat destruct Hcases as [->|Hcases]; subst.
Qed.

Lemma hex_value_fixed n v acc : 0 ≤ v →
  hex_value (hex_fixed n v) acc = Some (16 ^ Z.of_nat n * acc + v mod 16 ^ Z.of_nat n).
Proof.
  intros Hv. revert acc. induction n as [|n IH]; intros acc.
  - simpl. rewrite Z.mod_1_r. f_equal. lia.
  - cbn [hex_fixed hex_value]. rewrite unhex_hex_digit by (apply Z.mod_pos_bound; lia).
    rewrite IH. f_equal. rewrite Nat2Z.inj_succ, Z.pow_succ_r by lia.
    rewrite (Z.mul_comm 16 (16 ^ Z.of_nat n)), Z.rem_mul_r by lia. ring.
Qed.

Lemma push_app p o : push p o = match o with Some (s, t) => Some ((p +:+ s)%string, t) | None => None end.
Proof. done. Qed.

Lemma unquote_high c q : 128 ≤ byte_val c → unquote_body (String c q) = push (str1 c) (unquote_body q).
Proof.
  intros Hc. cbn [unquote_body].
  destruct (Ascii.eqb_spec c dquote) as [->|]; [done|].
  by destruct (Ascii.eqb_spec c backslash) as [->|].
Qed.

Lemma unquote_ascii c q :
  byte_val c < 128 → unquote_body (quote_ascii c +:+ q)%string = push (str1 c) (unquote_body q).
Proof. destruct c as [[][][][][][][][]]; intros Hc; try done; vm_compute in Hc; done. Qed.

Lemma unquote_escape c q :
  unquote_body (escape_byte c +:+ q)%string = push (str1 c) (unquote_body q).
Proof. by destruct c as [[][][][][][][][]]. Qed.

Ltac rune_bounds :=
  unfold cont, in_range in *; unbool;
  repeat match goal with
  | c : ascii |- _ =>
      lazymatch goal with
      | _ : 0 ≤ byte_val c < 256 |- _ => fail
      | _ => pose proof (byte_val_bound c)
      end
  end.

(** A byte of the encoding is the byte it came from. *)
Ltac same_byte :=
  match goal with
  | |- byte_of ?z = ?c =>
      transitivity (byte_of (byte_val c)); [f_equal; Z.div_mod_to_equations; lia|apply byte_of_val]
  end.

Lemma rune2_encode c c1 r : rune2 c c1 = Some r →
  utf8_encode r = String c (str1 c1) ∧ 128 ≤ r < 65536 ∧ 128 ≤ byte_val c ∧ 128 ≤ byte_val c1.
Proof.
  unfold rune2. destruct (_ && _) eqn:Hc; [|done]. intros [= <-]. rune_bounds.
  split; [|lia]. unfold utf8_encode, str1.
  repeat (case_goal; unbool; try lia). f_equal; [same_byte|f_equal; same_byte].
Qed.

Lemma rune3_encode c c1 c2 r : rune3 c c1 c2 = Some r →
  utf8_encode r = String c (String c1 (str1 c2)) ∧ 128 ≤ r < 65536 ∧ 128 ≤ byte_val c
  ∧ 128 ≤ byte_val c1 ∧ 128 ≤ byte_val c2.
Proof.
  unfold rune3. destruct (_ && _) eqn:Hc; [|done]. intros [= <-]. rune_bounds.
  destruct (byte_val c =? 224) eqn:?, (byte_val c =? 237) eqn:?; unbool; try lia;
    (split; [|lia]); unfold utf8_encode, str1; repeat (case_goal; unbool; try lia);
    (f_equal; [same_byte|f_equal; [same_byte|f_equal; same_byte]]).
Qed.

Lemma rune4_encode c c1 c2 c3 r : rune4 c c1 c2 c3 = Some r →
  utf8_encode r = String c (String c1 (String c2 (str1 c3))) ∧ 65536 ≤ r < 2 ^ 32
  ∧ 128 ≤ byte_val c ∧ 128 ≤ byte_val c1 ∧ 128 ≤ byte_val c2 ∧ 128 ≤ byte_val c3.
Proof.
  unfold rune4. destruct (_ && _) eqn:Hc; [|done]. intros [= <-]. rune_bounds.
  destruct (byte_val c =? 240) eqn:?, (byte_val c =? 244) eqn:?; unbool; try lia;
    (split; [|lia]); unfold utf8_encode, str1; repeat (case_goal; unbool; try lia);
    (f_equal; [same_byte|f_equal; [same_byte|f_equal; [same_byte|f_equal; same_byte]]]).
Qed.

Section Unquote.
Context `{Unicode}.

(** An escaped rune decodes to its UTF-8 bytes. *)
Lemma unquote_u h1 h2 h3 h4 r :
  unquote_body (String backslash (String "u" (String h1 (String h2 (String h3 (String h4 r))))))
  = match hex_value (String h1 (String h2 (String h3 (str1 h4)))) 0 with
    | Some v => push (utf8_encode v) (unquote_body r) | None => None end.
Proof. reflexivity. Qed.

Lemma unquote_U h1 h2 h3 h4 h5 h6 h7 h8 r :
  unquote_body (String backslash (String "U" (String h1 (String h2 (String h3 (String h4
    (String h5 (String h6 (String h7 (String h8 r))))))))))
  = match hex_value (String h1 (String h2 (String h3 (String h4
                    (String h5 (String h6 (String h7 (str1 h8)))))))) 0 with
    | Some v => push (utf8_encode v) (unquote_body r) | None => None end.
Proof. reflexivity. Qed.

Lemma unquote_rune_escape r q : 128 ≤ r < 2 ^ 32 →
  unquote_body ((if (r <? 65536)%Z then String backslash (String "u" (hex_fixed 4 r))
                 else String backslash (String "U" (hex_fixed 8 r))) +:+ q)%string
  = push (utf8_encode r) (unquote_body q).
Proof.
  intros Hr. destruct (r <? 65536)%Z eqn:Hlt; unbool.
  - pose proof (hex_value_fixed 4 r 0 ltac:(lia)) as Hv. cbn [hex_fixed] in *.
    rewrite !str_app_cons, str_app_nil_l, unquote_u. unfold str1.
    rewrite Hv, Z.mod_small, Z.mul_0_r by lia. done.
  - pose proof (hex_value_fixed 8 r 0 ltac:(lia)) as Hv. cbn [hex_fixed] in *.
    rewrite !str_app_cons, str_app_nil_l, unquote_U. unfold str1.
    rewrite Hv, Z.mod_small, Z.mul_0_r by lia. done.
Qed.

Lemma push_push p1 p2 o : push p1 (push p2 o) = push (p1 +:+ p2)%string o.
Proof. destruct o as [[s t]|]; [|done]; simpl. by rewrite str_app_assoc. Qed.

Lemma unquote_body_quote s t :
  unquote_body (quote_body s +:+ String dquote t)%string = Some (s, t).
Proof.
  remember (String.length s) as n eqn:Hn. revert s Hn.
  induction (Nat.lt_wf_0 n) as [n _ IH]; intros s Hn.
  destruct s as [|c s1]; [done|]. cbn [quote_body]. simpl in Hn.
  assert (∀ s', (String.length s' < n)%nat →
    unquote_body (quote_body s' +:+ String dquote t)%string = Some (s', t)) as IHs by eauto.
  destruct (byte_val c <? 128) eqn:Hc; unbool.
  { rewrite <- str_app_assoc, unquote_ascii, IHs by lia. done. }
  assert (unquote_body ((escape_byte c +:+ quote_body s1) +:+ String dquote t)%string
          = Some (String c s1, t)) as Hesc.
  { rewrite <- str_app_assoc, unquote_escape, IHs by lia. done. }
  destruct s1 as [|c1 s2]; [exact Hesc|]. simpl in Hn.
  destruct (rune2 c c1) as [r|] eqn:H2.
  { apply rune2_encode in H2 as (Henc & ? & ? & ?). unfold quote_rune. rewrite <- str_app_assoc.
    destruct (IsPrint r).
    - unfold str1. rewrite !str_app_cons, !unquote_high, str_app_nil_l, IHs by lia. done.
    - rewrite unquote_rune_escape, Henc, IHs by lia. done. }
  destruct s2 as [|c2 s3]; [exact Hesc|]. simpl in Hn.
  destruct (rune3 c c1 c2) as [r|] eqn:H3.
  { apply rune3_encode in H3 as (Henc & ? & ? & ? & ?). unfold quote_rune. rewrite <- str_app_assoc.
    destruct (IsPrint r).
    - unfold str1. rewrite !str_app_cons, !unquote_high, str_app_nil_l, IHs by lia. done.
    - rewrite unquote_rune_escape, Henc, IHs by lia. done. }
  destruct s3 as [|c3 s4]; [exact Hesc|]. simpl in Hn.
  destruct (rune4 c c1 c2 c3) as [r|] eqn:H4; [|exact Hesc].
  apply rune4_encode in H4 as (Henc & ? & ? & ? & ? & ?). unfold quote_rune. rewrite <- str_app_assoc.
  destruct (IsPrint r).
  - unfold str1. rewrite !str_app_cons, !unquote_high, str_app_nil_l, IHs by lia. done.
  - rewrite unquote_rune_escape, Henc, IHs by lia. done.
Qed.

(** A quoted string is recovered together with what follows it. *)
Lemma Quote_app_inj s1 s2 t1 t2 :
  (Quote s1 +:+ t1)%string = (Quote s2 +:+ t2)%string → s1 = s2 ∧ t1 = t2.
Proof.
  unfold Quote. rewrite !str_app_cons, <- !str_app_assoc. intros [= Heq].
  apply (f_equal unquote_body) in Heq. unfold str1 in Heq.
  rewrite !str_app_cons, !str_app_nil_l, !unquote_body_quote in Heq. by injection Heq.
Qed.

Lemma Quote_inj s1 s2 : Quote s1 = Quote s2 → s1 = s2.
Proof. intros Heq. apply (Quote_app_inj s1 s2 EmptyString EmptyString). by rewrite Heq. Qed.
End Unquote.

(** The printable part of Latin-1, enough to evaluate examples. *)
Definition latin1_print : Unicode := λ r, (161 <=? r) && (r <=? 255) && negb (r =? 173).

Example Quote_ex :
  @Quote latin1_print (String "a" (String tab (String dquote (String us "z"))))
  = String dquote (String "a" (String backslash (String "t" (String backslash (String dquote
      (String backslash (String "x" (String "1" (String "f" (String "z" (str1 dquote))))))))))).
Proof. vm_compute. reflexivity. Qed.
