(* ===== verification/GoHttp.v ===== *)
(** * Headers

    [http.Header] is a map from field names to lists of field lines, modelled
    by a [gmap].  The first part is the standard library ([net/http],
    [net/textproto]: canonical names and the accessors); the module [Headers]
    holds the helpers of the repository that read headers: [header.go]
    ([timeHeader], [intHeader]), [combinedHeaderValues]
    ([conditional_response.go]) and the sets of matching names they and
    [ParseCacheControlHeaders] iterate over.  Go iterates maps in an arbitrary
    order and the repository sorts what it collects: the lemmas show the
    results do not depend on that order. *)

From S2P Require Import Prelude GoStrings GoTime.

Abbreviation Header := (gmap string (list string)).

(** ** Standard library *)

(** The bytes of an HTTP token: [validHeaderFieldByte]. *)
Definition is_token_byte (c : ascii) : bool :=
  is_digit c || is_upper c || is_lower c ||
  match byte_val c with
  | 33 | 35 | 36 | 37 | 38 | 39 | 42 | 43 | 45 | 46 | 94 | 95 | 96 | 124 | 126 => true
  | _ => false
  end.

Fixpoint canonical_bytes (up : bool) (s : string) : string :=
  match s with
  | EmptyString => EmptyString
  | String c s => String (if up then upper_byte c else lower_byte c)
                         (canonical_bytes (Ascii.eqb c "-"%char) s)
  end.

(** [http.CanonicalHeaderKey]: names with a non-token byte are unchanged. *)
Definition CanonicalHeaderKey (s : string) : string :=
  if str_forall is_token_byte s then canonical_bytes true s else s.

Definition Values (h : Header) (key : string) : list string := default [] (h !! CanonicalHeaderKey key).
Definition Get (h : Header) (key : string) : string :=
  match Values h key with [] => EmptyString | v :: _ => v end.
Definition Set_ (h : Header) (key value : string) : Header := <[CanonicalHeaderKey key := [value]]> h.
Definition Add_ (h : Header) (key value : string) : Header :=
  <[CanonicalHeaderKey key := Values h key ++ [value]]> h.
Definition Del (h : Header) (key : string) : Header := delete (CanonicalHeaderKey key) h.

(** The fields of a header that have a line in HTTP/1. *)
Definition written_fields (h : Header) : Header := filter (λ p, p.2 ≠ []) h.

(** The names of a header, in an order the code cannot rely on. *)
Definition header_names {A} (h : gmap string A) : list string := (map_to_list h).*1.

Module Headers.

(** Names of [h] equal to [name] up to case, in bytewise order: the
    [for key := range header { if strings.EqualFold ... }; sort.Strings]
    loops of the repository, over the keys listed in the order [order]. *)
Definition matching_names_in (order : list string) (name : string) : list string :=
  sort_strings (filter (λ k, EqualFold k name = true) order).

Definition matching_names {A} (h : gmap string A) (name : string) : list string :=
  matching_names_in (header_names h) name.

(** [conditional_response.go]: [combinedHeaderValues]. *)
Definition combined_values (h : Header) (name : string) : list string :=
  mjoin (map (λ k, default [] (h !! k)) (matching_names h name)).

Definition combinedHeaderValues (h : Header) (name : string) : string :=
  Join (combined_values h name) ", ".

(** [header.go] *)
Definition timeHeader `{HttpDate} (key : string) (h : Header) : option Time :=
  let header := Get h key in
  if nonempty header then ParseTime header else None.

Definition intHeader (key : string) (h : Header) : option Z :=
  let header := Get h key in
  if nonempty header then ParseInt header else None.

End Headers.

(** ** Lemmas *)

Lemma upper_byte_canonical up c :
  (if up : bool then upper_byte (if up then upper_byte c else lower_byte c)
   else lower_byte (if up then upper_byte c else lower_byte c))
  = (if up then upper_byte c else lower_byte c).
Proof. destruct up; by destruct c as [[][][][][][][][]]. Qed.

Lemma dash_canonical (up : bool) c :
  Ascii.eqb (if up then upper_byte c else lower_byte c) "-"%char = Ascii.eqb c "-"%char.
Proof. destruct up; by destruct c as [[][][][][][][][]]. Qed.

Lemma token_canonical (up : bool) c :
  is_token_byte (if up then upper_byte c else lower_byte c) = is_token_byte c.
Proof. destruct up; by destruct c as [[][][][][][][][]]. Qed.

Lemma lower_canonical_byte (up : bool) c :
  lower_byte (if up then upper_byte c else lower_byte c) = lower_byte c.
Proof. destruct up; by destruct c as [[][][][][][][][]]. Qed.

Lemma canonical_bytes_token up s :
  str_forall is_token_byte (canonical_bytes up s) = str_forall is_token_byte s.
Proof. revert up. induction s as [|c s IH]; intros up; [done|]; simpl. by rewrite token_canonical, IH. Qed.

Lemma canonical_bytes_idemp up s : canonical_bytes up (canonical_bytes up s) = canonical_bytes up s.
Proof.
  revert up. induction s as [|c s IH]; intros up; [done|]; simpl.
  rewrite dash_canonical, IH. f_equal. pose proof (upper_byte_canonical up c). by destruct up.
Qed.

Lemma CanonicalHeaderKey_idemp s : CanonicalHeaderKey (CanonicalHeaderKey s) = CanonicalHeaderKey s.
Proof.
  unfold CanonicalHeaderKey. destruct (str_forall is_token_byte s) eqn:Hs; [|by rewrite Hs].
  by rewrite canonical_bytes_token, Hs, canonical_bytes_idemp.
Qed.

Lemma ToLower_canonical s : ToLower (CanonicalHeaderKey s) = ToLower s.
Proof.
  unfold CanonicalHeaderKey. destruct (str_forall is_token_byte s); [|done].
  generalize true. induction s as [|c s IH]; intros up; [done|]. unfold ToLower in *; simpl.
  by rewrite lower_canonical_byte, IH.
Qed.

Lemma canonical_fold s : EqualFold (CanonicalHeaderKey s) s = true.
Proof. apply EqualFold_true, ToLower_canonical. Qed.

Lemma Get_Set_eq h k v : Get (Set_ h k v) k = v.
Proof. unfold Get, Values, Set_. by rewrite lookup_insert_eq. Qed.

Lemma Get_Set_ne h k k' v :
  CanonicalHeaderKey k ≠ CanonicalHeaderKey k' → Get (Set_ h k v) k' = Get h k'.
Proof. intros Hne. unfold Get, Values, Set_. by rewrite lookup_insert_ne. Qed.

Lemma Get_Del_eq h k : Get (Del h k) k = EmptyString.
Proof. unfold Get, Values, Del. by rewrite lookup_delete_eq. Qed.

Lemma Get_Del_ne h k k' :
  CanonicalHeaderKey k ≠ CanonicalHeaderKey k' → Get (Del h k) k' = Get h k'.
Proof. intros Hne. unfold Get, Values, Del. by rewrite lookup_delete_ne. Qed.

Lemma elem_of_header_names {A} (h : gmap string A) k : k ∈ header_names h ↔ is_Some (h !! k).
Proof.
  unfold header_names. rewrite list_elem_of_fmap. split.
  - intros [[k' v] [-> Hin]]. apply elem_of_map_to_list in Hin. by exists v.
  - intros [v Hv]. exists (k, v). split; [done|]. by apply elem_of_map_to_list.
Qed.

(** The collected and sorted names are the same for every iteration order. *)
Lemma matching_names_order {A} (h : gmap string A) name order :
  order ≡ₚ header_names h →
  Headers.matching_names_in order name = Headers.matching_names h name.
Proof.
  intros Hp. unfold Headers.matching_names, Headers.matching_names_in. apply sort_strings_proper.
  by rewrite Hp.
Qed.

Lemma elem_of_matching_names {A} (h : gmap string A) name k :
  k ∈ Headers.matching_names h name ↔ is_Some (h !! k) ∧ EqualFold k name = true.
Proof.
  unfold Headers.matching_names, Headers.matching_names_in.
  rewrite elem_of_sort_strings, list_elem_of_filter, elem_of_header_names. tauto.
Qed.

Lemma matching_names_nil {A} (h : gmap string A) name :
  Headers.matching_names h name = [] ↔ ∀ k, EqualFold k name = true → h !! k = None.
Proof.
  split.
  - intros Hnil k Hk. destruct (h !! k) as [v|] eqn:Hv; [|done].
    assert (k ∈ Headers.matching_names h name) as Hin by (apply elem_of_matching_names; eauto).
    rewrite Hnil in Hin. set_solver.
  - intros Hnone. destruct (Headers.matching_names h name) as [|k l] eqn:Hl; [done|].
    assert (k ∈ Headers.matching_names h name) as Hin by (rewrite Hl; set_solver).
    apply elem_of_matching_names in Hin as [[v Hv] Hk]. by rewrite (Hnone k Hk) in Hv.
Qed.

Create Rewrite HintDb header.
#[export] Hint Rewrite Get_Set_eq Get_Del_eq CanonicalHeaderKey_idemp : header.

Example canonical_ex : CanonicalHeaderKey "cache-control" = "Cache-Control"%string.
Proof. reflexivity. Qed.
Example canonical_etag : CanonicalHeaderKey "ETag" = "Etag"%string.
Proof. reflexivity. Qed.
Example combined_ex :
  Headers.combinedHeaderValues
    (<["vary" := ["b"; "c"]%string]> (<["Vary" := ["a"]%string]> ∅)) "VARY" = "a, b, c"%string.
Proof. vm_compute. reflexivity. Qed.
