(* ===== verification/GoUrl.v ===== *)
(** * URLs and requests of the Go standard library

    [url.URL], its [String] method with the escaping it relies on, and the
    fields of [http.Request] the repository reads. *)

From S2P Require Import Prelude GoStrings GoHttp.

Record Userinfo := { username : string; password : option string }.

Record URL := {
  Scheme : string;
  Opaque : string;
  User : option Userinfo;
  Host : string;
  Path : string;
  RawPath : string;
  OmitHost : bool;
  ForceQuery : bool;
  RawQuery : string;
  Fragment : string;
  RawFragment : string;
}.

Definition empty_url : URL :=
  {| Scheme := EmptyString; Opaque := EmptyString; User := None; Host := EmptyString;
     Path := EmptyString; RawPath := EmptyString; OmitHost := false; ForceQuery := false;
     RawQuery := EmptyString; Fragment := EmptyString; RawFragment := EmptyString |}.

(** The URL with scheme, host and fragment replaced, or only the path parts
    and the query. *)
Definition with_origin (u : URL) (scheme host fragment : string) : URL :=
  {| Scheme := scheme; Opaque := Opaque u; User := User u; Host := host; Path := Path u;
     RawPath := RawPath u; OmitHost := OmitHost u; ForceQuery := ForceQuery u;
     RawQuery := RawQuery u; Fragment := fragment; RawFragment := RawFragment u |}.

(** ** Escaping *)

Inductive encoding := encodePath | encodeHost | encodeUserPassword | encodeFragment.

(** [url.shouldEscape] on the encodings used by [String]. *)
Definition shouldEscape (c : ascii) (mode : encoding) : bool :=
  if is_digit c || is_upper c || is_lower c then false else
  let b := byte_val c in
  match mode with
  | encodeHost =>
      (* ! $ & ' ( ) * + , ; = : [ ] < > and the quote, then - _ . ~ *)
      negb (existsb (Z.eqb b) [33; 36; 38; 39; 40; 41; 42; 43; 44; 59; 61; 58; 91; 93; 60; 62; 34;
                               45; 95; 46; 126])
  | encodePath =>
      (* - _ . ~ and $ & + , / : ; = @ *)
      negb (existsb (Z.eqb b) [45; 95; 46; 126; 36; 38; 43; 44; 47; 58; 59; 61; 64])
  | encodeUserPassword =>
      (* - _ . ~ and $ & + , ; = *)
      negb (existsb (Z.eqb b) [45; 95; 46; 126; 36; 38; 43; 44; 59; 61])
  | encodeFragment =>
      (* - _ . ~ and $ & + , / : ; = ? @ and ! ( ) * *)
      negb (existsb (Z.eqb b) [45; 95; 46; 126; 36; 38; 43; 44; 47; 58; 59; 61; 63; 64; 33; 40; 41; 42])
  end.

Definition percent (c : ascii) : string :=
  String "%" (String (hex_digit_upper (byte_val c / 16)) (str1 (hex_digit_upper (byte_val c mod 16)))).

Fixpoint escape (s : string) (mode : encoding) : string :=
  match s with
  | EmptyString => EmptyString
  | String c s => ((if shouldEscape c mode then percent c else str1 c) +:+ escape s mode)%string
  end.

(** [url.validEncoded] *)
Definition valid_encoded_byte (mode : encoding) (c : ascii) : bool :=
  existsb (Z.eqb (byte_val c)) [33; 36; 38; 39; 40; 41; 42; 43; 44; 59; 61; 58; 64; 91; 93; 37]
  || negb (shouldEscape c mode).
Definition validEncoded (s : string) (mode : encoding) : bool := str_forall (valid_encoded_byte mode) s.

(** [url.unescape] outside host and query: [None] on a malformed escape. *)
Fixpoint unescape (s : string) : option string :=
  match s with
  | EmptyString => Some EmptyString
  | String c s1 =>
      if Ascii.eqb c "%"%char then
        match s1 with
        | String h1 (String h2 r) =>
            match unhex h1, unhex h2 with
            | Some d1, Some d2 => String (byte_of (16 * d1 + d2)) <$> unescape r
            | _, _ => None
            end
        | _ => None
        end
      else String c <$> unescape s1
  end.

Definition EscapedPath (u : URL) : string :=
  if nonempty (RawPath u) && validEncoded (RawPath u) encodePath
     && bool_decide (unescape (RawPath u) = Some (Path u)) then RawPath u
  else if Path u =?s "*" then "*"%string
  else escape (Path u) encodePath.

Definition EscapedFragment (u : URL) : string :=
  if nonempty (RawFragment u) && validEncoded (RawFragment u) encodeFragment
     && bool_decide (unescape (RawFragment u) = Some (Fragment u)) then RawFragment u
  else escape (Fragment u) encodeFragment.

Definition Userinfo_String (ui : Userinfo) : string :=
  match password ui with
  | Some p => (escape (username ui) encodeUserPassword +:+ ":" +:+ escape p encodeUserPassword)%string
  | None => escape (username ui) encodeUserPassword
  end.

Definition not_slash (c : ascii) : bool := negb (Ascii.eqb c "/"%char).

(** The scheme, the authority and what separates them: what [URL.String] has
    written before the path. *)
Definition url_authority (u : URL) : string :=
  let scheme := if nonempty (Scheme u) then (Scheme u +:+ ":")%string else EmptyString in
  let authority :=
    if (nonempty (Scheme u) || nonempty (Host u) || bool_decide (is_Some (User u)))
       && negb (OmitHost u && negb (nonempty (Host u)) && negb (bool_decide (is_Some (User u)))) then
      ((if nonempty (Host u) || nonempty (Path u) || bool_decide (is_Some (User u)) then "//" else EmptyString)
       +:+ match User u with Some ui => (Userinfo_String ui +:+ "@") | None => EmptyString end
       +:+ (if nonempty (Host u) then escape (Host u) encodeHost else EmptyString))%string
    else EmptyString in
  (scheme +:+ authority)%string.

Definition starts_with_slash (s : string) : bool :=
  match s with String "/" _ => true | _ => false end%char.

Definition url_hier (u : URL) : string :=
  if nonempty (Opaque u) then
    ((if nonempty (Scheme u) then (Scheme u +:+ ":") else EmptyString) +:+ Opaque u)%string
  else
    let path := EscapedPath u in
    let before := url_authority u in
    let before := if nonempty path && negb (starts_with_slash path) && nonempty (Host u)
                  then (before +:+ "/")%string else before in
    let before := if negb (nonempty before) && negb (str_forall (λ c, negb (Ascii.eqb c ":"%char)) (take_while not_slash path))
                  then "./"%string else before in
    (before +:+ path)%string.

Definition url_query (u : URL) : string :=
  if ForceQuery u || nonempty (RawQuery u) then String "?" (RawQuery u) else EmptyString.

Definition URL_String (u : URL) : string :=
  (url_hier u +:+ url_query u +:+
   (if nonempty (Fragment u) then String "#" (EscapedFragment u) else EmptyString))%string.

(** ** Requests *)

Record Request := {
  req_Method : string;
  req_URL : URL;
  req_Header : Header;
  req_Host : string;
  req_Proto : string;
  req_ProtoMajor : Z;
  req_ProtoMinor : Z;
  req_TLS : bool;
  req_RequestURI : string;
}.

Definition with_header (r : Request) (h : Header) : Request :=
  {| req_Method := req_Method r; req_URL := req_URL r; req_Header := h; req_Host := req_Host r;
     req_Proto := req_Proto r; req_ProtoMajor := req_ProtoMajor r; req_ProtoMinor := req_ProtoMinor r;
     req_TLS := req_TLS r; req_RequestURI := req_RequestURI r |}.

(** ** Lemmas: escaped text holds no control byte *)

Definition no_us (s : string) : bool := str_forall (λ c, negb (Ascii.eqb c us)) s.

Lemma no_us_app s t : no_us (s +:+ t)%string = no_us s && no_us t.
Proof. apply str_forall_app. Qed.

Lemma no_us_cons c s : no_us (String c s) = negb (Ascii.eqb c us) && no_us s.
Proof. done. Qed.

Lemma no_us_percent c : no_us (percent c) = true.
Proof. by destruct c as [[][][][][][][][]]. Qed.

Lemma escape_no_us s mode : no_us (escape s mode) = true.
Proof.
  induction s as [|c s IH]; [done|]. cbn [escape]. rewrite no_us_app, IH, andb_true_r.
  destruct (shouldEscape c mode) eqn:Hc; [apply no_us_percent|].
  unfold no_us; simpl. rewrite andb_true_r. apply negb_true_iff, Ascii.eqb_neq. intros ->.
  by destruct mode.
Qed.

Lemma validEncoded_no_us s mode : validEncoded s mode = true → no_us s = true.
Proof.
  unfold validEncoded. induction s as [|c s IH]; [done|]. cbn [str_forall].
  intros [Hc Hs]%andb_true_iff. rewrite no_us_cons, IH, andb_true_r by done.
  apply negb_true_iff, Ascii.eqb_neq. intros ->. by destruct mode.
Qed.

Lemma EscapedPath_no_us u : no_us (EscapedPath u) = true.
Proof.
  unfold EscapedPath. destruct (_ && _) eqn:H.
  - unbool. by eapply validEncoded_no_us.
  - destruct (Path u =?s "*"); [done|]. apply escape_no_us.
Qed.

Lemma EscapedFragment_no_us u : no_us (EscapedFragment u) = true.
Proof.
  unfold EscapedFragment. destruct (_ && _) eqn:H.
  - unbool. by eapply validEncoded_no_us.
  - apply escape_no_us.
Qed.

Lemma Userinfo_String_no_us ui : no_us (Userinfo_String ui) = true.
Proof. unfold Userinfo_String. destruct (password ui); by rewrite ?no_us_app, !escape_no_us. Qed.

Lemma url_authority_no_us u : no_us (Scheme u) = true → no_us (url_authority u) = true.
Proof.
  intros Hs. unfold url_authority.
  repeat case_match; rewrite ?no_us_app, ?Hs, ?escape_no_us, ?Userinfo_String_no_us; done.
Qed.

(** The unit separator can only come from the fields [String] copies raw. *)
Lemma URL_String_no_us u :
  no_us (Scheme u) = true → no_us (Opaque u) = true → no_us (RawQuery u) = true →
  no_us (URL_String u) = true.
Proof.
  intros Hs Ho Hq. unfold URL_String. rewrite !no_us_app. repeat (apply andb_true_iff; split).
  - unfold url_hier. pose proof (url_authority_no_us u Hs) as Ha.
    repeat case_match; rewrite ?no_us_app, ?Hs, ?Ho, ?Ha, ?EscapedPath_no_us; done.
  - unfold url_query. case_match; [|done]. by rewrite no_us_cons, Hq.
  - case_match; [|done]. by rewrite no_us_cons, EscapedFragment_no_us.
Qed.

Definition example_url (path query : string) : URL :=
  {| Scheme := EmptyString; Opaque := EmptyString; User := None; Host := EmptyString;
     Path := path; RawPath := EmptyString; OmitHost := false; ForceQuery := false;
     RawQuery := query; Fragment := EmptyString; RawFragment := EmptyString |}.

Example URL_String_ex1 :
  URL_String (with_origin (example_url "/a b" "q=1") "http" "Example.org" "frag")
  = "http://Example.org/a%20b?q=1#frag"%string.
Proof. vm_compute. reflexivity. Qed.
Example URL_String_ex2 : URL_String (example_url "a:b" EmptyString) = "./a:b"%string.
Proof. vm_compute. reflexivity. Qed.
