(* ===== verification/CacheControl.v ===== *)
(** * Cache-Control ([cachecontrol.go])

    The map of directives, its case-insensitive accessors, the parser and the
    printer.  The parser's loop over positions is a loop over suffixes of the
    input, with fuel; [ParseCacheControl] gives it the length of the input,
    which [ParseCacheControl_total] shows to be enough. *)

From S2P Require Import Prelude GoStrings GoTime GoQuote GoHttp.
Import Headers.

Definition CacheControlHeader : string := "Cache-Control".

(** [type CacheControl map[string][]string] *)
Abbreviation CacheControl := (gmap string (list string)).

(** ** Accessors *)

(** One step of the search of [lookupKey] over the candidate keys: the
    smallest matching one is kept. *)
Definition better_key (key found candidate : string) : string :=
  if EqualFold candidate key && (negb (nonempty found) || String.ltb candidate found)
  then candidate else found.

(** The loop [for candidate := range cc], in a given iteration order. *)
Definition search_key (key : string) (order : list string) : string :=
  foldl (better_key key) EmptyString order.

Definition cc_lookupKey (cc : CacheControl) (key : string) : string * bool :=
  let lower := ToLower key in
  if bool_decide (is_Some (cc !! lower)) then (lower, true)
  else if bool_decide (is_Some (cc !! key)) then (key, true)
  else let found := search_key key (header_names cc) in (found, nonempty found).

Definition cc_Get (cc : CacheControl) (key : string) : string * bool :=
  let '(storedKey, exists_) := cc_lookupKey cc key in
  let v := default [] (cc !! storedKey) in
  match v with
  | x :: _ => if exists_ : bool then (x, true) else (EmptyString, exists_)
  | [] => (EmptyString, exists_)
  end.

Definition cc_Add (cc : CacheControl) (key val : string) : CacheControl :=
  let '(storedKey, exists_) := cc_lookupKey cc key in
  let '(key, cc) := if exists_ : bool then (storedKey, cc)
                    else (ToLower key, <[ToLower key := []]> cc) in
  if nonempty val then <[key := default [] (cc !! key) ++ [val]]> cc else cc.

Definition cc_Has (cc : CacheControl) (key : string) : bool := snd (cc_lookupKey cc key).

(** [cc[key]]: the indexing of the exported map, [nil] when absent. *)
Definition cc_index (cc : CacheControl) (key : string) : list string := default [] (cc !! key).

Definition cc_Duration (cc : CacheControl) (key : string) : option Duration :=
  ParseDuration (fst (cc_Get cc key) +:+ "s")%string.

(** ** Parser *)

Definition is_separator (c : ascii) : bool :=
  Ascii.eqb c ","%char || Ascii.eqb c lf || Ascii.eqb c cr || Ascii.eqb c " "%char || Ascii.eqb c tab.

(** The bytes that end a bare token. *)
Definition is_delim (c : ascii) : bool :=
  Ascii.eqb c dquote || is_separator c || Ascii.eqb c "="%char.

Definition not_dquote (c : ascii) : bool := negb (Ascii.eqb c dquote).
Definition not_delim (c : ascii) : bool := negb (is_delim c).

(** [s[1:]], or the empty string at the end. *)
Definition tail (s : string) : string := match s with EmptyString => EmptyString | String _ s => s end.

(** What happens to the token just read. *)
Definition take_token (token : string) (isValue : bool) (lastKey : string) (cc : CacheControl)
    : string * CacheControl :=
  if isValue then (lastKey, cc_Add cc lastKey token)
  else (token, cc_Add cc token EmptyString).

Fixpoint parse_loop (fuel : nat) (input : string) (isValue : bool) (lastKey : string)
    (cc : CacheControl) : option CacheControl :=
  match input with
  | EmptyString => Some cc
  | String c rest =>
      match fuel with
      | O => None
      | S fuel =>
          if Ascii.eqb c dquote then
            let token := take_while not_dquote rest in
            let '(lastKey, cc) := take_token token isValue lastKey cc in
            parse_loop fuel (tail (drop_while not_dquote rest)) false lastKey cc
          else if is_separator c then parse_loop fuel rest isValue lastKey cc
          else if Ascii.eqb c "="%char then parse_loop fuel rest true lastKey cc
          else
            let token := take_while not_delim input in
            let '(lastKey, cc) := take_token token isValue lastKey cc in
            parse_loop fuel (drop_while not_delim input) false lastKey cc
      end
  end.

Definition ParseCacheControl (input : string) : option CacheControl :=
  parse_loop (String.length input) input false EmptyString ∅.

Definition ParseCacheControlHeaders (h : Header) : option CacheControl :=
  ParseCacheControl (Join (combined_values h CacheControlHeader) ", ").

(** ** Printer *)

Section Printer.
Context `{Unicode}.

Definition print_directive (k : string) (vals : list string) : string :=
  match vals with
  | [] => (k +:+ ", ")%string
  | _ => foldr (λ v acc, (k +:+ "=" +:+ Quote v +:+ ", " +:+ acc)%string) EmptyString vals
  end.

Fixpoint print_keys (cc : CacheControl) (keys : list string) : string :=
  match keys with
  | [] => EmptyString
  | k :: keys => (print_directive k (cc_index cc k) +:+ print_keys cc keys)%string
  end.

Definition cc_String (cc : CacheControl) : string :=
  TrimSuffix (print_keys cc (sort_strings (header_names cc))) ", ".
End Printer.

Example parse_ex :
  ParseCacheControl "public, max-age=100, Private=foo" =
  Some (<["public" := []]> (<["max-age" := ["100"]]> (<["private" := ["foo"]]> ∅)))%string.
Proof. vm_compute. reflexivity. Qed.

Example print_ex :
  @cc_String latin1_print (<["public" := []]> (<["max-age" := ["100"]]> ∅))%string
  = ("max-age=" +:+ String dquote ("100" +:+ String dquote ", public"))%string.
Proof. vm_compute. reflexivity. Qed.

(** ** Lemmas on the accessors *)

(** What the search over the keys returns: a matching candidate no other
    matching candidate precedes, or the empty string. *)
Definition search_result (key : string) (order : list string) (r : string) : Prop :=
  (r = EmptyString ∧ ∀ k, k ∈ order → EqualFold k key = false) ∨
  (r ∈ order ∧ EqualFold r key = true ∧ ∀ k, k ∈ order → EqualFold k key = true → String.le r k).

Lemma search_key_spec key order :
  (EqualFold EmptyString key = true → EmptyString ∉ order) →
  search_result key order (search_key key order).
Proof.
  unfold search_key. induction order as [|k order IH] using rev_ind; intros Hne; [left; set_solver|].
  rewrite foldl_app; simpl. rewrite not_elem_of_app in Hne.
  specialize (IH (λ H, proj1 (Hne H))). revert IH.
  generalize (foldl (better_key key) EmptyString order) as found.
  intros found IH. unfold better_key, search_result in *.
  destruct (EqualFold k key) eqn:Hfold; simpl.
  2:{ destruct IH as [[-> IH]|(? & ? & IH)]; [left|right].
      - split; [done|]. by intros k' [?%IH| ->%list_elem_of_singleton]%elem_of_app.
      - split_and!; [set_solver|done|].
        intros k' [?| ->%list_elem_of_singleton]%elem_of_app ?; [auto|congruence]. }
  destruct IH as [[-> IH]|(Hin & Hf & IH)].
  - right; simpl. split_and!; [set_solver|done|]. intros k' [?%IH| ->%list_elem_of_singleton]%elem_of_app; [congruence|done].
  - assert (nonempty found = true) as -> by (destruct found; [by destruct (Hne Hf)|done]). right; simpl.
    destruct (String.ltb k found) eqn:Hlt.
    + apply str_lt_le in Hlt. split_and!; [set_solver|done|].
      intros k' [?| ->%list_elem_of_singleton]%elem_of_app ?; [|done]. etrans; [done|]. auto.
    + apply str_le_total_lt in Hlt. split_and!; [set_solver|done|].
      intros k' [?| ->%list_elem_of_singleton]%elem_of_app ?; auto.
Qed.

Lemma search_result_unique key order1 order2 r1 r2 :
  order1 ≡ₚ order2 →
  search_result key order1 r1 → search_result key order2 r2 → r1 = r2.
Proof.
  unfold search_result. intros Hp. setoid_rewrite <- Hp. 
  intros [[-> H1]|(? & Hf1 & H1)] [[-> H2]|(? & Hf2 & H2)]; [done|..].
  - rewrite H1 in Hf2; [done|set_solver].
  - rewrite H2 in Hf1; [done|set_solver].
  - apply (anti_symm String.le); auto.
Qed.

Lemma search_key_order_lemma key order1 order2 :
  (EqualFold EmptyString key = true → EmptyString ∉ order1) →
  order1 ≡ₚ order2 → search_key key order1 = search_key key order2.
Proof.
  intros Hne Hp. apply (search_result_unique key order1 order2); [done| |];
    apply search_key_spec; [done|]. by rewrite <- Hp.
Qed.

Lemma cc_Has_iff cc key :
  cc_Has cc key = true ↔ ∃ k, is_Some (cc !! k) ∧ EqualFold k key = true.
Proof.
  unfold cc_Has, cc_lookupKey.
  destruct (bool_decide (is_Some (cc !! ToLower key))) eqn:Hl; unbool; simpl.
  { split; [|done]. intros _. exists (ToLower key). split; [done|]. apply EqualFold_true, ToLower_idemp. }
  destruct (bool_decide (is_Some (cc !! key))) eqn:Hk; unbool; simpl.
  { split; [|done]. intros _. exists key. auto with httpcache. }
  assert (EqualFold EmptyString key = true → EmptyString ∉ header_names cc) as Hne.
  { intros He%EqualFold_true Hin. apply elem_of_header_names in Hin. destruct key; done. }
  pose proof (search_key_spec key (header_names cc) Hne) as Hs.
  generalize dependent (search_key key (header_names cc)). intros r Hs. split.
  - intros Hr. destruct Hs as [[-> _]|(Hin & Hf & _)]; [done|]. exists r.
    by rewrite elem_of_header_names in Hin.
  - intros (k & Hkk & Hf). destruct Hs as [[_ Hno]|(Hin & Hr & _)].
    + rewrite Hno in Hf; [done|]. by rewrite elem_of_header_names.
    + destruct r; [by destruct (Hne Hr)|done].
Qed.

#[export] Instance cc_Has_proper cc : Proper (fold_eq ==> eq) (cc_Has cc).
Proof.
  intros k1 k2 Hk. apply eq_true_iff_eq. rewrite !cc_Has_iff. by setoid_rewrite Hk.
Qed.

(** ** Well-formed maps: lower-case keys, no empty values *)

Record cc_wf (cc : CacheControl) : Prop := {
  cc_wf_lower : ∀ k, is_Some (cc !! k) → ToLower k = k;
  cc_wf_values : ∀ k vs, cc !! k = Some vs → Forall (λ v, nonempty v = true) vs;
}.

Lemma cc_wf_empty : cc_wf ∅.
Proof. split; [intros k [v Hv]|intros k vs Hv]; by rewrite lookup_empty in Hv. Qed.

(** On a well-formed map [lookupKey] is the lookup of the lower-case key. *)
Lemma cc_lookupKey_wf cc key :
  cc_wf cc → cc_lookupKey cc key
  = if bool_decide (is_Some (cc !! ToLower key)) then (ToLower key, true) else (EmptyString, false).
Proof.
  intros Hwf.
  destruct (bool_decide (is_Some (cc !! ToLower key))) eqn:Hl.
  { unfold cc_lookupKey. by rewrite Hl. }
  destruct (cc_Has cc key) eqn:Hhas.
  { apply cc_Has_iff in Hhas as (k & Hk & Hf). apply EqualFold_true in Hf.
    rewrite (cc_wf_lower cc Hwf k Hk) in Hf. subst k. unbool. done. }
  unfold cc_Has, cc_lookupKey in *. rewrite Hl in *.
  destruct (bool_decide (is_Some (cc !! key))) eqn:Hk; [done|]. simpl in Hhas.
  by destruct (search_key _ _).
Qed.

Lemma cc_Has_wf cc key : cc_wf cc → cc_Has cc key = bool_decide (is_Some (cc !! ToLower key)).
Proof. intros Hwf. unfold cc_Has. rewrite cc_lookupKey_wf by done. by case_match. Qed.

Lemma cc_Add_wf_eq cc key val :
  cc_wf cc → cc_Add cc key val =
  <[ToLower key := default [] (cc !! ToLower key) ++ (if nonempty val then [val] else [])]> cc.
Proof.
  intros Hwf. unfold cc_Add. rewrite cc_lookupKey_wf by done. case_bool_decide as Hl.
  - destruct Hl as [vs Hvs]. rewrite Hvs; simpl. destruct (nonempty val); [done|].
    rewrite app_nil_r. by rewrite insert_id.
  - apply eq_None_not_Some in Hl. rewrite Hl; simpl. destruct (nonempty val); [|done].
    by rewrite lookup_insert_eq, insert_insert_eq.
Qed.

Lemma cc_Add_wf cc key val : cc_wf cc → cc_wf (cc_Add cc key val).
Proof.
  intros Hwf. rewrite cc_Add_wf_eq by done. split.
  - intros k. destruct (decide (k = ToLower key)) as [->|Hne]; [intros _; apply ToLower_idemp|].
    rewrite lookup_insert_ne by done. apply (cc_wf_lower cc Hwf).
  - intros k vs. destruct (decide (k = ToLower key)) as [->|Hne].
    + rewrite lookup_insert_eq. intros [= <-]. apply Forall_app. split.
      * destruct (cc !! ToLower key) eqn:Hl; simpl; [|constructor]. by eapply cc_wf_values.
      * destruct (nonempty val) eqn:?; by repeat constructor.
    + rewrite lookup_insert_ne by done. apply (cc_wf_values cc Hwf).
Qed.

#[export] Hint Resolve cc_wf_empty cc_Add_wf : httpcache.

(** ** The parser *)

Lemma take_token_wf token iv lk cc :
  cc_wf cc → cc_wf (snd (take_token token iv lk cc)).
Proof. intros. unfold take_token. destruct iv; simpl; auto with httpcache. Qed.

Lemma tail_length s : (String.length (tail s) ≤ String.length s)%nat.
Proof. destruct s; simpl; lia. Qed.

(** What is left after a quoted or bare token is shorter than the input. *)
Lemma quoted_rest_length c rest :
  (String.length (tail (drop_while not_dquote rest)) < String.length (String c rest))%nat.
Proof.
  pose proof (tail_length (drop_while not_dquote rest)).
  pose proof (drop_while_length not_dquote rest). simpl. lia.
Qed.

Lemma bare_rest_length c rest :
  Ascii.eqb c dquote = false → is_separator c = false → Ascii.eqb c "="%char = false →
  (String.length (drop_while not_delim (String c rest)) < String.length (String c rest))%nat.
Proof.
  intros H1 H2 H3. simpl. unfold not_delim at 1, is_delim. rewrite H1, H2, H3. simpl.
  pose proof (drop_while_length not_delim rest). lia.
Qed.

(** Enough fuel is the length of the input: the loop returns a well-formed
    map, the same for every larger amount. *)
Lemma parse_loop_enough n m input iv lk cc :
  (String.length input ≤ n)%nat → (String.length input ≤ m)%nat → cc_wf cc →
  parse_loop n input iv lk cc = parse_loop m input iv lk cc ∧
  ∃ cc', parse_loop n input iv lk cc = Some cc' ∧ cc_wf cc'.
Proof.
  revert m input iv lk cc. induction n as [|n IH]; intros [|m] [|c rest] iv lk cc Hn Hm Hwf;
    simpl in Hn, Hm; try lia; [eauto..|]. cbn [parse_loop].
  destruct (Ascii.eqb c dquote) eqn:Hq.
  { pose proof (quoted_rest_length c rest) as Hlt. simpl in Hlt.
    pose proof (take_token_wf (take_while not_dquote rest) iv lk cc Hwf) as Hwf'.
    destruct (take_token _ iv lk cc) as [lk' cc']. apply IH; [lia..|done]. }
  destruct (is_separator c) eqn:Hs; [apply IH; [lia..|done]|].
  destruct (Ascii.eqb c "="%char) eqn:He; [apply IH; [lia..|done]|].
  pose proof (bare_rest_length c rest Hq Hs He) as Hlt. simpl (String.length (String _ _)) in Hlt.
  pose proof (take_token_wf (take_while not_delim (String c rest)) iv lk cc Hwf) as Hwf'.
  destruct (take_token _ iv lk cc) as [lk' cc']. apply IH; [lia..|done].
Qed.

(** The loop with just enough fuel, and its unfolding equations. *)
Definition parse_from (input : string) iv lk cc : option CacheControl :=
  parse_loop (String.length input) input iv lk cc.

Lemma parse_loop_from n input iv lk cc :
  (String.length input ≤ n)%nat → cc_wf cc → parse_loop n input iv lk cc = parse_from input iv lk cc.
Proof. intros. by apply parse_loop_enough. Qed.

Lemma parse_from_sep c rest iv lk cc :
  cc_wf cc → is_separator c = true → parse_from (String c rest) iv lk cc = parse_from rest iv lk cc.
Proof.
  intros Hwf Hs. unfold parse_from; cbn [parse_loop String.length]. rewrite Hs.
  destruct (Ascii.eqb_spec c dquote) as [->|]; [done|]. by apply parse_loop_from.
Qed.

Lemma parse_from_eq rest iv lk cc :
  parse_from (String "=" rest) iv lk cc = parse_from rest true lk cc.
Proof. done. Qed.

Lemma parse_from_bare tok rest iv lk cc :
  cc_wf cc → nonempty tok = true → str_forall not_delim tok = true → stops not_delim rest →
  parse_from (tok +:+ rest)%string iv lk cc
  = let '(lk, cc) := take_token tok iv lk cc in parse_from rest false lk cc.
Proof.
  intros Hwf Hne Htok Hstop.
  pose proof (take_while_stop _ _ _ Htok Hstop) as Htake.
  pose proof (drop_while_stop _ _ _ Htok Hstop) as Hdrop.
  destruct tok as [|c tok]; [done|]. rewrite str_app_cons in *.
  unfold parse_from; cbn [parse_loop String.length]. rewrite Htake, Hdrop.
  simpl in Htok. unbool. unfold not_delim, is_delim in H. unbool. rewrite H, H2, H1.
  pose proof (take_token_wf (String c tok) iv lk cc Hwf).
  destruct (take_token _ iv lk cc) as [lk' cc'].
  apply parse_loop_from; [|done]. rewrite str_length_app. lia.
Qed.

Lemma parse_from_quoted tok rest iv lk cc :
  cc_wf cc → str_forall not_dquote tok = true →
  parse_from (String dquote (tok +:+ String dquote rest))%string iv lk cc
  = let '(lk, cc) := take_token tok iv lk cc in parse_from rest false lk cc.
Proof.
  intros Hwf Htok.
  pose proof (take_while_stop not_dquote tok (String dquote rest) Htok eq_refl) as Htake.
  pose proof (drop_while_stop not_dquote tok (String dquote rest) Htok eq_refl) as Hdrop.
  unfold parse_from; cbn [parse_loop String.length]. rewrite Ascii.eqb_refl, Htake, Hdrop.
  pose proof (take_token_wf tok iv lk cc Hwf).
  destruct (take_token _ iv lk cc) as [lk' cc']. cbn [tail].
  apply parse_loop_from; [|done]. rewrite str_length_app; simpl. lia.
Qed.

(** ** Printing and parsing back *)

(** A value [Quote] leaves unescaped: printable ASCII without quote or
    backslash. *)
Definition plain_byte (c : ascii) : bool :=
  in_range 32 126 c && negb (Ascii.eqb c dquote) && negb (Ascii.eqb c backslash).
Definition plain_value (v : string) : bool := nonempty v && str_forall plain_byte v.

(** A directive name the tokenizer reads as one bare token. *)
Definition bare_key (k : string) : bool :=
  nonempty k && str_forall not_delim k && (ToLower k =?s k).

(** The maps the printer renders faithfully. *)
Definition printable_cc (cc : CacheControl) : Prop :=
  map_Forall (λ k vs, bare_key k = true ∧ Forall (λ v, plain_value v = true) vs) cc.

(** One printed element: a bare directive or a directive with one value. *)
Abbreviation item := (string * option string)%type.

Section RoundTrip.
Context `{Unicode}.

Definition print_item (i : item) : string :=
  match i with
  | (k, None) => k
  | (k, Some v) => (k +:+ "=" +:+ Quote v)%string
  end.

Definition key_items (k : string) (vs : list string) : list item :=
  match vs with [] => [(k, None)] | _ => map (λ v, (k, Some v)) vs end.

Definition cc_items (cc : CacheControl) (keys : list string) : list item :=
  mjoin (map (λ k, key_items k (cc_index cc k)) keys).

(** The items followed each by a comma and a space. *)
Definition print_items (its : list item) : string :=
  foldr (λ i acc, (print_item i +:+ ", " +:+ acc)%string) EmptyString its.

Definition add_item (cc : CacheControl) (i : item) : CacheControl :=
  let cc := cc_Add cc (fst i) EmptyString in
  match snd i with None => cc | Some v => cc_Add cc (fst i) v end.

Definition plain_item (i : item) : Prop :=
  bare_key (fst i) = true ∧ match snd i with None => True | Some v => plain_value v = true end.

Lemma Quote_plain v : str_forall plain_byte v = true → Quote v = String dquote (v +:+ str1 dquote)%string.
Proof.
  intros Hv. unfold Quote. do 2 f_equal. induction v as [|c v IH]; [done|].
  simpl in Hv. apply andb_true_iff in Hv as [Hc Hv]. cbn [quote_body]. rewrite (IH Hv).
  by destruct c as [[][][][][][][][]].
Qed.

Lemma plain_not_dquote v : str_forall plain_byte v = true → str_forall not_dquote v = true.
Proof.
  induction v as [|c v IH]; [done|]; simpl. intros [Hc Hv]%andb_true_iff. rewrite IH by done.
  unfold plain_byte in Hc. unbool. unfold not_dquote. rewrite H2. done.
Qed.

Lemma print_items_app its1 its2 :
  print_items (its1 ++ its2) = (print_items its1 +:+ print_items its2)%string.
Proof.
  unfold print_items. induction its1 as [|i its1 IH]; [done|]. simpl. rewrite IH.
  by rewrite !str_app_assoc.
Qed.

Lemma print_directive_items k vs : print_directive k vs = print_items (key_items k vs).
Proof.
  destruct vs as [|v vs].
  { unfold print_items; simpl. by rewrite str_app_nil_r. }
  unfold print_directive, key_items, print_items. generalize (v :: vs) as l. clear.
  induction l as [|v l IH]; [done|]. simpl. rewrite IH. by rewrite !str_app_assoc.
Qed.

Lemma print_keys_items cc keys : print_keys cc keys = print_items (cc_items cc keys).
Proof.
  unfold cc_items. induction keys as [|k keys IH]; [done|]. simpl.
  by rewrite print_items_app, print_directive_items, IH.
Qed.

(** The terminated rendering is the comma-joined one and a last separator. *)
Lemma print_items_join its :
  its ≠ [] → print_items its = (Join (map print_item its) ", " +:+ ", ")%string.
Proof.
  intros Hne. induction its as [|i [|j its] IH]; [done| |].
  - unfold print_items; simpl. by rewrite str_app_nil_r.
  - cbn [map]. rewrite Join_cons. change (print_items (i :: j :: its)) with
      (print_item i +:+ ", " +:+ print_items (j :: its))%string.
    rewrite IH by done. cbn [map]. by rewrite !str_app_assoc.
Qed.

Lemma add_item_wf cc i : cc_wf cc → cc_wf (add_item cc i).
Proof. intros. destruct i as [k [v|]]; unfold add_item; simpl; auto with httpcache. Qed.

(** The parser reads one printed item, whatever separator or end follows. *)
Lemma parse_item i rest lk cc :
  cc_wf cc → plain_item i → stops not_delim rest →
  parse_from (print_item i +:+ rest)%string false lk cc
  = parse_from rest false (fst i) (add_item cc i).
Proof.
  intros Hwf [Hk Hv] Hstop. destruct i as [k [v|]]; simpl in *;
    unfold bare_key in Hk; apply andb_true_iff in Hk as [[Hne Hk]%andb_true_iff _].
  - unfold plain_value in Hv. apply andb_true_iff in Hv as [Hvne Hv].
    rewrite <- str_app_assoc, parse_from_bare by done. unfold take_token. cbn [negb].
    rewrite Quote_plain by done.
    change ("=" +:+ String dquote (v +:+ str1 dquote))%string
      with (String "=" (String dquote (v +:+ str1 dquote)%string)).
    rewrite !str_app_cons, parse_from_eq, <- str_app_assoc.
    change (str1 dquote +:+ rest)%string with (String dquote rest).
    rewrite parse_from_quoted by auto using plain_not_dquote with httpcache. done.
  - rewrite parse_from_bare by done. done.
Qed.

Lemma parse_items its lk cc :
  cc_wf cc → Forall plain_item its →
  parse_from (Join (map print_item its) ", ") false lk cc = Some (foldl add_item cc its).
Proof.
  intros Hwf His. revert lk cc Hwf. induction His as [|i its Hi His IH]; intros lk cc Hwf; [done|].
  destruct its as [|j its].
  - cbn [map]. rewrite <- (str_app_nil_r (Join [print_item i] ", ")).
    change (Join [print_item i] ", ") with (print_item i). by rewrite parse_item.
  - cbn [map]. rewrite Join_cons. change (", " +:+ ?s)%string with (String "," (String " " s)).
    rewrite parse_item by done.
    change (", " +:+ Join (print_item j :: map print_item its) ", ")%string
      with (String "," (String " " (Join (print_item j :: map print_item its) ", "))).
    rewrite !parse_from_sep by auto using add_item_wf. apply IH. by apply add_item_wf.
Qed.

(** Adding the items of one absent key inserts its values. *)
Lemma foldl_add_values cc k vs0 vs :
  cc_wf cc → ToLower k = k → Forall (λ v, nonempty v = true) vs → cc !! k = Some vs0 →
  foldl add_item cc (map (λ v, (k, Some v)) vs) = <[k := vs0 ++ vs]> cc.
Proof.
  intros Hwf Hk Hvs. revert cc vs0 Hwf. induction Hvs as [|v vs Hv Hvs IH]; intros cc vs0 Hwf Hl.
  - simpl. rewrite app_nil_r. by rewrite insert_id.
  - simpl. rewrite (IH _ (vs0 ++ [v])); [|by apply add_item_wf|].
    + unfold add_item; simpl. rewrite !cc_Add_wf_eq by auto with httpcache.
      rewrite Hk, !insert_insert_eq. by rewrite <- app_assoc.
    + unfold add_item; simpl. rewrite !cc_Add_wf_eq by auto with httpcache.
      rewrite Hk, !lookup_insert_eq, Hl; simpl. by rewrite app_nil_r, Hv.
Qed.

Lemma foldl_add_key cc k vs :
  cc_wf cc → ToLower k = k → Forall (λ v, nonempty v = true) vs → cc !! k = None →
  foldl add_item cc (key_items k vs) = <[k := vs]> cc.
Proof.
  intros Hwf Hk Hvs Hl. destruct vs as [|v vs].
  - simpl. unfold add_item; simpl. rewrite cc_Add_wf_eq by done. by rewrite Hk, Hl.
  - inversion Hvs as [|? ? Hv Hvs']; subst. cbn [key_items map foldl].
    assert (add_item cc (k, Some v) = <[k := [v]]> cc) as Hadd.
    { unfold add_item; simpl. rewrite !cc_Add_wf_eq by auto with httpcache.
      by rewrite Hk, lookup_insert_eq, insert_insert_eq, Hl, Hv. }
    rewrite (foldl_add_values _ k [v]); [|by apply add_item_wf|done|done|].
    + rewrite Hadd. by rewrite insert_insert_eq.
    + rewrite Hadd. by rewrite lookup_insert_eq.
Qed.

(** Adding the items of distinct absent keys. *)
Lemma foldl_add_items cc keys acc :
  printable_cc cc → NoDup keys → (∀ k, k ∈ keys → is_Some (cc !! k)) →
  cc_wf acc → (∀ k, k ∈ keys → acc !! k = None) →
  ∀ x, foldl add_item acc (cc_items cc keys) !! x
       = if bool_decide (x ∈ keys) then cc !! x else acc !! x.
Proof.
  intros Hcc Hnd. revert acc. induction Hnd as [|k keys Hk Hnd IH]; intros acc Hdom Hwf Hnone x.
  { by rewrite bool_decide_eq_false_2 by set_solver. }
  destruct (Hdom k) as [vs Hvs]; [set_solver|].
  destruct (Hcc k vs Hvs) as [Hbare Hplain].
  unfold bare_key in Hbare. apply andb_true_iff in Hbare as [_ Hlow%String.eqb_eq].
  assert (Forall (λ v, nonempty v = true) vs) as Hne.
  { eapply Forall_impl; [exact Hplain|]. simpl. intros v. unfold plain_value. by intros [? ?]%andb_true_iff. }
  unfold cc_items; cbn [map mjoin list_join]. rewrite foldl_app.
  unfold cc_index at 1. rewrite Hvs; cbn [default].
  rewrite foldl_add_key by (try done; apply Hnone; set_solver).
  assert (cc_wf (<[k:=vs]> acc)) as Hwf'.
  { destruct Hwf as [W1 W2]. split; intros k'; destruct (decide (k' = k)) as [->|].
    - done.
    - rewrite lookup_insert_ne by done. apply W1.
    - intros vs'. rewrite lookup_insert_eq. by intros [= <-].
    - intros vs'. rewrite lookup_insert_ne by done. apply W2. }
  fold (cc_items cc keys). rewrite IH; [|set_solver|done|].
  - destruct (decide (x = k)) as [->|].
    + rewrite bool_decide_eq_false_2, bool_decide_eq_true_2, lookup_insert_eq by set_solver. done.
    + rewrite lookup_insert_ne by done.
      by rewrite (bool_decide_ext (x ∈ keys) (x ∈ k :: keys)) by set_solver.
  - intros k' Hk'. rewrite lookup_insert_ne by set_solver. apply Hnone. set_solver.
Qed.

Lemma plain_items cc keys :
  printable_cc cc → (∀ k, k ∈ keys → is_Some (cc !! k)) → Forall plain_item (cc_items cc keys).
Proof.
  intros Hcc Hdom. unfold cc_items. induction keys as [|k keys IH]; [constructor|].
  cbn [map mjoin list_join]. apply Forall_app. split; [|apply IH; set_solver].
  destruct (Hdom k) as [vs Hvs]; [set_solver|]. destruct (Hcc k vs Hvs) as [Hbare Hplain].
  unfold cc_index. rewrite Hvs; cbn [default]. destruct vs as [|v vs].
  - repeat constructor. done.
  - unfold key_items. apply Forall_map. eapply Forall_impl; [exact Hplain|]. done.
Qed.

Lemma NoDup_header_names (cc : CacheControl) : NoDup (sort_strings (header_names cc)).
Proof. rewrite sort_strings_perm. apply NoDup_fst_map_to_list. Qed.

(** C31: printing a map of directives and parsing the result gives the map
    back, for every map whose names are lower-case bare tokens and whose
    values are non-empty printable ASCII without quotes or backslashes:
    [CacheControl.String] and [ParseCacheControl] agree on the format. *)
Theorem parse_print_roundtrip cc :
  printable_cc cc → ParseCacheControl (cc_String cc) = Some cc.
Proof.
  intros Hcc. unfold cc_String. rewrite print_keys_items.
  set (keys := sort_strings (header_names cc)).
  assert (∀ k, k ∈ keys → is_Some (cc !! k)) as Hdom.
  { intros k. unfold keys. by rewrite elem_of_sort_strings, elem_of_header_names. }
  pose proof (foldl_add_items cc keys ∅ Hcc (NoDup_header_names cc) Hdom cc_wf_empty) as Hfold.
  assert (foldl add_item ∅ (cc_items cc keys) = cc) as Hres.
  { apply map_eq. intros x. rewrite Hfold by (intros; apply lookup_empty). case_bool_decide as Hx; [done|].
    unfold keys in Hx. rewrite elem_of_sort_strings, elem_of_header_names, <- eq_None_not_Some in Hx.
    by rewrite lookup_empty. }
  pose proof (plain_items cc keys Hcc Hdom) as Hplain.
  destruct (cc_items cc keys) as [|i its] eqn:Hits; [by simpl in Hres; subst cc|].
  rewrite print_items_join, TrimSuffix_app by done.
  change (ParseCacheControl ?s) with (parse_from s false EmptyString ∅).
  by rewrite parse_items, Hres by auto with httpcache.
Qed.
End RoundTrip.

Lemma parse_print_roundtrip_witness :
  printable_cc (<["private" := ["set-cookie"; "x-user"]]> (<["max-age" := ["60"]]> (<["public" := []]> ∅)))%string ∧
  ParseCacheControl (@cc_String latin1_print
    (<["private" := ["set-cookie"; "x-user"]]> (<["max-age" := ["60"]]> (<["public" := []]> ∅)))%string)
  = Some (<["private" := ["set-cookie"; "x-user"]]> (<["max-age" := ["60"]]> (<["public" := []]> ∅)))%string.
Proof.
  assert (printable_cc (<["private" := ["set-cookie"; "x-user"]]>
    (<["max-age" := ["60"]]> (<["public" := []]> ∅)))%string) as H.
  { apply (bool_decide_unpack _). vm_compute. exact I. }
  split; [exact H|]. apply parse_print_roundtrip. exact H.
Defined.

(** The parser always returns a map, for every input string, and the map
    is well-formed: lower-case names, no empty values.  The length of the
    input bounds the iterations of its loop, the same result coming out of any
    larger bound. *)
Theorem ParseCacheControl_total input :
  ∃ cc, ParseCacheControl input = Some cc ∧ cc_wf cc ∧
        ∀ fuel, (String.length input ≤ fuel)%nat →
                parse_loop fuel input false EmptyString ∅ = Some cc.
Proof.
  destruct (parse_loop_enough (String.length input) (String.length input) input false EmptyString ∅)
    as [_ (cc & Hcc & Hwf)]; [lia..|apply cc_wf_empty|].
  exists cc. split_and!; [done..|]. intros fuel Hfuel.
  by rewrite parse_loop_from by auto with httpcache.
Qed.

(** A directive is found whatever the case it is asked or stored in, and
    whatever the order in which Go iterates over the map: [Has] is true
    exactly when some name of the map equals the key up to case, and the
    search of [lookupKey] gives one result on all orders of the names. *)
Theorem cc_lookup_case_insensitive cc key :
  (cc_Has cc key = true ↔ ∃ k, is_Some (cc !! k) ∧ EqualFold k key = true) ∧
  (∀ key', EqualFold key key' = true → cc_Has cc key' = cc_Has cc key) ∧
  (∀ order, order ≡ₚ header_names cc → cc !! ToLower key = None →
            search_key key order = search_key key (header_names cc)).
Proof.
  split_and!.
  - apply cc_Has_iff.
  - intros key' Hf. symmetry. by apply cc_Has_proper.
  - intros order Hp Hl. symmetry. apply search_key_order_lemma; [|by symmetry].
    intros He%EqualFold_true Hin. apply elem_of_header_names in Hin as [v Hv].
    rewrite <- He in Hl. change (ToLower EmptyString) with EmptyString in Hl. congruence.
Qed.

(** An empty value does not end at the comma: the next directive is read as
    the value of the previous one, and is lost as a directive. *)
Example no_store_swallowed :
  (λ cc, (cc_Has cc "no-store", cc_Get cc "ext")) <$> ParseCacheControl "ext=, no-store"
  = Some (false, ("no-store", true))%string.
Proof. vm_compute. reflexivity. Qed.

(** A directive whose value is a decimal number denotes that many
    seconds, exactly, up to 9223372036; a larger number, whose nanoseconds do
    not fit in an [int64], is an error and never a wrapped or truncated
    lifetime. *)
Theorem cc_Duration_delta cc key ds n :
  cc_Get cc key = (ds, true) → nonempty ds = true → digits_acc ds 0 = Some n →
  cc_Duration cc key = if n <=? 9223372036 then Some (n * second) else None.
Proof. intros Hget Hne Hn. unfold cc_Duration. rewrite Hget. by apply ParseDuration_decimal. Qed.

Lemma cc_Duration_delta_witness :
  cc_Get (<["max-age" := ["60"]]> ∅)%string "Max-Age" = ("60"%string, true) ∧
  cc_Duration (<["max-age" := ["60"]]> ∅)%string "Max-Age" = Some (60 * second).
Proof.
  split; [reflexivity|].
  apply (cc_Duration_delta (<["max-age" := ["60"]]> ∅)%string "Max-Age" "60" 60); reflexivity.
Defined.
