(* ===== verification/Keys.v ===== *)
(** * Cache keys ([key.go])

    The identity a response is stored under: method, canonical URL and, for a
    response with [Vary], the selected request fields.  The section on
    selection also holds the readers of [Vary] of [handler.go]
    ([sameVaryFields]) and [validator.go] ([varyUsesClientValidators],
    [varyChangedClientValidators]). *)

From S2P Require Import Prelude GoStrings GoQuote GoHttp GoUrl.
Import Headers.

(** [type Key struct] *)
Record Key := {
  k_method : string;
  k_header : Header;
  k_u : URL;
  k_vary : list string;
}.

Definition NewKey (method : string) (u : URL) (h : Header) : Key :=
  {| k_method := method; k_header := h; k_u := u; k_vary := [] |}.

Definition NewRequestKey (r : Request) : Key := NewKey (req_Method r) (req_URL r) (req_Header r).

Definition ForMethod (k : Key) (method : string) : Key :=
  {| k_method := method; k_header := k_header k; k_u := k_u k; k_vary := k_vary k |}.

Definition canonicalURL (u : URL) : URL :=
  with_origin u (ToLower (Scheme u)) (ToLower (Host u)) EmptyString.

Definition varySeparator : string := str1 us.
Definition varyKeyNamespace : string := (str1 us +:+ "HTTPCACHE-VARY/2" +:+ str1 us)%string.

(** ** Reading a Vary header *)

Definition parseVary (varyHeader : string) : list string :=
  filter (λ f, nonempty f = true)
    (map (λ part, CanonicalHeaderKey (TrimSpace part)) (Split ","%char varyHeader)).

Definition varyWildcard (varyHeader : string) : bool :=
  existsb (λ f, f =?s "*") (parseVary varyHeader).

(** [handler.go]: [sameVaryFields] *)
Definition sameVaryFields (first second : string) : bool :=
  bool_decide (compact (sort_strings (parseVary first)) = compact (sort_strings (parseVary second))).

(** [validator.go]: [varyUsesClientValidators] *)
Definition is_client_validator (field : string) : bool :=
  (field =?s "If-None-Match") || (field =?s "If-Modified-Since").

Definition varyUsesClientValidators (vary : string) : bool :=
  existsb is_client_validator (parseVary vary).

Section Key.
Context `{Unicode}.

(** The bracketed list of quoted field lines. *)
Fixpoint quote_list (vs : list string) : string :=
  match vs with
  | [] => EmptyString
  | [v] => Quote v
  | v :: vs => (Quote v +:+ "," +:+ quote_list vs)%string
  end.

Definition varyFieldKey (header : Header) (name : string) : string :=
  match matching_names header name with
  | [] => "missing"%string
  | keys => ("[" +:+ quote_list (mjoin (map (λ k, default [] (header !! k)) keys)) +:+ "]")%string
  end.

(** [Key.Vary] *)
Definition Key_Vary (k : Key) (varyHeader : string) (r : Request) : Key :=
  {| k_method := k_method k; k_header := k_header k; k_u := k_u k;
     k_vary := k_vary k ++
       map (λ header, (header +:+ "=" +:+ varyFieldKey (req_Header r) header)%string) (parseVary varyHeader) |}.

Fixpoint vary_suffix (vary : list string) : string :=
  match vary with
  | [] => EmptyString
  | v :: vary => (varySeparator +:+ Quote v +:+ vary_suffix vary)%string
  end.

(** [Key.String] *)
Definition Key_String (k : Key) : string :=
  let namespace := match k_vary k with [] => EmptyString | _ => varyKeyNamespace end in
  (namespace +:+ k_method k +:+ ":" +:+ URL_String (canonicalURL (k_u k)) +:+ vary_suffix (k_vary k))%string.

(** [validator.go]: [varyChangedClientValidators] *)
Definition varyChangedClientValidators (vary : string) (original validation : Request) : bool :=
  existsb (λ field, is_client_validator field &&
             (varyFieldKey (req_Header original) field <>?s varyFieldKey (req_Header validation) field))
          (parseVary vary).
End Key.

(** ** What a key is made of *)

(** The bytes of the URL that [URL.String] copies without escaping hold no
    unit separator: true of every URL [url.Parse] accepts. *)
Definition url_plain (u : URL) : Prop :=
  no_us (Scheme u) = true ∧ no_us (Opaque u) = true ∧ no_us (RawQuery u) = true.

(** A method without colon and not starting with the unit separator: true of
    every HTTP token. *)
Definition method_ok (m : string) : Prop :=
  str_forall (λ c, negb (Ascii.eqb c ":"%char)) m = true ∧ no_us m = true.

(** The field lines a request sends for a name, [None] when it sends none. *)
Definition field_lines (h : Header) (name : string) : option (list string) :=
  match matching_names h name with
  | [] => None
  | keys => Some (mjoin (map (λ k, default [] (h !! k)) keys))
  end.

(** ** Lemmas *)

Lemma no_us_lower s : no_us s = true → no_us (ToLower s) = true.
Proof.
  unfold no_us, ToLower. induction s as [|c s IH]; [done|]; simpl. intros [Hc Hs]%andb_true_iff.
  rewrite IH, andb_true_r by done. by destruct c as [[][][][][][][][]].
Qed.

Lemma canonical_no_us u : url_plain u → no_us (URL_String (canonicalURL u)) = true.
Proof.
  intros (Hs & Ho & Hq). apply URL_String_no_us; simpl; [by apply no_us_lower|done..].
Qed.

Section KeyLemmas.
Context `{Unicode}.

Lemma vary_suffix_inj v1 v2 : vary_suffix v1 = vary_suffix v2 → v1 = v2.
Proof.
  revert v2. induction v1 as [|x v1 IH]; intros [|y v2]; cbn [vary_suffix]; [done..|].
  unfold varySeparator, str1. rewrite !str_app_cons, !str_app_nil_l. intros Heq%str_cons_inj.
  apply Quote_app_inj in Heq as [-> Heq]. f_equal. by apply IH.
Qed.

Lemma quote_list_inj l1 l2 : quote_list l1 = quote_list l2 → l1 = l2.
Proof.
  revert l2. induction l1 as [|x l1 IH]; intros [|y l2]; [done|by destruct l2|by destruct l1|].
  destruct l1 as [|x' l1], l2 as [|y' l2]; intros Heq; cbn [quote_list] in Heq.
  - by apply Quote_inj in Heq as ->.
  - rewrite <- (str_app_nil_r (Quote x)) in Heq. by apply Quote_app_inj in Heq as [_ Heq].
  - rewrite <- (str_app_nil_r (Quote y)) in Heq. by apply Quote_app_inj in Heq as [_ Heq].
  - apply Quote_app_inj in Heq as [-> Heq].
    change ("," +:+ ?s)%string with (String "," s) in Heq. apply str_cons_inj in Heq. f_equal. by apply IH.
Qed.

Lemma varyFieldKey_lines h name :
  varyFieldKey h name = match field_lines h name with
                        | None => "missing"%string
                        | Some vs => ("[" +:+ quote_list vs +:+ "]")%string
                        end.
Proof. unfold varyFieldKey, field_lines. by destruct (matching_names h name). Qed.

Lemma varyFieldKey_inj h1 h2 name :
  varyFieldKey h1 name = varyFieldKey h2 name ↔ field_lines h1 name = field_lines h2 name.
Proof.
  rewrite !varyFieldKey_lines. split; [|by intros ->].
  destruct (field_lines h1 name) as [l1|], (field_lines h2 name) as [l2|]; intros Heq; try done.
  f_equal. change ("[" +:+ ?s)%string with (String "[" s) in Heq. apply str_cons_inj in Heq.
  apply str_app_inj_r in Heq. by apply quote_list_inj.
Qed.

Lemma vary_entry_inj f v1 v2 : (f +:+ "=" +:+ v1)%string = (f +:+ "=" +:+ v2)%string → v1 = v2.
Proof. intros Heq. apply (inj (String.app f)) in Heq. by apply str_cons_inj in Heq. Qed.

Lemma Key_String_inj_lemma k1 k2 :
  method_ok (k_method k1) → method_ok (k_method k2) → url_plain (k_u k1) → url_plain (k_u k2) →
  Key_String k1 = Key_String k2 →
  k_method k1 = k_method k2 ∧ URL_String (canonicalURL (k_u k1)) = URL_String (canonicalURL (k_u k2))
  ∧ k_vary k1 = k_vary k2.
Proof.
  intros [Hm1 Hn1] [Hm2 Hn2] Hu1%canonical_no_us Hu2%canonical_no_us. unfold Key_String.
  assert (∀ m s t, no_us m = true → (m +:+ ":" +:+ s)%string = (varyKeyNamespace +:+ t)%string → False) as Hns.
  { intros [|c m] s t Hm Heq; [done|]. rewrite str_app_cons in Heq.
    change varyKeyNamespace with (String us ("HTTPCACHE-VARY/2" +:+ str1 us)%string) in Heq.
    rewrite str_app_cons in Heq. injection Heq as -> _. done. }
  destruct (k_vary k1) as [|x1 v1] eqn:E1, (k_vary k2) as [|x2 v2] eqn:E2.
  - rewrite !str_app_nil_l. cbn [vary_suffix]. rewrite !str_app_nil_r. intros Heq.
    apply app_stop_inj in Heq as [-> ->]; done.
  - rewrite str_app_nil_l. intros Heq. destruct (Hns _ _ _ Hn1 Heq).
  - rewrite str_app_nil_l. intros Heq. symmetry in Heq. destruct (Hns _ _ _ Hn2 Heq).
  - intros Heq. apply (inj (String.app varyKeyNamespace)) in Heq.
    apply app_stop_inj in Heq as [-> Heq]; [|done..].
    assert (∀ x v, vary_suffix (x :: v) = String us (Quote x +:+ vary_suffix v)%string) as Hsuf by done.
    rewrite !Hsuf in Heq. apply app_stop_inj in Heq as [-> Heq]; [|done..].
    split_and!; [done..|]. apply vary_suffix_inj. rewrite !Hsuf. by rewrite Heq.
Qed.
End KeyLemmas.

(** ** Theorems *)

Section KeyTheorems.
Context `{Unicode}.

(** C23: the key encoding is injective.  Two keys with HTTP-token methods and
    URLs without raw unit separators have the same string exactly when they
    have the same method, the same canonical URL text and the same Vary
    entries: no crafted URL or header value makes the entry of one resource
    answer for another. *)
Theorem Key_String_injective k1 k2 :
  method_ok (k_method k1) → method_ok (k_method k2) → url_plain (k_u k1) → url_plain (k_u k2) →
  Key_String k1 = Key_String k2 ↔
  (k_method k1 = k_method k2 ∧ URL_String (canonicalURL (k_u k1)) = URL_String (canonicalURL (k_u k2))
   ∧ k_vary k1 = k_vary k2).
Proof.
  intros Hm1 Hm2 Hu1 Hu2. split; [by apply Key_String_inj_lemma|].
  intros (Hm & Hu & Hv). unfold Key_String. by rewrite Hm, Hu, Hv.
Qed.

(** The variants of one resource are kept apart.  Two requests select the
    same variant key of a resource with a given [Vary] exactly when, for every
    field it names, both send no line or both send the same list of lines:
    absent, empty and repeated fields are all distinguished. *)
Theorem vary_separates_variants k vary r1 r2 :
  method_ok (k_method k) → url_plain (k_u k) →
  Key_String (Key_Vary k vary r1) = Key_String (Key_Vary k vary r2) ↔
  ∀ f, f ∈ parseVary vary → field_lines (req_Header r1) f = field_lines (req_Header r2) f.
Proof.
  intros Hm Hu. split.
  - intros Heq. apply Key_String_inj_lemma in Heq as (_ & _ & Heq); [|done..]. simpl in Heq.
    apply (inj (app (k_vary k))) in Heq. intros f Hf. apply varyFieldKey_inj.
    induction (parseVary vary) as [|g fs IH]; [set_solver|]. simpl in Heq.
    injection Heq as Hg Heq. apply elem_of_cons in Hf as [->|Hf]; [by apply vary_entry_inj in Hg|auto].
  - intros Hf. unfold Key_Vary. f_equal. f_equal. f_equal. apply map_ext_in. intros f Hin%list_elem_of_In.
    do 2 f_equal. by apply varyFieldKey_inj, Hf.
Qed.
End KeyTheorems.

#[local] Existing Instance latin1_print.

Definition example_request (h : Header) : Request :=
  {| req_Method := "GET"; req_URL := example_url "/p" "q"; req_Header := h; req_Host := "h";
     req_Proto := "HTTP/1.1"; req_ProtoMajor := 1; req_ProtoMinor := 1; req_TLS := false;
     req_RequestURI := "/p?q" |}.

Lemma Key_String_injective_witness :
  let k := NewKey "GET" (example_url "/p" "q") ∅ in
  let k2 := NewKey "HEAD" (example_url "/p" "q") ∅ in
  (Key_String k = Key_String k2 ↔
   (k_method k = k_method k2 ∧ URL_String (canonicalURL (k_u k)) = URL_String (canonicalURL (k_u k2))
    ∧ k_vary k = k_vary k2)) ∧ Key_String k = "GET:/p?q"%string.
Proof.
  split; [|vm_compute; reflexivity].
  apply Key_String_injective; repeat split; vm_compute; reflexivity.
Defined.

Definition accept_a : Header := <["Accept"%string := ["a"%string]]> ∅.
Definition accept_lower : Header := <["accept"%string := ["a"%string]]> ∅.

Lemma vary_separates_variants_witness :
  (Key_String (Key_Vary (NewRequestKey (example_request ∅)) "Accept" (example_request accept_a))
   = Key_String (Key_Vary (NewRequestKey (example_request ∅)) "Accept" (example_request accept_lower)) ↔
   ∀ f, f ∈ parseVary "Accept" →
     field_lines (req_Header (example_request accept_a)) f
     = field_lines (req_Header (example_request accept_lower)) f) ∧
  field_lines accept_a "Accept" = Some ["a"%string].
Proof.
  split; [|vm_compute; reflexivity].
  apply vary_separates_variants; repeat split; vm_compute; reflexivity.
Defined.

(** Only method, URL and Vary entries enter the key: the request header
    does not, the fragment does not, and scheme and host count up to case,
    so canonicalization is idempotent and equal identities share an entry. *)
Theorem key_identity `{Unicode} m u h h' scheme host fragment vary :
  EqualFold scheme (Scheme u) = true → EqualFold host (Host u) = true →
  Key_String {| k_method := m; k_header := h; k_u := u; k_vary := vary |} =
  Key_String {| k_method := m; k_header := h'; k_u := with_origin u scheme host fragment; k_vary := vary |} ∧
  canonicalURL (canonicalURL u) = canonicalURL u.
Proof.
  intros Hs%EqualFold_true Hh%EqualFold_true. split.
  - unfold Key_String, canonicalURL; simpl. unfold with_origin; simpl. by rewrite Hs, Hh.
  - unfold canonicalURL, with_origin; simpl. by rewrite !ToLower_idemp.
Qed.

Lemma key_identity_witness :
  Key_String (NewKey "GET" (with_origin (example_url "/P" "q") "http" "example.org" EmptyString) ∅)
  = Key_String (NewKey "GET" (with_origin (example_url "/P" "q") "HTTP" "Example.ORG" "top")
      (<["Content-Location" := ["/admin"%string]]> ∅)) ∧
  canonicalURL (canonicalURL (with_origin (example_url "/P" "q") "http" "example.org" EmptyString))
  = canonicalURL (with_origin (example_url "/P" "q") "http" "example.org" EmptyString).
Proof.
  apply (key_identity (H := latin1_print) "GET"
    (with_origin (example_url "/P" "q") "http" "example.org" EmptyString)
    ∅ (<["Content-Location" := ["/admin"%string]]> ∅) "HTTP" "Example.ORG" "top" []); reflexivity.
Defined.

(** The text of [URL.String] is not free of control bytes: [RawQuery] is
    copied as it is, so a raw query built by an embedding application can
    imitate a Vary entry of another resource. *)
Example raw_query_collision :
  let u1 := example_url "/p" (String "q" (varySeparator +:+ Quote "A=x"))%string in
  let u2 := example_url "/p" "q" in
  Key_String {| k_method := "GET"; k_header := ∅; k_u := u1; k_vary := ["B=y"%string] |}
  = Key_String {| k_method := "GET"; k_header := ∅; k_u := u2; k_vary := ["A=x"; "B=y"]%string |}.
Proof. vm_compute. reflexivity. Qed.
