(* ===== verification/Resource.v ===== *)
(** * Cached resources ([resource.go])

    The [Resource] record and its methods: validation requirements, freshness
    lifetime, age, heuristics, private headers and the orderings against an
    invalidation time.  Methods that read [Clock] take the instant read. *)

From S2P Require Import Prelude GoStrings GoTime GoHttp CacheControl.
Import Headers.

Definition lastModDivisor : Z := 10.
Definition viaPseudonym : string := "httpcache".
(** [handler.go]: [ProxyDateHeader] *)
Definition ProxyDateHeader : string := "Proxy-Date".

(** [headerProvenance]: the fingerprint of the persisted header a resource was
    read with and, on a disk, what identifies its file.  The file that is kept
    open is a matter of [Lifecycle]. *)
Record headerProvenance := { pv_fingerprint : string; pv_fileInfo : option Z }.

(** [type Resource struct].  The body is its bytes; [storageGeneration] is the
    identity of a ledger generation. *)
Record Resource := {
  r_body : string;
  r_RequestTime : Time;
  r_ResponseTime : Time;
  r_header : Header;
  r_statusCode : Z;
  r_cc : option CacheControl;
  r_stale : bool;
  r_storedAt : Time;
  r_storedKey : string;
  r_storageGeneration : option nat;
  r_storageRecord : option headerProvenance;
  r_handlerStoredAt : Time;
}.

Definition NewResourceBytes (statusCode : Z) (b : string) (hdrs : Header) : Resource :=
  {| r_body := b; r_RequestTime := zero_time; r_ResponseTime := zero_time; r_header := hdrs;
     r_statusCode := statusCode; r_cc := None; r_stale := false; r_storedAt := zero_time;
     r_storedKey := EmptyString; r_storageGeneration := None; r_storageRecord := None;
     r_handlerStoredAt := zero_time |}.

Definition set_stale (b : bool) (r : Resource) : Resource :=
  {| r_body := r_body r; r_RequestTime := r_RequestTime r; r_ResponseTime := r_ResponseTime r;
     r_header := r_header r; r_statusCode := r_statusCode r; r_cc := r_cc r; r_stale := b;
     r_storedAt := r_storedAt r; r_storedKey := r_storedKey r;
     r_storageGeneration := r_storageGeneration r; r_storageRecord := r_storageRecord r;
     r_handlerStoredAt := r_handlerStoredAt r |}.

Definition set_header (h : Header) (cc : option CacheControl) (r : Resource) : Resource :=
  {| r_body := r_body r; r_RequestTime := r_RequestTime r; r_ResponseTime := r_ResponseTime r;
     r_header := h; r_statusCode := r_statusCode r; r_cc := cc; r_stale := r_stale r;
     r_storedAt := r_storedAt r; r_storedKey := r_storedKey r;
     r_storageGeneration := r_storageGeneration r; r_storageRecord := r_storageRecord r;
     r_handlerStoredAt := r_handlerStoredAt r |}.

Definition set_requestTime (t : Time) (r : Resource) : Resource :=
  {| r_body := r_body r; r_RequestTime := t; r_ResponseTime := r_ResponseTime r;
     r_header := r_header r; r_statusCode := r_statusCode r; r_cc := r_cc r; r_stale := r_stale r;
     r_storedAt := r_storedAt r; r_storedKey := r_storedKey r;
     r_storageGeneration := r_storageGeneration r; r_storageRecord := r_storageRecord r;
     r_handlerStoredAt := r_handlerStoredAt r |}.

(** ** What of a resource can be stored ([cache.go]) *)

(** [expectedBodySize] *)
Definition expectedBodySize (h : Header) : option Z :=
  match ParseInt (Get h "Content-Length") with
  | Some length => if length <? 0 then None else Some length
  | None => None
  end.

(** [io.LimitReader] of a size that is not negative. *)
Definition str_take (n : Z) (s : string) : string := String.substring 0 (Z.to_nat (Z.min n (str_len s))) s.

(** The bytes of the body that are stored: those its [Content-Length] declares. *)
Definition stored_body (res : Resource) : string :=
  match expectedBodySize (r_header res) with Some n => str_take n (r_body res) | None => r_body res end.

(** ** The methods *)

Definition IsNonErrorStatus (r : Resource) : bool := (200 <=? r_statusCode r) && (r_statusCode r <? 400).
Definition MarkStale (r : Resource) : Resource := set_stale true r.
Definition markFresh (r : Resource) : Resource := set_stale false r.

(** [Resource.SetStoredAt] *)
Definition SetStoredAt (t : Time) (r : Resource) : Resource :=
  {| r_body := r_body r; r_RequestTime := r_RequestTime r; r_ResponseTime := r_ResponseTime r;
     r_header := r_header r; r_statusCode := r_statusCode r; r_cc := r_cc r; r_stale := r_stale r;
     r_storedAt := t; r_storedKey := r_storedKey r;
     r_storageGeneration := r_storageGeneration r; r_storageRecord := r_storageRecord r;
     r_handlerStoredAt := r_handlerStoredAt r |}.

(** [Resource.cacheControl]: the memoized map, else the parsed headers.
    [memo_cc] is its effect on the resource. *)
Definition cacheControl (r : Resource) : option CacheControl :=
  match r_cc r with
  | Some cc => Some cc
  | None => ParseCacheControlHeaders (r_header r)
  end.

Definition memo_cc (r : Resource) : Resource := set_header (r_header r) (cacheControl r) r.

Definition MustValidate (r : Resource) (shared : bool) : bool :=
  match cacheControl r with
  | None => true
  | Some cc =>
      if cc_Has cc "s-maxage" && shared then true
      else cc_Has cc "must-revalidate" || (cc_Has cc "proxy-revalidate" && shared)
  end.

Definition expiresValue (r : Resource) : string * bool :=
  match matching_names (r_header r) "Expires" with
  | [] => (EmptyString, false)
  | _ => (combinedHeaderValues (r_header r) "Expires", true)
  end.

Definition hasExplicitExpiration (r : Resource) (shared : bool) : bool :=
  match cacheControl r with
  | None => false
  | Some cc =>
      if cc_Has cc "max-age" then true
      else if shared && cc_Has cc "s-maxage" then true
      else snd (expiresValue r)
  end.

Definition HasExplicitExpiration (r : Resource) : bool := hasExplicitExpiration r true.

Definition HasValidators (r : Resource) : bool :=
  nonempty (Get (r_header r) "Last-Modified") || nonempty (Get (r_header r) "Etag").

(** [Resource.RemovePrivateHeaders] *)
Definition RemovePrivateHeaders (r : Resource) : Resource :=
  let private := match cacheControl r with Some cc => cc_index cc "private" | None => [] end in
  set_header (foldl Del (r_header r) private) (cacheControl r) r.

Definition Via (r : Resource) : string := Join [("1.1 " +:+ viaPseudonym)%string] ",".

Section Dates.
Context `{HttpDate}.

Definition LastModified (r : Resource) : Time :=
  let lastModHeader := Get (r_header r) "Last-Modified" in
  if nonempty lastModHeader then default zero_time (ParseTime lastModHeader) else zero_time.

(** [Resource.Expires]: [None] is the parse error. *)
Definition Expires (r : Resource) : option Time :=
  let expires := Get (r_header r) "Expires" in
  if nonempty expires then ParseTime expires else Some zero_time.

Definition DateAfter (r : Resource) (d : Time) : bool :=
  let dateHeader := Get (r_header r) "Date" in
  if nonempty dateHeader then
    match ParseTime dateHeader with None => false | Some t => After t d end
  else false.

Definition ReceivedAfter (r : Resource) (d : Time) : bool :=
  if negb (IsZero (r_RequestTime r)) then After (r_RequestTime r) d
  else match timeHeader ProxyDateHeader (r_header r) with
       | Some t => After t d
       | None => DateAfter r d
       end.

Definition StoredAfter (r : Resource) (d : Time) : bool :=
  if negb (IsZero (r_storedAt r)) then After (r_storedAt r) d else ReceivedAfter r d.

(** [Resource.Age], [None] when it cannot be calculated. *)
Definition Age (now : Time) (r : Resource) : option Duration :=
  let age := match intHeader "Age" (r_header r) with
             | Some ageInt => dur_mul second ageInt
             | None => 0
             end in
  match timeHeader ProxyDateHeader (r_header r) with
  | Some proxyDate => Some (dur_add (Sub now proxyDate) age)
  | None =>
      match timeHeader "Date" (r_header r) with
      | Some date => Some (dur_add (Sub now date) age)
      | None => None
      end
  end.

Definition MaxAge (now : Time) (r : Resource) (shared : bool) : option Duration :=
  match cacheControl r with
  | None => None
  | Some cc =>
      if cc_Has cc "s-maxage" && shared then cc_Duration cc "s-maxage"
      else if cc_Has cc "max-age" then cc_Duration cc "max-age"
      else
        let '(expiresVal, present) := expiresValue r in
        if present : bool then
          match ParseTime expiresVal with
          | None => Some 0
          | Some expires =>
              let date := match timeHeader "Date" (r_header r) with
                          | Some d => d
                          | None => match timeHeader ProxyDateHeader (r_header r) with
                                    | Some d => d
                                    | None => now
                                    end
                          end in
              Some (Sub expires date)
          end
        else Some 0
  end.

Definition heuristicFreshness (now : Time) (r : Resource) (shared : bool) : Duration :=
  if negb (hasExplicitExpiration r shared) && nonempty (Get (r_header r) "Last-Modified")
  then Z.quot (Sub now (LastModified r)) lastModDivisor
  else 0.

Definition HeuristicFreshness (now : Time) (r : Resource) : Duration := heuristicFreshness now r true.
End Dates.

(** ** Lemmas *)

Lemma ParseCacheControlHeaders_total h : ∃ cc, ParseCacheControlHeaders h = Some cc ∧ cc_wf cc.
Proof.
  destruct (parse_loop_enough (String.length (Join (combined_values h CacheControlHeader) ", "))
    (String.length (Join (combined_values h CacheControlHeader) ", "))
    (Join (combined_values h CacheControlHeader) ", ") false EmptyString ∅) as [_ (cc & Hcc & Hwf)];
    [lia..|apply cc_wf_empty|]. by exists cc.
Qed.

(** The error branches of the callers of [cacheControl] are dead code. *)
Lemma cacheControl_total r : is_Some (cacheControl r).
Proof.
  unfold cacheControl. destruct (r_cc r); [done|].
  destruct (ParseCacheControlHeaders_total (r_header r)) as (cc & -> & _). done.
Qed.

Lemma cacheControl_memo r : cacheControl (memo_cc r) = cacheControl r.
Proof.
  unfold memo_cc, cacheControl at 1; simpl. destruct (cacheControl_total r) as [cc ->]. done.
Qed.

Lemma Age_int64 `{HttpDate} now r a : Age now r = Some a → int64 a.
Proof.
  unfold Age. repeat case_match; intros [= <-]; apply wrap64_int64.
Qed.

Lemma Sub_bounds t u : int64 (Sub t u).
Proof. apply Sub_int64. Qed.

Lemma foldl_Del_keeps h ks k v :
  foldl Del h ks !! k = Some v → h !! k = Some v ∧ k ∉ map CanonicalHeaderKey ks.
Proof.
  revert h. induction ks as [|k0 ks IH]; intros h; simpl; [set_solver|].
  intros [Hd Hk]%IH. unfold Del in Hd.
  destruct (decide (CanonicalHeaderKey k0 = k)) as [<-|Hne].
  - by rewrite lookup_delete_eq in Hd.
  - rewrite lookup_delete_ne in Hd by done. set_solver.
Qed.

Lemma foldl_Del_other h ks k :
  k ∉ map CanonicalHeaderKey ks → foldl Del h ks !! k = h !! k.
Proof.
  revert h. induction ks as [|k0 ks IH]; intros h; simpl; [done|].
  intros Hk. rewrite IH by set_solver. unfold Del. rewrite lookup_delete_ne by set_solver. done.
Qed.

(** ** Theorems *)

Section ResourceTheorems.
Context `{D : HttpDate, L : !HttpDateLaws D}.

(** The resource received at [t] and stamped as the handler stamps it. *)
Definition stamped (t : Time) (r : Resource) : Prop :=
  Get (r_header r) ProxyDateHeader = FormatTime t.

Lemma timeHeader_stamped t h key :
  0 ≤ t < max_http_time → Get h key = FormatTime t →
  timeHeader key h = Some (t - t mod second).
Proof.
  intros Ht Hget. unfold timeHeader. rewrite Hget, format_nonempty, parse_format by done. done.
Qed.

(** The second granularity of the Proxy-Date stamp rounds in the safe
    direction.  A response with no precise times, received at [t], is judged
    newer than an invalidation at [d] only if it really came after it; and it
    is so judged as soon as it came a full second later. *)
Theorem ReceivedAfter_safe_rounding t d r :
  0 ≤ t < max_http_time → stamped t r →
  r_RequestTime r = zero_time → r_storedAt r = zero_time →
  (StoredAfter r d = true → d < t) ∧ (d + second ≤ t → StoredAfter r d = true).
Proof using L.
  intros Ht Hs Hreq Hst. unfold StoredAfter, ReceivedAfter. rewrite Hreq, Hst; simpl.
  rewrite (timeHeader_stamped t) by done. rewrite After_true.
  pose proof (Z.mod_pos_bound t second ltac:(done)). lia.
Qed.

(** The age of a stored response never understates the time it has spent
    in the cache.  A response stamped at [t], with an [Age] header of [n]
    seconds (none is 0), has at any later instant an age of at least [n]
    seconds plus the time elapsed, less than a second more, and the 64-bit
    arithmetic does not overflow. *)
Theorem Age_accounts_for_residence t n now r :
  0 ≤ t ≤ now → now < max_http_time → now - t < 10 ^ 18 → stamped t r →
  0 ≤ n ≤ 8000000000 → default 0 (intHeader "Age" (r_header r)) = n →
  ∃ a, Age now r = Some a ∧ n * second + (now - t) ≤ a < n * second + (now - t) + second.
Proof using L.
  intros Ht Hnow Hres Hs Hn Hage. unfold Age. rewrite (timeHeader_stamped t) by (done || lia).
  assert (match intHeader "Age" (r_header r) with Some ageInt => dur_mul second ageInt | None => 0 end
          = n * second) as ->.
  { destruct (intHeader "Age" (r_header r)) as [i|]; simpl in Hage; subst n.
    - unfold dur_mul. rewrite wrap64_id; unfold int64, min_int64, max_int64, second; lia.
    - done. }
  pose proof (Z.mod_pos_bound t second ltac:(done)) as Hmod.
  eexists. split; [done|]. unfold dur_add.
  rewrite Sub_exact by (unfold int64, min_int64, max_int64; unfold second in *; lia).
  rewrite wrap64_id by (unfold int64, min_int64, max_int64; unfold second in *; lia). lia.
Qed.

(** A heuristic lifetime past any response: when [Last-Modified] does not
    parse, [LastModified] is the zero time and the difference saturates. *)
Lemma heuristic_unparseable now r shared :
  hasExplicitExpiration r shared = false → nonempty (Get (r_header r) "Last-Modified") = true →
  ParseTime (Get (r_header r) "Last-Modified") = None → 2 ^ 63 ≤ now →
  heuristicFreshness now r shared = Z.quot max_int64 10.
Proof.
  intros Hexp Hlm Hp Hnow. unfold heuristicFreshness, LastModified. rewrite Hexp, Hlm, Hp; simpl.
  f_equal. unfold Sub, zero_time, max_int64, min_int64. lia.
Qed.
End ResourceTheorems.

(** The private field list is honoured value by value: after
    [RemovePrivateHeaders] no field whose name is a [private] value is left,
    every other field is untouched, and the directives themselves are those
    parsed before the removal. *)
Theorem RemovePrivateHeaders_spec r cc :
  cacheControl r = Some cc →
  (∀ p, p ∈ cc_index cc "private" → r_header (RemovePrivateHeaders r) !! CanonicalHeaderKey p = None) ∧
  (∀ k, k ∉ map CanonicalHeaderKey (cc_index cc "private") →
        r_header (RemovePrivateHeaders r) !! k = r_header r !! k) ∧
  cacheControl (RemovePrivateHeaders r) = Some cc.
Proof.
  intros Hcc. unfold RemovePrivateHeaders. rewrite Hcc; simpl. split_and!; [| |done].
  - intros p Hp. destruct (foldl Del (r_header r) _ !! _) eqn:E; [|done].
    apply foldl_Del_keeps in E as [_ E]. destruct E. apply list_elem_of_In, in_map, list_elem_of_In. done.
  - intros k Hk. by apply foldl_Del_other.
Qed.

Definition private_response (directive : string) : Resource :=
  NewResourceBytes 200 EmptyString
    (<["Cache-Control" := [directive]]> (<["Set-Cookie" := ["sid=1"]]> (<["Etag" := ["v"]]> ∅)))%string.

Lemma RemovePrivateHeaders_spec_witness :
  let cc := (<["max-age" := ["60"]]> (<["private" := ["set-cookie"]]> ∅))%string in
  let r := private_response "max-age=60, private=set-cookie" in
  cacheControl r = Some cc ∧
  (∀ p, p ∈ cc_index cc "private" → r_header (RemovePrivateHeaders r) !! CanonicalHeaderKey p = None) ∧
  (∀ k, k ∉ map CanonicalHeaderKey (cc_index cc "private") →
        r_header (RemovePrivateHeaders r) !! k = r_header r !! k) ∧
  cacheControl (RemovePrivateHeaders r) = Some cc.
Proof.
  intros cc r. assert (cacheControl r = Some cc) as H by (vm_compute; reflexivity).
  split; [exact H|]. apply RemovePrivateHeaders_spec. exact H.
Defined.

(** A quoted list of several names is one value, whose spelling is no header
    name: the field survives in the response a shared cache stores. *)
Example private_list_keeps_cookie :
  Get (r_header (RemovePrivateHeaders
    (private_response ("max-age=60, private=" +:+ String dquote ("set-cookie, x-user" +:+ str1 dquote)))))
    "Set-Cookie" = "sid=1"%string.
Proof. vm_compute. reflexivity. Qed.

Definition stamped_example (extra : Header) : Resource :=
  NewResourceBytes 200 EmptyString
    (<[ProxyDateHeader := [@FormatTime stamp_date example_now]]> extra).

Lemma ReceivedAfter_safe_rounding_witness :
  let r := stamped_example ∅ in
  0 ≤ example_now < max_http_time ∧ @stamped stamp_date example_now r ∧
  (@StoredAfter stamp_date r (example_now - 1) = true → example_now - 1 < example_now) ∧
  (example_now - second + second ≤ example_now → @StoredAfter stamp_date r (example_now - second) = true).
Proof.
  intros r. assert (0 ≤ example_now < max_http_time) as Ht by (split; vm_compute; congruence).
  assert (@stamped stamp_date example_now r) as Hs by (vm_compute; reflexivity).
  split; [exact Ht|]. split; [exact Hs|]. split.
  - apply (proj1 (@ReceivedAfter_safe_rounding stamp_date stamp_date_laws example_now (example_now - 1)
      r Ht Hs eq_refl eq_refl)).
  - apply (proj2 (@ReceivedAfter_safe_rounding stamp_date stamp_date_laws example_now
      (example_now - second) r Ht Hs eq_refl eq_refl)).
Defined.

Lemma Age_accounts_for_residence_witness :
  let r := stamped_example (<["Age" := ["7"]]> ∅)%string in
  ∃ a, @Age stamp_date (example_now + 5 * second) r = Some a ∧
       7 * second + (example_now + 5 * second - example_now) ≤ a
       < 7 * second + (example_now + 5 * second - example_now) + second.
Proof.
  intros r.
  apply (@Age_accounts_for_residence stamp_date stamp_date_laws example_now 7 (example_now + 5 * second) r);
    try (split; vm_compute; congruence); vm_compute; reflexivity.
Defined.

Example heuristic_garbage_date :
  @heuristicFreshness stamp_date example_now
    (NewResourceBytes 200 EmptyString (<["Last-Modified" := ["yesterday"]]> ∅)%string) true
  = Z.quot max_int64 10.
Proof. vm_compute. reflexivity. Qed.
