(* ===== verification/Config.v ===== *)
(** * Cache configuration ([cache_config.go]) *)

From S2P Require Import Prelude GoStrings GoTime.

(** [integrity.go]: [IntegrityMode] *)
Inductive IntegrityMode := IntegrityDisabled | IntegritySHA256.

Definition DefaultMaxCacheSize : Z := 10 * 1024 * 1024 * 1024.
Definition DefaultCacheTTL : Duration := 7 * 24 * hour.
Definition DefaultCleanupInterval : Duration := 1 * hour.
Definition DefaultStaleMapTTL : Duration := 24 * hour.

(** [type CacheConfig struct]; the staging budget is an object of the
    application, modelled with the staging code. *)
Record CacheConfig := {
  Integrity : IntegrityMode;
  DisableStagingSweep : bool;
  MaxSize : Z;
  TTL : Duration;
  CleanupInterval : Duration;
  StaleMapTTL : Duration;
}.

Definition DefaultCacheConfig : CacheConfig :=
  {| Integrity := IntegrityDisabled; DisableStagingSweep := false; MaxSize := DefaultMaxCacheSize;
     TTL := DefaultCacheTTL; CleanupInterval := DefaultCleanupInterval;
     StaleMapTTL := DefaultStaleMapTTL |}.

Definition with_limits (c : CacheConfig) (maxSize ttl interval staleTTL : Z) : CacheConfig :=
  {| Integrity := Integrity c; DisableStagingSweep := DisableStagingSweep c; MaxSize := maxSize;
     TTL := ttl; CleanupInterval := interval; StaleMapTTL := staleTTL |}.

Definition WithMaxSize (c : CacheConfig) (size : Z) : CacheConfig :=
  with_limits c size (TTL c) (CleanupInterval c) (StaleMapTTL c).
Definition WithTTL (c : CacheConfig) (ttl : Duration) : CacheConfig :=
  with_limits c (MaxSize c) ttl (CleanupInterval c) (StaleMapTTL c).
Definition WithCleanupInterval (c : CacheConfig) (interval : Duration) : CacheConfig :=
  with_limits c (MaxSize c) (TTL c) interval (StaleMapTTL c).
Definition WithStaleMapTTL (c : CacheConfig) (ttl : Duration) : CacheConfig :=
  with_limits c (MaxSize c) (TTL c) (CleanupInterval c) ttl.

Definition Validate (c : CacheConfig) : CacheConfig :=
  with_limits c
    (if MaxSize c <? 0 then 0 else MaxSize c)
    (if TTL c <? 0 then 0 else TTL c)
    (if CleanupInterval c <? 0 then 0 else CleanupInterval c)
    (if StaleMapTTL c <=? 0 then DefaultStaleMapTTL else StaleMapTTL c).

(** [cache.go]: [staleRetention] *)
Definition staleRetention (c : CacheConfig) : Duration :=
  if TTL c <=? 0 then 0 else Z.max (StaleMapTTL c) (TTL c).

(** What the constructors rely on after [Validate]. *)
Record config_ok (c : CacheConfig) : Prop := {
  config_maxsize : 0 ≤ MaxSize c;
  config_ttl : 0 ≤ TTL c;
  config_interval : 0 ≤ CleanupInterval c;
  config_stale : 0 < StaleMapTTL c;
}.

(** ** Lemmas *)

Lemma Validate_ok c : config_ok (Validate c).
Proof.
  unfold Validate. split; simpl; case_match eqn:E; unbool; try lia. done.
Qed.

Lemma Validate_id c : config_ok c → Validate c = c.
Proof.
  intros [H1 H2 H3 H4]. unfold Validate, with_limits.
  rewrite (proj2 (Z.ltb_ge (MaxSize c) 0)), (proj2 (Z.ltb_ge (TTL c) 0)),
    (proj2 (Z.ltb_ge (CleanupInterval c) 0)), (proj2 (Z.leb_gt (StaleMapTTL c) 0)) by done.
  by destruct c.
Qed.

Lemma staleRetention_ge c : 0 < TTL c → TTL c ≤ staleRetention c.
Proof. intros H. unfold staleRetention. rewrite (proj2 (Z.leb_gt _ _)) by done. lia. Qed.

(** C40: [Validate] normalises any configuration and changes nothing in a
    valid one: no negative limit is left, the marker retention is positive,
    and validating twice is validating once. *)
Theorem Validate_normalises c :
  config_ok (Validate c) ∧ Validate (Validate c) = Validate c ∧ (config_ok c → Validate c = c).
Proof.
  split; [apply Validate_ok|]. split; [apply Validate_id, Validate_ok|apply Validate_id].
Qed.
