(* ===== verification/Vfs.v ===== *)
(** * The virtual file system the cache is built on

    [vfs.VFS] is an interface of a third-party package, implemented by the
    application: its operations are those of the class [VFS], over an abstract
    file system state.  [VFSLaws] states what the cache relies on of them.
    [mem_fs] is a concrete instance, a map of files with a set of paths whose
    removal or writing fails. *)

From S2P Require Import Prelude GoStrings.

Inductive open_result := Opened (contents : string) | OpenNotExist | OpenFailed.
Inductive remove_result := Removed | RemoveNotExist | RemoveFailed.
(** [WriteRefused]: [OpenFile] failed, the file is as before.
    [WriteBroken]: the file was opened, hence truncated, and the copy or the
    close failed. *)
Inductive write_result := Written | WriteRefused | WriteBroken.

#[export] Instance open_result_eq_dec : EqDecision open_result.
Proof. solve_decision. Defined.
#[export] Instance remove_result_eq_dec : EqDecision remove_result.
Proof. solve_decision. Defined.
#[export] Instance write_result_eq_dec : EqDecision write_result.
Proof. solve_decision. Defined.

Class VFS := {
  fs_state : Type;
  fs_open : fs_state → string → open_result;
  fs_remove : string → fs_state → remove_result * fs_state;
  fs_write : string → string → fs_state → write_result * fs_state;
  (* what [os.SameFile] compares of the file that has a name, if [Stat] gives it *)
  fs_identity : fs_state → string → option Z;
}.

Class VFSLaws (V : VFS) : Prop := {
  remove_gone : ∀ p f r f', fs_remove p f = (r, f') → r ≠ RemoveFailed → fs_open f' p = OpenNotExist;
  remove_failed : ∀ p f f', fs_remove p f = (RemoveFailed, f') → fs_open f' p = fs_open f p;
  remove_other : ∀ p q f r f', fs_remove p f = (r, f') → q ≠ p → fs_open f' q = fs_open f q;
  write_done : ∀ p s f f', fs_write p s f = (Written, f') → fs_open f' p = Opened s;
  write_refused : ∀ p s f f', fs_write p s f = (WriteRefused, f') → fs_open f' p = fs_open f p;
  write_other : ∀ p q s f r f', fs_write p s f = (r, f') → q ≠ p → fs_open f' q = fs_open f q;
  (* a write cut short leaves the beginning of the contents, or a file that
     does not open *)
  write_broken : ∀ p s f f', fs_write p s f = (WriteBroken, f') →
    fs_open f' p = OpenFailed ∨ ∃ s1 s2, s = (s1 +:+ s2)%string ∧ fs_open f' p = Opened s1;
  identity_opened : ∀ p s f, fs_open f p = Opened s → is_Some (fs_identity f p);
}.

(** Files of the operating system under the root of a disk cache, seen by
    the names they have in the virtual file system above it: what
    [os.CreateTemp], [File.Write], [File.Sync], [File.Close], [os.Rename]
    and [os.Remove] do.  A false result is an error. *)
Class OsFiles (V : VFS) := {
  os_create_temp : string → fs_state → option string * fs_state;
  os_write : string → string → fs_state → bool * fs_state;
  os_sync : string → fs_state → bool * fs_state;
  os_close : string → fs_state → bool * fs_state;
  os_rename : string → string → fs_state → bool * fs_state;
  os_remove : string → fs_state → bool * fs_state;
}.

Class OsFilesLaws (V : VFS) (O : OsFiles V) : Prop := {
  create_temp_name : ∀ pat f t f', os_create_temp pat f = (Some t, f') → ∃ x, t = (pat +:+ x)%string;
  create_temp_fresh : ∀ pat f t f', os_create_temp pat f = (Some t, f') → fs_open f t = OpenNotExist;
  create_temp_other : ∀ pat f o f' q, os_create_temp pat f = (o, f') → o ≠ Some q → fs_open f' q = fs_open f q;
  os_write_done : ∀ t s f f', os_write t s f = (true, f') → fs_open f' t = Opened s;
  os_write_other : ∀ t s f b f' q, os_write t s f = (b, f') → q ≠ t → fs_open f' q = fs_open f q;
  os_sync_same : ∀ t f q, fs_open (os_sync t f).2 q = fs_open f q;
  os_close_same : ∀ t f q, fs_open (os_close t f).2 q = fs_open f q;
  os_rename_done : ∀ a b f f', os_rename a b f = (true, f') → fs_open f' b = fs_open f a;
  os_rename_other : ∀ a b f f' q, os_rename a b f = (true, f') → q ≠ a → q ≠ b → fs_open f' q = fs_open f q;
  os_rename_failed : ∀ a b f f' q, os_rename a b f = (false, f') → fs_open f' q = fs_open f q;
  os_remove_other : ∀ a f q, q ≠ a → fs_open (os_remove a f).2 q = fs_open f q;
}.

(** ** A concrete file system *)

Record mem_state := {
  files : gmap string string;
  unremovable : gset string;
  unwritable : gset string;
  (* paths whose next writes break after the file is truncated *)
  torn : gset string;
}.

Definition mem_with (f : mem_state) (m : gmap string string) : mem_state :=
  {| files := m; unremovable := unremovable f; unwritable := unwritable f; torn := torn f |}.

Definition mem_fs : VFS := {|
  fs_state := mem_state;
  fs_open f p := match files f !! p with Some s => Opened s | None => OpenNotExist end;
  fs_remove p f :=
    if bool_decide (p ∈ unremovable f) then (RemoveFailed, f)
    else match files f !! p with
         | Some _ => (Removed, mem_with f (delete p (files f)))
         | None => (RemoveNotExist, f)
         end;
  fs_write p s f :=
    if bool_decide (p ∈ unwritable f) then (WriteRefused, f)
    else if bool_decide (p ∈ torn f) then (WriteBroken, mem_with f (<[p := EmptyString]> (files f)))
    else (Written, mem_with f (<[p := s]> (files f)));
  fs_identity f p := (λ _, Zpos (encode p)) <$> files f !! p;
|}.

Definition mem_empty : mem_state :=
  {| files := ∅; unremovable := ∅; unwritable := ∅; torn := ∅ |}.

Lemma mem_fs_laws : VFSLaws mem_fs.
Proof.
  split; simpl.
  - intros p f r f'. case_bool_decide; [by intros [= <- <-]|].
    destruct (files f !! p) eqn:E; intros [= <- <-] _; simpl; [by rewrite lookup_delete_eq|by rewrite E].
  - intros p f f'. case_bool_decide; [by intros [= <-]|]. by destruct (files f !! p).
  - intros p q f r f'. case_bool_decide; [by intros [= <- <-]|].
    destruct (files f !! p) eqn:E; intros [= <- <-] Hne; simpl; [by rewrite lookup_delete_ne|done].
  - intros p s f f'. repeat case_bool_decide; intros [= <-]; simpl. by rewrite lookup_insert_eq.
  - intros p s f f'. repeat case_bool_decide; by intros [= <-].
  - intros p q s f r f'. repeat case_bool_decide; intros [= <- <-] Hne; simpl; [done|..];
      by rewrite lookup_insert_ne.
  - intros p s f f'. repeat case_bool_decide; intros [= <-]; simpl. right. exists EmptyString, s.
    by rewrite lookup_insert_eq.
  - intros p s f. destruct (files f !! p); [by eexists|done].
Qed.

(** A file system on which every operation succeeds. *)
Definition plain_fs : VFS := {|
  fs_state := gmap string string;
  fs_open f p := match f !! p with Some s => Opened s | None => OpenNotExist end;
  fs_remove p f := (match f !! p with Some _ => Removed | None => RemoveNotExist end, delete p f);
  fs_write p s f := (Written, <[p := s]> f);
  fs_identity f p := (λ _, Zpos (encode p)) <$> f !! p;
|}.

Lemma plain_fs_laws : VFSLaws plain_fs.
Proof.
  split; simpl.
  - intros p f r f' [= <- <-] _. by rewrite lookup_delete_eq.
  - intros p f f'. by destruct (f !! p).
  - intros p q f r f' [= <- <-] Hne. by rewrite lookup_delete_ne.
  - intros p s f f' [= <-]. by rewrite lookup_insert_eq.
  - done.
  - intros p q s f r f' [= <- <-] Hne. by rewrite lookup_insert_ne.
  - done.
  - intros p s f. destruct (f !! p); [by eexists|done].
Qed.

(** The operating system below a map of files: writing to a path of [torn]
    fails, so does renaming onto a path of [unwritable]. *)
Fixpoint zeros (n : nat) : string := match n with O => EmptyString | S n => String "0" (zeros n) end.
Definition max_length (l : list string) : nat := foldr (λ s n, Nat.max (String.length s) n) O l.
(** A suffix that makes any name longer than those of the files. *)
Definition fresh_suffix (m : gmap string string) : string := zeros (S (max_length (elements (dom m)))).

Lemma zeros_length n : String.length (zeros n) = n.
Proof. induction n as [|n IH]; simpl; congruence. Qed.

Lemma max_length_le l s : s ∈ l → (String.length s ≤ max_length l)%nat.
Proof. induction l as [|x l IH]; [by intros ?%elem_of_nil|]. simpl. intros [->|Hs%IH]%elem_of_cons; lia. Qed.

Lemma fresh_suffix_fresh m pat : m !! (pat +:+ fresh_suffix m)%string = None.
Proof.
  apply not_elem_of_dom. intros Hin%elem_of_elements%max_length_le.
  rewrite str_length_app in Hin. unfold fresh_suffix in Hin at 1. rewrite zeros_length in Hin. lia.
Qed.

Definition mem_create_temp (pat : string) (f : mem_state) : option string * mem_state :=
  let t := (pat +:+ fresh_suffix (files f))%string in (Some t, mem_with f (<[t := EmptyString]> (files f))).
Definition mem_write (t s : string) (f : mem_state) : bool * mem_state :=
  if bool_decide (torn f = ∅) then (true, mem_with f (<[t := s]> (files f))) else (false, f).
Definition mem_rename (a b : string) (f : mem_state) : bool * mem_state :=
  if bool_decide (b ∈ unwritable f) then (false, f)
  else match files f !! a with
       | Some s => (true, mem_with f (<[b := s]> (delete a (files f))))
       | None => (false, f)
       end.
Definition mem_remove (a : string) (f : mem_state) : bool * mem_state :=
  (bool_decide (is_Some (files f !! a)), mem_with f (delete a (files f))).

Definition mem_os : OsFiles mem_fs :=
  @Build_OsFiles mem_fs mem_create_temp mem_write (λ _ f, (true, f)) (λ _ f, (true, f)) mem_rename mem_remove.

Lemma mem_os_laws : OsFilesLaws mem_fs mem_os.
Proof.
  split; simpl; unfold mem_create_temp, mem_write, mem_rename, mem_remove.
  - intros pat f t f' [= <- <-]. by eexists.
  - intros pat f t f' [= <- <-].
    by rewrite fresh_suffix_fresh.
  - intros pat f o f' q [= <- <-] Hq. simpl. rewrite lookup_insert_ne; congruence.
  - intros t s f f'. case_bool_decide; intros [= <-]; simpl. by rewrite lookup_insert_eq.
  - intros t s f b f' q. case_bool_decide; intros [= <- <-] Hne; simpl; [|done]. by rewrite lookup_insert_ne.
  - done.
  - done.
  - intros a b f f'. case_bool_decide; [done|]. destruct (files f !! a) eqn:E; intros [= <-]; simpl.
    by rewrite lookup_insert_eq.
  - intros a b f f' q. case_bool_decide; [done|]. destruct (files f !! a) eqn:E; intros [= <-] Ha Hb; simpl.
    by rewrite lookup_insert_ne, lookup_delete_ne.
  - intros a b f f' q. case_bool_decide; [by intros [= <-]|]. by destruct (files f !! a); intros [= <-].
  - intros a f q Hne. by rewrite lookup_delete_ne.
Qed.
