(* ===== verification/CacheState.v ===== *)
(** * The state of the cache ([cache.go])

    One record holds the fields of [type cache struct] that the operations
    change; locks are not part of it, the order they impose is the order of
    the steps.  A tracked entry is an object shared by [lruList] and
    [lruIndex]: it is named by its hashed key in both, the code creating an
    entry only under a hashed key the index does not hold. *)

From S2P Require Import Prelude GoStrings GoTime Config Vfs.

Definition headerPrefix : string := "header/".
Definition bodyPrefix : string := "body/".
Definition formatPrefix : string := "v1/".
Definition stagingPrefix : string := "staging/".

(** [hashKey]: FNV-1a, 64 bits, in hexadecimal. *)
Definition fnv_step (h : Z) (c : ascii) : Z := (Z.lxor h (byte_val c) * 1099511628211) mod 2 ^ 64.
Fixpoint fnv (s : string) (h : Z) : Z :=
  match s with EmptyString => h | String c s => fnv s (fnv_step h c) end.
(** [%x] of the eight bytes of the sum: two digits per byte. *)
Definition hashKey (key : string) : string := hex_fixed 16 (fnv key 14695981039346656037).

Definition bodyPath (hashed : string) : string := (bodyPrefix +:+ formatPrefix +:+ hashed)%string.
Definition headerPath (hashed : string) : string := (headerPrefix +:+ formatPrefix +:+ hashed)%string.

(** [type cacheEntry struct]; [e_generation] is the identity of the
    [cacheGeneration] object, [None] for nil. *)
Record cacheEntry := {
  e_key : string;
  e_hashedKey : string;
  e_size : Z;
  e_storedAt : Time;
  e_accessedAt : Time;
  e_generation : option nat;
}.

(** [type CacheStats struct] *)
Record CacheStats := {
  TotalSize : Z;
  ItemCount : Z;
  StaleCount : Z;
  HitCount : Z;
  MissCount : Z;
}.

Section State.
Context `{VFS}.

(** [type cache struct].  [nextGeneration] names the next generation object,
    [evictions] is the log of [RecordCacheEviction]. *)
Record cache := {
  c_fs : fs_state;
  config : CacheConfig;
  diskRoot : string;
  stale : gmap string Time;
  staleGeneration : Z;
  lruList : list string;
  lruIndex : gmap string cacheEntry;
  totalSize : Z;
  reservations : gmap string Z;
  reservedSize : Z;
  nextGeneration : nat;
  hitCount : Z;
  missCount : Z;
  evictions : list string;
}.

Definition new_cache (f : fs_state) (cfg : CacheConfig) (root : string) : cache :=
  {| c_fs := f; config := cfg; diskRoot := root; stale := ∅; staleGeneration := 0;
     lruList := []; lruIndex := ∅; totalSize := 0; reservations := ∅; reservedSize := 0;
     nextGeneration := 0; hitCount := 0; missCount := 0; evictions := [] |}.

(** Field updates. *)
Definition set_fs (f : fs_state) (c : cache) : cache :=
  {| c_fs := f; config := config c; diskRoot := diskRoot c; stale := stale c;
     staleGeneration := staleGeneration c; lruList := lruList c; lruIndex := lruIndex c;
     totalSize := totalSize c; reservations := reservations c; reservedSize := reservedSize c;
     nextGeneration := nextGeneration c; hitCount := hitCount c; missCount := missCount c;
     evictions := evictions c |}.

Definition set_stale_map (m : gmap string Time) (g : Z) (c : cache) : cache :=
  {| c_fs := c_fs c; config := config c; diskRoot := diskRoot c; stale := m;
     staleGeneration := g; lruList := lruList c; lruIndex := lruIndex c;
     totalSize := totalSize c; reservations := reservations c; reservedSize := reservedSize c;
     nextGeneration := nextGeneration c; hitCount := hitCount c; missCount := missCount c;
     evictions := evictions c |}.

Definition set_lru (l : list string) (m : gmap string cacheEntry) (total : Z) (next : nat) (c : cache) : cache :=
  {| c_fs := c_fs c; config := config c; diskRoot := diskRoot c; stale := stale c;
     staleGeneration := staleGeneration c; lruList := l; lruIndex := m;
     totalSize := total; reservations := reservations c; reservedSize := reservedSize c;
     nextGeneration := next; hitCount := hitCount c; missCount := missCount c;
     evictions := evictions c |}.

Definition set_reservations (m : gmap string Z) (reserved : Z) (c : cache) : cache :=
  {| c_fs := c_fs c; config := config c; diskRoot := diskRoot c; stale := stale c;
     staleGeneration := staleGeneration c; lruList := lruList c; lruIndex := lruIndex c;
     totalSize := totalSize c; reservations := m; reservedSize := reserved;
     nextGeneration := nextGeneration c; hitCount := hitCount c; missCount := missCount c;
     evictions := evictions c |}.

Definition set_stats (hits misses : Z) (ev : list string) (c : cache) : cache :=
  {| c_fs := c_fs c; config := config c; diskRoot := diskRoot c; stale := stale c;
     staleGeneration := staleGeneration c; lruList := lruList c; lruIndex := lruIndex c;
     totalSize := totalSize c; reservations := reservations c; reservedSize := reservedSize c;
     nextGeneration := nextGeneration c; hitCount := hits; missCount := misses;
     evictions := ev |}.

Definition RecordCacheEviction (reason : string) (c : cache) : cache :=
  set_stats (hitCount c) (missCount c) (evictions c ++ [reason]) c.
Definition recordHit (c : cache) : cache := set_stats (hitCount c + 1) (missCount c) (evictions c) c.
Definition recordMiss (c : cache) : cache := set_stats (hitCount c) (missCount c + 1) (evictions c) c.

Definition Stats (c : cache) : CacheStats :=
  {| TotalSize := totalSize c; ItemCount := Z.of_nat (length (lruList c));
     StaleCount := Z.of_nat (size (stale c)); HitCount := hitCount c; MissCount := missCount c |}.
End State.

Lemma bodyPath_headerPath h1 h2 : bodyPath h1 ≠ headerPath h2.
Proof. done. Qed.

Lemma bodyPath_inj h1 h2 : bodyPath h1 = bodyPath h2 → h1 = h2.
Proof. intros Heq. by repeat apply str_cons_inj in Heq. Qed.

Lemma headerPath_inj h1 h2 : headerPath h1 = headerPath h2 → h1 = h2.
Proof. intros Heq. by repeat apply str_cons_inj in Heq. Qed.

Example hashKey_empty : hashKey EmptyString = "cbf29ce484222325"%string.
Proof. vm_compute. reflexivity. Qed.
Example hashKey_a : hashKey "a" = "af63dc4c8601ec8c"%string.
Proof. vm_compute. reflexivity. Qed.
