(* ===== verification/Metrics.v ===== *)
(** * Metrics ([metrics.go], [prometheusmetrics.go], [handler.go])

    The interface the cache records through, the process-wide default and the
    recorder of a handler, and the recorder that counts into Prometheus
    collectors.  The collectors themselves are code of another module: a class
    with the laws their documentation states. *)

From Stdlib Require Import SpecFloat.
From S2P Require Import Prelude GoStrings GoTime CacheState.

(** ** The interface *)

(** A call of one of the methods of [Metrics]. *)
Inductive recording :=
  | RecordedHit (method : string)
  | RecordedMiss (method : string)
  | RecordedSkip
  | RecordedUpstreamDuration (method : string) (status : Z) (seconds : spec_float)
  | RecordedUpstreamError (errorType : string)
  | RecordedStore (success : bool)
  | RecordedRetrieve (found : bool)
  | RecordedSize (sizeBytes : Z)
  | RecordedItemCount (count : Z)
  | RecordedStaleCount (count : Z)
  | RecordedEviction (reason : string)
  | RecordedCleanup (seconds : spec_float)
  | RecordedStats (stats : CacheStats).

(** [type Metrics interface]: what a call does to the recorder; [None] is a
    panic. *)
Class Metrics (M : Type) := { record : recording → M → option M }.

Fixpoint record_all `{Metrics M} (rs : list recording) (m : M) : option M :=
  match rs with [] => Some m | r :: rs => m ← record r m; record_all rs m end.

(** [NopMetrics] *)
#[export] Instance NopMetrics : Metrics () := { record _ m := Some m }.

(** ** Recorders of a process *)

(** A value of the interface type: [None] is nil, a pointer has an identity. *)
Inductive recorder := Discarding | Recorder (id : nat).
Definition metrics_value := option recorder.

Section Process.
Context `{Metrics M}.

(** The recorders made so far and [defaultMetrics], an [atomic.Value] that
    holds a [defaultMetricsHolder] once it was set. *)
Record process := { recorders : list M; defaultMetrics : option metrics_value }.
Definition new_process : process := {| recorders := []; defaultMetrics := None |}.

Definition getDefaultMetrics (p : process) : metrics_value :=
  match defaultMetrics p with Some (Some m) => Some m | _ => Some Discarding end.
Definition GetDefaultMetrics : process → metrics_value := getDefaultMetrics.

Definition SetDefaultMetrics (m : metrics_value) (p : process) : process :=
  {| recorders := recorders p; defaultMetrics := Some (match m with None => Some Discarding | m => m end) |}.

(** A call through the interface: on nil it panics. *)
Definition call_metrics (m : metrics_value) (r : recording) (p : process) : option process :=
  match m with
  | None => None
  | Some Discarding => Some p
  | Some (Recorder id) =>
      state ← recorders p !! id;
      state ← record r state;
      Some {| recorders := <[id := state]> (recorders p); defaultMetrics := defaultMetrics p |}
  end.

(** An application makes a recorder. *)
Definition make_recorder (m : M) (p : process) : metrics_value * process :=
  (Some (Recorder (length (recorders p))), {| recorders := recorders p ++ [m]; defaultMetrics := defaultMetrics p |}).

(** ** The recorder of a handler *)

(** The field [metrics] of [Handler]. *)
Record handler_metrics := { h_metrics : metrics_value }.

(** What [NewHandlerWithOptions] puts there; [&Handler{}] leaves nil. *)
Definition new_handler_metrics (p : process) : handler_metrics := {| h_metrics := getDefaultMetrics p |}.
Definition zero_handler_metrics : handler_metrics := {| h_metrics := None |}.

Definition metricsRef (h : handler_metrics) : metrics_value :=
  match h_metrics h with Some m => Some m | None => Some Discarding end.
Definition SetMetrics (m : metrics_value) (h : handler_metrics) : handler_metrics :=
  {| h_metrics := match m with None => Some Discarding | m => m end |}.

(** A process with its handlers: what an application does with them. *)
Record application := { ap_process : process; ap_handlers : list handler_metrics }.

Definition known (m : metrics_value) (p : process) : Prop :=
  match m with Some (Recorder id) => (id < length (recorders p))%nat | _ => True end.

Inductive app_step : application → application → Prop :=
  | app_make a m : app_step a {| ap_process := (make_recorder m (ap_process a)).2; ap_handlers := ap_handlers a |}
  | app_default a m :
      known m (ap_process a) → app_step a {| ap_process := SetDefaultMetrics m (ap_process a); ap_handlers := ap_handlers a |}
  | app_handler a : app_step a {| ap_process := ap_process a; ap_handlers := ap_handlers a ++ [new_handler_metrics (ap_process a)] |}
  | app_zero_handler a : app_step a {| ap_process := ap_process a; ap_handlers := ap_handlers a ++ [zero_handler_metrics] |}
  | app_set a i h m :
      ap_handlers a !! i = Some h → known m (ap_process a) →
      app_step a {| ap_process := ap_process a; ap_handlers := <[i := SetMetrics m h]> (ap_handlers a) |}
  | app_record a m r p :
      call_metrics m r (ap_process a) = Some p → app_step a {| ap_process := p; ap_handlers := ap_handlers a |}.

Definition app_init : application := {| ap_process := new_process; ap_handlers := [] |}.
End Process.
Arguments process M : clear implicits.
Arguments application M : clear implicits.

(** ** Prometheus *)

(** [client_golang] and [metrics-kit]: collectors by name and labels.  [Inc]
    and [Observe] stand for [WithLabelValues(values).Inc] and [.Observe]. *)
Class PrometheusClient := {
  registry : Type;
  counter : Type;
  gauge : Type;
  histogram : Type;
  (* subsystem, name, labels *)
  build_counter : string → string → list string → registry → counter * registry;
  build_gauge : string → string → registry → gauge * registry;
  (* subsystem, name, labels, buckets *)
  build_histogram : string → string → list string → list spec_float → registry → histogram * registry;
  HTTPDurationBuckets : list spec_float;
  Inc : list string → counter → option counter;
  Set_gauge : spec_float → gauge → gauge;
  Observe : list string → spec_float → histogram → option histogram;
  (* what a scrape reads *)
  counted : counter → list string → nat;
  shown : gauge → spec_float;
  observed : histogram → list string → nat;
}.

(** A collector takes as many label values as it has labels, and panics on
    another number; counters start at zero and count; a gauge shows what it was
    last set to. *)
Class PrometheusLaws (P : PrometheusClient) := {
  counter_labels : counter → nat;
  histogram_labels : histogram → nat;
  built_counter : ∀ s name labels r, let c := (build_counter s name labels r).1 in
    counter_labels c = length labels ∧ ∀ l, counted c l = O;
  built_gauge : ∀ s name r, shown (build_gauge s name r).1 = float_of 0;
  built_histogram : ∀ s name labels b r, let h := (build_histogram s name labels b r).1 in
    histogram_labels h = length labels ∧ ∀ l, observed h l = O;
  Inc_counts : ∀ l c, length l = counter_labels c → ∃ c', Inc l c = Some c' ∧ counter_labels c' = counter_labels c ∧
    ∀ l', counted c' l' = (counted c l' + if bool_decide (l' = l) then 1 else 0)%nat;
  Set_shows : ∀ x g, shown (Set_gauge x g) = x;
  Observe_counts : ∀ l x h, length l = histogram_labels h → ∃ h', Observe l x h = Some h' ∧ histogram_labels h' = histogram_labels h ∧
    ∀ l', observed h' l' = (observed h l' + if bool_decide (l' = l) then 1 else 0)%nat;
}.

Section Prometheus.
Context `{P : PrometheusClient}.

(** [type Metrics struct] of [prometheusmetrics]: each collector can be nil. *)
Record collectors := {
  CacheHits : option counter;
  CacheMisses : option counter;
  CacheSkips : option counter;
  UpstreamDuration : option histogram;
  CacheSizeBytes : option gauge;
  CacheItemCount : option gauge;
  CacheStaleCount : option gauge;
  UpstreamErrors : option counter;
  CacheStoreOperations : option counter;
  CacheRetrieveOperations : option counter;
  CacheEvictions : option counter;
  CacheCleanupDuration : option histogram;
}.

(** The collectors by the kind of their field. *)
Inductive counter_field := Hits | Misses | Skips | Errors | Stores | Retrieves | Evictions.
Inductive gauge_field := Size | Items | Stale.
Inductive histogram_field := Upstream | CleanupTime.

Definition get_counter (f : counter_field) (m : collectors) : option counter :=
  match f with
  | Hits => CacheHits m | Misses => CacheMisses m | Skips => CacheSkips m | Errors => UpstreamErrors m
  | Stores => CacheStoreOperations m | Retrieves => CacheRetrieveOperations m | Evictions => CacheEvictions m
  end.
Definition get_gauge (f : gauge_field) (m : collectors) : option gauge :=
  match f with Size => CacheSizeBytes m | Items => CacheItemCount m | Stale => CacheStaleCount m end.
Definition get_histogram (f : histogram_field) (m : collectors) : option histogram :=
  match f with Upstream => UpstreamDuration m | CleanupTime => CacheCleanupDuration m end.

(** A collector is a pointer: what it counts changes, the field does not. *)
Definition put_counter (f : counter_field) (c : counter) (m : collectors) : collectors :=
  let here g := match f, g with
                | Hits, Hits | Misses, Misses | Skips, Skips | Errors, Errors | Stores, Stores | Retrieves, Retrieves
                | Evictions, Evictions => Some c
                | _, _ => get_counter g m
                end in
  {| CacheHits := here Hits; CacheMisses := here Misses; CacheSkips := here Skips; UpstreamDuration := UpstreamDuration m;
     CacheSizeBytes := CacheSizeBytes m; CacheItemCount := CacheItemCount m; CacheStaleCount := CacheStaleCount m;
     UpstreamErrors := here Errors; CacheStoreOperations := here Stores; CacheRetrieveOperations := here Retrieves;
     CacheEvictions := here Evictions; CacheCleanupDuration := CacheCleanupDuration m |}.
Definition put_gauge (f : gauge_field) (g : gauge) (m : collectors) : collectors :=
  let here f' := match f, f' with Size, Size | Items, Items | Stale, Stale => Some g | _, _ => get_gauge f' m end in
  {| CacheHits := CacheHits m; CacheMisses := CacheMisses m; CacheSkips := CacheSkips m; UpstreamDuration := UpstreamDuration m;
     CacheSizeBytes := here Size; CacheItemCount := here Items; CacheStaleCount := here Stale;
     UpstreamErrors := UpstreamErrors m; CacheStoreOperations := CacheStoreOperations m;
     CacheRetrieveOperations := CacheRetrieveOperations m; CacheEvictions := CacheEvictions m;
     CacheCleanupDuration := CacheCleanupDuration m |}.
Definition put_histogram (f : histogram_field) (h : histogram) (m : collectors) : collectors :=
  let here f' := match f, f' with Upstream, Upstream | CleanupTime, CleanupTime => Some h | _, _ => get_histogram f' m end in
  {| CacheHits := CacheHits m; CacheMisses := CacheMisses m; CacheSkips := CacheSkips m; UpstreamDuration := here Upstream;
     CacheSizeBytes := CacheSizeBytes m; CacheItemCount := CacheItemCount m; CacheStaleCount := CacheStaleCount m;
     UpstreamErrors := UpstreamErrors m; CacheStoreOperations := CacheStoreOperations m;
     CacheRetrieveOperations := CacheRetrieveOperations m; CacheEvictions := CacheEvictions m;
     CacheCleanupDuration := here CleanupTime |}.

(** [if m != nil && m.F != nil]: one guarded call on a collector. *)
Definition inc (f : counter_field) (l : list string) (m : option collectors) : option (option collectors) :=
  match m with
  | None => Some None
  | Some m =>
      match get_counter f m with
      | None => Some (Some m)
      | Some c => c ← Inc l c; Some (Some (put_counter f c m))
      end
  end.
Definition set_ (f : gauge_field) (x : spec_float) (m : option collectors) : option collectors :=
  m ← m; match get_gauge f m with None => Some m | Some g => Some (put_gauge f (Set_gauge x g) m) end.
Definition observe (f : histogram_field) (l : list string) (x : spec_float) (m : option collectors) : option (option collectors) :=
  match m with
  | None => Some None
  | Some m =>
      match get_histogram f m with
      | None => Some (Some m)
      | Some h => h ← Observe l x h; Some (Some (put_histogram f h m))
      end
  end.

(** The methods of [*Metrics]. *)
Definition RecordCacheHit (method : string) := inc Hits [method].
Definition RecordCacheMiss (method : string) := inc Misses [method].
Definition RecordCacheSkip := inc Skips [].
Definition RecordUpstreamDuration (method : string) (status : Z) (durationSeconds : spec_float) :=
  let statusStr := if 400 <=? status then "error"%string else "success"%string in
  observe Upstream [method; statusStr] durationSeconds.
Definition RecordUpstreamError (errorType : string) := inc Errors [errorType].
Definition RecordStoreOperation (success : bool) :=
  let result := if negb success then "failure"%string else "success"%string in inc Stores [result].
Definition RecordRetrieveOperation (found : bool) :=
  let result := if negb found then "miss"%string else "hit"%string in inc Retrieves [result].
Definition SetCacheSize (sizeBytes : Z) := set_ Size (float_of sizeBytes).
Definition SetCacheItemCount (count : Z) := set_ Items (float_of count).
Definition SetCacheStaleCount (count : Z) := set_ Stale (float_of count).
Definition prometheus_RecordCacheEviction (reason : string) := inc Evictions [reason].
Definition RecordCleanupDuration (durationSeconds : spec_float) := observe CleanupTime [] durationSeconds.
Definition UpdateCacheStats (stats : CacheStats) (m : option collectors) : option collectors :=
  SetCacheStaleCount (StaleCount stats) (SetCacheItemCount (ItemCount stats) (SetCacheSize (TotalSize stats) m)).

(** A [*Metrics] is an [httpcache.Metrics]. *)
#[export] Instance prometheus_recorder : Metrics (option collectors) := {
  record r :=
    match r with
    | RecordedHit method => RecordCacheHit method
    | RecordedMiss method => RecordCacheMiss method
    | RecordedSkip => RecordCacheSkip
    | RecordedUpstreamDuration method status seconds => RecordUpstreamDuration method status seconds
    | RecordedUpstreamError errorType => RecordUpstreamError errorType
    | RecordedStore success => RecordStoreOperation success
    | RecordedRetrieve found => RecordRetrieveOperation found
    | RecordedSize sizeBytes => λ m, Some (SetCacheSize sizeBytes m)
    | RecordedItemCount count => λ m, Some (SetCacheItemCount count m)
    | RecordedStaleCount count => λ m, Some (SetCacheStaleCount count m)
    | RecordedEviction reason => prometheus_RecordCacheEviction reason
    | RecordedCleanup seconds => RecordCleanupDuration seconds
    | RecordedStats stats => λ m, Some (UpdateCacheStats stats m)
    end }.

(** Decimal literals of the source, rounded to a double. *)
Definition thousandths (n : Z) : spec_float := float_div (float_of n) (float_of 1000).
Definition cleanup_buckets : list spec_float := thousandths <$> [1; 5; 10; 50; 100; 500; 1000; 5000; 10000].

(** The collectors of [New], in the order of the struct literal. *)
Definition build_collectors (r : registry) : collectors * registry :=
  let '(hits, r) := build_counter "cache" "hits_total" ["method"%string] r in
  let '(misses, r) := build_counter "cache" "misses_total" ["method"%string] r in
  let '(skips, r) := build_counter "cache" "skips_total" [] r in
  let '(upstream, r) := build_histogram "cache" "upstream_request_duration_seconds" ["method"; "status"]%string HTTPDurationBuckets r in
  let '(size, r) := build_gauge "cache" "size_bytes" r in
  let '(items, r) := build_gauge "cache" "item_count" r in
  let '(stale, r) := build_gauge "cache" "stale_count" r in
  let '(errors, r) := build_counter "cache" "upstream_errors_total" ["error_type"%string] r in
  let '(stores, r) := build_counter "cache" "store_operations_total" ["result"%string] r in
  let '(retrieves, r) := build_counter "cache" "retrieve_operations_total" ["result"%string] r in
  let '(evictions, r) := build_counter "cache" "evictions_total" ["reason"%string] r in
  let '(cleanup, r) := build_histogram "cache" "cleanup_duration_seconds" [] cleanup_buckets r in
  ({| CacheHits := Some hits; CacheMisses := Some misses; CacheSkips := Some skips; UpstreamDuration := Some upstream;
      CacheSizeBytes := Some size; CacheItemCount := Some items; CacheStaleCount := Some stale; UpstreamErrors := Some errors;
      CacheStoreOperations := Some stores; CacheRetrieveOperations := Some retrieves; CacheEvictions := Some evictions;
      CacheCleanupDuration := Some cleanup |}, r).

(** [New]: the recorder becomes the default one. *)
Definition New (r : registry) (p : process (option collectors)) : metrics_value * process (option collectors) * registry :=
  let '(m, r) := build_collectors r in
  let '(v, p) := make_recorder (Some m) p in
  (v, SetDefaultMetrics v p, r).
End Prometheus.

(** ** What a scrape reads *)

(** Reference definitions: the series a call counts in, the gauges it sets. *)
Definition counts_in (r : recording) : option (counter_field * list string) :=
  match r with
  | RecordedHit method => Some (Hits, [method])
  | RecordedMiss method => Some (Misses, [method])
  | RecordedSkip => Some (Skips, [])
  | RecordedUpstreamError errorType => Some (Errors, [errorType])
  | RecordedStore success => Some (Stores, [if success then "success"%string else "failure"%string])
  | RecordedRetrieve found => Some (Retrieves, [if found then "hit"%string else "miss"%string])
  | RecordedEviction reason => Some (Evictions, [reason])
  | _ => None
  end.
Definition observes_in (r : recording) : option (histogram_field * list string) :=
  match r with
  | RecordedUpstreamDuration method status _ => Some (Upstream, [method; if status <? 400 then "success"%string else "error"%string])
  | RecordedCleanup _ => Some (CleanupTime, [])
  | _ => None
  end.
Definition sets (f : gauge_field) (r : recording) : option Z :=
  match f, r with
  | Size, RecordedSize n | Items, RecordedItemCount n | Stale, RecordedStaleCount n => Some n
  | Size, RecordedStats stats => Some (TotalSize stats)
  | Items, RecordedStats stats => Some (ItemCount stats)
  | Stale, RecordedStats stats => Some (StaleCount stats)
  | _, _ => None
  end.

#[export] Instance counter_field_eq : EqDecision counter_field.
Proof. solve_decision. Defined.
#[export] Instance histogram_field_eq : EqDecision histogram_field.
Proof. solve_decision. Defined.
#[export] Instance gauge_field_eq : EqDecision gauge_field.
Proof. solve_decision. Defined.

(** How often a series was counted in; the last value of a gauge. *)
Definition times (f : counter_field) (l : list string) (rs : list recording) : nat :=
  length (filter (λ r, counts_in r = Some (f, l)) rs).
Definition observations (f : histogram_field) (l : list string) (rs : list recording) : nat :=
  length (filter (λ r, observes_in r = Some (f, l)) rs).
Definition last_set (f : gauge_field) (rs : list recording) : Z := default 0 (last (omap (sets f) rs)).

(** ** Lemmas *)

Lemma times_snoc f l rs r : times f l (rs ++ [r]) = (times f l rs + if bool_decide (counts_in r = Some (f, l)) then 1 else 0)%nat.
Proof. unfold times. rewrite filter_app, length_app, filter_cons. case_decide; [rewrite bool_decide_true|rewrite bool_decide_false]; done. Qed.

Lemma observations_snoc f l rs r :
  observations f l (rs ++ [r]) = (observations f l rs + if bool_decide (observes_in r = Some (f, l)) then 1 else 0)%nat.
Proof. unfold observations. rewrite filter_app, length_app, filter_cons. case_decide; [rewrite bool_decide_true|rewrite bool_decide_false]; done. Qed.

Lemma last_set_snoc f rs r : last_set f (rs ++ [r]) = default (last_set f rs) (sets f r).
Proof. unfold last_set. rewrite omap_app. cbn. destruct (sets f r); cbn; [by rewrite last_snoc|by rewrite app_nil_r]. Qed.

Section Scrape.
Context `{P : PrometheusClient, L : !PrometheusLaws P}.
Implicit Types m : collectors.

Lemma get_put_counter f f' c m : get_counter f' (put_counter f c m) = if decide (f' = f) then Some c else get_counter f' m.
Proof. by destruct f, f'. Qed.
Lemma get_put_gauge f f' g m : get_gauge f' (put_gauge f g m) = if decide (f' = f) then Some g else get_gauge f' m.
Proof. by destruct f, f'. Qed.
Lemma get_put_histogram f f' h m : get_histogram f' (put_histogram f h m) = if decide (f' = f) then Some h else get_histogram f' m.
Proof. by destruct f, f'. Qed.
Lemma put_counter_others f c m : (∀ g, get_gauge g (put_counter f c m) = get_gauge g m) ∧ ∀ h, get_histogram h (put_counter f c m) = get_histogram h m.
Proof. split; by intros []. Qed.
Lemma put_gauge_others f c m : (∀ g, get_counter g (put_gauge f c m) = get_counter g m) ∧ ∀ h, get_histogram h (put_gauge f c m) = get_histogram h m.
Proof. split; by intros []. Qed.
Lemma put_histogram_others f c m : (∀ g, get_counter g (put_histogram f c m) = get_counter g m) ∧ ∀ h, get_gauge h (put_histogram f c m) = get_gauge h m.
Proof. split; by intros []. Qed.

Definition counter_arity (f : counter_field) : nat := match f with Skips => 0 | _ => 1 end.
Definition histogram_arity (f : histogram_field) : nat := match f with Upstream => 2 | CleanupTime => 0 end.

(** The three kinds of series after [rs]. *)
Definition reads_counters rs m : Prop :=
  ∀ f, ∃ c, get_counter f m = Some c ∧ counter_labels c = counter_arity f ∧ ∀ l, counted c l = times f l rs.
Definition reads_gauges rs m : Prop := ∀ f, ∃ g, get_gauge f m = Some g ∧ shown g = float_of (last_set f rs).
Definition reads_histograms rs m : Prop :=
  ∀ f, ∃ h, get_histogram f m = Some h ∧ histogram_labels h = histogram_arity f ∧ ∀ l, observed h l = observations f l rs.
Definition scrape rs m : Prop := reads_counters rs m ∧ reads_gauges rs m ∧ reads_histograms rs m.

Lemma counters_kept rs r m m' :
  counts_in r = None → (∀ f, get_counter f m' = get_counter f m) → reads_counters rs m → reads_counters (rs ++ [r]) m'.
Proof.
  intros Hr Hm H f. destruct (H f) as (c & Hc & Ha & Hl). exists c. rewrite Hm. split; [done|]. split; [done|]. intros l.
  by rewrite times_snoc, Hr, bool_decide_false, Nat.add_0_r.
Qed.
Lemma histograms_kept rs r m m' :
  observes_in r = None → (∀ f, get_histogram f m' = get_histogram f m) → reads_histograms rs m → reads_histograms (rs ++ [r]) m'.
Proof.
  intros Hr Hm H f. destruct (H f) as (c & Hc & Ha & Hl). exists c. rewrite Hm. split; [done|]. split; [done|]. intros l.
  by rewrite observations_snoc, Hr, bool_decide_false, Nat.add_0_r.
Qed.
Lemma gauges_kept rs r m m' :
  (∀ f, sets f r = None) → (∀ f, get_gauge f m' = get_gauge f m) → reads_gauges rs m → reads_gauges (rs ++ [r]) m'.
Proof. intros Hr Hm H f. destruct (H f) as (g & Hg & Hs). exists g. by rewrite Hm, last_set_snoc, Hr. Qed.

(** A call that counts in one series. *)
Lemma inc_scrape rs r m f l :
  counts_in r = Some (f, l) → observes_in r = None → (∀ g, sets g r = None) → length l = counter_arity f → scrape rs m →
  ∃ m', inc f l (Some m) = Some (Some m') ∧ scrape (rs ++ [r]) m'.
Proof.
  intros Hr Ho Hs Hlen (Hc & Hg & Hh). destruct (Hc f) as (c & Hf & Ha & Hl).
  destruct (Inc_counts l c) as (c' & Hi & Ha' & Hl'); [by rewrite Ha|]. exists (put_counter f c' m). unfold inc. rewrite Hf, Hi. split; [done|].
  destruct (put_counter_others f c' m) as [Hgo Hho]. split; [|split; [by apply (gauges_kept rs r m)|by apply (histograms_kept rs r m)]].
  intros f'. rewrite get_put_counter. destruct (decide (f' = f)) as [->|Hne].
  - exists c'. split; [done|]. split; [by rewrite Ha'|]. intros l'. rewrite Hl', Hl, times_snoc, Hr. f_equal. by repeat case_bool_decide; simplify_eq.
  - destruct (Hc f') as (c0 & ? & ? & Hl0). exists c0. split; [done|]. split; [done|]. intros l'. rewrite times_snoc, Hr, Hl0.
    rewrite bool_decide_false by (intros [= -> _]; done). by rewrite Nat.add_0_r.
Qed.

Lemma observe_scrape rs r m f l x :
  observes_in r = Some (f, l) → counts_in r = None → (∀ g, sets g r = None) → length l = histogram_arity f → scrape rs m →
  ∃ m', observe f l x (Some m) = Some (Some m') ∧ scrape (rs ++ [r]) m'.
Proof.
  intros Hr Ho Hs Hlen (Hc & Hg & Hh). destruct (Hh f) as (c & Hf & Ha & Hl).
  destruct (Observe_counts l x c) as (c' & Hi & Ha' & Hl'); [by rewrite Ha|]. exists (put_histogram f c' m). unfold observe. rewrite Hf, Hi. split; [done|].
  destruct (put_histogram_others f c' m) as [Hgo Hho]. split; [by apply (counters_kept rs r m)|split; [by apply (gauges_kept rs r m)|]].
  intros f'. rewrite get_put_histogram. destruct (decide (f' = f)) as [->|Hne].
  - exists c'. split; [done|]. split; [by rewrite Ha'|]. intros l'. rewrite Hl', Hl, observations_snoc, Hr. f_equal. by repeat case_bool_decide; simplify_eq.
  - destruct (Hh f') as (c0 & ? & ? & Hl0). exists c0. split; [done|]. split; [done|]. intros l'. rewrite observations_snoc, Hr, Hl0.
    rewrite bool_decide_false by (intros [= -> _]; done). by rewrite Nat.add_0_r.
Qed.

(** A gauge that is set. *)
Lemma set_gauge f x m :
  is_Some (get_gauge f m) → ∃ m', set_ f x (Some m) = Some m' ∧ (∀ g, get_counter g m' = get_counter g m) ∧
    (∀ h, get_histogram h m' = get_histogram h m) ∧
    ∀ f', ∃ g, get_gauge f' m' = (if decide (f' = f) then Some g else get_gauge f' m) ∧ (f' = f → shown g = x).
Proof.
  intros [g Hg]. exists (put_gauge f (Set_gauge x g) m). unfold set_. cbn. rewrite Hg. split; [done|].
  destruct (put_gauge_others f (Set_gauge x g) m) as [Hc Hh]. split; [done|]. split; [done|].
  intros f'. exists (Set_gauge x g). split; [apply get_put_gauge|]. intros _. apply Set_shows.
Qed.

Lemma set_scrape rs r m f n :
  (∀ f', sets f' r = if decide (f' = f) then Some n else None) → counts_in r = None → observes_in r = None → scrape rs m →
  ∃ m', set_ f (float_of n) (Some m) = Some m' ∧ scrape (rs ++ [r]) m'.
Proof.
  intros Hr Hc0 Ho (Hc & Hg & Hh). destruct (set_gauge f (float_of n) m) as (m' & Hm & Hmc & Hmh & Hmg).
  { destruct (Hg f) as (g & -> & _). by eexists. }
  exists m'. split; [done|]. split; [by apply (counters_kept rs r m)|split; [|by apply (histograms_kept rs r m)]].
  intros f'. destruct (Hmg f') as (g & Hget & Hshown), (Hg f') as (g0 & Hg0 & Hs0). rewrite last_set_snoc, Hr. case_decide.
  - exists g. split; [done|by apply Hshown].
  - exists g0. by rewrite Hget.
Qed.

Lemma stats_scrape rs stats m :
  scrape rs m → ∃ m', UpdateCacheStats stats (Some m) = Some m' ∧ scrape (rs ++ [RecordedStats stats]) m'.
Proof.
  intros (Hc & Hg & Hh). unfold UpdateCacheStats, SetCacheSize, SetCacheItemCount, SetCacheStaleCount.
  destruct (set_gauge Size (float_of (TotalSize stats)) m) as (m1 & -> & Hc1 & Hh1 & Hg1); [destruct (Hg Size) as (g & -> & _); by eexists|].
  destruct (set_gauge Items (float_of (ItemCount stats)) m1) as (m2 & -> & Hc2 & Hh2 & Hg2).
  { destruct (Hg1 Items) as (g & -> & _), (Hg Items) as (g0 & Hg0 & _). rewrite decide_False, Hg0 by done. by eexists. }
  destruct (set_gauge Stale (float_of (StaleCount stats)) m2) as (m3 & -> & Hc3 & Hh3 & Hg3).
  { destruct (Hg2 Stale) as (g & -> & _), (Hg1 Stale) as (g1 & -> & _), (Hg Stale) as (g0 & Hg0 & _). rewrite !decide_False, Hg0 by done. by eexists. }
  exists m3. split; [done|]. split; [|split].
  - apply (counters_kept rs _ m); [done| |done]. intros f. by rewrite Hc3, Hc2, Hc1.
  - intros f. rewrite last_set_snoc. destruct (Hg1 f) as (g1 & E1 & S1), (Hg2 f) as (g2 & E2 & S2), (Hg3 f) as (g3 & E3 & S3).
    rewrite E3, E2, E1. destruct f; cbn in *; eauto.
  - apply (histograms_kept rs _ m); [done| |done]. intros f. by rewrite Hh3, Hh2, Hh1.
Qed.

Lemma record_scrape rs r m : scrape rs m → ∃ m', record r (Some m) = Some (Some m') ∧ scrape (rs ++ [r]) m'.
Proof.
  intros Hm. destruct r; cbn [record prometheus_recorder].
  - by apply inc_scrape; try done; intros [].
  - by apply inc_scrape; try done; intros [].
  - by apply inc_scrape; try done; intros [].
  - unfold RecordUpstreamDuration. cbv zeta. apply observe_scrape; try done; [|by intros []]. cbn. destruct (Z.leb_spec 400 status), (Z.ltb_spec status 400); done || lia.
  - by apply inc_scrape; try done; intros [].
  - unfold RecordStoreOperation. cbv zeta. apply inc_scrape; try done; [by destruct success|by intros []].
  - unfold RecordRetrieveOperation. cbv zeta. apply inc_scrape; try done; [by destruct found|by intros []].
  - destruct (set_scrape rs (RecordedSize sizeBytes) m Size sizeBytes) as (m' & ? & ?); [by intros []|done..|]. exists m'. unfold SetCacheSize. by split; [f_equal|].
  - destruct (set_scrape rs (RecordedItemCount count) m Items count) as (m' & ? & ?); [by intros []|done..|]. exists m'. unfold SetCacheItemCount. by split; [f_equal|].
  - destruct (set_scrape rs (RecordedStaleCount count) m Stale count) as (m' & ? & ?); [by intros []|done..|]. exists m'. unfold SetCacheStaleCount. by split; [f_equal|].
  - by apply inc_scrape; try done; intros [].
  - by apply observe_scrape; try done; intros [].
  - destruct (stats_scrape rs stats m Hm) as (m' & ? & ?). exists m'. by split; [f_equal|].
Qed.

Lemma build_scrape r : scrape [] (build_collectors r).1.
Proof.
  unfold build_collectors.
  repeat match goal with
  | |- context [build_counter ?s ?n ?l ?r] =>
      pose proof (built_counter s n l r); destruct (build_counter s n l r) as [? ?]; cbn [fst] in *
  | |- context [build_gauge ?s ?n ?r] => pose proof (built_gauge s n r); destruct (build_gauge s n r) as [? ?]; cbn [fst] in *
  | |- context [build_histogram ?s ?n ?l ?b ?r] =>
      pose proof (built_histogram s n l b r); destruct (build_histogram s n l b r) as [? ?]; cbn [fst] in *
  end.
  split; [|split]; intros []; eexists; (split; [reflexivity|]); cbn; intuition.
Qed.

Lemma record_all_scrape rs rs0 m : scrape rs0 m → ∃ m', record_all rs (Some m) = Some (Some m') ∧ scrape (rs0 ++ rs) m'.
Proof.
  revert rs0 m. induction rs as [|r rs IH]; intros rs0 m Hm; cbn [record_all].
  - exists m. by rewrite app_nil_r.
  - destruct (record_scrape rs0 r m Hm) as (m1 & -> & H1). destruct (IH _ _ H1) as (m2 & H2 & H3). exists m2. split; [exact H2|].
    by rewrite <- app_assoc in H3.
Qed.
End Scrape.

(** ** Theorems *)

Fixpoint call_all `{Metrics M} (m : metrics_value) (rs : list recording) (p : process M) : option (process M) :=
  match rs with [] => Some p | r :: rs => p ← call_metrics m r p; call_all m rs p end.

Lemma call_all_recorder `{Metrics M} id rs p (m m' : M) :
  recorders p !! id = Some m → record_all rs m = Some m' →
  call_all (Some (Recorder id)) rs p = Some {| recorders := <[id := m']> (recorders p); defaultMetrics := defaultMetrics p |}.
Proof.
  revert p m. induction rs as [|r rs IH]; intros p m Hm; cbn [record_all call_all].
  - intros [= <-]. rewrite list_insert_id by done. by destruct p.
  - destruct (record r m) as [m1|] eqn:Er; [|done]. cbn. intros Hrs. rewrite Hm. cbn. rewrite Er. cbn.
    assert (id < length (recorders p))%nat by (by eapply lookup_lt_Some).
    rewrite (IH _ m1); cbn; [|by rewrite list_lookup_insert_eq|done]. by rewrite list_insert_insert_eq.
Qed.

(** C34: Prometheus counts what happened.  [New] installs its recorder as the
    default; whatever is recorded through the default from then on, no call
    panics, every counter and histogram reads, for every combination of labels,
    how many of the calls belong to it, and each gauge shows the value it was
    last set to, by itself or by a snapshot of the statistics. *)
Theorem metrics_count_what_happened `{P : PrometheusClient, L : !PrometheusLaws P} rs r p :
  let '(v, p', _) := New r p in
  GetDefaultMetrics p' = v ∧
  ∃ p'' m, call_all (GetDefaultMetrics p') rs p' = Some p'' ∧ recorders p'' !! length (recorders p) = Some (Some m) ∧
    (∀ f l, ∃ c, get_counter f m = Some c ∧ counted c l = times f l rs) ∧
    (∀ f l, ∃ h, get_histogram f m = Some h ∧ observed h l = observations f l rs) ∧
    (∀ f, ∃ g, get_gauge f m = Some g ∧ shown g = float_of (last_set f rs)).
Proof.
  unfold New. pose proof (build_scrape r) as H0. destruct (build_collectors r) as [m0 r']. cbn in H0 |- *. split; [done|].
  destruct (record_all_scrape rs [] m0 H0) as (m & Hm & Hc & Hg & Hh).
  eexists _, m. split; [apply (call_all_recorder _ _ _ (Some m0) (Some m)); [|done]|]; cbn.
  - by rewrite lookup_app_r, Nat.sub_diag.
  - split; [apply list_lookup_insert_eq; rewrite length_app; cbn; lia|]. split; [|split; [|done]].
    + intros f l. destruct (Hc f) as (c & ? & _ & Hl). exists c. by rewrite Hl.
    + intros f l. destruct (Hh f) as (c & ? & _ & Hl). exists c. by rewrite Hl.
Qed.

Section Application.
Context `{Metrics M}.
Implicit Types (a : application M) (p : process M).

(** Nobody holds a recorder that was never made. *)
Definition app_inv a : Prop :=
  known (default None (defaultMetrics (ap_process a))) (ap_process a) ∧
  ∀ h, h ∈ ap_handlers a → known (h_metrics h) (ap_process a).

Lemma known_default p : known (default None (defaultMetrics p)) p → known (getDefaultMetrics p) p.
Proof. unfold getDefaultMetrics. destruct (defaultMetrics p) as [[[|id]|]|]; done. Qed.

Lemma known_more m p p' : (length (recorders p) ≤ length (recorders p'))%nat → known m p → known m p'.
Proof. destruct m as [[|id]|]; cbn; [done|lia|done]. Qed.

Lemma call_length m r p p' : call_metrics m r p = Some p' → length (recorders p') = length (recorders p) ∧ defaultMetrics p' = defaultMetrics p.
Proof.
  unfold call_metrics. destruct m as [[|id]|]; [by intros [= <-]| |done]. destruct (recorders p !! id) as [m|]; [|done]. cbn.
  destruct (record r m); [|done]. intros [= <-]. cbn. by rewrite length_insert.
Qed.

Lemma app_inv_step a a' : app_inv a → app_step a a' → app_inv a'.
Proof.
  intros [Hd Hh] Hstep. destruct Hstep as [a m|a m Hm|a|a|a i h m Hi Hm|a m r p Hp]; unfold app_inv; cbn [ap_process ap_handlers].
  - assert (∀ v, known v (ap_process a) → known v (make_recorder m (ap_process a)).2) as Hmore.
    { intros v. apply known_more. cbn. rewrite length_app. cbn. lia. }
    split; [by apply Hmore|]. intros h Hin. by apply Hmore, Hh.
  - split; [by destruct m as [[|]|]|]. intros h Hin. specialize (Hh h Hin). by destruct (h_metrics h) as [[|]|].
  - split; [done|]. intros h [Hin|Hin%list_elem_of_singleton]%elem_of_app; [by apply Hh|]. subst h. by apply known_default.
  - split; [done|]. intros h [Hin|Hin%list_elem_of_singleton]%elem_of_app; [by apply Hh|]. by subst h.
  - split; [done|]. intros h' Hin. apply list_elem_of_lookup in Hin as [j Hj].
    destruct (decide (i = j)) as [->|Hne].
    + rewrite list_lookup_insert_eq in Hj by (by eapply lookup_lt_Some). injection Hj as <-. by destruct m as [[|]|].
    + rewrite list_lookup_insert_ne in Hj by done. apply Hh. by eapply list_elem_of_lookup_2.
  - destruct (call_length _ _ _ _ Hp) as [Hl Hdef]. rewrite Hdef. split; [by apply (known_more _ (ap_process a)); [lia|]|].
    intros h Hin. apply (known_more _ (ap_process a)); [lia|by apply Hh].
Qed.

Lemma call_known m r p : (∀ r m, is_Some (record r m)) → is_Some m → known m p → is_Some (call_metrics m r p).
Proof.
  intros Htotal [[|id] ->] Hk; cbn; [by eexists|]. destruct (lookup_lt_is_Some_2 _ _ Hk) as [m ->]. cbn.
  destruct (Htotal r m) as [m' ->]. by eexists.
Qed.

(** A call site can record unconditionally.  Whatever an application
    installs, in whatever order, nil included, and whether its handlers came
    from a constructor or are zero values, the default recorder and the one of
    each handler exist, and recording through them does not panic, when no
    recorder that was made panics by itself. *)
Theorem recording_never_panics a :
  rtc app_step app_init a → (∀ r m, is_Some (record r m)) →
  ∀ r, is_Some (call_metrics (GetDefaultMetrics (ap_process a)) r (ap_process a)) ∧
    ∀ h, h ∈ ap_handlers a → is_Some (call_metrics (metricsRef h) r (ap_process a)).
Proof.
  intros Hr Htotal r. assert (app_inv app_init) as Hinit by (split; [done|intros h Hh; by apply elem_of_nil in Hh]).
  assert (app_inv a) as [Hd Hh].
  { revert Hinit. induction Hr; [done|]. eauto using app_inv_step. }
  split.
  - apply call_known; [done| |by apply known_default]. unfold GetDefaultMetrics, getDefaultMetrics. by destruct (defaultMetrics _) as [[|]|].
  - intros h Hin. apply call_known; [done|unfold metricsRef; by destruct (h_metrics h)|]. specialize (Hh h Hin). unfold metricsRef.
    by destruct (h_metrics h).
Qed.
End Application.

(** ** Witnesses *)

(** Collectors that keep the calls they received. *)
Definition tally : PrometheusClient := {|
  registry := (); counter := nat * list (list string); gauge := spec_float; histogram := nat * list (list string);
  build_counter _ _ labels r := ((length labels, []), r);
  build_gauge _ _ r := (float_of 0, r);
  build_histogram _ _ labels _ r := ((length labels, []), r);
  HTTPDurationBuckets := [];
  Inc l c := if (length l =? fst c)%nat then Some (fst c, l :: snd c) else None;
  Set_gauge x _ := x;
  Observe l _ h := if (length l =? fst h)%nat then Some (fst h, l :: snd h) else None;
  counted c l := length (filter (λ l', l' = l) (snd c));
  shown g := g;
  observed h l := length (filter (λ l', l' = l) (snd h));
|}.

Lemma tally_counts (l : list string) (c : nat * list (list string)) :
  length l = fst c → ∃ c', (if (length l =? fst c)%nat then Some (fst c, l :: snd c) else None) = Some c' ∧ fst c' = fst c ∧
    ∀ l', length (filter (λ x, x = l') (snd c')) = (length (filter (λ x, x = l') (snd c)) + if bool_decide (l' = l) then 1 else 0)%nat.
Proof.
  intros ->. rewrite Nat.eqb_refl. eexists. split; [done|]. split; [done|]. intros l'. cbn [snd]. rewrite filter_cons.
  case_decide as E; [rewrite bool_decide_true by done|rewrite bool_decide_false by (intros ->; done)]; cbn [length]; lia.
Qed.

#[export] Program Instance tally_laws : PrometheusLaws tally := {|
  counter_labels := (fst : @counter tally → nat); histogram_labels := (fst : @histogram tally → nat) |}.
Next Obligation. done. Qed.
Next Obligation. done. Qed.
Next Obligation. done. Qed.
Next Obligation. exact tally_counts. Qed.
Next Obligation. done. Qed.
Next Obligation. intros l x c. exact (tally_counts l c). Qed.

#[local] Existing Instance tally.

(** An application that installs nil, makes a zero handler and one from the
    constructor, and sets the metrics of the latter to nil. *)
Definition careless : application () :=
  {| ap_process := SetDefaultMetrics None new_process;
     ap_handlers := [zero_handler_metrics; SetMetrics None (new_handler_metrics (SetDefaultMetrics None (new_process (M := ()))))] |}.

Lemma careless_runs : rtc app_step app_init careless.
Proof.
  eapply rtc_l; [apply (app_default app_init None); exact I|]. eapply rtc_l; [apply app_zero_handler|]. eapply rtc_l; [apply app_handler|].
  eapply rtc_l; [eapply (app_set _ 1 _ None); [reflexivity|exact I]|]. apply rtc_refl.
Qed.

Lemma recording_never_panics_witness :
  is_Some (call_metrics (metricsRef zero_handler_metrics) (RecordedHit "GET") (ap_process careless)).
Proof.
  refine (proj2 (recording_never_panics careless careless_runs _ (RecordedHit "GET")) zero_handler_metrics _).
  - intros r m. exists m. reflexivity.
  - left.
Defined.

(** Two hits, a failed request and a snapshot. *)
Definition some_recordings : list recording :=
  [RecordedHit "GET"; RecordedUpstreamDuration "GET" 502 (float_of 1); RecordedHit "GET"; RecordedSize 7;
   RecordedStats {| TotalSize := 10; ItemCount := 2; StaleCount := 0; HitCount := 2; MissCount := 1 |}].

Example some_recordings_counted :
  match record_all some_recordings (Some (build_collectors (P := tally) tt).1) with
  | Some (Some m) =>
      (λ c, counted c ["GET"%string]) <$> CacheHits m = Some 2%nat ∧
      (λ h, observed h ["GET"; "error"]%string) <$> UpstreamDuration m = Some 1%nat ∧
      CacheSizeBytes m = Some (float_of 10)
  | _ => False
  end.
Proof. vm_compute. repeat split. Qed.

Lemma metrics_count_what_happened_witness :
  ∃ m : collectors, ∃ c, get_counter Hits m = Some c ∧ counted c ["GET"%string] = 2%nat.
Proof.
  pose proof (metrics_count_what_happened (P := tally) some_recordings tt new_process) as Ht.
  destruct (New (P := tally) tt new_process) as [[v p'] r]. destruct Ht as (_ & p'' & m & _ & _ & Hc & _).
  exists m. destruct (Hc Hits ["GET"%string]) as (c & Hg & Hn). exists c. split; [exact Hg|]. rewrite Hn. vm_compute. reflexivity.
Defined.
