(* ===== verification/Ledger.v ===== *)
(** * LRU ledger and admission ([cache.go], "LRU tracking methods")

    Tracking, touching, removing and discarding entries, the reservations of
    the writers, admission by LRU eviction and the sweeps by age and size.
    A loop over the list from the back visits the entries of the list as it
    is at its start, in reverse: only the visited entry is ever removed. *)

From S2P Require Import Prelude GoStrings GoTime Config Vfs CacheState.

Section Operations.
Context `{VFS}.
Implicit Types c : cache.

Definition entry_size (c : cache) (hashedKey : string) : Z :=
  match lruIndex c !! hashedKey with Some e => e_size e | None => 0 end.

(** [c.reservations[hashedKey]]: 0 when absent. *)
Definition reserved_for (c : cache) (hashedKey : string) : Z := default 0 (reservations c !! hashedKey).

Definition active (c : cache) (hashedKey : string) : bool := bool_decide (is_Some (reservations c !! hashedKey)).

(** [container/list]: [Remove], [MoveToFront], [PushFront] *)
Definition list_remove (h : string) (l : list string) : list string := filter (λ x, x ≠ h) l.
Definition move_to_front (h : string) (l : list string) : list string := h :: list_remove h l.

Definition releaseReservationLocked (hashedKey : string) (c : cache) : cache :=
  set_reservations (delete hashedKey (reservations c)) (reservedSize c - reserved_for c hashedKey) c.

Definition releaseReservation (hashedKey : string) (c : cache) : cache := releaseReservationLocked hashedKey c.

Definition beginReservation (hashedKey : string) (c : cache) : cache :=
  set_reservations (<[hashedKey := 0]> (reservations c)) (reservedSize c) c.

(** [trackEntry]; [now] is the clock read for a zero [storedAt]. *)
Definition trackEntry (key hashedKey : string) (size : Z) (storedAt now : Time) (c : cache) : cache :=
  let c := releaseReservationLocked hashedKey c in
  let storedAt := if IsZero storedAt then now else storedAt in
  match lruIndex c !! hashedKey with
  | Some entry =>
      let entry' := {| e_key := e_key entry; e_hashedKey := e_hashedKey entry; e_size := size;
                       e_storedAt := storedAt; e_accessedAt := storedAt;
                       e_generation := Some (nextGeneration c) |} in
      set_lru (move_to_front hashedKey (lruList c)) (<[hashedKey := entry']> (lruIndex c))
        (totalSize c - e_size entry + size) (S (nextGeneration c)) c
  | None =>
      let entry := {| e_key := key; e_hashedKey := hashedKey; e_size := size; e_storedAt := storedAt;
                      e_accessedAt := storedAt; e_generation := Some (nextGeneration c) |} in
      set_lru (hashedKey :: lruList c) (<[hashedKey := entry]> (lruIndex c))
        (totalSize c + size) (S (nextGeneration c)) c
  end.

Definition entryGeneration (hashedKey : string) (c : cache) : option nat :=
  match lruIndex c !! hashedKey with Some e => e_generation e | None => None end.

Definition entryStoredAt (hashedKey : string) (c : cache) : Time :=
  match lruIndex c !! hashedKey with Some e => e_storedAt e | None => zero_time end.

Definition touchEntry (hashedKey : string) (now : Time) (c : cache) : cache :=
  match lruIndex c !! hashedKey with
  | Some e =>
      let e' := {| e_key := e_key e; e_hashedKey := e_hashedKey e; e_size := e_size e;
                   e_storedAt := e_storedAt e; e_accessedAt := now; e_generation := e_generation e |} in
      set_lru (move_to_front hashedKey (lruList c)) (<[hashedKey := e']> (lruIndex c))
        (totalSize c) (nextGeneration c) c
  | None => c
  end.

(** Remove the two files of an entry: whether one could not be removed. *)
Definition remove_files (hashedKey : string) (c : cache) : bool * cache :=
  let '(r1, f1) := fs_remove (bodyPath hashedKey) (c_fs c) in
  let '(r2, f2) := fs_remove (headerPath hashedKey) f1 in
  (bool_decide (r1 = RemoveFailed) || bool_decide (r2 = RemoveFailed), set_fs f2 c).

(** [removeEntry]: true is the error, the record is then kept. *)
Definition removeEntry (entry : cacheEntry) (c : cache) : bool * cache :=
  let '(failed, c) := remove_files (e_hashedKey entry) c in
  if failed : bool then (true, c)
  else (false, set_lru (list_remove (e_hashedKey entry) (lruList c))
                 (delete (e_hashedKey entry) (lruIndex c)) (totalSize c - e_size entry)
                 (nextGeneration c) c).

Definition discardUnadmitted (key hashedKey : string) (residualSize : Z) (storedAt now : Time)
    (c : cache) : bool * cache :=
  match lruIndex c !! hashedKey with
  | Some entry =>
      let '(failed, c) := removeEntry entry c in
      if failed && (e_size entry <? residualSize) then
        (failed, set_lru (lruList c)
           (<[hashedKey := {| e_key := e_key entry; e_hashedKey := e_hashedKey entry;
                              e_size := residualSize; e_storedAt := e_storedAt entry;
                              e_accessedAt := e_accessedAt entry; e_generation := e_generation entry |}]>
              (lruIndex c))
           (totalSize c + (residualSize - e_size entry)) (nextGeneration c) c)
      else (failed, c)
  | None =>
      let '(failed, c) := remove_files hashedKey c in
      if failed : bool then
        let residualSize := if residualSize <=? 0 then 1 else residualSize in
        let storedAt := if IsZero storedAt then now else storedAt in
        let entry := {| e_key := key; e_hashedKey := hashedKey; e_size := residualSize;
                        e_storedAt := storedAt; e_accessedAt := storedAt; e_generation := None |} in
        (true, set_lru (hashedKey :: lruList c) (<[hashedKey := entry]> (lruIndex c))
                 (totalSize c + residualSize) (nextGeneration c) c)
      else (false, c)
  end.

(** ** Admission *)

Inductive admission_error :=
  | SizeOverflow
  | ExceedsLimit (itemSize limit : Z)
  | MustShrink (total target : Z) (removeFailed : bool).

(** The eviction loop over the candidates left to visit, least recently used
    first; the flag accumulates the removal errors. *)
Fixpoint evict_loop (hashedKey : string) (targetSize : Z) (candidates : list string)
    (removeErr : bool) (c : cache) : bool * cache :=
  match candidates with
  | [] => (removeErr, c)
  | h :: candidates =>
      if targetSize <? totalSize c then
        match lruIndex c !! h with
        | Some entry =>
            if (e_hashedKey entry =?s hashedKey) || active c (e_hashedKey entry)
            then evict_loop hashedKey targetSize candidates removeErr c
            else let '(failed, c) := removeEntry entry c in
                 if failed : bool then evict_loop hashedKey targetSize candidates true c
                 else evict_loop hashedKey targetSize candidates removeErr (RecordCacheEviction "lru" c)
        | None => evict_loop hashedKey targetSize candidates removeErr c
        end
      else (removeErr, c)
  end.

(** The space the other tracked entries may keep, a 64-bit sum: it wraps
    when the limit is close to the largest integer. *)
Definition admission_target (hashedKey : string) (itemSize : Z) (c : cache) : Z :=
  let existingSize := entry_size c hashedKey in
  let otherReserved := reservedSize c - reserved_for c hashedKey in
  wrap64 (MaxSize (config c) - otherReserved - itemSize + existingSize).

Definition evictForAdmissionLocked (hashedKey : string) (itemSize : Z) (c : cache)
    : option admission_error * cache :=
  if itemSize <? 0 then (Some SizeOverflow, c)
  else if MaxSize (config c) <=? 0 then (None, c)
  else if MaxSize (config c) <? itemSize then (Some (ExceedsLimit itemSize (MaxSize (config c))), c)
  else
    let targetSize := admission_target hashedKey itemSize c in
    let '(removeErr, c) := evict_loop hashedKey targetSize (rev (lruList c)) false c in
    if targetSize <? totalSize c then (Some (MustShrink (totalSize c) targetSize removeErr), c)
    else (None, c).

Definition reserveEntry (hashedKey : string) (itemSize : Z) (c : cache) : option admission_error * cache :=
  let '(err, c) := evictForAdmissionLocked hashedKey itemSize c in
  match err with
  | Some _ => (err, c)
  | None =>
      let growth := Z.max (itemSize - entry_size c hashedKey) 0 in
      (None, set_reservations (<[hashedKey := growth]> (reservations c))
               (reservedSize c + (growth - reserved_for c hashedKey)) c)
  end.

(** ** Sweeps *)

(** [cleanupTTLExpired]: removed items, removed bytes, complete. *)
Fixpoint ttl_loop (cutoff : Time) (candidates : list string) (acc : Z * Z * bool) (c : cache)
    : (Z * Z * bool) * cache :=
  let '(removed, bytesRemoved, complete) := acc in
  match candidates with
  | [] => (acc, c)
  | h :: candidates =>
      match lruIndex c !! h with
      | Some entry =>
          if Before (e_storedAt entry) cutoff then
            if active c (e_hashedKey entry) then ttl_loop cutoff candidates (removed, bytesRemoved, false) c
            else let '(failed, c) := removeEntry entry c in
                 if failed : bool then ttl_loop cutoff candidates (removed, bytesRemoved, false) c
                 else ttl_loop cutoff candidates (removed + 1, bytesRemoved + e_size entry, complete)
                        (RecordCacheEviction "ttl" c)
          else ttl_loop cutoff candidates acc c
      | None => ttl_loop cutoff candidates acc c
      end
  end.

Definition cleanupTTLExpired (now : Time) (c : cache) : (Z * Z * bool) * cache :=
  ttl_loop (Add now (- TTL (config c))) (rev (lruList c)) (0, 0, true) c.

Fixpoint max_size_loop (candidates : list string) (acc : Z * Z) (c : cache) : (Z * Z) * cache :=
  let '(removed, bytesRemoved) := acc in
  match candidates with
  | [] => (acc, c)
  | h :: candidates =>
      if MaxSize (config c) <? totalSize c then
        match lruIndex c !! h with
        | Some entry =>
            if active c (e_hashedKey entry) then max_size_loop candidates acc c
            else let '(failed, c) := removeEntry entry c in
                 if failed : bool then max_size_loop candidates acc c
                 else max_size_loop candidates (removed + 1, bytesRemoved + e_size entry)
                        (RecordCacheEviction "size_limit" c)
        | None => max_size_loop candidates acc c
        end
      else (acc, c)
  end.

Definition enforceMaxSize (c : cache) : (Z * Z) * cache := max_size_loop (rev (lruList c)) (0, 0) c.

(** The removals of [Purge], front to back: whether one failed. *)
Fixpoint purge_loop (candidates : list string) (purgeErr : bool) (c : cache) : bool * cache :=
  match candidates with
  | [] => (purgeErr, c)
  | h :: candidates =>
      match lruIndex c !! h with
      | Some entry => let '(failed, c) := removeEntry entry c in
                      purge_loop candidates (purgeErr || failed) c
      | None => purge_loop candidates purgeErr c
      end
  end.

(** ** The invariant of the ledger *)

Record ledger_inv (c : cache) : Prop := {
  li_nodup : NoDup (lruList c);
  li_index : ∀ h, h ∈ lruList c ↔ is_Some (lruIndex c !! h);
  li_key : map_Forall (λ h e, e_hashedKey e = h) (lruIndex c);
  li_size : map_Forall (λ _ e, 0 ≤ e_size e) (lruIndex c);
  li_total : totalSize c = map_zsum (e_size <$> lruIndex c);
  li_resv : map_Forall (λ _ v, 0 ≤ v) (reservations c);
  li_reserved : reservedSize c = map_zsum (reservations c);
  li_fresh : ∀ h e g, lruIndex c !! h = Some e → e_generation e = Some g → (g < nextGeneration c)%nat;
  li_unique : ∀ h1 h2 e1 e2 g, lruIndex c !! h1 = Some e1 → lruIndex c !! h2 = Some e2 →
    e_generation e1 = Some g → e_generation e2 = Some g → h1 = h2;
}.

(** The effect of a sweep: entries removed one at a time, each under a hashed
    key that satisfies [P]; a failed removal only changes the files. *)
Inductive removals (P : string → Prop) : cache → cache → Prop :=
  | removals_done c : removals P c c
  | removals_failed c c1 c' h e :
      lruIndex c !! h = Some e → P h → removeEntry e c = (true, c1) →
      removals P c1 c' → removals P c c'
  | removals_ok c c1 c' h e :
      lruIndex c !! h = Some e → P h → removeEntry e c = (false, c1) →
      removals P c1 c' → removals P c c'
  | removals_log c c' reason :
      removals P (RecordCacheEviction reason c) c' → removals P c c'.

(** ** Preservation *)

Lemma ledger_inv_ext c c' :
  ledger_inv c → lruList c' = lruList c → lruIndex c' = lruIndex c → totalSize c' = totalSize c →
  reservations c' = reservations c → reservedSize c' = reservedSize c →
  nextGeneration c' = nextGeneration c → ledger_inv c'.
Proof. intros [] E1 E2 E3 E4 E5 E6. split; rewrite ?E1, ?E2, ?E3, ?E4, ?E5, ?E6; done. Qed.

Lemma total_nonneg c : ledger_inv c → 0 ≤ totalSize c.
Proof.
  intros Hc. rewrite (li_total _ Hc). apply map_zsum_nonneg.
  intros h v (e & <- & He)%lookup_fmap_Some. exact (li_size _ Hc h e He).
Qed.

Lemma reserved_nonneg c : ledger_inv c → 0 ≤ reservedSize c.
Proof. intros Hc. rewrite (li_reserved _ Hc). apply map_zsum_nonneg, Hc. Qed.

Lemma reserved_for_nonneg c h : ledger_inv c → 0 ≤ reserved_for c h.
Proof.
  intros Hc. unfold reserved_for. destruct (reservations c !! h) as [v|] eqn:E; simpl; [|lia].
  exact (li_resv _ Hc h v E).
Qed.

Lemma entry_size_nonneg c h : ledger_inv c → 0 ≤ entry_size c h.
Proof.
  intros Hc. unfold entry_size. destruct (lruIndex c !! h) as [e|] eqn:E; [|lia].
  exact (li_size _ Hc h e E).
Qed.

Lemma entry_size_le_total c h : ledger_inv c → entry_size c h ≤ totalSize c.
Proof.
  intros Hc. pose proof (total_nonneg c Hc) as Ht. unfold entry_size.
  destruct (lruIndex c !! h) as [e|] eqn:E; [|done].
  rewrite (li_total _ Hc). apply map_zsum_lookup_le with h.
  - intros k v (e' & <- & He')%lookup_fmap_Some. exact (li_size _ Hc k e' He').
  - by rewrite lookup_fmap, E.
Qed.

Lemma reserved_for_le c h : ledger_inv c → reserved_for c h ≤ reservedSize c.
Proof.
  intros Hc. pose proof (reserved_nonneg c Hc) as Hr. unfold reserved_for.
  destruct (reservations c !! h) as [v|] eqn:E; simpl; [|done].
  rewrite (li_reserved _ Hc). apply map_zsum_lookup_le with h; [apply Hc|done].
Qed.

Lemma default_size (m : gmap string cacheEntry) h :
  default 0 ((e_size <$> m) !! h) = match m !! h with Some e => e_size e | None => 0 end.
Proof. rewrite lookup_fmap. by destruct (m !! h). Qed.

(** Writing one entry of the index, with a list that gains at most its key. *)
Lemma ledger_inv_insert c h e l total next :
  ledger_inv c → e_hashedKey e = h → 0 ≤ e_size e → NoDup l → (∀ x, x ∈ l ↔ x = h ∨ x ∈ lruList c) →
  total = totalSize c - entry_size c h + e_size e →
  (nextGeneration c ≤ next)%nat →
  (∀ g, e_generation e = Some g →
     (g < next)%nat ∧ ∀ h' e', h' ≠ h → lruIndex c !! h' = Some e' → e_generation e' ≠ Some g) →
  ledger_inv (set_lru l (<[h := e]> (lruIndex c)) total next c).
Proof.
  intros Hc Hk Hs Hnd Hl -> Hnext Hgen. split; simpl; try apply Hc.
  - done.
  - intros x. rewrite Hl, lookup_insert_is_Some, (li_index _ Hc).
    destruct (decide (h = x)); naive_solver.
  - apply map_Forall_insert_2; [done|apply Hc].
  - apply map_Forall_insert_2; [done|apply Hc].
  - rewrite fmap_insert, map_zsum_insert, default_size, <- (li_total _ Hc). reflexivity.
  - intros h' e' g [[<- <-]|[? He']]%lookup_insert_Some Hg.
    + by destruct (Hgen g Hg).
    + pose proof (li_fresh _ Hc h' e' g He' Hg) as Hlt. lia.
  - intros h1 h2 e1 e2 g [[<- <-]|[Hn1 H1]]%lookup_insert_Some [[<- <-]|[Hn2 H2]]%lookup_insert_Some Hg1 Hg2.
    + done.
    + destruct (Hgen g Hg1) as [_ Hother]. by destruct (Hother h2 e2 (not_eq_sym Hn2) H2).
    + destruct (Hgen g Hg2) as [_ Hother]. by destruct (Hother h1 e1 (not_eq_sym Hn1) H1).
    + exact (li_unique _ Hc h1 h2 e1 e2 g H1 H2 Hg1 Hg2).
Qed.

Lemma ledger_inv_delete c h e f :
  ledger_inv c → lruIndex c !! h = Some e →
  ledger_inv (set_lru (list_remove h (lruList c)) (delete h (lruIndex c)) (totalSize c - e_size e)
                (nextGeneration c) (set_fs f c)).
Proof.
  intros Hc He. split; simpl; try apply Hc.
  - apply NoDup_filter, Hc.
  - intros x. unfold list_remove. rewrite list_elem_of_filter, (li_index _ Hc), lookup_delete_is_Some.
    naive_solver.
  - apply map_Forall_delete, Hc.
  - apply map_Forall_delete, Hc.
  - rewrite fmap_delete, map_zsum_delete, default_size, <- (li_total _ Hc), He. reflexivity.
  - intros h' e' g [? H']%lookup_delete_Some. exact (li_fresh _ Hc h' e' g H').
  - intros h1 h2 e1 e2 g [? H1]%lookup_delete_Some [? H2]%lookup_delete_Some. exact (li_unique _ Hc h1 h2 e1 e2 g H1 H2).
Qed.

Lemma reservation_insert c h v :
  ledger_inv c → 0 ≤ v →
  ledger_inv (set_reservations (<[h := v]> (reservations c)) (reservedSize c + (v - reserved_for c h)) c).
Proof.
  intros Hc Hv. split; simpl; try apply Hc.
  - apply map_Forall_insert_2; [done|apply Hc].
  - rewrite map_zsum_insert, <- (li_reserved _ Hc). unfold reserved_for. lia.
Qed.

Lemma releaseReservation_inv h c : ledger_inv c → ledger_inv (releaseReservation h c).
Proof.
  intros Hc. split; simpl; try apply Hc.
  - apply map_Forall_delete, Hc.
  - rewrite map_zsum_delete, <- (li_reserved _ Hc). reflexivity.
Qed.

Lemma beginReservation_inv h c :
  ledger_inv c → active c h = false → ledger_inv (beginReservation h c).
Proof.
  unfold active. intros Hc Ha. apply bool_decide_eq_false, eq_None_not_Some in Ha.
  pose proof (reservation_insert c h 0 Hc ltac:(lia)) as Hi.
  unfold reserved_for in Hi. rewrite Ha in Hi. simpl in Hi.
  rewrite Z.sub_diag, Z.add_0_r in Hi. exact Hi.
Qed.
End Operations.

#[export] Hint Resolve total_nonneg reserved_nonneg reserved_for_nonneg entry_size_nonneg
  entry_size_le_total reserved_for_le releaseReservation_inv beginReservation_inv : httpcache.

(** ** The operations preserve the invariant *)

Section Preservation.
Context `{VFS}.
Implicit Types c : cache.

Lemma move_to_front_spec h l : NoDup l → NoDup (move_to_front h l) ∧ ∀ x, x ∈ move_to_front h l ↔ x = h ∨ x ∈ l.
Proof.
  intros Hnd. unfold move_to_front, list_remove. split.
  - apply NoDup_cons. split; [|by apply NoDup_filter]. by intros [? _]%list_elem_of_filter.
  - intros x. rewrite elem_of_cons, list_elem_of_filter. destruct (decide (x = h)); naive_solver.
Qed.

Lemma trackEntry_inv key h size storedAt now c :
  ledger_inv c → 0 ≤ size → ledger_inv (trackEntry key h size storedAt now c).
Proof.
  intros Hc%(releaseReservation_inv h) Hs. unfold trackEntry. cbv zeta.
  fold (releaseReservation h c). set (c1 := releaseReservation h c) in *. clearbody c1.
  assert (∀ g, Some (nextGeneration c1) = Some g → (g < S (nextGeneration c1))%nat ∧
    ∀ h' e', h' ≠ h → lruIndex c1 !! h' = Some e' → e_generation e' ≠ Some g) as Hg.
  { intros g Hn. assert (g = nextGeneration c1) as -> by congruence. split; [lia|]. intros h' e' _ He' Hg.
    pose proof (li_fresh _ Hc h' e' _ He' Hg) as Hlt. lia. }
  destruct (lruIndex c1 !! h) as [e|] eqn:E.
  - destruct (move_to_front_spec h (lruList c1) (li_nodup _ Hc)) as [Hn Hl].
    apply ledger_inv_insert; simpl; auto.
    + exact (li_key _ Hc h e E).
    + unfold entry_size. by rewrite E.
  - apply ledger_inv_insert; simpl; auto.
    + apply NoDup_cons. split; [|apply Hc]. rewrite (li_index _ Hc), E. by intros [? ?].
    + intros x. by rewrite elem_of_cons.
    + unfold entry_size. rewrite E. lia.
Qed.

Lemma touchEntry_inv h now c : ledger_inv c → ledger_inv (touchEntry h now c).
Proof.
  intros Hc. unfold touchEntry. destruct (lruIndex c !! h) as [e|] eqn:E; [|done].
  destruct (move_to_front_spec h (lruList c) (li_nodup _ Hc)) as [Hn Hl].
  apply ledger_inv_insert; simpl; auto.
  - exact (li_key _ Hc h e E).
  - exact (li_size _ Hc h e E).
  - unfold entry_size. rewrite E. lia.
  - intros g Hg. split; [exact (li_fresh _ Hc h e g E Hg)|].
    intros h' e' Hne He' Hg'. exact (Hne (li_unique _ Hc _ _ _ _ g He' E Hg' Hg)).
Qed.

Lemma removeEntry_failed e c c1 :
  removeEntry e c = (true, c1) → ∃ f, c1 = set_fs f c.
Proof.
  unfold removeEntry, remove_files.
  destruct (fs_remove _ _) as [r1 f1], (fs_remove _ f1) as [r2 f2]. case_goal; intros [= <-]; eauto.
Qed.

Lemma removeEntry_done e c c1 :
  removeEntry e c = (false, c1) →
  ∃ f, c1 = set_lru (list_remove (e_hashedKey e) (lruList c)) (delete (e_hashedKey e) (lruIndex c))
              (totalSize c - e_size e) (nextGeneration c) (set_fs f c).
Proof.
  unfold removeEntry, remove_files.
  destruct (fs_remove _ _) as [r1 f1], (fs_remove _ f1) as [r2 f2]. case_goal; intros [= <-]; eauto.
Qed.

Lemma removeEntry_inv b h e c c1 :
  ledger_inv c → lruIndex c !! h = Some e → removeEntry e c = (b, c1) → ledger_inv c1.
Proof.
  intros Hc He. destruct b; [intros [f ->]%removeEntry_failed|intros [f ->]%removeEntry_done].
  - by apply (ledger_inv_ext c).
  - rewrite (li_key _ Hc h e He). by apply ledger_inv_delete.
Qed.

Lemma remove_files_frame h c : ∃ f, (remove_files h c).2 = set_fs f c.
Proof. unfold remove_files. destruct (fs_remove _ _) as [r1 f1], (fs_remove _ f1) as [r2 f2]. eauto. Qed.

Lemma discardUnadmitted_inv key h residual storedAt now c :
  ledger_inv c → ledger_inv (discardUnadmitted key h residual storedAt now c).2.
Proof.
  intros Hc. unfold discardUnadmitted. destruct (lruIndex c !! h) as [e|] eqn:E.
  - destruct (removeEntry e c) as [failed c1] eqn:R.
    pose proof (removeEntry_inv _ _ _ _ _ Hc E R) as Hc1.
    destruct failed; simpl; [|done]. apply removeEntry_failed in R as [f ->].
    case_goal; simpl; [|done]. unbool.
    apply (ledger_inv_insert (set_fs f c) h); simpl; auto.
    + exact (li_key _ Hc h e E).
    + pose proof (li_size _ Hc h e E) as Hs. simpl in Hs. lia.
    + apply Hc.
    + intros x. rewrite (li_index _ Hc). destruct (decide (x = h)) as [->|]; [|naive_solver].
      rewrite E. naive_solver.
    + unfold entry_size. simpl. rewrite E. lia.
    + intros g Hg. split; [exact (li_fresh _ Hc h e g E Hg)|].
      intros h' e' Hne He' Hg'. exact (Hne (li_unique _ Hc _ _ _ _ g He' E Hg' Hg)).
  - destruct (remove_files_frame h c) as [f Hf]. destruct (remove_files h c) as [failed c1].
    simpl in Hf. subst c1. destruct failed; simpl; [|by apply (ledger_inv_ext c)].
    apply (ledger_inv_insert (set_fs f c) h); simpl; auto.
    + by apply (ledger_inv_ext c).
    + case_goal; unbool; lia.
    + apply NoDup_cons. split; [|apply Hc]. rewrite (li_index _ Hc), E. by intros [? ?].
    + intros x. by rewrite elem_of_cons.
    + unfold entry_size. simpl. rewrite E. lia.
    + done.
Qed.

(** What a sweep may change, and what it leaves alone. *)
Lemma removals_spec P c c' :
  removals P c c' → ledger_inv c →
  ledger_inv c' ∧ config c' = config c ∧ reservations c' = reservations c ∧
  reservedSize c' = reservedSize c ∧ nextGeneration c' = nextGeneration c ∧
  lruIndex c' ⊆ lruIndex c ∧ totalSize c' ≤ totalSize c ∧
  (∀ h, ¬ P h → lruIndex c' !! h = lruIndex c !! h).
Proof.
  induction 1 as [c|c c1 c' h e He HP R _ IH|c c1 c' h e He HP R _ IH|c c' reason _ IH]; intros Hc.
  - by split_and!.
  - pose proof (removeEntry_inv _ _ _ _ _ Hc He R) as Hc1. apply removeEntry_failed in R as [f ->]. exact (IH Hc1).
  - pose proof (removeEntry_inv _ _ _ _ _ Hc He R) as Hc1. apply removeEntry_done in R as [f R].
    pose proof (li_key _ Hc h e He) as Hk. simpl in Hk. rewrite Hk in R.
    pose proof (li_size _ Hc h e He) as Hs. simpl in Hs.
    destruct (IH Hc1) as (Hi & E1 & E2 & E3 & E4 & E5 & E6 & E7).
    subst c1. simpl in *. split_and!; try done.
    + etrans; [exact E5|apply delete_subseteq].
    + lia.
    + intros h' HP'. rewrite (E7 h' HP'), lookup_delete_ne; [done|]. intros ->. by apply HP'.
  - apply IH. by apply (ledger_inv_ext c).
Qed.
End Preservation.
