(* ===== verification/Admission.v ===== *)
(** * Admission, capacity and the sweeps

    The ledger as a transition system of the steps that writers, readers and
    the sweeps interleave, each one critical section of [lruMutex]; the
    capacity bound it keeps, the exact set of entries an admission evicts,
    when an admission succeeds, and what the sweeps guarantee. *)

From S2P Require Import Prelude GoStrings GoTime Config Vfs CacheState Ledger.

(** ** Reference definitions *)

(** The least recently used entries an eviction may take, until [need] bytes
    are freed. *)
Fixpoint victims (evictable : string → bool) (size_of : string → Z) (need : Z) (candidates : list string)
    : list string :=
  match candidates with
  | [] => []
  | h :: candidates =>
      if need <=? 0 then []
      else if evictable h then h :: victims evictable size_of (need - size_of h) candidates
      else victims evictable size_of need candidates
  end.

Section System.
Context `{VFS}.
Implicit Types c : cache.

Definition evictable (hashedKey : string) (c : cache) (h : string) : bool := (h <>?s hashedKey) && negb (active c h).

(** Bytes an admission of [hashedKey] cannot reclaim: the entries of the
    other active writers. *)
Definition pinned_size (hashedKey : string) (c : cache) : Z :=
  map_zsum (e_size <$> filter (λ '(h, _), h ≠ hashedKey ∧ is_Some (reservations c !! h)) (lruIndex c)).

(** No file resists removal. *)
Definition removals_succeed : Prop := ∀ p f, (fs_remove p f).1 ≠ RemoveFailed.

(** The entries whose files resist removal are among [refused]; they are
    exactly those. *)
Definition may_refuse (refused : string → bool) : Prop := ∀ h c, refused h = false → (remove_files h c).1 = false.
Definition refuses (refused : string → bool) : Prop := ∀ h c, (remove_files h c).1 = refused h.

(** What an admission of [item] bytes lacks, without the wrap-around of the
    code: the tracked bytes and those promised to the other writers, less the
    entry that is replaced, with the new one, against the limit. *)
Definition shortage (hashedKey : string) (item : Z) (c : cache) : Z :=
  totalSize c - entry_size c hashedKey + (reservedSize c - reserved_for c hashedKey) + item - MaxSize (config c).

(** A writer that holds a key: the size it was last admitted with and the
    growth reserved for it. *)
Record admission := { a_size : Z; a_growth : Z }.

(** One critical section, and the end of [Purge], which runs while no writer
    holds a key ([generationMu]).  The map records the writers that are
    admitted and have not given up: [StoreContext] and [Freshen] hold the
    writer lock of the key from [beginReservation] to [releaseReservation],
    commit what they were admitted for, and a writer that discards its key
    stores nothing.  The number is the excess: the bytes by which discards that
    could not remove the files left more than was admitted (the code keeps the
    residual in the ledger).  An admission that does not shrink its entry
    clears it.  [room] is what the integers have room for beside the limit. *)
Inductive ledger_step (room : Z) : Z * gmap string admission * cache → Z * gmap string admission * cache → Prop :=
  | step_begin x adm c h :
      active c h = false → ledger_step room (x, adm, c) (x, adm, beginReservation h c)
  | step_reserve_ok x adm c c' h item :
      active c h = true → reserveEntry h item c = (None, c') →
      ledger_step room (x, adm, c)
        (if entry_size c h <=? item then 0 else x, <[h := {| a_size := item; a_growth := reserved_for c' h |}]> adm, c')
  | step_reserve_error x adm c c' h item err :
      active c h = true → reserveEntry h item c = (Some err, c') → ledger_step room (x, adm, c) (x, adm, c')
  | step_track x adm c key h a size storedAt now :
      adm !! h = Some a → 0 ≤ size ≤ a_size a →
      ledger_step room (x, adm, c) (x, delete h adm, trackEntry key h size storedAt now c)
  | step_release x adm c h : ledger_step room (x, adm, c) (x, delete h adm, releaseReservation h c)
  | step_discard x adm c c' key h residual storedAt now failed :
      discardUnadmitted key h residual storedAt now c = (failed, c') →
      let allowed := match adm !! h with Some a => a_size a | None => entry_size c h end in
      let x' := x + Z.max 0 (entry_size c' h - allowed) in
      x' ≤ room → ledger_step room (x, adm, c) (x', delete h adm, c')
  | step_touch x adm c h now : ledger_step room (x, adm, c) (x, adm, touchEntry h now c)
  | step_ttl x adm c now : ledger_step room (x, adm, c) (x, adm, (cleanupTTLExpired now c).2)
  | step_max_size x adm c : ledger_step room (x, adm, c) (x, adm, (enforceMaxSize c).2)
  | step_purge x adm c : reservations c = ∅ → ledger_step room (x, adm, c) (x, adm, (purge_loop (lruList c) false c).2)
  | step_files x adm c f : ledger_step room (x, adm, c) (x, adm, set_fs f c).

Definition growth_sum (adm : gmap string admission) : Z := map_zsum (a_growth <$> adm).

(** The invariant of the system, for a bound of the committed and promised
    bytes. *)
Record capacity_inv (bound : Z) (s : gmap string admission * cache) : Prop := {
  cap_ledger : ledger_inv s.2;
  cap_admitted : ∀ h a, s.1 !! h = Some a →
    reservations s.2 !! h = Some (a_growth a) ∧ a_size a ≤ entry_size s.2 h + a_growth a;
  cap_total : totalSize s.2 + growth_sum s.1 ≤ bound;
  cap_reserved : reservedSize s.2 ≤ MaxSize (config s.2);
}.

(** ** The loops are sweeps *)

Lemma record_inv reason c : ledger_inv c → ledger_inv (RecordCacheEviction reason c).
Proof. intros Hc. by apply (ledger_inv_ext c). Qed.

Lemma evict_loop_removals h target l b c :
  ledger_inv c →
  removals (λ x, evictable h c x = true) c (evict_loop h target l b c).2.
Proof.
  revert b c. induction l as [|x l IH]; intros b c Hc; simpl; [constructor|].
  case_goal; [|constructor].
  destruct (lruIndex c !! x) as [e|] eqn:E; [|by apply IH].
  rewrite (li_key _ Hc x e E). destruct ((x =?s h) || active c x) eqn:Ha; [by apply IH|].
  assert (evictable h c x = true) as Hx.
  { unfold evictable. destruct (x =?s h), (active c x); done. }
  destruct (removeEntry e c) as [failed c1] eqn:R.
  pose proof (removeEntry_inv _ _ _ _ _ Hc E R) as Hc1.
  destruct failed.
  - eapply removals_failed; [done|done|done|].
    apply removeEntry_failed in R as [f ->]. exact (IH true _ Hc1).
  - eapply removals_ok; [done|done|done|]. eapply (removals_log _ _ _ "lru").
    apply removeEntry_done in R as [f ->]. exact (IH _ _ (record_inv "lru" _ Hc1)).
Qed.

Lemma ttl_loop_removals cutoff l acc c :
  ledger_inv c → removals (λ x, active c x = false) c (ttl_loop cutoff l acc c).2.
Proof.
  revert acc c. induction l as [|x l IH]; intros [[n b] full] c Hc; simpl; [constructor|].
  destruct (lruIndex c !! x) as [e|] eqn:E; [|by apply IH].
  rewrite (li_key _ Hc x e E). case_goal; [|by apply IH].
  destruct (active c x) eqn:Ha; [by apply IH|].
  destruct (removeEntry e c) as [failed c1] eqn:R.
  pose proof (removeEntry_inv _ _ _ _ _ Hc E R) as Hc1.
  destruct failed.
  - eapply removals_failed; [done|done|done|].
    apply removeEntry_failed in R as [f ->]. exact (IH _ _ Hc1).
  - eapply removals_ok; [done|done|done|]. eapply (removals_log _ _ _ "ttl").
    apply removeEntry_done in R as [f ->]. exact (IH _ _ (record_inv "ttl" _ Hc1)).
Qed.

Lemma max_size_loop_removals l acc c :
  ledger_inv c → removals (λ x, active c x = false) c (max_size_loop l acc c).2.
Proof.
  revert acc c. induction l as [|x l IH]; intros [n b] c Hc; simpl; [constructor|].
  case_goal; [|constructor].
  destruct (lruIndex c !! x) as [e|] eqn:E; [|by apply IH].
  rewrite (li_key _ Hc x e E).
  destruct (active c x) eqn:Ha; [by apply IH|].
  destruct (removeEntry e c) as [failed c1] eqn:R.
  pose proof (removeEntry_inv _ _ _ _ _ Hc E R) as Hc1.
  destruct failed.
  - eapply removals_failed; [done|done|done|].
    apply removeEntry_failed in R as [f ->]. exact (IH _ _ Hc1).
  - eapply removals_ok; [done|done|done|]. eapply (removals_log _ _ _ "size_limit").
    apply removeEntry_done in R as [f ->]. exact (IH _ _ (record_inv "size_limit" _ Hc1)).
Qed.

Lemma purge_loop_removals l b c :
  ledger_inv c → removals (λ _, True) c (purge_loop l b c).2.
Proof.
  revert b c. induction l as [|x l IH]; intros b c Hc; simpl; [constructor|].
  destruct (lruIndex c !! x) as [e|] eqn:E; [|by apply IH].
  destruct (removeEntry e c) as [failed c1] eqn:R.
  pose proof (removeEntry_inv _ _ _ _ _ Hc E R) as Hc1.
  destruct failed; [eapply removals_failed|eapply removals_ok]; eauto.
Qed.


(** ** Admission *)

Lemma admission_target_exact h item c bound :
  ledger_inv c → 0 ≤ item ≤ MaxSize (config c) → totalSize c ≤ bound → MaxSize (config c) + bound ≤ max_int64 →
  reservedSize c ≤ MaxSize (config c) →
  admission_target h item c
  = MaxSize (config c) - (reservedSize c - reserved_for c h) - item + entry_size c h.
Proof.
  intros Hc Hi Ht Hb Hr. unfold admission_target. apply wrap64_id.
  pose proof (reserved_for_nonneg c h Hc) as H1. pose proof (reserved_for_le c h Hc) as H2.
  pose proof (entry_size_nonneg c h Hc) as H3. pose proof (entry_size_le_total c h Hc) as H4.
  unfold int64, min_int64, max_int64 in *. lia.
Qed.

Lemma evictForAdmission_frame h item c :
  ledger_inv c →
  removals (λ x, evictable h c x = true) c (evictForAdmissionLocked h item c).2.
Proof.
  intros Hc. unfold evictForAdmissionLocked. repeat (case_goal; [constructor|]).
  pose proof (evict_loop_removals h (admission_target h item c) (rev (lruList c)) false c Hc) as Hr.
  destruct (evict_loop _ _ _ _ _) as [b c1]. by case_goal.
Qed.

Lemma evictForAdmission_ok h item c c' :
  0 < MaxSize (config c) → evictForAdmissionLocked h item c = (None, c') →
  0 ≤ item ≤ MaxSize (config c) ∧ totalSize c' ≤ admission_target h item c.
Proof.
  intros Hm. unfold evictForAdmissionLocked.
  case_goal; [done|]. case_goal; [unbool; lia|]. case_goal; [done|].
  destruct (evict_loop _ _ _ _ _) as [b c1]. case_goal; [done|]. intros [= <-]. unbool. lia.
Qed.

Lemma entry_size_frame P c c' h :
  removals P c c' → ledger_inv c → ¬ P h → entry_size c' h = entry_size c h.
Proof.
  intros Hr Hc Hh. destruct (removals_spec _ _ _ Hr Hc) as (_ & _ & _ & _ & _ & _ & _ & Hsame).
  unfold entry_size. by rewrite (Hsame h Hh).
Qed.

Lemma reserveEntry_inv h item c : ledger_inv c → ledger_inv (reserveEntry h item c).2.
Proof.
  intros Hc. unfold reserveEntry. pose proof (evictForAdmission_frame h item c Hc) as Hr.
  destruct (evictForAdmissionLocked h item c) as [[err|] c1]; simpl in *;
    apply removals_spec in Hr as (Hc1 & _); try done.
  apply reservation_insert; [done|lia].
Qed.

Lemma not_evictable_self h c : evictable h c h ≠ true.
Proof. unfold evictable. by rewrite String.eqb_refl. Qed.

Lemma not_evictable_active h c h' v : reservations c !! h' = Some v → evictable h c h' ≠ true.
Proof.
  intros Hv. unfold evictable, active. rewrite Hv, bool_decide_true by eauto. by destruct (h' <>?s h).
Qed.

Lemma growth_sum_le (adm : gmap string admission) c h :
  ledger_inv c → (∀ h a, adm !! h = Some a → reservations c !! h = Some (a_growth a)) →
  growth_sum (delete h adm) ≤ reservedSize c - reserved_for c h.
Proof.
  intros Hc Hadm. unfold growth_sum, reserved_for. rewrite (li_reserved _ Hc), <- map_zsum_delete.
  apply map_zsum_mono; [apply map_Forall_delete, Hc|].
  rewrite fmap_delete. apply delete_mono. apply map_subseteq_spec.
  intros x v (a & <- & Ha)%lookup_fmap_Some. by apply Hadm.
Qed.

Lemma growth_sum_delete (adm : gmap string admission) h :
  growth_sum (delete h adm) = growth_sum adm - default 0 (a_growth <$> adm !! h).
Proof. unfold growth_sum. by rewrite fmap_delete, map_zsum_delete, lookup_fmap. Qed.

Lemma growth_sum_insert (adm : gmap string admission) h a :
  growth_sum (<[h := a]> adm) = growth_sum (delete h adm) + a_growth a.
Proof. rewrite growth_sum_delete. unfold growth_sum. by rewrite fmap_insert, map_zsum_insert, lookup_fmap. Qed.

(** ** Capacity *)

Lemma cap_removals bound adm P c c' :
  capacity_inv bound (adm, c) → removals P c c' → (∀ h v, reservations c !! h = Some v → ¬ P h) →
  capacity_inv bound (adm, c') ∧ config c' = config c.
Proof.
  intros [Hc Hadm Ht Hr] Hrem HP; simpl in *.
  destruct (removals_spec _ _ _ Hrem Hc) as (Hc' & Hcfg & Hres & Hrsz & _ & _ & Hle & _).
  split; [|done]. split; simpl; [done| |lia|by rewrite Hcfg, Hrsz].
  intros h a Ha. destruct (Hadm h a Ha) as [H1 H2]. rewrite Hres. split; [done|].
  rewrite (entry_size_frame P c c' h Hrem Hc (HP h _ H1)). done.
Qed.

Lemma reserved_for_inserted c h v r : reserved_for (set_reservations (<[h := v]> (reservations c)) r c) h = v.
Proof. unfold reserved_for. simpl. by rewrite lookup_insert_eq. Qed.

Lemma cap_reserve_ok bound adm c c' h item :
  0 < MaxSize (config c) ≤ bound → MaxSize (config c) + bound ≤ max_int64 →
  capacity_inv bound (adm, c) → reserveEntry h item c = (None, c') →
  capacity_inv (if entry_size c h <=? item then MaxSize (config c) else bound) (<[h := {| a_size := item; a_growth := reserved_for c' h |}]> adm, c')
  ∧ config c' = config c.
Proof.
  intros Hm Hb [Hc Hadm Ht Hr]; simpl in *. unfold reserveEntry.
  pose proof (evictForAdmission_frame h item c Hc) as Hrem.
  destruct (evictForAdmissionLocked h item c) as [err c1] eqn:Ev. destruct err as [err|]; [done|].
  intros [= <-]. simpl in Hrem.
  pose proof (growth_sum_le adm c h Hc (λ x a Ha, proj1 (Hadm x a Ha))) as Hg.
  assert (0 ≤ growth_sum adm) as Hg0.
  { apply map_zsum_nonneg. intros x v (a & <- & Ha)%lookup_fmap_Some.
    destruct (Hadm x a Ha) as [H1 _]. exact (li_resv _ Hc x _ H1). }
  destruct (evictForAdmission_ok h item c c1 (proj1 Hm) Ev) as [Hi Htgt].
  assert (totalSize c ≤ bound) as Htb by lia.
  rewrite (admission_target_exact h item c bound Hc Hi Htb Hb Hr) in Htgt.
  destruct (removals_spec _ _ _ Hrem Hc) as (Hc1 & Hcfg & Hres & Hrsz & _ & _ & Hle & Hsame).
  pose proof (entry_size_frame _ _ _ h Hrem Hc (not_evictable_self h c)) as Hes.
  pose proof (entry_size_nonneg c h Hc) as Hes0. pose proof (total_nonneg c1 Hc1) as Ht0.
  pose proof (entry_size_le_total c1 h Hc1) as Hle1.
  assert (reserved_for c1 h = reserved_for c h) as Hrf by (unfold reserved_for; by rewrite Hres).
  pose proof (reserved_for_nonneg c h Hc) as Hrf0.
  pose proof (growth_sum_delete adm h) as Hgd.
  assert (0 ≤ default 0 (a_growth <$> adm !! h)) as Hd.
  { destruct (adm !! h) as [a|] eqn:Ea; simpl; [|done].
    destruct (Hadm h a Ea) as [H1 _]. exact (li_resv _ Hc h _ H1). }
  rewrite reserved_for_inserted. set (growth := Z.max (item - entry_size c1 h) 0).
  split; [|done]. split; simpl.
  - apply reservation_insert; [done|lia].
  - intros x a [[<- <-]|[Hne Ha]]%lookup_insert_Some; simpl.
    + rewrite lookup_insert_eq. split; [done|]. change (entry_size _ h) with (entry_size c1 h). lia.
    + destruct (Hadm x a Ha) as [H1 H2]. rewrite lookup_insert_ne, Hres by done. split; [done|].
      change (entry_size _ x) with (entry_size c1 x).
      rewrite (entry_size_frame _ _ _ x Hrem Hc (not_evictable_active h c x _ H1)). done.
  - rewrite growth_sum_insert. simpl. destruct (Z.leb_spec (entry_size c h) item); lia.
  - rewrite Hcfg, Hrsz, Hrf. lia.
Qed.

Lemma cap_release bound adm c h :
  capacity_inv bound (adm, c) → capacity_inv bound (delete h adm, releaseReservation h c).
Proof.
  intros [Hc Hadm Ht Hr]; simpl in *. split; simpl.
  - by apply releaseReservation_inv.
  - intros x a [Hne Ha]%lookup_delete_Some. rewrite lookup_delete_ne by done. exact (Hadm x a Ha).
  - pose proof (growth_sum_delete adm h) as Hgd. destruct (adm !! h) as [a|] eqn:Ea; simpl in *; [|lia].
    destruct (Hadm h a Ea) as [H1 _]. pose proof (li_resv _ Hc h _ H1) as Hpos. simpl in Hpos. lia.
  - pose proof (reserved_for_nonneg c h Hc) as Hpos. lia.
Qed.

Lemma trackEntry_frame key h size storedAt now c :
  let c' := trackEntry key h size storedAt now c in
  config c' = config c ∧ reservations c' = delete h (reservations c) ∧
  reservedSize c' = reservedSize c - reserved_for c h ∧
  totalSize c' = totalSize c - entry_size c h + size ∧
  (∀ x, x ≠ h → lruIndex c' !! x = lruIndex c !! x) ∧ entry_size c' h = size.
Proof.
  unfold trackEntry, entry_size. simpl. destruct (lruIndex c !! h) as [e|] eqn:E; simpl; split_and!; try done.
  - intros x Hne. by rewrite lookup_insert_ne.
  - by rewrite lookup_insert_eq.
  - simpl. lia.
  - intros x Hne. by rewrite lookup_insert_ne.
  - by rewrite lookup_insert_eq.
Qed.

Lemma cap_track bound adm c key h a size storedAt now :
  capacity_inv bound (adm, c) → adm !! h = Some a → 0 ≤ size ≤ a_size a →
  capacity_inv bound (delete h adm, trackEntry key h size storedAt now c).
Proof.
  intros [Hc Hadm Ht Hr] Ha Hs; simpl in *.
  destruct (trackEntry_frame key h size storedAt now c) as (E1 & E2 & E3 & E4 & E5 & E6).
  destruct (Hadm h a Ha) as [Hres Hsz].
  split; simpl.
  - apply trackEntry_inv; [done|lia].
  - intros x a' [Hne Ha']%lookup_delete_Some. rewrite E2, lookup_delete_ne by done.
    unfold entry_size. rewrite (E5 x (not_eq_sym Hne)). exact (Hadm x a' Ha').
  - rewrite E4, growth_sum_delete, Ha. simpl. lia.
  - rewrite E1, E3. pose proof (reserved_for_nonneg c h Hc) as Hpos. lia.
Qed.

Lemma discard_frame key h residual storedAt now c failed c' :
  ledger_inv c → discardUnadmitted key h residual storedAt now c = (failed, c') →
  config c' = config c ∧ reservations c' = reservations c ∧ reservedSize c' = reservedSize c ∧
  totalSize c' = totalSize c - entry_size c h + entry_size c' h ∧
  (∀ x, x ≠ h → lruIndex c' !! x = lruIndex c !! x) ∧ (failed = false → entry_size c' h = 0).
Proof.
  intros Hc. unfold discardUnadmitted, entry_size.
  destruct (lruIndex c !! h) as [e|] eqn:E.
  - pose proof (li_key _ Hc h e E) as Hk. simpl in Hk.
    destruct (removeEntry e c) as [b c1] eqn:R. destruct b.
    + apply removeEntry_failed in R as [f ->].
      destruct (e_size e <? residual) eqn:Hlt; intros [= <- <-]; simpl; split_and!; try done.
      * rewrite lookup_insert_eq. simpl. lia.
      * intros x Hne. by rewrite lookup_insert_ne.
      * rewrite E. lia.
    + apply removeEntry_done in R as [f ->]. rewrite Hk. intros [= <- <-]; simpl; split_and!; try done.
      * rewrite lookup_delete_eq. lia.
      * intros x Hne. by rewrite lookup_delete_ne.
      * by rewrite lookup_delete_eq.
  - destruct (remove_files_frame h c) as [f Hf]. destruct (remove_files h c) as [b c1]. simpl in Hf. subst c1.
    destruct b; intros [= <- <-]; simpl; split_and!; try done.
    + rewrite lookup_insert_eq. simpl. lia.
    + intros x Hne. by rewrite lookup_insert_ne.
    + rewrite E. lia.
    + by rewrite E.
Qed.

Lemma cap_discard bound adm c c' key h residual storedAt now failed :
  capacity_inv bound (adm, c) → discardUnadmitted key h residual storedAt now c = (failed, c') →
  capacity_inv (bound + Z.max 0 (entry_size c' h - match adm !! h with Some a => a_size a | None => entry_size c h end))
    (delete h adm, c') ∧ config c' = config c.
Proof.
  intros [Hc Hadm Ht Hr] D; simpl in *.
  destruct (discard_frame _ _ _ _ _ _ _ _ Hc D) as (E1 & E2 & E3 & E4 & E5 & _).
  pose proof (discardUnadmitted_inv key h residual storedAt now c Hc) as Hc'. rewrite D in Hc'. simpl in Hc'.
  pose proof (entry_size_nonneg c h Hc) as Hes0.
  split; [|done]. split; simpl.
  - done.
  - intros x a' [Hne Ha']%lookup_delete_Some. rewrite E2.
    unfold entry_size. rewrite (E5 x (not_eq_sym Hne)). exact (Hadm x a' Ha').
  - rewrite E4, growth_sum_delete. destruct (adm !! h) as [a|] eqn:Ea; simpl; [|lia].
    destruct (Hadm h a Ea) as [H1 H2]. pose proof (li_resv _ Hc h _ H1) as Hpos. simpl in Hpos. lia.
  - by rewrite E1, E3.
Qed.

(** The invariant with the excess, which only a discard raises. *)
Record ledger_safe (room : Z) (s : Z * gmap string admission * cache) : Prop := {
  ls_excess : 0 ≤ s.1.1 ≤ room;
  ls_limit : 0 < MaxSize (config s.2) ∧ 2 * MaxSize (config s.2) + room ≤ max_int64;
  ls_capacity : capacity_inv (MaxSize (config s.2) + s.1.1) (s.1.2, s.2);
}.

Lemma ledger_safe_frame room x adm adm' c c' :
  ledger_safe room (x, adm, c) → capacity_inv (MaxSize (config c) + x) (adm', c') → config c' = config c →
  ledger_safe room (x, adm', c').
Proof. intros [Hx Hl Hs] Hc E. split; cbn [fst snd] in *; by rewrite ?E. Qed.

Lemma ledger_safe_sweep room x adm P c c' :
  ledger_safe room (x, adm, c) → removals P c c' → (∀ h v, reservations c !! h = Some v → ¬ P h) →
  ledger_safe room (x, adm, c').
Proof.
  intros Hs Hrem HP. destruct (cap_removals _ _ _ _ _ (ls_capacity _ _ Hs) Hrem HP) as [Hc E].
  by eapply ledger_safe_frame.
Qed.

Lemma ledger_step_safe room s s' : ledger_safe room s → ledger_step room s s' → ledger_safe room s' ∧ config s'.2 = config s.2.
Proof.
  intros Hs Hstep. destruct Hstep as
    [x adm c h Ha|x adm c c' h item _ R|x adm c c' h item err _ R|x adm c key h a size storedAt now Ha Hsz|x adm c h
    |x adm c c' key h residual storedAt now failed D allowed x' Hroom|x adm c h now|x adm c now|x adm c|x adm c Hnone|x adm c f];
    cbn [fst snd] in *; pose proof (cap_ledger _ _ (ls_capacity _ _ Hs)) as Hc; cbn [fst snd] in Hc;
    pose proof (ls_excess _ _ Hs) as Hx; destruct (ls_limit _ _ Hs) as [Hm Hb]; cbn [fst snd] in Hx, Hm, Hb.
  - split; [|done]. eapply ledger_safe_frame; [exact Hs| |done]. destruct (ls_capacity _ _ Hs) as [_ Hadm Ht Hr]; simpl in *. split; simpl; try done.
    + by apply beginReservation_inv.
    + intros y a Hy. destruct (Hadm y a Hy) as [H1 H2]. rewrite lookup_insert_ne; [done|].
      intros <-. unfold active in Ha. rewrite H1, bool_decide_true in Ha; [done|eauto].
  - destruct (cap_reserve_ok (MaxSize (config c) + x) adm c c' h item ltac:(lia) ltac:(lia) (ls_capacity _ _ Hs) R) as [Hcap E].
    split; [|done]. split; cbn [fst snd]; rewrite ?E; [by destruct (_ <=? _); lia|done|].
    destruct (_ <=? _); by rewrite ?Z.add_0_r.
  - pose proof (evictForAdmission_frame h item c Hc) as Hrem.
    unfold reserveEntry in R. destruct (evictForAdmissionLocked h item c) as [[e|] c1]; [|done]. injection R as <- <-.
    split; [|by apply (removals_spec _ _ _ Hrem Hc)]. eapply ledger_safe_sweep; [exact Hs|exact Hrem|].
    intros y v Hy. by eapply not_evictable_active.
  - destruct (trackEntry_frame key h size storedAt now c) as (E & _). split; [|done].
    eapply ledger_safe_frame; [exact Hs|by apply (cap_track _ _ _ _ _ a); [apply Hs|..]|done].
  - split; [|done]. eapply ledger_safe_frame; [exact Hs|by apply cap_release, Hs|done].
  - destruct (cap_discard _ _ _ _ _ _ _ _ _ _ (ls_capacity _ _ Hs) D) as [Hcap E]; cbn [fst snd] in *.
    split; [|done]. split; cbn [fst snd]; rewrite ?E; [lia|done|]. unfold x'. by rewrite Z.add_assoc.
  - assert (config (touchEntry h now c) = config c) as E by (unfold touchEntry; by destruct (lruIndex c !! h)). split; [|done].
    eapply ledger_safe_frame; [exact Hs| |done]. destruct (ls_capacity _ _ Hs) as [_ Hadm Ht Hr]; simpl in *. pose proof (touchEntry_inv h now c Hc) as Hc'.
    unfold touchEntry in *. destruct (lruIndex c !! h) as [e|] eqn:Eh; [|by split].
    split; simpl; try done. intros y a Hy. destruct (Hadm y a Hy) as [H1 H2]. split; [done|].
    unfold entry_size in *. simpl. destruct (decide (h = y)) as [->|Hne].
    + rewrite lookup_insert_eq. rewrite Eh in H2. done.
    + by rewrite lookup_insert_ne.
  - pose proof (ttl_loop_removals (Add now (- TTL (config c))) (rev (lruList c)) (0, 0, true) c Hc) as Hrem.
    split; [|by apply (removals_spec _ _ _ Hrem Hc)]. eapply ledger_safe_sweep; [exact Hs|exact Hrem|].
    intros y v Hy. unfold active. by rewrite Hy, bool_decide_true by eauto.
  - pose proof (max_size_loop_removals (rev (lruList c)) (0, 0) c Hc) as Hrem.
    split; [|by apply (removals_spec _ _ _ Hrem Hc)]. eapply ledger_safe_sweep; [exact Hs|exact Hrem|].
    intros y v Hy. unfold active. by rewrite Hy, bool_decide_true by eauto.
  - pose proof (purge_loop_removals (lruList c) false c Hc) as Hrem.
    split; [|by apply (removals_spec _ _ _ Hrem Hc)]. eapply ledger_safe_sweep; [exact Hs|exact Hrem|].
    intros y v Hy. by rewrite Hnone, lookup_empty in Hy.
  - split; [|done]. eapply ledger_safe_frame; [exact Hs| |done]. destruct (ls_capacity _ _ Hs) as [_ Hadm Ht Hr]; simpl in *. split; simpl; try done.
    by apply (ledger_inv_ext c).
Qed.

Lemma reachable_safe room s s' :
  ledger_safe room s → rtc (ledger_step room) s s' → ledger_safe room s' ∧ config s'.2 = config s.2.
Proof.
  intros Hs Hsteps. induction Hsteps as [s|s1 s2 s3 Hstep _ IH]; [done|].
  destruct (ledger_step_safe room s1 s2 Hs Hstep) as [Hs2 Hcfg]. rewrite Hcfg in IH. by apply IH.
Qed.

Lemma growth_sum_nonneg bound adm c : capacity_inv bound (adm, c) → 0 ≤ growth_sum adm.
Proof.
  intros [Hc Hadm _ _]. apply map_zsum_nonneg. intros x v (a & <- & Ha)%lookup_fmap_Some.
  destruct (Hadm x a Ha) as [H1 _]. exact (li_resv _ Hc x _ H1).
Qed.

(** What the ledger holds beyond the limit, from an earlier larger limit. *)
Definition initial_excess (c : cache) : Z := Z.max 0 (totalSize c - MaxSize (config c)).

Lemma ledger_safe_init room c :
  ledger_inv c → reservations c = ∅ → 0 < MaxSize (config c) → initial_excess c ≤ room → 2 * MaxSize (config c) + room ≤ max_int64 →
  ledger_safe room (initial_excess c, ∅, c).
Proof.
  unfold initial_excess. intros Hc Hres Hm Hx Hb. split; cbn [fst snd]; [lia|lia|]. split; cbn [fst snd]; [done|done| |].
  - unfold growth_sum. rewrite fmap_empty, map_zsum_empty. lia.
  - rewrite (li_reserved _ Hc), Hres, map_zsum_empty. lia.
Qed.

(** ** The eviction is the reference eviction *)

Lemma removals_succeed_refuses : removals_succeed → refuses (λ _, false).
Proof.
  intros Hok h c. unfold remove_files.
  pose proof (Hok (bodyPath h) (c_fs c)) as H1. destruct (fs_remove (bodyPath h) (c_fs c)) as [r1 f1].
  pose proof (Hok (headerPath h) f1) as H2. destruct (fs_remove (headerPath h) f1) as [r2 f2]. simpl in *.
  by rewrite !bool_decide_false.
Qed.

Lemma removeEntry_fails e c : (removeEntry e c).1 = (remove_files (e_hashedKey e) c).1.
Proof. unfold removeEntry. by destruct (remove_files _ _) as [[] c1]. Qed.

Lemma victims_subset ok sz need l x : x ∈ victims ok sz need l → x ∈ l ∧ ok x = true.
Proof.
  revert need. induction l as [|y l IH]; intros need; simpl; [by intros ?%elem_of_nil|].
  case_goal; [by intros ?%elem_of_nil|]. case_goal.
  - rewrite !elem_of_cons. intros [->|Hx]; [by auto|]. destruct (IH _ Hx). auto.
  - rewrite elem_of_cons. intros Hx. destruct (IH _ Hx). auto.
Qed.

Lemma victims_ext ok sz sz' need l :
  (∀ x, x ∈ l → sz x = sz' x) → victims ok sz need l = victims ok sz' need l.
Proof.
  revert need. induction l as [|y l IH]; intros need Hsz; simpl; [done|].
  rewrite (Hsz y) by apply elem_of_cons, or_introl, eq_refl.
  rewrite !IH; [done|..]; intros x Hx; apply Hsz; by apply elem_of_cons; right.
Qed.

Definition without (vs : list string) (c c' : cache) : Prop :=
  lruList c' = filter (λ h, h ∉ vs) (lruList c) ∧
  (∀ h, lruIndex c' !! h = if decide (h ∈ vs) then None else lruIndex c !! h).

Lemma without_nil c : without [] c c.
Proof.
  split; [|intros y; by rewrite decide_False by apply not_elem_of_nil].
  induction (lruList c) as [|x l IH]; [done|].
  rewrite filter_cons_True by apply not_elem_of_nil. by rewrite <- IH.
Qed.

Definition movable (refused : string → bool) (h : string) (c : cache) (x : string) : bool := evictable h c x && negb (refused x).

Lemma evict_loop_victims refused h target l b c :
  ledger_inv c → refuses refused → NoDup l → (∀ x, x ∈ l → is_Some (lruIndex c !! x)) →
  let vs := victims (movable refused h c) (entry_size c) (totalSize c - target) l in
  let r := evict_loop h target l b c in
  without vs c r.2 ∧ (totalSize r.2 ≤ target ∨ ∀ x, x ∈ l → movable refused h c x = true → x ∈ vs).
Proof.
  intros Hc Hok. revert b c Hc. induction l as [|x l IH]; intros b c Hc Hnd Hin; simpl.
  - split; [apply without_nil|right; by intros x ?%elem_of_nil].
  - apply NoDup_cons in Hnd as [Hx Hnd]. assert (∀ y, y ∈ l → is_Some (lruIndex c !! y)) as Hin' by (intros y Hy; apply Hin; by apply elem_of_cons; right).
    destruct (target <? totalSize c) eqn:Ht; unbool.
    2: { rewrite (proj2 (Z.leb_le (totalSize c - target) 0)) by lia. split; [apply without_nil|left; simpl; lia]. }
    rewrite (proj2 (Z.leb_gt (totalSize c - target) 0)) by lia.
    destruct (Hin x) as [e E]; [by apply elem_of_cons; left|]. rewrite E, (li_key _ Hc x e E).
    assert (movable refused h c x = negb ((x =?s h) || active c x) && negb (refused x)) as Hev.
    { unfold movable, evictable. by destruct (x =?s h), (active c x). }
    assert (∀ b c1, ledger_inv c1 → (∃ f, c1 = set_fs f c) → movable refused h c x = false →
      let r := evict_loop h target l b c1 in let vs := victims (movable refused h c) (entry_size c) (totalSize c - target) l in
      without vs c r.2 ∧ (totalSize r.2 ≤ target ∨ ∀ y, y ∈ x :: l → movable refused h c y = true → y ∈ vs)) as Hskip.
    { intros b1 c1 Hc1 [f ->] Hno. destruct (IH b1 _ Hc1 Hnd Hin') as [H2 H3]. split; [exact H2|]. destruct H3 as [H3|H3]; [by left|right].
      intros y [->|Hy]%elem_of_cons Hy2; [congruence|by apply H3]. }
    rewrite Hev. destruct ((x =?s h) || active c x) eqn:Ha; cbn [negb andb].
    { apply (Hskip b c Hc); [by exists (c_fs c); destruct c|]. by rewrite Hev. }
    pose proof (removeEntry_fails e c) as Hs. rewrite (Hok _ c), (li_key _ Hc x e E) in Hs.
    destruct (removeEntry e c) as [failed c1] eqn:R. cbn [fst] in Hs. subst failed.
    pose proof (removeEntry_inv _ _ _ _ _ Hc E R) as Hc1. destruct (refused x) eqn:Hrx; cbn [negb].
    { apply removeEntry_failed in R. by apply Hskip. }
    apply removeEntry_done in R as [f ->]. rewrite (li_key _ Hc x e E) in *. set (c1 := set_lru _ _ _ _ _) in *.
    assert (∀ y, y ∈ l → lruIndex c1 !! y = lruIndex c !! y) as Hsame.
    { intros y Hy. simpl. rewrite lookup_delete_ne; [done|]. by intros ->. }
    destruct (IH b _ (record_inv "lru" _ Hc1) Hnd) as [[H2 H2'] H3].
    { intros y Hy. simpl. rewrite Hsame by done. by apply Hin'. }
    rewrite (victims_ext _ _ (entry_size c)) in H2, H2', H3
      by (intros y Hy; unfold entry_size; simpl; rewrite lookup_delete_ne; [done|by intros ->]).
    change (movable refused h (RecordCacheEviction "lru" c1)) with (movable refused h c) in *.
    replace (totalSize (RecordCacheEviction "lru" c1) - target) with (totalSize c - target - entry_size c x) in *
      by (unfold entry_size; rewrite E; simpl; lia).
    set (vs := victims (movable refused h c) (entry_size c) (totalSize c - target - entry_size c x) l) in *. split; [split|].
    + rewrite H2. simpl. unfold list_remove. rewrite list_filter_filter.
      apply list_filter_iff. intros y. rewrite not_elem_of_cons. tauto.
    + intros y. rewrite H2'. simpl. destruct (decide (x = y)) as [->|Hne].
      * rewrite lookup_delete_eq, (decide_True (P := y ∈ y :: vs)) by (apply elem_of_cons; by left). by destruct (decide _).
      * rewrite lookup_delete_ne by done. apply decide_ext. rewrite elem_of_cons. naive_solver.
    + destruct H3 as [H3|H3]; [by left|right].
      intros y [->|Hy]%elem_of_cons Hy2; apply elem_of_cons; [by left|right; by apply H3].
Qed.

(** ** Sweeps *)

Definition expired (cutoff : Time) (c : cache) (h : string) : bool :=
  match lruIndex c !! h with Some e => Before (e_storedAt e) cutoff | None => false end.

(** A removal seen through the sizes of the ledger. *)
Lemma removeEntry_sizes e h c c1 :
  ledger_inv c → lruIndex c !! h = Some e → removeEntry e c = (false, c1) →
  ledger_inv c1 ∧ Z.of_nat (size (lruIndex c1)) = Z.of_nat (size (lruIndex c)) - 1 ∧
  totalSize c1 = totalSize c - e_size e ∧ lruIndex c1 = delete h (lruIndex c) ∧
  reservations c1 = reservations c ∧ config c1 = config c.
Proof.
  intros Hc E R. pose proof (removeEntry_inv _ _ _ _ _ Hc E R) as Hc1.
  apply removeEntry_done in R as [f ->]. rewrite (li_key _ Hc h e E) in *. split; [done|]. simpl.
  split_and!; try done. rewrite map_size_delete, E.
  assert (size (lruIndex c) ≠ 0%nat) as Hn; [|lia].
  intros H0%map_size_empty_iff. rewrite H0 in E. by rewrite lookup_empty in E.
Qed.

Lemma ttl_loop_spec cutoff l n b full c n' b' full' c' :
  ledger_inv c → NoDup l →
  ttl_loop cutoff l (n, b, full) c = ((n', b', full'), c') →
  n' - n = Z.of_nat (size (lruIndex c)) - Z.of_nat (size (lruIndex c')) ∧
  b' - b = totalSize c - totalSize c' ∧
  (∀ h, lruIndex c' !! h = lruIndex c !! h ∨ lruIndex c' !! h = None ∧ h ∈ l ∧ expired cutoff c h = true) ∧
  (full' = true → full = true ∧ ∀ h, h ∈ l → expired cutoff c h = true → lruIndex c' !! h = None).
Proof.
  revert n b full c. induction l as [|x l IH]; intros n b full c Hc Hnd; simpl.
  { intros [= <- <- <- <-]. split_and!; [lia|lia|by left|]. intros ->. split; [done|by intros h ?%elem_of_nil]. }
  apply NoDup_cons in Hnd as [Hx Hnd].
  assert (∀ n b full, (lruIndex c !! x = None ∨ expired cutoff c x = false ∨ full = false) →
    ttl_loop cutoff l (n, b, full) c = ((n', b', full'), c') →
    n' - n = Z.of_nat (size (lruIndex c)) - Z.of_nat (size (lruIndex c')) ∧
    b' - b = totalSize c - totalSize c' ∧
    (∀ h, lruIndex c' !! h = lruIndex c !! h ∨ lruIndex c' !! h = None ∧ h ∈ x :: l ∧ expired cutoff c h = true) ∧
    (full' = true → full = true ∧ ∀ h, h ∈ x :: l → expired cutoff c h = true → lruIndex c' !! h = None))
    as Hskip.
  { intros n0 b0 full0 Hcase Hl. destruct (IH _ _ _ _ Hc Hnd Hl) as (H1 & H2 & H3 & H4).
    split_and!; [done|done| |].
    - intros h. destruct (H3 h) as [?|(?&?&?)]; [by left|right]. by rewrite elem_of_cons; auto.
    - intros Hf. destruct (H4 Hf) as [-> H5]. split; [done|].
      intros h [->|Hh]%elem_of_cons He; [|by apply H5]. destruct Hcase as [Hn|[Hn|?]]; [|congruence|done].
      destruct (H3 x) as [->|[? _]]; done. }
  destruct (lruIndex c !! x) as [e|] eqn:E; [|intros Hl; apply Hskip in Hl; [done|by left]].
  assert (expired cutoff c x = Before (e_storedAt e) cutoff) as Hexp by (unfold expired; by rewrite E).
  destruct (Before (e_storedAt e) cutoff) eqn:Hb;
    [|intros Hl; apply Hskip in Hl; [done|by right; left]].
  destruct (active c (e_hashedKey e)).
  { intros Hl. apply Hskip in Hl as (H1 & H2 & H3 & H4); [|by right; right].
    split_and!; [done|done|done|]. intros Hf. by destruct (H4 Hf). }
  destruct (removeEntry e c) as [failed c1] eqn:R. destruct failed.
  - pose proof (removeEntry_inv _ _ _ _ _ Hc E R) as Hc1.
    apply removeEntry_failed in R as [f ->]. intros Hl. apply (IH _ _ _ _ Hc1 Hnd) in Hl
      as (H1 & H2 & H3 & H4). simpl in *. split_and!; [done|done| |].
    + intros h. destruct (H3 h) as [?|(?&?&?)]; [by left|right]. by rewrite elem_of_cons; auto.
    + intros Hf. by destruct (H4 Hf).
  - destruct (removeEntry_sizes _ _ _ _ Hc E R) as (Hc1 & Hn & Ht & Hi & Hr & _). intros Hl.
    apply (IH _ _ _ _ (record_inv "ttl" _ Hc1) Hnd) in Hl as (H1 & H2 & H3 & H4). simpl in *.
    assert (∀ h, expired cutoff (RecordCacheEviction "ttl" c1) h = true → h ≠ x ∧ expired cutoff c h = true) as Hee.
    { intros h. unfold expired. simpl. rewrite Hi. destruct (decide (x = h)) as [->|Hne].
      - by rewrite lookup_delete_eq.
      - rewrite lookup_delete_ne by done. by intros ?. }
    split_and!; [lia|lia| |].
    + intros h. rewrite Hi in H3. destruct (decide (x = h)) as [<-|Hne].
      * right. split_and!; [|by apply elem_of_cons; left|done].
        destruct (H3 x) as [->|[? _]]; [by rewrite lookup_delete_eq|done].
      * destruct (H3 h) as [Hs|(?&?&Hx2)]; [left; by rewrite Hs, lookup_delete_ne|right].
        rewrite elem_of_cons. destruct (Hee h Hx2). auto.
    + intros Hf. destruct (H4 Hf) as [-> H5]. split; [done|].
      intros h [->|Hh]%elem_of_cons He.
      * destruct (H3 x) as [->|[? _]]; [by rewrite Hi, lookup_delete_eq|done].
      * destruct (decide (x = h)) as [<-|Hne]; [done|]. apply H5; [done|].
        revert He. unfold expired. simpl. by rewrite Hi, lookup_delete_ne.
Qed.

Lemma max_size_loop_spec l n b c n' b' c' :
  ledger_inv c → NoDup l → max_size_loop l (n, b) c = ((n', b'), c') →
  n' - n = Z.of_nat (size (lruIndex c)) - Z.of_nat (size (lruIndex c')) ∧
  b' - b = totalSize c - totalSize c' ∧
  (∀ h, h ∉ l → lruIndex c' !! h = lruIndex c !! h) ∧
  (∀ refused, may_refuse refused → totalSize c' ≤ MaxSize (config c) ∨
     ∀ h, h ∈ l → active c h = false → refused h = false → lruIndex c' !! h = None).
Proof.
  revert n b c. induction l as [|x l IH]; intros n b c Hc Hnd; simpl.
  { intros [= <- <- <-]. split_and!; [lia|lia|done|]. intros refused _. right. by intros h ?%elem_of_nil. }
  apply NoDup_cons in Hnd as [Hx Hnd].
  destruct (MaxSize (config c) <? totalSize c) eqn:Hm; unbool.
  2: { intros [= <- <- <-]. split_and!; [lia|lia|done|]. intros refused _. by left. }
  assert (lruIndex c !! x = None ∨ active c x = true →
    max_size_loop l (n, b) c = ((n', b'), c') →
    n' - n = Z.of_nat (size (lruIndex c)) - Z.of_nat (size (lruIndex c')) ∧
    b' - b = totalSize c - totalSize c' ∧
    (∀ h, h ∉ x :: l → lruIndex c' !! h = lruIndex c !! h) ∧
    (∀ refused, may_refuse refused → totalSize c' ≤ MaxSize (config c) ∨
       ∀ h, h ∈ x :: l → active c h = false → refused h = false → lruIndex c' !! h = None)) as Hskip.
  { intros Hcase Hl. destruct (IH _ _ _ Hc Hnd Hl) as (H1 & H2 & H3 & H4). split_and!; [done|done| |].
    - intros h [_ Hh]%not_elem_of_cons. by apply H3.
    - intros refused Hok. destruct (H4 refused Hok) as [?|H5]; [by left|right].
      intros h [->|Hh]%elem_of_cons Ha Hh'; [|by apply H5]. destruct Hcase as [Hn|Hn]; [|congruence].
      by rewrite H3. }
  destruct (lruIndex c !! x) as [e|] eqn:E; [|intros Hl; apply Hskip; auto].
  rewrite (li_key _ Hc x e E). destruct (active c x) eqn:Ha; [intros Hl; apply Hskip; auto|].
  destruct (removeEntry e c) as [failed c1] eqn:R. destruct failed.
  - pose proof (removeEntry_inv _ _ _ _ _ Hc E R) as Hc1. pose proof (removeEntry_fails e c) as Hno. rewrite R, (li_key _ Hc x e E) in Hno.
    apply removeEntry_failed in R as [f ->]. intros Hl. apply (IH _ _ _ Hc1 Hnd) in Hl as (H1 & H2 & H3 & H4).
    split_and!; [done|done| |]. { intros h [_ Hh]%not_elem_of_cons. by apply H3. }
    intros refused Hok. destruct (H4 refused Hok) as [?|H5]; [by left|right].
    intros h [->|Hh]%elem_of_cons Ha' Hh'; [|by apply H5]. by rewrite (Hok x c Hh') in Hno.
  - destruct (removeEntry_sizes _ _ _ _ Hc E R) as (Hc1 & Hn & Ht & Hi & Hr & Hcfg). intros Hl.
    apply (IH _ _ _ (record_inv "size_limit" _ Hc1) Hnd) in Hl as (H1 & H2 & H3 & H4). simpl in *.
    split_and!; [lia|lia| |].
    + intros h [Hne Hh]%not_elem_of_cons. rewrite H3, Hi, lookup_delete_ne; done.
    + intros refused Hok. rewrite Hcfg in H4. destruct (H4 refused Hok) as [?|H5]; [by left|right].
      intros h [->|Hh]%elem_of_cons Ha' Hh'.
      * by rewrite H3, Hi, lookup_delete_eq by done.
      * apply H5; [done| |done]. unfold active in *. simpl. by rewrite Hr.
Qed.

(** The bytes an eviction can never free. *)
Lemma pinned_subset h c c' :
  ledger_inv c → removals (λ x, evictable h c x = true) c c' →
  filter (λ '(x, _), x ≠ h ∧ is_Some (reservations c !! x)) (lruIndex c) ⊆ delete h (lruIndex c').
Proof.
  intros Hc Hrem. destruct (removals_spec _ _ _ Hrem Hc) as (_ & _ & _ & _ & _ & _ & _ & Hsame).
  apply map_subseteq_spec. intros x e [He [Hne [v Hres]]]%map_lookup_filter_Some.
  rewrite lookup_delete_ne by congruence. rewrite Hsame; [done|]. by eapply not_evictable_active.
Qed.

Lemma pinned_le h c c' :
  ledger_inv c → removals (λ x, evictable h c x = true) c c' →
  entry_size c h + pinned_size h c ≤ totalSize c'.
Proof.
  intros Hc Hrem. destruct (removals_spec _ _ _ Hrem Hc) as (Hc' & _).
  pose proof (entry_size_frame _ _ _ h Hrem Hc (not_evictable_self h c)) as Hes.
  pose proof (map_zsum_mono (e_size <$> filter (λ '(x, _), x ≠ h ∧ is_Some (reservations c !! x)) (lruIndex c))
    (e_size <$> delete h (lruIndex c'))) as Hle.
  fold (pinned_size h c) in Hle. rewrite fmap_delete, map_zsum_delete, default_size, <- (li_total _ Hc') in Hle.
  unfold entry_size in Hes at 1. apply Z.le_trans with (totalSize c' - entry_size c h + entry_size c h); [|lia].
  enough (pinned_size h c ≤ totalSize c' - entry_size c h) by lia. rewrite <- Hes. apply Hle.
  - apply map_Forall_delete. intros x v (e & <- & He)%lookup_fmap_Some. exact (li_size _ Hc' x e He).
  - rewrite <- fmap_delete. apply map_fmap_mono. by apply pinned_subset.
Qed.

(** What an admission leaves when every removal succeeds. *)
Lemma evict_loop_pinned h target c :
  ledger_inv c → removals_succeed →
  let c' := (evict_loop h target (rev (lruList c)) false c).2 in
  totalSize c' ≤ target ∨ totalSize c' = entry_size c h + pinned_size h c.
Proof.
  intros Hc Hok c'.
  assert (NoDup (rev (lruList c))) as Hnd by (apply NoDup_rev_list, Hc).
  assert (∀ x, x ∈ rev (lruList c) → is_Some (lruIndex c !! x)) as Hin.
  { intros x. by rewrite <- (li_index _ Hc), elem_of_rev. }
  pose proof (evict_loop_removals h target (rev (lruList c)) false c Hc) as Hrem.
  destruct (removals_spec _ _ _ Hrem Hc) as (Hc' & _ & _ & _ & _ & _ & _ & Hsame).
  destruct (evict_loop_victims (λ _, false) h target (rev (lruList c)) false c Hc (removals_succeed_refuses Hok) Hnd Hin) as ([_ Hidx] & Hend).
  fold c' in Hc', Hsame, Hidx, Hend. destruct Hend as [?|Hall]; [by left|right].
  assert (delete h (lruIndex c') = filter (λ '(x, _), x ≠ h ∧ is_Some (reservations c !! x)) (lruIndex c)) as Heq.
  { apply (anti_symm (⊆)); [|by apply pinned_subset]. apply map_subseteq_spec.
    intros x e [Hne He]%lookup_delete_Some. rewrite Hidx in He. case_decide as Hv; [done|].
    apply map_lookup_filter_Some. split; [done|]. split; [congruence|].
    destruct (reservations c !! x) eqn:Hres; [by eauto|]. destruct Hv. apply Hall.
    - rewrite elem_of_rev. apply (li_index _ Hc). eauto.
    - unfold movable, evictable, active. rewrite (proj2 (String.eqb_neq x h)) by congruence.
      by rewrite Hres, bool_decide_false by (by intros [? ?]). }
  assert (entry_size c' h = entry_size c h) as Hes.
  { eapply entry_size_frame; [exact Hrem|done|]. apply not_evictable_self. }
  unfold pinned_size. rewrite <- Heq, fmap_delete, map_zsum_delete, default_size, <- (li_total _ Hc').
  unfold entry_size in Hes at 1. lia.
Qed.
End System.

#[export] Hint Resolve record_inv reserveEntry_inv trackEntry_inv touchEntry_inv discardUnadmitted_inv : httpcache.

(** ** Theorems *)

Section Theorems.
Context `{VFS}.
Implicit Types c : cache.

(** C9: however admissions, commits, discards, reads, sweeps and purges of
    different keys interleave, the tracked bytes exceed the size limit by no
    more than what the cache started with and what refused removals have left
    behind since the last admission that did not shrink its entry: a discard
    whose files could not be removed may leave more than was admitted, nothing
    else may, and the next admission clears it.  The ledger stays exact (the
    total is the sum of the entries, list and index hold the same keys, each
    once), and every counter fits 64 bits, as long as twice the limit and that
    excess do. *)
Theorem capacity_never_exceeded room c x adm c' :
  ledger_inv c → reservations c = ∅ → 0 < MaxSize (config c) →
  initial_excess c ≤ room → 2 * MaxSize (config c) + room ≤ max_int64 →
  rtc (ledger_step room) (initial_excess c, ∅, c) (x, adm, c') →
  totalSize c' + growth_sum adm ≤ MaxSize (config c) + x ∧ 0 ≤ growth_sum adm ∧ 0 ≤ x ≤ room ∧
  totalSize c' = map_zsum (e_size <$> lruIndex c') ∧
  NoDup (lruList c') ∧ (∀ h, h ∈ lruList c' ↔ is_Some (lruIndex c' !! h)) ∧
  int64 (totalSize c') ∧ int64 (reservedSize c') ∧ 0 ≤ reservedSize c'.
Proof.
  intros Hc Hres Hm Hx Hb Hsteps.
  destruct (reachable_safe _ _ _ (ledger_safe_init room c Hc Hres Hm Hx Hb) Hsteps) as [[Hx' _ Hs] Hcfg]. cbn [fst snd] in *.
  pose proof (growth_sum_nonneg _ _ _ Hs) as Hg. destruct Hs as [Hc' _ Ht Hr]; cbn [fst snd] in *. rewrite Hcfg in Hr, Ht.
  pose proof (total_nonneg c' Hc') as Ht0. pose proof (reserved_nonneg c' Hc') as Hr0.
  split_and!; [lia|lia|lia|lia|apply Hc'|apply Hc'|apply Hc'|..]; unfold int64, min_int64, max_int64 in *; lia.
Qed.

(** C29: an admission evicts exactly the least recently used inactive entries
    it needs, in order, and stops as soon as the new entry fits: those of the
    reference selection, for the bytes that are missing by exact arithmetic.
    Entries whose files resist removal are passed over and stay; the admission
    succeeds exactly when nothing is missing in the end.  The limit and the
    tracked bytes together fit 64 bits (a limit near the largest integer
    wraps). *)
Theorem eviction_is_lru_minimal refused h item c c' err :
  ledger_inv c → refuses refused → 0 < MaxSize (config c) → 0 ≤ item ≤ MaxSize (config c) →
  reservedSize c ≤ MaxSize (config c) → MaxSize (config c) + totalSize c ≤ max_int64 →
  evictForAdmissionLocked h item c = (err, c') →
  let vs := victims (λ x, evictable h c x && negb (refused x)) (entry_size c) (shortage h item c) (rev (lruList c)) in
  lruList c' = filter (λ x, x ∉ vs) (lruList c) ∧
  (∀ x, lruIndex c' !! x = if decide (x ∈ vs) then None else lruIndex c !! x) ∧
  (∀ x, x ∈ vs → x ≠ h ∧ active c x = false) ∧
  (err = None ↔ shortage h item c' ≤ 0).
Proof.
  intros Hc Hok Hm Hi Hr Hb Hev vs.
  pose proof (admission_target_exact h item c (totalSize c) Hc Hi (Z.le_refl _) Hb Hr) as Htgt.
  pose proof (evictForAdmission_frame h item c Hc) as Hrem. rewrite Hev in Hrem. cbn [snd] in Hrem.
  pose proof (entry_size_frame _ _ _ h Hrem Hc (not_evictable_self h c)) as Hes.
  destruct (removals_spec _ _ _ Hrem Hc) as (_ & Hcfg & Hres & Hrsz & _).
  assert (shortage h item c = totalSize c - admission_target h item c) as Es by (unfold shortage; lia).
  assert (shortage h item c' = totalSize c' - admission_target h item c) as Es'.
  { unfold shortage. unfold reserved_for. rewrite Hcfg, Hes, Hrsz, Hres. fold (reserved_for c h). lia. }
  revert Hev. unfold evictForAdmissionLocked. rewrite (proj2 (Z.ltb_ge item 0)), (proj2 (Z.leb_gt (MaxSize (config c)) 0)),
    (proj2 (Z.ltb_ge (MaxSize (config c)) item)) by lia.
  assert (∀ x, x ∈ rev (lruList c) → is_Some (lruIndex c !! x)) as Hin.
  { intros x. by rewrite <- (li_index _ Hc), elem_of_rev. }
  destruct (evict_loop_victims refused h (admission_target h item c) (rev (lruList c)) false c Hc Hok (NoDup_rev_list _ (li_nodup _ Hc)) Hin)
    as [[H1 H2] _].
  rewrite <- Es in H1, H2. destruct (evict_loop _ _ _ false c) as [b c1]. fold vs in H1, H2. cbn [snd] in H1, H2.
  assert (∀ x, x ∈ vs → x ≠ h ∧ active c x = false) as Hvs.
  { intros x [_ Hx]%victims_subset. unfold evictable in Hx. by unbool. }
  rewrite Es'. destruct (_ <? totalSize c1) eqn:Ht; intros [= <- <-]; unbool; split_and!; auto; split; intros; (done || lia).
Qed.

(** An admission succeeds exactly when the entry fits beside what it may
    not evict: the limit covers the item, the growth promised to the other
    writers and the entries those writers hold. *)
Theorem admission_complete h item c :
  ledger_inv c → removals_succeed → 0 < MaxSize (config c) → 0 ≤ item ≤ MaxSize (config c) →
  totalSize c ≤ MaxSize (config c) → 2 * MaxSize (config c) ≤ max_int64 → reservedSize c ≤ MaxSize (config c) →
  (reserveEntry h item c).1 = None ↔
  pinned_size h c + (reservedSize c - reserved_for c h) + item ≤ MaxSize (config c).
Proof.
  intros Hc Hok Hm Hi Ht Hb Hr. unfold reserveEntry.
  pose proof (admission_target_exact h item c (MaxSize (config c)) Hc Hi Ht ltac:(lia) Hr) as Htgt.
  destruct (evictForAdmissionLocked h item c) as [err c'] eqn:Ev. revert Ev. unfold evictForAdmissionLocked.
  rewrite (proj2 (Z.ltb_ge item 0)), (proj2 (Z.leb_gt (MaxSize (config c)) 0)),
    (proj2 (Z.ltb_ge (MaxSize (config c)) item)) by lia.
  pose proof (evict_loop_pinned h (admission_target h item c) c Hc Hok) as Hp.
  pose proof (pinned_le _ _ _ Hc (evict_loop_removals h (admission_target h item c) (rev (lruList c)) false c Hc)) as Hq.
  destruct (evict_loop _ _ _ _ _) as [b c1]. simpl in Hp, Hq.
  destruct (admission_target h item c <? totalSize c1) eqn:Ht1; unbool; intros [= <- <-]; simpl.
  - split; [done|]. intros. lia.
  - split; [|done]. intros _. lia.
Qed.

(** The age sweep reports the entries and bytes it removed, touches no
    entry stored at or after the cutoff, and when it reports completeness no
    tracked entry is older than the cutoff. *)
Theorem ttl_sweep_complete now c removed bytes complete c' :
  ledger_inv c → cleanupTTLExpired now c = ((removed, bytes, complete), c') →
  let cutoff := Add now (- TTL (config c)) in
  removed = Z.of_nat (size (lruIndex c)) - Z.of_nat (size (lruIndex c')) ∧
  bytes = totalSize c - totalSize c' ∧
  (∀ h e, lruIndex c !! h = Some e → cutoff ≤ e_storedAt e → lruIndex c' !! h = Some e) ∧
  (complete = true → ∀ h e, lruIndex c' !! h = Some e → cutoff ≤ e_storedAt e).
Proof.
  intros Hc Hs cutoff. unfold cleanupTTLExpired in Hs.
  destruct (ttl_loop_spec _ _ _ _ _ _ _ _ _ _ Hc (NoDup_rev_list _ (li_nodup _ Hc)) Hs) as (H1 & H2 & H3 & H4).
  split_and!; [lia|lia| |].
  - intros h e He Hle. destruct (H3 h) as [->|(_ & _ & Hexp)]; [done|].
    unfold expired in Hexp. rewrite He in Hexp. unfold Before in Hexp. unbool. subst cutoff. lia.
  - intros -> h e He. destruct (H4 eq_refl) as [_ Hall].
    destruct (decide (cutoff ≤ e_storedAt e)) as [?|Hlt]; [done|].
    assert (lruIndex c !! h = Some e) as He0 by (destruct (H3 h) as [Hq|[Hq _]]; congruence).
    rewrite Hall in He; [done| |].
    + rewrite elem_of_rev. apply (li_index _ Hc). eauto.
    + unfold expired. rewrite He0. unfold Before. apply Z.ltb_lt. subst cutoff. lia.
Qed.

(** C39: the size sweep brings the tracked bytes down to the limit unless
    every entry left belongs to an active writer or resists its removal (those
    stay in the ledger, for a later sweep); it reports what it removed. *)
Theorem enforceMaxSize_bound refused c removed bytes c' :
  ledger_inv c → may_refuse refused → enforceMaxSize c = ((removed, bytes), c') →
  (totalSize c' ≤ MaxSize (config c) ∨ ∀ h, is_Some (lruIndex c' !! h) → active c h = true ∨ refused h = true) ∧
  removed = Z.of_nat (size (lruIndex c)) - Z.of_nat (size (lruIndex c')) ∧
  bytes = totalSize c - totalSize c'.
Proof.
  intros Hc Hok Hs. unfold enforceMaxSize in Hs.
  destruct (max_size_loop_spec _ _ _ _ _ _ _ Hc (NoDup_rev_list _ (li_nodup _ Hc)) Hs) as (H1 & H2 & H3 & H4).
  split_and!; [|lia|lia]. destruct (H4 refused Hok) as [?|H5]; [by left|right].
  intros h [e He]. destruct (active c h) eqn:Ha; [by left|right]. destruct (refused h) eqn:Hh; [done|].
  destruct (decide (h ∈ rev (lruList c))) as [Hin|Hout].
  - rewrite (H5 h Hin Ha Hh) in He. done.
  - rewrite (H3 h Hout) in He. destruct Hout. rewrite elem_of_rev. apply (li_index _ Hc). eauto.
Qed.

(** Committing an entry gives it a generation no entry had before, so a
    resource retrieved earlier is recognised as replaced, whatever key it was
    read under; every other entry keeps its generation. *)
Theorem trackEntry_new_generation key h size storedAt now c :
  ledger_inv c → 0 ≤ size →
  let c' := trackEntry key h size storedAt now c in
  (∀ x, entryGeneration x c ≠ entryGeneration h c') ∧
  (∀ x, x ≠ h → entryGeneration x c' = entryGeneration x c) ∧
  entryStoredAt h c' = (if IsZero storedAt then now else storedAt) ∧
  entry_size c' h = size ∧ active c' h = false ∧ ledger_inv c'.
Proof.
  intros Hc Hs c'. pose proof (trackEntry_inv key h size storedAt now c Hc Hs) as Hc'. fold c' in Hc'.
  destruct (trackEntry_frame key h size storedAt now c) as (_ & Hres & _ & _ & Hother & Hsz).
  assert (entryGeneration h c' = Some (nextGeneration c) ∧
    entryStoredAt h c' = (if IsZero storedAt then now else storedAt)) as [Hg Hst].
  { unfold c', trackEntry, entryGeneration, entryStoredAt. simpl.
    destruct (lruIndex c !! h); simpl; by rewrite lookup_insert_eq. }
  split_and!; [| |done|done| |done].
  - intros x Heq. rewrite Hg in Heq. unfold entryGeneration in Heq.
    destruct (lruIndex c !! x) as [e|] eqn:E; [|done].
    pose proof (li_fresh _ Hc x e _ E Heq) as Hlt. lia.
  - intros x Hne. unfold entryGeneration. unfold c'. by rewrite Hother.
  - unfold active, c'. rewrite Hres, lookup_delete_eq. by apply bool_decide_eq_false; intros [? ?].
Qed.
End Theorems.

(** ** Witnesses *)

#[local] Existing Instance plain_fs.

Definition limit_100 : CacheConfig := WithMaxSize DefaultCacheConfig 100.
Definition cache_100 : cache := @new_cache plain_fs (∅ : gmap string string) limit_100 EmptyString.

(** The same files, but the body of one entry cannot be removed. *)
Definition stubborn_fs : VFS := {|
  fs_state := gmap string string;
  fs_open := @fs_open plain_fs;
  fs_remove p f := if p =?s bodyPath "a" then (RemoveFailed, f) else @fs_remove plain_fs p f;
  fs_write := @fs_write plain_fs;
  fs_identity := @fs_identity plain_fs;
|}.
Definition stubborn_100 : @cache stubborn_fs := @new_cache stubborn_fs (∅ : gmap string string) limit_100 EmptyString.

(** Three entries of 30, 40 and 20 bytes, the last one stored most recently;
    a writer holds the second. *)
Definition with_three {V : VFS} (c : @cache V) : @cache V :=
  beginReservation "b" (trackEntry "c" "c" 20 30 0 (trackEntry "b" "b" 40 20 0 (trackEntry "a" "a" 30 10 0 c))).
Definition cache_90 : cache := with_three cache_100.
Definition stubborn_90 : @cache stubborn_fs := with_three stubborn_100.

Lemma new_cache_inv (V : VFS) f cfg root : ledger_inv (@new_cache V f cfg root).
Proof.
  split; simpl; try done.
  - constructor.
  - intros h. split; [by intros ?%elem_of_nil|by intros [? ?]].
Qed.

Lemma cache_90_inv : ledger_inv cache_90.
Proof.
  unfold cache_90, with_three. apply beginReservation_inv; [|by vm_compute].
  repeat (apply trackEntry_inv; [|lia]). apply new_cache_inv.
Qed.

Lemma stubborn_90_inv : ledger_inv stubborn_90.
Proof.
  unfold stubborn_90, with_three. apply beginReservation_inv; [|by vm_compute].
  repeat (apply trackEntry_inv; [|lia]). apply new_cache_inv.
Qed.

Lemma stubborn_refuses : @refuses stubborn_fs (String.eqb "a").
Proof.
  intros h c. unfold remove_files. cbn [fs_remove stubborn_fs].
  rewrite (proj2 (String.eqb_neq (headerPath h) (bodyPath "a")) (not_eq_sym (bodyPath_headerPath "a" h))).
  destruct (String.eqb_spec (bodyPath h) (bodyPath "a")) as [->%bodyPath_inj|Hne].
  - cbn. by case_match.
  - rewrite (proj2 (String.eqb_neq "a" h)) by congruence. cbn. by repeat case_match.
Qed.

Lemma plain_removals : @removals_succeed plain_fs.
Proof. intros p f. simpl. by case_goal. Qed.

(** A writer admitted for 30 bytes fails and cannot remove the 50 it left. *)
Lemma capacity_never_exceeded_witness :
  ∃ adm (c' : @cache stubborn_fs), rtc (ledger_step 1000) (initial_excess stubborn_100, ∅, stubborn_100) (20, adm, c') ∧
    totalSize c' = 50 ∧ totalSize c' + growth_sum adm ≤ 120.
Proof.
  pose (c1 := beginReservation "a" stubborn_100). pose (c2 := (reserveEntry "a" 30 c1).2).
  pose (adm := <["a" := {| a_size := 30; a_growth := reserved_for c2 "a" |}]> (∅ : gmap string admission)).
  pose (c3 := (discardUnadmitted "a" "a" 50 7 0 c2).2).
  assert (rtc (ledger_step 1000) (initial_excess stubborn_100, ∅, stubborn_100) (20, delete "a" adm, c3)) as Hs.
  { eapply rtc_l; [by apply (step_begin 1000 _ ∅ stubborn_100 "a")|]. fold c1.
    eapply rtc_l; [by apply (step_reserve_ok 1000 _ ∅ c1 c2 "a" 30)|].
    apply rtc_once. by apply (step_discard 1000 0 adm c2 c3 "a" "a" 50 7 0 true). }
  exists (delete "a" adm), c3. split; [exact Hs|]. split; [by vm_compute|].
  exact (proj1 (capacity_never_exceeded 1000 stubborn_100 20 _ _ (new_cache_inv _ _ _ _) eq_refl eq_refl
    ltac:(vm_compute; discriminate) ltac:(vm_compute; discriminate) Hs)).
Defined.

(** 30 bytes more need 20 to go: the oldest entry resists, the second oldest
    is held, so the newest goes. *)
Lemma eviction_is_lru_minimal_witness :
  lruList (evictForAdmissionLocked "d" 30 stubborn_90).2 = ["b"; "a"].
Proof.
  destruct (evictForAdmissionLocked "d" 30 stubborn_90) as [err c'] eqn:E.
  destruct (eviction_is_lru_minimal (String.eqb "a") "d" 30 stubborn_90 c' err stubborn_90_inv stubborn_refuses eq_refl
    ltac:(vm_compute; split; discriminate) ltac:(vm_compute; discriminate) ltac:(vm_compute; discriminate) E) as [H _].
  simpl. rewrite H. by vm_compute.
Defined.

Lemma admission_complete_witness :
  (reserveEntry "d" 60 cache_90).1 = None ∧ (reserveEntry "d" 61 cache_90).1 ≠ None.
Proof.
  split.
  - apply (admission_complete "d" 60 cache_90 cache_90_inv plain_removals); vm_compute; (done || split; discriminate).
  - intros Hn. apply (admission_complete "d" 61 cache_90 cache_90_inv plain_removals) in Hn;
      [|vm_compute; (done || split; discriminate)..]. vm_compute in Hn. done.
Defined.

Definition now_ttl : Time := DefaultCacheTTL + 25.
Lemma ttl_sweep_complete_witness :
  ∃ removed bytes c', cleanupTTLExpired now_ttl cache_90 = ((removed, bytes, false), c') ∧
    removed = 1 ∧ bytes = 30 ∧ is_Some (lruIndex c' !! "c").
Proof.
  destruct (cleanupTTLExpired now_ttl cache_90) as [[[n b] f] c'] eqn:E.
  assert (f = false) as -> by (vm_compute in E; congruence).
  exists n, b, c'. split; [done|].
  destruct (ttl_sweep_complete now_ttl cache_90 n b false c' cache_90_inv E) as (H1 & H2 & H3 & _).
  split_and!.
  - rewrite H1. replace c' with (cleanupTTLExpired now_ttl cache_90).2 by (by rewrite E). by vm_compute.
  - rewrite H2. replace c' with (cleanupTTLExpired now_ttl cache_90).2 by (by rewrite E). by vm_compute.
  - eexists. apply (H3 "c"); [by vm_compute|]. by vm_compute.
Defined.

(** The sweep passes over the entry that resists and the one that is held. *)
Lemma enforceMaxSize_bound_witness :
  ∃ c', enforceMaxSize (trackEntry "d" "d" 35 40 0 stubborn_90) = ((2, 55), c') ∧
    (totalSize c' ≤ 100 ∨ ∀ h, is_Some (lruIndex c' !! h) → active (trackEntry "d" "d" 35 40 0 stubborn_90) h = true ∨ ("a" =?s h) = true).
Proof.
  destruct (enforceMaxSize (trackEntry "d" "d" 35 40 0 stubborn_90)) as [[n b] c'] eqn:E.
  assert ((n, b) = (2, 55)) as Hnb by (vm_compute in E; congruence). injection Hnb as -> ->. exists c'. split; [done|].
  exact (proj1 (enforceMaxSize_bound (String.eqb "a") _ 2 55 c' (trackEntry_inv "d" "d" 35 40 0 stubborn_90 stubborn_90_inv ltac:(lia))
    (λ h c Hh, eq_trans (stubborn_refuses h c) Hh) E)).
Defined.

Lemma trackEntry_new_generation_witness :
  entryGeneration "a" cache_90 ≠ entryGeneration "a" (trackEntry "a" "a" 35 50 0 cache_90).
Proof. exact (proj1 (trackEntry_new_generation "a" "a" 35 50 0 cache_90 cache_90_inv ltac:(lia)) "a"). Defined.

(** A limit of the largest integer ("no limit"): replacing an entry by a
    smaller one overflows the admission target, evicts every other entry and
    is still refused. *)
Definition unlimited_cache : cache :=
  beginReservation "b" (trackEntry "b" "b" 40 20 0 (trackEntry "a" "a" 30 10 0
    (@new_cache plain_fs (∅ : gmap string string) (WithMaxSize DefaultCacheConfig max_int64) EmptyString))).

(** With the limit set to the largest 64-bit integer, replacing an entry
    by a smaller one makes the admission target wrap to a negative number:
    the admission evicts the unrelated entry and fails. *)
Example admission_target_overflow :
  admission_target "b" 10 unlimited_cache < 0 ∧
  (evictForAdmissionLocked "b" 10 unlimited_cache).1 ≠ None ∧
  lruList unlimited_cache = ["b"; "a"] ∧ lruList (evictForAdmissionLocked "b" 10 unlimited_cache).2 = ["b"].
Proof. vm_compute. by repeat split. Qed.
