(* ===== verification/Markers.v ===== *)
(** * Invalidation markers and their persistence ([cache.go])

    [Invalidate] in its two critical sections, the marker map and its
    snapshots: the two-slot journal on a generic file system, the atomic file
    of a disk cache, the restoration after a restart, and the marker sweeps
    of [Cleanup] and [Purge].

    [encoding/json] is the class [MarkerJSON].  Its laws are documented
    behaviour: a snapshot whose keys are valid UTF-8 round trips, a strict
    prefix of an encoded object is an error, and a key that is not valid
    UTF-8 is written with U+FFFD in place of its invalid bytes. *)

From S2P Require Import Prelude GoStrings GoTime GoQuote Config Vfs CacheState Ledger Admission Resource.

(** ** JSON strings *)

Definition replacement : string := String (byte_of 239) (String (byte_of 191) (str1 (byte_of 189))).

(** A string as [encoding/json] writes and reads it back. *)
Fixpoint json_string (s : string) : string :=
  match s with
  | EmptyString => EmptyString
  | String c s1 =>
      if byte_val c <? 128 then String c (json_string s1) else
      match s1 with
      | EmptyString => (replacement +:+ json_string s1)%string
      | String c1 s2 =>
          match rune2 c c1 with
          | Some _ => String c (String c1 (json_string s2))
          | None =>
              match s2 with
              | EmptyString => (replacement +:+ json_string s1)%string
              | String c2 s3 =>
                  match rune3 c c1 c2 with
                  | Some _ => String c (String c1 (String c2 (json_string s3)))
                  | None =>
                      match s3 with
                      | EmptyString => (replacement +:+ json_string s1)%string
                      | String c3 s4 =>
                          match rune4 c c1 c2 c3 with
                          | Some _ => String c (String c1 (String c2 (String c3 (json_string s4))))
                          | None => (replacement +:+ json_string s1)%string
                          end
                      end
                  end
              end
          end
      end
  end.

Definition valid_utf8 (s : string) : Prop := json_string s = s.

(** What a marker map may hold: [time.Time.MarshalJSON] refuses years past
    9999. *)
Definition json_time (t : Time) : Prop := 0 ≤ t < max_http_time.
Definition json_markers (m : gmap string Time) : Prop :=
  map_Forall (λ k t, valid_utf8 k ∧ json_time t) m.

(** [json.Marshal] and [Decoder.Decode] at the two types of the source: the
    journal snapshot (generation, markers or nil) and the bare marker map. *)
Class MarkerJSON := {
  encode_snapshot : Z → gmap string Time → option string;
  decode_snapshot : string → option (Z * option (gmap string Time));
  encode_map : gmap string Time → option string;
  decode_map : string → option (gmap string Time);
}.

Class MarkerJSONLaws (J : MarkerJSON) : Prop := {
  snapshot_roundtrip : ∀ g m, 0 ≤ g < 2 ^ 64 → json_markers m →
    ∃ s, encode_snapshot g m = Some s ∧ decode_snapshot s = Some (g, Some m);
  snapshot_cut : ∀ g m s s1 s2, encode_snapshot g m = Some s → s = (s1 +:+ s2)%string → s2 ≠ EmptyString →
    decode_snapshot s1 = None;
  map_roundtrip : ∀ m, json_markers m → ∃ s, encode_map m = Some s ∧ decode_map s = Some m;
  snapshot_keys : ∀ g m s g' m', encode_snapshot g m = Some s → decode_snapshot s = Some (g', Some m') →
    ∀ k, is_Some (m' !! k) ↔ ∃ k0, is_Some (m !! k0) ∧ k = json_string k0;
}.

(** [var invalidationBarrierTime]: 9999-12-31T23:59:59.999999999Z *)
Definition invalidationBarrierTime : Time := max_http_time - 1.

Definition staleMapPath : string := "stale-markers.json".
Definition staleMapSlotPath (generation : Z) : string :=
  ("stale-markers." +:+ Itoa (generation mod 2) +:+ ".json")%string.

Definition uint64_succ (g : Z) : Z := (g + 1) mod 2 ^ 64.

Section Operations.
Context `{V : VFS, O : !OsFiles V, J : MarkerJSON}.
Implicit Types c : cache.

(** [atomicWriteFile]: the temporary file, its contents, the synchronisation
    and the replacement, then the deferred removal of the temporary name. *)
Definition atomicWriteFile (path contents : string) (f : fs_state) : bool * fs_state :=
  let '(tmp, f) := os_create_temp ("." +:+ path +:+ ".tmp-")%string f in
  match tmp with
  | None => (false, f)
  | Some t =>
      let '(ok, f) := os_write t contents f in
      if ok : bool then
        let '(ok, f) := os_sync t f in
        if ok : bool then
          let '(ok, f) := os_close t f in
          if ok : bool then
            let '(ok, f) := os_rename t path f in (ok, (os_remove t f).2)
          else (false, (os_remove t f).2)
        else (false, (os_remove t (os_close t f).2).2)
      else (false, (os_remove t (os_close t f).2).2)
  end.

Definition persistStale (snapshot : gmap string Time) (c : cache) : cache :=
  if nonempty (diskRoot c) then
    match encode_map snapshot with
    | None => c
    | Some encoded => set_fs (atomicWriteFile staleMapPath encoded (c_fs c)).2 c
    end
  else
    let nextGeneration := uint64_succ (staleGeneration c) in
    match encode_snapshot nextGeneration snapshot with
    | None => c
    | Some encoded =>
        match fs_write (staleMapSlotPath nextGeneration) encoded (c_fs c) with
        | (Written, f) => set_stale_map (stale c) nextGeneration (set_fs f c)
        | (_, f) => set_fs f c
        end
    end.

(** Change the markers and write them through. *)
Definition set_markers (m : gmap string Time) (c : cache) : cache :=
  persistStale m (set_stale_map m (staleGeneration c) c).

Definition mark_all (keys : list string) (t : Time) (m : gmap string Time) : gmap string Time :=
  foldl (λ m k, <[k := t]> m) m keys.

(** [Invalidate]: the barrier, published before the wait for [generationMu]. *)
Definition Invalidate_barrier (keys : list string) (c : cache) : cache :=
  match keys with
  | [] => c
  | _ => set_markers (mark_all keys invalidationBarrierTime (stale c)) c
  end.

(** [Invalidate]: the final instant, under [generationMu]. *)
Definition Invalidate_final (keys : list string) (now : Time) (c : cache) : cache :=
  match keys with
  | [] => c
  | _ => set_markers (mark_all keys now (stale c)) c
  end.

(** ** Restoration *)

Definition readSlot (slot : Z) (f : fs_state) : option (Z * gmap string Time) :=
  match fs_open f (staleMapSlotPath slot) with
  | Opened s =>
      match decode_snapshot s with
      | Some (g, Some m) => if g =? 0 then None else Some (g, m)
      | _ => None
      end
  | _ => None
  end.

(** The two slots, the later one replacing the first only when newer. *)
Definition best_slot (f : fs_state) : option (Z * gmap string Time) :=
  match readSlot 0 f, readSlot 1 f with
  | Some (g0, m0), Some (g1, m1) => if g0 <? g1 then Some (g1, m1) else Some (g0, m0)
  | Some b, None | None, Some b => Some b
  | None, None => None
  end.

Definition recover_marker (recoveredAt : Time) (at_ : Time) : Time :=
  if at_ =? invalidationBarrierTime then recoveredAt else at_.

Definition restoreStale (restored : gmap string Time) (now : Time) (c : cache) : bool * cache :=
  (existsb (λ p, snd p =? invalidationBarrierTime) (map_to_list restored),
   set_stale_map (stale c ∪ (recover_marker now <$> restored)) (staleGeneration c) c).

Definition persistRestoredStale (c : cache) : cache := persistStale (stale c) c.

Definition restore_from (restored : gmap string Time) (now : Time) (c : cache) : cache :=
  let '(recovered, c) := restoreStale restored now c in
  if recovered : bool then persistRestoredStale c else c.

Definition loadStale (now : Time) (c : cache) : cache :=
  let legacy :=
    match fs_open (c_fs c) staleMapPath with
    | Opened s => match decode_map s with Some m => restore_from m now c | None => c end
    | _ => c
    end in
  if nonempty (diskRoot c) then legacy
  else match best_slot (c_fs c) with
       | Some (g, m) => restore_from m now (set_stale_map (stale c) g c)
       | None => legacy
       end.

(** ** Queries and sweeps *)

Definition StaleAt (key : string) (c : cache) : option Time := stale c !! key.

Definition StaleSnapshot (keys : list string) (c : cache) : gmap string Time :=
  foldl (λ m k, match stale c !! k with Some t => <[k := t]> m | None => m end) ∅ keys.

Definition cleanupStaleMap (now : Time) (c : cache) : Z * cache :=
  let retention := staleRetention (config c) in
  if retention <=? 0 then (0, c)
  else
    let cutoff := Add now (- retention) in
    let kept := filter (λ '(_, t), Before t cutoff = false) (stale c) in
    let removed := Z.of_nat (size (stale c)) - Z.of_nat (size kept) in
    let c := set_stale_map kept (staleGeneration c) c in
    if 0 <? removed then (removed, persistStale kept c) else (removed, c).

(** [type CleanupResult struct], the duration left out: a clock reading. *)
Record CleanupResult := { RemovedItems : Z; RemovedBytes : Z; RemovedStaleEntries : Z }.

(** The part of [Cleanup] under [cleanupMu]: expired entries before their
    markers, and markers only when no expired entry was left behind. *)
Definition cleanupExpired (start : Time) (c : cache) : (Z * Z * Z) * cache :=
  if 0 <? TTL (config c) then
    let '((removed, bytes, complete), c) := cleanupTTLExpired start c in
    if complete : bool then
      let '(n, c) := cleanupStaleMap start c in ((removed, bytes, n), c)
    else ((removed, bytes, 0), c)
  else let '(n, c) := cleanupStaleMap start c in ((0, 0, n), c).

Definition Cleanup (start : Time) (c : cache) : CleanupResult * cache :=
  let '((items, bytes, staleEntries), c) := cleanupExpired start c in
  if 0 <? MaxSize (config c) then
    let '((removed, freed), c) := enforceMaxSize c in
    ({| RemovedItems := items + removed; RemovedBytes := bytes + freed; RemovedStaleEntries := staleEntries |}, c)
  else ({| RemovedItems := items; RemovedBytes := bytes; RemovedStaleEntries := staleEntries |}, c).

(** [Purge]: true is the error. *)
Definition Purge (c : cache) : bool * cache :=
  let '(purgeErr, c) := purge_loop (lruList c) false c in
  if purgeErr : bool then (true, c) else (false, set_markers ∅ c).
End Operations.

(** ** Frames *)

Section Facts.
Context `{V : VFS, O : !OsFiles V, J : MarkerJSON}.
Implicit Types c : cache.

Lemma persistStale_frame m c : ∃ g f, persistStale m c = set_stale_map (stale c) g (set_fs f c).
Proof.
  unfold persistStale. case_match.
  - case_match; [by eexists (staleGeneration c), _|by exists (staleGeneration c), (c_fs c); destruct c].
  - case_match; [|by exists (staleGeneration c), (c_fs c); destruct c].
    destruct (fs_write _ _ _) as [[] f]; [by eexists _, f|by exists (staleGeneration c), f..].
Qed.

Lemma persistStale_stale m c : stale (persistStale m c) = stale c.
Proof. by destruct (persistStale_frame m c) as (g & f & ->). Qed.

Lemma set_markers_stale m c : stale (set_markers m c) = m.
Proof.
  unfold set_markers. by destruct (persistStale_frame m (set_stale_map m (staleGeneration c) c)) as (g & f & ->).
Qed.

Lemma set_markers_frame m c :
  ∃ g f, set_markers m c = set_stale_map m g (set_fs f c).
Proof.
  unfold set_markers. destruct (persistStale_frame m (set_stale_map m (staleGeneration c) c)) as (g & f & ->).
  by exists g, f.
Qed.

Lemma mark_all_lookup keys t m k :
  mark_all keys t m !! k = if decide (k ∈ keys) then Some t else m !! k.
Proof.
  unfold mark_all. revert m. induction keys as [|k0 keys IH]; intros m; cbn [foldl].
  - by rewrite decide_False by apply not_elem_of_nil.
  - rewrite IH. destruct (decide (k ∈ keys)) as [Hin|Hout].
    + by rewrite decide_True by (apply elem_of_cons; by right).
    + destruct (decide (k0 = k)) as [->|Hne].
      * rewrite lookup_insert_eq, decide_True; [done|]. apply elem_of_cons. by left.
      * rewrite lookup_insert_ne, decide_False; [done| |done].
        rewrite not_elem_of_cons. split; [congruence|done].
Qed.

Lemma snapshot_fold_lookup keys c (m : gmap string Time) k :
  foldl (λ m k, match stale c !! k with Some t => <[k := t]> m | None => m end) m keys !! k
  = if decide (k ∈ keys) then from_option Some (m !! k) (stale c !! k) else m !! k.
Proof.
  revert m. induction keys as [|k0 keys IH]; intros m; cbn [foldl].
  { by rewrite decide_False by apply not_elem_of_nil. }
  rewrite IH. destruct (decide (k0 = k)) as [->|Hne].
  - rewrite (decide_True (P := k ∈ k :: keys)) by (apply elem_of_cons; by left).
    destruct (stale c !! k) as [t|]; cbn [from_option]; [|by case_decide]. rewrite lookup_insert_eq. by case_decide.
  - assert ((match stale c !! k0 with Some t => <[k0 := t]> m | None => m end) !! k = m !! k) as ->.
    { destruct (stale c !! k0); [by rewrite lookup_insert_ne|done]. }
    apply decide_ext. rewrite elem_of_cons. naive_solver.
Qed.

Lemma StaleSnapshot_lookup keys c k :
  StaleSnapshot keys c !! k = if decide (k ∈ keys) then StaleAt k c else None.
Proof.
  unfold StaleSnapshot, StaleAt. rewrite snapshot_fold_lookup, lookup_empty. by destruct (stale c !! k).
Qed.

Lemma json_markers_mark_all keys t m :
  json_markers m → Forall valid_utf8 keys → json_time t → json_markers (mark_all keys t m).
Proof.
  intros Hm Hk Ht k t'. rewrite mark_all_lookup. case_decide as Hin; [|by apply Hm].
  intros [= <-]. split; [|done]. by apply (proj1 (Forall_forall _ _) Hk).
Qed.
End Facts.

(** ** The two-slot journal *)

Section Journal.
Context `{V : VFS, O : !OsFiles V, J : MarkerJSON, VL : !VFSLaws V, JL : !MarkerJSONLaws J}.
Implicit Types c : cache.

(** The newest durable snapshot sits in its slot; the other slot holds
    nothing readable, an older generation, or a later attempt that was
    reported as failed after its contents had reached the file. *)
Record journal_inv (durable : gmap string Time) (attempts : list (gmap string Time)) (c : cache) : Prop := {
  j_root : diskRoot c = EmptyString;
  j_gen : 0 < staleGeneration c < 2 ^ 64 - 1;
  j_durable : readSlot (staleGeneration c) (c_fs c) = Some (staleGeneration c, durable);
  j_other : match readSlot (staleGeneration c + 1) (c_fs c) with
            | None => True
            | Some (g, m) => g < staleGeneration c ∨ g = staleGeneration c + 1 ∧ m ∈ attempts
            end;
}.

Lemma staleMapSlotPath_mod g1 g2 : g1 mod 2 = g2 mod 2 → staleMapSlotPath g1 = staleMapSlotPath g2.
Proof. unfold staleMapSlotPath. by intros ->. Qed.

Lemma mod2_succ g b : g mod 2 = b → (g + 1) mod 2 = (b + 1) mod 2.
Proof. intros <-. by rewrite Z.add_mod_idemp_l. Qed.

Lemma staleMapSlotPath_next g : staleMapSlotPath (g + 1) ≠ staleMapSlotPath g.
Proof.
  assert (staleMapSlotPath 0 ≠ staleMapSlotPath 1) as Hne by (by vm_compute).
  pose proof (Z.mod_pos_bound g 2 ltac:(lia)) as Hb.
  assert (g mod 2 = 0 ∨ g mod 2 = 1) as [Hg|Hg] by lia.
  - rewrite (staleMapSlotPath_mod (g + 1) 1 (mod2_succ _ _ Hg)), (staleMapSlotPath_mod g 0 Hg). congruence.
  - rewrite (staleMapSlotPath_mod (g + 1) 0 (mod2_succ _ _ Hg)), (staleMapSlotPath_mod g 1 Hg). congruence.
Qed.

Lemma readSlot_mod g1 g2 f : g1 mod 2 = g2 mod 2 → readSlot g1 f = readSlot g2 f.
Proof. intros Hg. unfold readSlot. by rewrite (staleMapSlotPath_mod g1 g2 Hg). Qed.

Lemma best_slot_journal d att c :
  journal_inv d att c → ∃ g m, best_slot (c_fs c) = Some (g, m) ∧ (m = d ∨ m ∈ att).
Proof.
  intros [_ Hg Hd Ho]. unfold best_slot. set (g := staleGeneration c) in *.
  pose proof (Z.mod_pos_bound g 2 ltac:(lia)) as Hb.
  assert (g mod 2 = 0 ∨ g mod 2 = 1) as [Hp|Hp] by lia.
  - rewrite (readSlot_mod g 0) in Hd by done.
    rewrite (readSlot_mod (g + 1) 1 _ (mod2_succ _ _ Hp)) in Ho. rewrite Hd.
    destruct (readSlot 1 (c_fs c)) as [[g1 m1]|]; [|eauto].
    destruct (g <? g1) eqn:Hlt; unbool; [|by eauto]. destruct Ho as [?|[_ ?]]; [lia|eauto].
  - rewrite (readSlot_mod g 1) in Hd by done.
    rewrite (readSlot_mod (g + 1) 0 _ (mod2_succ _ _ Hp)) in Ho. rewrite Hd.
    destruct (readSlot 0 (c_fs c)) as [[g1 m1]|]; [|eauto].
    destruct (g1 <? g) eqn:Hlt; unbool; [by eauto|]. destruct Ho as [?|[_ ?]]; [lia|eauto].
Qed.

Lemma readSlot_other g p s f r f' :
  fs_write p s f = (r, f') → staleMapSlotPath g ≠ p → readSlot g f' = readSlot g f.
Proof. intros Hw Hne. unfold readSlot. by rewrite (write_other _ _ _ _ _ _ Hw Hne). Qed.

Lemma readSlot_broken g m s f f' :
  0 ≤ g < 2 ^ 64 → json_markers m → encode_snapshot g m = Some s →
  fs_write (staleMapSlotPath g) s f = (WriteBroken, f') → readSlot g f' = None ∨ readSlot g f' = Some (g, m).
Proof.
  intros Hg Hm He Hw. destruct (snapshot_roundtrip g m Hg Hm) as (s' & He' & Hdec).
  assert (s' = s) as -> by congruence.
  unfold readSlot. destruct (write_broken _ _ _ _ Hw) as [->|(s1 & s2 & Hs & ->)]; [by left|].
  destruct s2 as [|a s2].
  - rewrite str_app_nil_r in Hs. subst s1. rewrite Hdec. destruct (g =? 0); auto.
  - rewrite (snapshot_cut g m s s1 (String a s2) He Hs) by done. by left.
Qed.

Lemma persist_journal d att m c :
  journal_inv d att c → json_markers m → staleGeneration c + 2 < 2 ^ 64 →
  let c' := persistStale m c in
  (staleGeneration c' = staleGeneration c + 1 ∧ journal_inv m [] c') ∨
  (staleGeneration c' = staleGeneration c ∧ journal_inv d (m :: att) c').
Proof.
  intros [Hroot Hg Hd Ho] Hm Hmax. unfold persistStale. rewrite Hroot. cbn [nonempty].
  assert (uint64_succ (staleGeneration c) = staleGeneration c + 1) as -> by (unfold uint64_succ; rewrite Z.mod_small; lia).
  destruct (snapshot_roundtrip (staleGeneration c + 1) m ltac:(lia) Hm) as (s & He & Hdec). rewrite He.
  destruct (fs_write (staleMapSlotPath (staleGeneration c + 1)) s (c_fs c)) as [r f'] eqn:Hw.
  assert (readSlot (staleGeneration c) f' = Some (staleGeneration c, d)) as Hd'.
  { rewrite <- Hd. apply (readSlot_other _ _ _ _ _ _ Hw). by apply not_eq_sym, staleMapSlotPath_next. }
  destruct r.
  - left. simpl. split; [done|]. split; simpl; [done|lia| |].
    + unfold readSlot. rewrite (write_done _ _ _ _ Hw), Hdec. by rewrite (proj2 (Z.eqb_neq (staleGeneration c + 1) 0)) by lia.
    + rewrite (readSlot_mod (staleGeneration c + 1 + 1) (staleGeneration c)).
      * rewrite Hd'. lia.
      * replace (staleGeneration c + 1 + 1) with (staleGeneration c + 1 * 2) by lia. apply Z.mod_add. lia.
  - right. simpl. split; [done|]. split; simpl; [done|done|done|].
    assert (readSlot (staleGeneration c + 1) f' = readSlot (staleGeneration c + 1) (c_fs c)) as ->
      by (unfold readSlot; by rewrite (write_refused _ _ _ _ Hw)).
    destruct (readSlot (staleGeneration c + 1) (c_fs c)) as [[g1 m1]|]; [|done].
    destruct Ho as [?|[? ?]]; [by left|right]. split; [done|]. by apply elem_of_cons; right.
  - right. simpl. split; [done|]. split; simpl; [done|done|done|].
    assert (0 ≤ staleGeneration c + 1 < 2 ^ 64) as Hb by lia.
    destruct (readSlot_broken _ _ _ _ _ Hb Hm He Hw) as [->| ->]; [done|].
    right. split; [done|]. apply elem_of_cons. by left.
Qed.

(** What a restart reads back into an empty marker map. *)
Lemma loadStale_best now cfg f g m k :
  best_slot f = Some (g, m) →
  StaleAt k (loadStale now (new_cache f cfg EmptyString)) = recover_marker now <$> m !! k.
Proof.
  intros Hb. unfold loadStale, restore_from, restoreStale, persistRestoredStale, StaleAt. simpl. rewrite Hb.
  assert ((∅ ∪ (recover_marker now <$> m) : gmap string Time) !! k = recover_marker now <$> m !! k) as Hk.
  { by rewrite (left_id_L ∅ (∪)), lookup_fmap. }
  case_match; [|done]. by rewrite persistStale_stale.
Qed.
End Journal.

(** ** A concrete codec

    The marker map as a number of [Countable] in binary, closed by a brace:
    an encoding with the laws of the class, to evaluate witnesses on. *)

Definition normalised (m : gmap string Time) : gmap string Time :=
  list_to_map ((λ p, (json_string (fst p), snd p)) <$> map_to_list m).

Fixpoint print_bits (p : positive) : string :=
  match p with xH => "}"%string | xO p => String "0" (print_bits p) | xI p => String "1" (print_bits p) end.

Fixpoint read_bits (s : string) : option positive :=
  match s with
  | String c EmptyString => if Ascii.eqb c "}" then Some xH else None
  | String c s =>
      match read_bits s with
      | Some p => if Ascii.eqb c "0" then Some (xO p) else if Ascii.eqb c "1" then Some (xI p) else None
      | None => None
      end
  | EmptyString => None
  end.

Definition binary_json : MarkerJSON := {|
  encode_snapshot g m := Some (print_bits (encode (g, normalised m)));
  decode_snapshot s := p ← read_bits s; p ← decode p; Some (fst p, Some (snd p));
  encode_map m := Some (print_bits (encode (normalised m)));
  decode_map s := read_bits s ≫= decode;
|}.

Lemma read_print_bits p : read_bits (print_bits p) = Some p.
Proof. induction p as [p IH|p IH|]; [..|done]; simpl; rewrite IH; by destruct p. Qed.

Lemma read_bits_cons c s :
  s ≠ EmptyString → read_bits s = None → read_bits (String c s) = None.
Proof. destruct s as [|c' s]; [done|]. intros _ Hs. cbn [read_bits] in *. by rewrite Hs. Qed.

Lemma read_bits_cut p s1 s2 : print_bits p = (s1 +:+ s2)%string → s2 ≠ EmptyString → read_bits s1 = None.
Proof.
  intros Hp Hs2. revert p Hp. induction s1 as [|c s1 IH]; intros p; [done|].
  rewrite str_app_cons. intros Hp. destruct (decide (s1 = EmptyString)) as [->|Hne].
  - destruct p as [p|p|]; cbn in Hp; injection Hp as <- Hp; [done|done|]. by destruct Hs2.
  - apply read_bits_cons; [done|]. destruct p as [p|p|]; cbn [print_bits] in Hp; injection Hp as _ Hp.
    + exact (IH p Hp).
    + exact (IH p Hp).
    + destruct s1; done.
Qed.

Lemma normalised_id m : json_markers m → normalised m = m.
Proof.
  intros Hm. unfold normalised. rewrite <- (list_to_map_to_list m) at 2. f_equal.
  rewrite <- (list_fmap_id (map_to_list m)) at 2. apply list_fmap_ext. intros i [k t] Hkt. simpl.
  assert ((k, t) ∈ map_to_list m) as Hin by (eapply list_elem_of_lookup_2; eauto).
  apply elem_of_map_to_list in Hin. by rewrite (proj1 (Hm k t Hin)).
Qed.

Lemma normalised_keys m k :
  is_Some (normalised m !! k) ↔ ∃ k0, is_Some (m !! k0) ∧ k = json_string k0.
Proof.
  unfold normalised. rewrite <- elem_of_dom, dom_list_to_map, elem_of_list_to_set. split.
  - intros ([k1 t] & -> & Hin)%list_elem_of_fmap. apply list_elem_of_fmap in Hin as ([k0 t0] & [= -> ->] & Hin).
    apply elem_of_map_to_list in Hin. exists k0. eauto.
  - intros (k0 & [t Ht] & ->). apply list_elem_of_fmap. exists (json_string k0, t). split; [done|].
    apply list_elem_of_fmap. exists (k0, t). split; [done|]. by apply elem_of_map_to_list.
Qed.

Lemma binary_json_laws : MarkerJSONLaws binary_json.
Proof.
  split; simpl.
  - intros g m _ Hm. eexists. split; [done|]. rewrite read_print_bits, (normalised_id m Hm). simpl.
    by rewrite decode_encode.
  - intros g m s s1 s2 [= <-] Hs Hne. by rewrite (read_bits_cut _ _ _ Hs Hne).
  - intros m Hm. eexists. split; [done|]. rewrite read_print_bits, (normalised_id m Hm). simpl.
    by rewrite decode_encode.
  - intros g m s g' m' [= <-]. rewrite read_print_bits. simpl. rewrite decode_encode. simpl.
    intros [= <- <-] k. apply normalised_keys.
Qed.

(** ** Theorems *)

Section Theorems.
Context `{V : VFS, O : !OsFiles V, J : MarkerJSON}.
Implicit Types c : cache.

Definition persist_all (ms : list (gmap string Time)) (c : cache) : cache := foldl (λ c m, persistStale m c) c ms.

Lemma persist_all_snoc ms m c : persist_all (ms ++ [m]) c = persistStale m (persist_all ms c).
Proof. unfold persist_all. by rewrite foldl_app. Qed.

Lemma persist_all_journal `{VL : !VFSLaws V, JL : !MarkerJSONLaws J} d ms c :
  journal_inv d [] c → Forall json_markers ms → staleGeneration c + Z.of_nat (length ms) + 2 < 2 ^ 64 →
  ∃ i d' att, (d :: ms) !! i = Some d' ∧ journal_inv d' att (persist_all ms c) ∧
    staleGeneration (persist_all ms c) ≤ staleGeneration c + Z.of_nat (length ms) ∧
    (∀ m, m ∈ att → ∃ j, (i ≤ j)%nat ∧ (d :: ms) !! j = Some m) ∧
    (∀ j, (i ≤ j < length ms)%nat →
       staleGeneration (persist_all (take (S j) ms) c) = staleGeneration (persist_all (take j ms) c)).
Proof.
  intros Hj. induction ms as [|m ms IH] using rev_ind; intros Hms Hmax.
  { exists 0%nat, d, []. split_and!; [done|done|simpl; lia|by intros m ?%elem_of_nil|simpl; lia]. }
  apply Forall_app in Hms as [Hms Hm]. inversion_clear Hm as [|? ? Hm0 _].
  rewrite length_app in Hmax. simpl in Hmax.
  destruct (IH Hms ltac:(lia)) as (i & d' & att & Hi & Hj' & Hg & Hatt & Hgen).
  rewrite persist_all_snoc, length_app. simpl.
  destruct (persist_journal d' att m _ Hj' Hm0 ltac:(lia)) as [[Hg' Hj2]|[Hg' Hj2]].
  - exists (S (length ms)), m, []. split_and!; [|done|lia|by intros ? ?%elem_of_nil|lia].
    simpl. rewrite lookup_app_r, Nat.sub_diag by lia. done.
  - exists i, d', (m :: att). split_and!; [|done|lia| |].
    + rewrite app_comm_cons. by apply lookup_app_l_Some.
    + intros m' [->|Hin]%elem_of_cons.
      * exists (S (length ms)). split; [apply lookup_lt_Some in Hi; simpl in Hi; lia|].
        simpl. rewrite lookup_app_r, Nat.sub_diag by lia. done.
      * destruct (Hatt m' Hin) as (j & Hle & Hlk). exists j. split; [done|].
        rewrite app_comm_cons. by apply lookup_app_l_Some.
    + intros j Hjr. destruct (decide (j = length ms)) as [->|Hne].
      * rewrite take_app_length, (take_ge (ms ++ [m])), persist_all_snoc by (rewrite length_app; simpl; lia). done.
      * rewrite !take_app_le by lia. apply Hgen. lia.
Qed.

(** C19: the two-slot journal of a generic file system is crash safe.  After
    any series of snapshots, each write of which may succeed, be refused or
    be cut short anywhere, a restart reads back one of the series, and no
    later snapshot had been written successfully: a failed or interrupted
    write never brings back markers older than the last durable ones. *)
Theorem journal_crash_safe `{VL : !VFSLaws V, JL : !MarkerJSONLaws J} d ms c :
  journal_inv d [] c → Forall json_markers ms → staleGeneration c + Z.of_nat (length ms) + 2 < 2 ^ 64 →
  ∃ i g m, (d :: ms) !! i = Some m ∧ best_slot (c_fs (persist_all ms c)) = Some (g, m) ∧
    ∀ j, (i ≤ j < length ms)%nat →
      staleGeneration (persist_all (take (S j) ms) c) = staleGeneration (persist_all (take j ms) c).
Proof.
  intros Hj Hms Hmax. destruct (persist_all_journal d ms c Hj Hms Hmax) as (i & d' & att & Hi & Hj' & _ & Hatt & Hgen).
  destruct (best_slot_journal _ _ _ Hj') as (g & m & Hb & [->|Hin]).
  - by exists i, g, d'.
  - destruct (Hatt m Hin) as (j & Hle & Hlk). exists j, g, m. split_and!; [done|done|].
    intros j' Hj''. apply Hgen. lia.
Qed.

(** Replacing a file of a disk cache is atomic.  A success leaves the
    new contents, a failure at any step leaves the old ones, and no other
    existing file changes. *)
Theorem atomicWriteFile_atomic `{OL : !OsFilesLaws V O} path s f ok f' :
  atomicWriteFile path s f = (ok, f') →
  fs_open f' path = (if ok then Opened s else fs_open f path) ∧
  ∀ q, q ≠ path → fs_open f q ≠ OpenNotExist → fs_open f' q = fs_open f q.
Proof.
  unfold atomicWriteFile. destruct (os_create_temp _ f) as [[t|] f1] eqn:E1.
  2: { intros [= <- <-]. split; [|intros q _ _]; by apply (create_temp_other _ _ _ _ _ E1). }
  destruct (create_temp_name _ _ _ _ E1) as [x Hx].
  assert (t ≠ path) as Ht.
  { intros ->. apply (f_equal String.length) in Hx. rewrite !str_length_app in Hx. simpl in Hx. lia. }
  pose proof (create_temp_fresh _ _ _ _ E1) as Hfresh.
  assert (∀ q, q ≠ t → fs_open f1 q = fs_open f q) as H1
    by (intros q Hq; apply (create_temp_other _ _ _ _ _ E1); congruence).
  assert (∀ g, (∀ q, q ≠ t → fs_open g q = fs_open f q) →
    fs_open (os_remove t g).2 path = fs_open f path ∧
    ∀ q, q ≠ path → fs_open f q ≠ OpenNotExist → fs_open (os_remove t g).2 q = fs_open f q) as Hfail.
  { intros g Hg. split; [|intros q _ Hq]; (rewrite os_remove_other; [apply Hg|]); congruence. }
  destruct (os_write t s f1) as [[] f2] eqn:E2;
    [|intros [= <- <-]; apply Hfail; intros q Hq; rewrite os_close_same, (os_write_other _ _ _ _ _ _ E2 Hq); by apply H1].
  assert (∀ q, q ≠ t → fs_open f2 q = fs_open f q) as H2 by (intros q Hq; rewrite (os_write_other _ _ _ _ _ _ E2 Hq); by apply H1).
  pose proof (os_write_done _ _ _ _ E2) as Hs.
  pose proof (λ q, os_sync_same t f2 q) as Hsync. destruct (os_sync t f2) as [[] f3]; simpl in Hsync;
    [|intros [= <- <-]; apply Hfail; intros q Hq; rewrite os_close_same, Hsync; by apply H2].
  pose proof (λ q, os_close_same t f3 q) as Hclose. destruct (os_close t f3) as [[] f4]; simpl in Hclose;
    [|intros [= <- <-]; apply Hfail; intros q Hq; rewrite Hclose, Hsync; by apply H2].
  destruct (os_rename t path f4) as [[] f5] eqn:E5; intros [= <- <-].
  - split; [rewrite os_remove_other by congruence; by rewrite (os_rename_done _ _ _ _ E5), Hclose, Hsync|].
    intros q Hq Hex. assert (q ≠ t) as Hqt by congruence.
    rewrite os_remove_other, (os_rename_other _ _ _ _ _ E5), Hclose, Hsync by done. by apply H2.
  - apply Hfail. intros q Hq. rewrite (os_rename_failed _ _ _ _ _ E5), Hclose, Hsync. by apply H2.
Qed.

(** *** Snapshots of either kind of cache *)

(** Whether [persistStale] reports a success. *)
Definition persist_succeeds (m : gmap string Time) (c : cache) : bool :=
  if nonempty (diskRoot c) then
    match encode_map m with Some s => (atomicWriteFile staleMapPath s (c_fs c)).1 | None => false end
  else
    let g := uint64_succ (staleGeneration c) in
    match encode_snapshot g m with
    | Some s => match (fs_write (staleMapSlotPath g) s (c_fs c)).1 with Written => true | _ => false end
    | None => false
    end.

(** The files markers are read from. *)
Definition same_markers (f f' : fs_state) : Prop :=
  ∀ p, p = staleMapPath ∨ (∃ g, p = staleMapSlotPath g) → fs_open f p = fs_open f' p.

(** A journal the next snapshot becomes the newest of; an empty one is. *)
Definition journal_ready (c : cache) : Prop :=
  diskRoot c = EmptyString →
  0 ≤ staleGeneration c ∧ staleGeneration c + 3 < 2 ^ 64 ∧
  match readSlot (staleGeneration c) (c_fs c) with None => True | Some (g, _) => g ≤ staleGeneration c end.

(** [m] is on the disk, and stays there until a later snapshot replaces it. *)
Definition durable (m : gmap string Time) (c : cache) : Prop :=
  if nonempty (diskRoot c) then ∃ s, fs_open (c_fs c) staleMapPath = Opened s ∧ decode_map s = Some m
  else journal_inv m [] c ∧ staleGeneration c + 2 < 2 ^ 64.

(** What a restart reads. *)
Definition restores (m : gmap string Time) (f : fs_state) (root : string) : Prop :=
  if nonempty root then ∃ s, fs_open f staleMapPath = Opened s ∧ decode_map s = Some m
  else ∃ g, best_slot f = Some (g, m).

Section Durable.
Context `{VL : !VFSLaws V, OL : !OsFilesLaws V O, JL : !MarkerJSONLaws J}.

Lemma set_markers_root m c : diskRoot (set_markers m c) = diskRoot c.
Proof. by destruct (set_markers_frame m c) as (g & f & ->). Qed.

Lemma set_markers_durable m c : journal_ready c → json_markers m → persist_succeeds m c = true → durable m (set_markers m c).
Proof.
  intros Hj Hm. unfold durable, persist_succeeds. rewrite set_markers_root. unfold set_markers, persistStale. cbn [diskRoot set_stale_map staleGeneration c_fs].
  destruct (nonempty (diskRoot c)) eqn:Er.
  - destruct (map_roundtrip m Hm) as (s & -> & Hd). destruct (atomicWriteFile staleMapPath s (c_fs c)) as [ok f'] eqn:E.
    cbn [fst snd]. intros ->. exists s. split; [|done]. by destruct (atomicWriteFile_atomic _ _ _ _ _ E) as [H _].
  - assert (diskRoot c = EmptyString) as Hr by (by destruct (diskRoot c)). destruct (Hj Hr) as (Hg & Hmax & Hslot).
    assert (uint64_succ (staleGeneration c) = staleGeneration c + 1) as -> by (unfold uint64_succ; rewrite Z.mod_small; lia).
    destruct (snapshot_roundtrip (staleGeneration c + 1) m ltac:(lia) Hm) as (s & He & Hdec). rewrite He.
    destruct (fs_write (staleMapSlotPath (staleGeneration c + 1)) s (c_fs c)) as [[] f'] eqn:Hw; cbn [fst]; try done. intros _.
    split; [|simpl; lia]. split; simpl; [done|lia| |].
    + unfold readSlot. rewrite (write_done _ _ _ _ Hw), Hdec. by rewrite (proj2 (Z.eqb_neq (staleGeneration c + 1) 0)) by lia.
    + rewrite (readSlot_mod (staleGeneration c + 1 + 1) (staleGeneration c)).
      * rewrite (readSlot_other _ _ _ _ _ _ Hw) by apply not_eq_sym, staleMapSlotPath_next.
        destruct (readSlot (staleGeneration c) (c_fs c)) as [[g1 m0]|]; [|done]. left. lia.
      * replace (staleGeneration c + 1 + 1) with (staleGeneration c + 1 * 2) by lia. apply Z.mod_add. lia.
Qed.

Lemma durable_restores m c : durable m c → restores m (c_fs c) (diskRoot c).
Proof.
  unfold durable, restores. destruct (nonempty (diskRoot c)); [done|]. intros [Hj _].
  destruct (best_slot_journal _ _ _ Hj) as (g & m' & Hb & [->|?%elem_of_nil]); [by exists g|done].
Qed.

(** Whatever a later write does, a restart reads the old or the new snapshot. *)
Lemma set_markers_next m m' c :
  durable m c → json_markers m' →
  restores m (c_fs (set_markers m' c)) (diskRoot c) ∨ restores m' (c_fs (set_markers m' c)) (diskRoot c).
Proof.
  unfold durable, restores. destruct (nonempty (diskRoot c)) eqn:Er.
  - intros (s & Hs & Hd) Hm. unfold set_markers, persistStale. cbn [diskRoot set_stale_map c_fs]. rewrite Er.
    destruct (map_roundtrip m' Hm) as (s' & -> & Hd'). destruct (atomicWriteFile staleMapPath s' (c_fs c)) as [ok f'] eqn:E.
    destruct (atomicWriteFile_atomic _ _ _ _ _ E) as [H _]. cbn. rewrite H. destruct ok; [right; by exists s'|left; by exists s].
  - intros [Hj Hmax] Hm. assert (journal_inv m [] (set_stale_map m' (staleGeneration c) c)) as Hj' by (destruct Hj; by split).
    destruct (persist_journal m [] m' _ Hj' Hm ltac:(simpl; lia)) as [[_ Hj2]|[_ Hj2]]; fold (set_markers m' c) in Hj2;
      destruct (best_slot_journal _ _ _ Hj2) as (g & m2 & Hb & Hcase).
    + destruct Hcase as [->|?%elem_of_nil]; [right; by exists g|done].
    + destruct Hcase as [-> | ->%list_elem_of_singleton]; [left|right]; by exists g.
Qed.

Lemma restores_same m f f' root : same_markers f f' → restores m f' root → restores m f root.
Proof.
  intros Hs. unfold restores. rewrite (Hs staleMapPath (or_introl eq_refl)).
  assert (∀ g, readSlot g f = readSlot g f') as Hr by (intros g; unfold readSlot; by rewrite (Hs (staleMapSlotPath g)) by eauto).
  assert (best_slot f = best_slot f') as -> by (unfold best_slot; by rewrite !Hr). done.
Qed.

Lemma restores_StaleAt m f root cfg now k :
  restores m f root → StaleAt k (loadStale now (new_cache f cfg root)) = recover_marker now <$> m !! k.
Proof.
  unfold restores. destruct (nonempty root) eqn:Er.
  - intros (s & Hs & Hd). unfold loadStale. cbn [diskRoot new_cache c_fs]. rewrite Er, Hs, Hd.
    unfold restore_from, restoreStale, persistRestoredStale, StaleAt. cbn.
    assert ((∅ ∪ (recover_marker now <$> m) : gmap string Time) !! k = recover_marker now <$> m !! k) as Hk
      by (by rewrite (left_id_L ∅ (∪)), lookup_fmap).
    case_match; [|done]. by rewrite persistStale_stale.
  - assert (root = EmptyString) as -> by (by destruct root). intros [g Hb]. by eapply loadStale_best.
Qed.

(** C20: an invalidation whose barrier was persisted survives every crash, on
    a generic file system (the two-slot journal) and on a disk cache (one file,
    replaced atomically).  Whatever happens to the write of the final instant
    (success, refusal, a torn file), also when the process dies while it waits
    for the active writers, and whatever became of the other files, a restart
    marks the key: with the instant of the invalidation or with that of the
    restart.  The keys are valid UTF-8 (of others JSON keeps another key) and
    the barrier was written (a marker that cannot be persisted is only held
    in memory). *)
Theorem invalidation_survives_restart keys k now cfg restart c :
  journal_ready c → json_markers (stale c) → Forall valid_utf8 keys → k ∈ keys →
  json_time now → now ≠ invalidationBarrierTime →
  persist_succeeds (mark_all keys invalidationBarrierTime (stale c)) c = true →
  let c1 := Invalidate_barrier keys c in
  let c2 := Invalidate_final keys now c1 in
  (∀ f, same_markers f (c_fs c1) → StaleAt k (loadStale restart (new_cache f cfg (diskRoot c))) = Some restart) ∧
  (∀ f, same_markers f (c_fs c2) →
     StaleAt k (loadStale restart (new_cache f cfg (diskRoot c))) = Some now ∨
     StaleAt k (loadStale restart (new_cache f cfg (diskRoot c))) = Some restart).
Proof.
  intros Hj Hm Hutf Hk Hnow Hne Hok c1 c2. destruct keys as [|k0 keys]; [by apply elem_of_nil in Hk|].
  assert (json_time invalidationBarrierTime) as Hbt by (split; vm_compute; congruence).
  set (m1 := mark_all (k0 :: keys) invalidationBarrierTime (stale c)) in *.
  pose proof (json_markers_mark_all (k0 :: keys) _ _ Hm Hutf Hbt) as Hm1. fold m1 in Hm1.
  assert (stale c1 = m1) as Hs1 by apply set_markers_stale.
  set (m2 := mark_all (k0 :: keys) now m1). assert (json_markers m2) as Hm2 by (by apply json_markers_mark_all).
  assert (durable m1 c1) as Hd1 by (apply set_markers_durable; done).
  assert (diskRoot c1 = diskRoot c) as Hr1 by apply set_markers_root.
  assert (recover_marker restart <$> m1 !! k = Some restart) as Hk1.
  { unfold m1. rewrite mark_all_lookup, decide_True by done. cbn. unfold recover_marker. by rewrite Z.eqb_refl. }
  assert (recover_marker restart <$> m2 !! k = Some now) as Hk2.
  { unfold m2. rewrite mark_all_lookup, decide_True by done. cbn. unfold recover_marker. by rewrite (proj2 (Z.eqb_neq _ _) Hne). }
  assert (c2 = set_markers m2 c1) as Hc2 by (unfold m2; rewrite <- Hs1; done).
  pose proof (durable_restores _ _ Hd1) as Hres1. rewrite Hr1 in Hres1.
  split; intros f Hf.
  - by rewrite (restores_StaleAt m1 f (diskRoot c) cfg restart k) by (by eapply restores_same).
  - destruct (set_markers_next _ _ _ Hd1 Hm2) as [Hres|Hres]; rewrite <- Hc2, Hr1 in Hres; [right|left].
    + by rewrite (restores_StaleAt m1 f (diskRoot c) cfg restart k) by (by eapply restores_same).
    + by rewrite (restores_StaleAt m2 f (diskRoot c) cfg restart k) by (by eapply restores_same).
Qed.
End Durable.
End Theorems.

(** ** Sweeps and markers *)

Section Sweeps.
Context `{V : VFS, O : !OsFiles V, J : MarkerJSON}.
Implicit Types c : cache.

Lemma removals_stale P c c' :
  removals P c c' → stale c' = stale c ∧ diskRoot c' = diskRoot c ∧ staleGeneration c' = staleGeneration c.
Proof.
  induction 1 as [c|c c1 c' h e _ _ R _ IH|c c1 c' h e _ _ R _ IH|c c' reason _ IH]; [done| | |done].
  - by apply removeEntry_failed in R as [f ->].
  - by apply removeEntry_done in R as [f ->].
Qed.

Lemma purge_loop_spec l b c b' c' :
  ledger_inv c → NoDup l → purge_loop l b c = (b', c') →
  (b' = false → b = false ∧ ∀ h, h ∈ l → lruIndex c' !! h = None) ∧
  (b' = true → b = true ∨ ∃ h, is_Some (lruIndex c' !! h)) ∧
  (∀ h, h ∉ l → lruIndex c' !! h = lruIndex c !! h).
Proof.
  revert b c. induction l as [|x l IH]; intros b c Hc; simpl.
  { intros _ [= <- <-]. split_and!; [|by left|done]. intros ->. split; [done|]. by intros h ?%elem_of_nil. }
  intros [Hx Hnd]%NoDup_cons. destruct (lruIndex c !! x) as [e|] eqn:E.
  - destruct (removeEntry e c) as [failed c1] eqn:R.
    pose proof (removeEntry_inv _ _ _ _ _ Hc E R) as Hc1. intros Hl.
    destruct (IH _ _ Hc1 Hnd Hl) as (H1 & H2 & H3). split_and!.
    + intros Hb. destruct (H1 Hb) as [[-> ->]%orb_false_iff Hall]. split; [done|].
      intros h [->|Hh]%elem_of_cons; [|by apply Hall]. rewrite H3 by done.
      apply removeEntry_done in R as [f ->]. rewrite (li_key _ Hc x e E). simpl. by rewrite lookup_delete_eq.
    + intros Hb. destruct (H2 Hb) as [Hor|?]; [|by right]. apply orb_true_iff in Hor as [?| ->]; [by left|right].
      exists x. rewrite H3 by done. apply removeEntry_failed in R as [f ->]. simpl. by rewrite E.
    + intros h [Hne Hh]%not_elem_of_cons. rewrite H3 by done. destruct failed.
      * by apply removeEntry_failed in R as [f ->].
      * apply removeEntry_done in R as [f ->]. rewrite (li_key _ Hc x e E). simpl. by rewrite lookup_delete_ne.
  - intros Hl. destruct (IH _ _ Hc Hnd Hl) as (H1 & H2 & H3). split_and!; [|done|].
    + intros Hb. destruct (H1 Hb) as [-> Hall]. split; [done|].
      intros h [->|Hh]%elem_of_cons; [by rewrite H3|by apply Hall].
    + intros h [_ Hh]%not_elem_of_cons. by apply H3.
Qed.

Lemma cleanupStaleMap_spec now c n c' :
  cleanupStaleMap now c = (n, c') →
  lruIndex c' = lruIndex c ∧ lruList c' = lruList c ∧ totalSize c' = totalSize c ∧ config c' = config c ∧
  reservations c' = reservations c ∧ reservedSize c' = reservedSize c ∧ nextGeneration c' = nextGeneration c ∧
  n = Z.of_nat (size (stale c)) - Z.of_nat (size (stale c')) ∧
  (∀ k t, stale c !! k = Some t → stale c' !! k = None →
     0 < TTL (config c) ∧ t < Add now (- staleRetention (config c))) ∧
  (∀ k t, stale c' !! k = Some t → stale c !! k = Some t).
Proof.
  unfold cleanupStaleMap. destruct (staleRetention (config c) <=? 0) eqn:Hr; unbool.
  { intros [= <- <-]. split_and!; try done; [lia|]. intros k t. congruence. }
  assert (0 < TTL (config c)) as Hpos by (unfold staleRetention in Hr; destruct (TTL (config c) <=? 0) eqn:E; unbool; lia).
  set (kept := filter _ (stale c)). cbv zeta.
  assert (∀ k t, stale c !! k = Some t → kept !! k = None → t < Add now (- staleRetention (config c))) as H1.
  { intros k t Hk Hn. unfold kept in Hn. rewrite map_lookup_filter_None in Hn. destruct Hn as [Hn|Hn]; [congruence|].
    specialize (Hn t Hk). unfold Before in Hn. apply Z.ltb_lt. by destruct (t <? _). }
  assert (∀ k t, kept !! k = Some t → stale c !! k = Some t) as H2.
  { intros k t Hk. unfold kept in Hk. by apply map_lookup_filter_Some in Hk as [? _]. }
  destruct (0 <? _) eqn:Hrm; intros [= <- <-].
  - destruct (persistStale_frame kept (set_stale_map kept (staleGeneration c) c)) as (g & f & ->). simpl.
    split_and!; try done. eauto.
  - simpl. split_and!; try done. eauto.
Qed.

Lemma complete_sweep_bound start c items bytes c1 h e :
  ledger_inv c → cleanupTTLExpired start c = ((items, bytes, true), c1) → lruIndex c1 !! h = Some e →
  Add start (- TTL (config c)) ≤ e_storedAt e.
Proof.
  intros Hc E He. destruct (ttl_loop_spec _ _ _ _ _ _ _ _ _ _ Hc (NoDup_rev_list _ (li_nodup _ Hc)) E) as (_ & _ & T3 & T4).
  destruct (T4 eq_refl) as [_ Hall]. destruct (decide (Add start (- TTL (config c)) ≤ e_storedAt e)) as [?|Hlt]; [done|].
  assert (lruIndex c !! h = Some e) as He0 by (destruct (T3 h) as [Hq|[Hq _]]; congruence).
  rewrite Hall in He; [done| |].
  - rewrite elem_of_rev. apply (li_index _ Hc). eauto.
  - unfold expired, Before. rewrite He0. apply Z.ltb_lt. lia.
Qed.

(** What either phase of the cleanup promises. *)
Record cleaned (c c' : cache) (items bytes markers : Z) : Prop := {
  cl_markers : ∀ k t, stale c !! k = Some t → stale c' !! k = None →
    0 < TTL (config c) ∧ ∀ h e, lruIndex c' !! h = Some e → t < e_storedAt e;
  cl_subset : ∀ k t, stale c' !! k = Some t → stale c !! k = Some t;
  cl_items : items = Z.of_nat (size (lruIndex c)) - Z.of_nat (size (lruIndex c'));
  cl_bytes : bytes = totalSize c - totalSize c';
  cl_count : markers = Z.of_nat (size (stale c)) - Z.of_nat (size (stale c'));
  cl_index : lruIndex c' ⊆ lruIndex c;
  cl_inv : ledger_inv c';
}.

Lemma cleanupExpired_spec start c items bytes n c' :
  ledger_inv c → cleanupExpired start c = ((items, bytes, n), c') → cleaned c c' items bytes n.
Proof.
  intros Hc. unfold cleanupExpired. destruct (0 <? TTL (config c)) eqn:Httl; unbool.
  - pose proof (ttl_loop_removals (Add start (- TTL (config c))) (rev (lruList c)) (0, 0, true) c Hc) as Hrem.
    destruct (removals_spec _ _ _ Hrem Hc) as (Hc1 & Hcfg & _ & _ & _ & Hsub & _).
    destruct (removals_stale _ _ _ Hrem) as (Hst & _ & _).
    destruct (cleanupTTLExpired start c) as [[[i b] complete] c1] eqn:E. unfold cleanupTTLExpired in E.
    rewrite E in Hc1, Hcfg, Hsub, Hst. simpl in *.
    destruct (ttl_loop_spec _ _ _ _ _ _ _ _ _ _ Hc (NoDup_rev_list _ (li_nodup _ Hc)) E) as (T1 & T2 & _).
    destruct complete; [destruct (cleanupStaleMap start c1) as [n1 c2] eqn:E2|].
    + destruct (cleanupStaleMap_spec _ _ _ _ E2) as (F1 & F2 & F3 & F4 & F5 & F6 & F7 & F8 & F9 & F10).
      intros [= <- <- <- <-]. split; rewrite ?F1, ?F3, <- ?Hst; try done; [|lia|lia|by apply (ledger_inv_ext c1)].
      intros k t Hk Hn. destruct (F9 k t Hk Hn) as [_ Hlt]. split; [done|]. intros h e He. rewrite Hcfg in Hlt.
      pose proof (complete_sweep_bound _ _ _ _ _ _ _ Hc E He) as Hge.
      unfold staleRetention, Add in *. rewrite (proj2 (Z.leb_gt (TTL (config c)) 0)) in Hlt by done. lia.
    + intros [= <- <- <- <-]. split; rewrite ?Hst; try done; [|lia..]. intros k t. congruence.
  - destruct (cleanupStaleMap start c) as [n1 c2] eqn:E2.
    destruct (cleanupStaleMap_spec _ _ _ _ E2) as (F1 & F2 & F3 & F4 & F5 & F6 & F7 & F8 & F9 & F10).
    intros [= <- <- <- <-]. split; rewrite ?F1, ?F3; try done; [|lia|lia|by apply (ledger_inv_ext c)].
    intros k t Hk Hn. destruct (F9 k t Hk Hn). lia.
Qed.

(** C38: the cleanup never drops the marker of an entry that survives it: a
    marker goes only when every entry left was stored after it, and the
    counts it returns are exact. *)
Theorem Cleanup_keeps_governing_markers start c r c' :
  ledger_inv c → Cleanup start c = (r, c') →
  (∀ k t, stale c !! k = Some t → stale c' !! k = None →
     0 < TTL (config c) ∧ ∀ h e, lruIndex c' !! h = Some e → t < e_storedAt e) ∧
  (∀ k t, stale c' !! k = Some t → stale c !! k = Some t) ∧
  RemovedItems r = Z.of_nat (size (lruIndex c)) - Z.of_nat (size (lruIndex c')) ∧
  RemovedBytes r = totalSize c - totalSize c' ∧
  RemovedStaleEntries r = Z.of_nat (size (stale c)) - Z.of_nat (size (stale c')) ∧
  lruIndex c' ⊆ lruIndex c ∧ ledger_inv c'.
Proof.
  intros Hc. unfold Cleanup. destruct (cleanupExpired start c) as [[[items bytes] n] c1] eqn:E1.
  destruct (cleanupExpired_spec _ _ _ _ _ _ Hc E1) as [H1 H2 -> -> -> H6 Hc1].
  destruct (0 <? MaxSize (config c1)).
  - pose proof (max_size_loop_removals (rev (lruList c1)) (0, 0) c1 Hc1) as Hrem.
    destruct (removals_spec _ _ _ Hrem Hc1) as (Hc2 & _ & _ & _ & _ & Hsub & _).
    destruct (removals_stale _ _ _ Hrem) as (Hst & _ & _).
    destruct (enforceMaxSize c1) as [[items2 bytes2] c2] eqn:E. unfold enforceMaxSize in E.
    rewrite E in Hc2, Hsub, Hst. simpl in *.
    destruct (max_size_loop_spec _ _ _ _ _ _ _ Hc1 (NoDup_rev_list _ (li_nodup _ Hc1)) E) as (T1 & T2 & _).
    intros [= <- <-]. simpl. rewrite Hst. split_and!; try done; [|lia|lia|by etrans].
    intros k t Hk Hn. destruct (H1 k t Hk Hn) as [? Hall]. split; [done|].
    intros h e He. apply (Hall h e). by eapply lookup_weaken.
  - intros [= <- <-]. by split_and!.
Qed.

(** A purge is all or nothing for the markers: when every file could be
    removed the ledger and the markers are empty, otherwise every marker is
    kept and the entries whose files remain are still tracked. *)
Theorem Purge_all_or_nothing c err c' :
  ledger_inv c → Purge c = (err, c') →
  ledger_inv c' ∧
  if err then stale c' = stale c ∧ ∃ h, is_Some (lruIndex c' !! h)
  else stale c' = ∅ ∧ lruList c' = [] ∧ lruIndex c' = ∅ ∧ totalSize c' = 0.
Proof.
  intros Hc. unfold Purge. pose proof (purge_loop_removals (lruList c) false c Hc) as Hrem.
  destruct (removals_spec _ _ _ Hrem Hc) as (Hc1 & _ & _ & _ & _ & Hsub & _).
  destruct (removals_stale _ _ _ Hrem) as (Hst & _ & _).
  destruct (purge_loop (lruList c) false c) as [b c1] eqn:E. simpl in *.
  destruct (purge_loop_spec _ _ _ _ _ Hc (li_nodup _ Hc) E) as (H1 & H2 & H3).
  destruct b; intros [= <- <-].
  - split; [done|]. split; [done|]. destruct (H2 eq_refl); done.
  - destruct (H1 eq_refl) as [_ Hall].
    assert (lruIndex c1 = ∅) as He.
    { apply map_eq. intros h. rewrite lookup_empty. destruct (decide (h ∈ lruList c)) as [?|Hout]; [by apply Hall|].
      rewrite H3 by done. apply eq_None_not_Some. by rewrite <- (li_index _ Hc). }
    destruct (set_markers_frame ∅ c1) as (g & f & ->). split; [by apply (ledger_inv_ext c1)|]. simpl.
    split_and!; [done| |done|].
    + destruct (lruList c1) as [|h l] eqn:El; [done|]. assert (h ∈ lruList c1) as Hin by (rewrite El; by apply elem_of_cons; left).
      apply (li_index _ Hc1) in Hin. rewrite He, lookup_empty in Hin. by destruct Hin.
    + by rewrite (li_total _ Hc1), He, fmap_empty, map_zsum_empty.
Qed.
End Sweeps.

(** ** Witnesses *)

#[local] Existing Instance mem_fs.
#[local] Existing Instance mem_os.
#[local] Existing Instance binary_json.

(** A cache whose journal holds an empty snapshot. *)
Definition cache_journal : cache :=
  persistStale ∅ (@new_cache mem_fs mem_empty DefaultCacheConfig EmptyString).

Lemma cache_journal_inv : journal_inv ∅ [] cache_journal.
Proof. split; [by vm_compute|by vm_compute|by vm_compute|by vm_compute]. Qed.

Definition key_a : string := "GET:http://example.com/a".
Lemma key_a_utf8 : Forall valid_utf8 [key_a].
Proof. repeat constructor. Qed.

Lemma journal_crash_safe_witness :
  ∃ i g m, ([∅; {[key_a := 7]}] : list (gmap string Time)) !! i = Some m ∧
    best_slot (c_fs (persist_all [{[key_a := 7]}] cache_journal)) = Some (g, m).
Proof.
  destruct (journal_crash_safe (VL := mem_fs_laws) (JL := binary_json_laws) ∅ [{[key_a := 7]}] cache_journal
    cache_journal_inv) as (i & g & m & H1 & H2 & _).
  - apply Forall_singleton. intros k t [<- <-]%lookup_singleton_Some. split; vm_compute; [done|]. split; congruence.
  - by vm_compute.
  - exists i, g, m. exact (conj H1 H2).
Defined.

(** A disk cache without a marker file, and a journal. *)
Definition disk_markers : cache := @new_cache mem_fs mem_empty DefaultCacheConfig "/var/cache".

Lemma invalidation_survives_restart_witness :
  StaleAt key_a (loadStale 90 (new_cache (c_fs (Invalidate_barrier [key_a] disk_markers)) DefaultCacheConfig "/var/cache")) = Some 90 ∧
  StaleAt key_a (loadStale 90 (new_cache (c_fs (Invalidate_barrier [key_a] cache_journal)) DefaultCacheConfig EmptyString)) = Some 90.
Proof.
  assert (key_a ∈ [key_a]) as Hk by (apply elem_of_cons; by left).
  assert (json_time 80) as Ht by (split; vm_compute; congruence).
  assert ((80 : Time) ≠ invalidationBarrierTime) as Hb by (vm_compute; congruence).
  split.
  - refine (proj1 (invalidation_survives_restart (VL := mem_fs_laws) (OL := mem_os_laws) (JL := binary_json_laws) [key_a] key_a 80
      DefaultCacheConfig 90 disk_markers _ (map_Forall_empty _) key_a_utf8 Hk Ht Hb _) _ (λ _ _, eq_refl)).
    + intros Hroot. discriminate Hroot.
    + vm_compute. reflexivity.
  - refine (proj1 (invalidation_survives_restart (VL := mem_fs_laws) (OL := mem_os_laws) (JL := binary_json_laws) [key_a] key_a 80
      DefaultCacheConfig 90 cache_journal _ (map_Forall_empty _) key_a_utf8 Hk Ht Hb _) _ (λ _ _, eq_refl)).
    + intros _. vm_compute. repeat split; discriminate.
    + vm_compute. reflexivity.
Defined.

(** A rename that fails keeps the old file. *)
Definition read_only_target : @fs_state mem_fs :=
  {| files := {["stale-markers.json"%string := "old"%string]}; unremovable := ∅;
     unwritable := {["stale-markers.json"%string]}; torn := ∅ |}.

Lemma atomicWriteFile_atomic_witness :
  fs_open (atomicWriteFile staleMapPath "new" read_only_target).2 staleMapPath = Opened "old".
Proof.
  destruct (atomicWriteFile staleMapPath "new" read_only_target) as [ok f'] eqn:E.
  destruct (atomicWriteFile_atomic (OL := mem_os_laws) staleMapPath "new" read_only_target ok f' E) as [H _].
  assert (ok = false) as -> by (vm_compute in E; congruence). exact H.
Defined.

(** Two markers and three entries; the sweep at [now_ttl] drops the old
    marker with the old entry and keeps the recent one. *)
Definition swept : cache :=
  set_stale_map {[key_a := 5; "b"%string := 25]} 0
    (trackEntry "c" "c" 20 30 0 (trackEntry "b" "b" 40 26 0 (trackEntry "a" "a" 30 10 0
       (@new_cache mem_fs mem_empty DefaultCacheConfig EmptyString)))).

Lemma swept_inv : ledger_inv swept.
Proof.
  unfold swept. apply (ledger_inv_ext (trackEntry "c" "c" 20 30 0 (trackEntry "b" "b" 40 26 0 (trackEntry "a" "a" 30 10 0
    (@new_cache mem_fs mem_empty DefaultCacheConfig EmptyString))))); try done.
  repeat (apply trackEntry_inv; [|lia]). apply new_cache_inv.
Qed.

Lemma Cleanup_keeps_governing_markers_witness :
  let r := Cleanup now_ttl swept in
  RemovedItems (fst r) = 1 ∧ RemovedStaleEntries (fst r) = 1 ∧ stale (snd r) !! key_a = None ∧
  (∀ h e, lruIndex (snd r) !! h = Some e → 5 < e_storedAt e).
Proof.
  intros r. destruct (Cleanup now_ttl swept) as [res c'] eqn:E.
  destruct (Cleanup_keeps_governing_markers now_ttl swept res c' swept_inv E) as (H1 & _ & H3 & _ & H5 & _ & _).
  assert (c' = (Cleanup now_ttl swept).2) as Hc' by (by rewrite E).
  assert (stale c' !! key_a = None) as Hn by (rewrite Hc'; by vm_compute).
  subst r. simpl. rewrite H3, H5, Hn. split_and!; [by rewrite Hc'; vm_compute|by rewrite Hc'; vm_compute|done|].
  assert (stale swept !! key_a = Some 5) as Hk by (by vm_compute). exact (proj2 (H1 _ _ Hk Hn)).
Defined.

Lemma Purge_all_or_nothing_witness : stale (Purge swept).2 = ∅ ∧ totalSize (Purge swept).2 = 0.
Proof.
  destruct (Purge swept) as [err c'] eqn:E.
  assert ((Purge swept).1 = false) as He by (by vm_compute). rewrite E in He. simpl in He. subst err.
  destruct (Purge_all_or_nothing swept false c' swept_inv E) as (_ & H1 & _ & _ & H2). by split.
Defined.

(** A marker of a key that is not valid UTF-8 does not survive a restart:
    the snapshot holds another key in its place.  Such a key is built from a
    request whose query carries a raw byte of 0x80 or above. *)
Example marker_of_invalid_key_lost :
  let k := ("GET:http://example.com/?q=" +:+ str1 (byte_of 255))%string in
  let c1 := Invalidate_final [k] 80 (Invalidate_barrier [k] cache_journal) in
  StaleAt k c1 = Some 80 ∧
  StaleAt k (loadStale 90 (new_cache (c_fs c1) DefaultCacheConfig EmptyString)) = None ∧
  StaleAt (json_string k) (loadStale 90 (new_cache (c_fs c1) DefaultCacheConfig EmptyString)) = Some 80.
Proof. vm_compute. by split_and!. Qed.
