(* ===== verification/Generations.v ===== *)
(** * Stores, refreshes, lookups and invalidations ([cache.go])

    How [StoreContext], [Freshen], [Retrieve] and [Invalidate] are ordered by
    [generationMu], as a transition system over the markers and the published
    entries.  A writer (a store or a refresh) holds the read side from its
    marker check to its end; the final instant of an invalidation needs the
    write side; lookups and barriers need neither, so invalidations overlap
    each other and the writers.  The lock of a key is left out: here more runs
    are possible than the code has.  The clock does not go back and stays below
    the barrier.  Marker cleanup is not a step: a response in flight for longer
    than the marker retention is outside the guarantee. *)

From S2P Require Import Prelude GoStrings GoTime GoQuote Config Vfs CacheState Resource Markers.

Section System.
Context `{V : VFS, O : !OsFiles V, J : MarkerJSON, D : HttpDate}.
Implicit Types c : cache.

(** [responseSuperseded]; also the check of [Freshen] key by key. *)
Fixpoint responseSuperseded (res : Resource) (keys : list string) (c : cache) : bool :=
  match keys with
  | [] => false
  | key :: keys =>
      match StaleAt key c with
      | Some staleTime => if negb (ReceivedAfter res staleTime) then true else responseSuperseded res keys c
      | None => responseSuperseded res keys c
      end
  end.

(** The marker check at the end of [retrieve]. *)
Definition mark_retrieved (key : string) (res : Resource) (c : cache) : Resource :=
  match StaleAt key c with
  | Some staleTime => if negb (StoredAfter res staleTime) then MarkStale res else res
  | None => res
  end.

(** [discardPreparedStore]: the marker of an entry whose files could not be
    removed; a later one, a barrier in particular, stays. *)
Definition residual_marker (key : string) (now : Time) (c : cache) : cache :=
  set_markers (if Before (default zero_time (stale c !! key)) now then <[key := now]> (stale c) else stale c) c.

(** A store or a refresh between its marker check and its end; the time it
    writes is fixed by a later clock reading. *)
Record writer := { w_res : Resource; w_keys : list string; w_storedAt : option Time; w_refreshes : bool }.

(** An invalidation that waits for the write side; [iv_barred]: those of its
    keys whose barrier no other invalidation has replaced since. *)
Record invalidation := { iv_keys : list string; iv_barred : list string }.

Record sys := {
  s_cache : cache;
  s_now : Time;
  s_entries : gmap string Resource;
  s_writers : list writer;
  s_pending : list invalidation;
  (* finished invalidations: key and instant *)
  s_done : list (string * Time);
}.

Definition with_cache (c : cache) (pending : list invalidation) (finished : list (string * Time)) (s : sys) : sys :=
  {| s_cache := c; s_now := s_now s; s_entries := s_entries s; s_writers := s_writers s;
     s_pending := pending; s_done := finished |}.

Definition with_writers (e : gmap string Resource) (w : list writer) (s : sys) : sys :=
  {| s_cache := s_cache s; s_now := s_now s; s_entries := e; s_writers := w;
     s_pending := s_pending s; s_done := s_done s |}.

Definition publish_all (keys : list string) (res : Resource) (e : gmap string Resource) : gmap string Resource :=
  foldl (λ e k, <[k := res]> e) e keys.

Definition writing (storedAt : option Time) (w : writer) : writer :=
  {| w_res := w_res w; w_keys := w_keys w; w_storedAt := storedAt; w_refreshes := w_refreshes w |}.

(** What a refresh makes of an entry: its header and its instant are replaced,
    and it counts as requested when the validation was. *)
Definition refreshed_entry (t : Time) (res old : Resource) : Resource :=
  SetStoredAt t (set_requestTime (r_RequestTime res) (set_header (r_header res) None old)).

(** The barriers that an instant of the [keys] replaces. *)
Definition lift_barriers (keys : list string) (iv : invalidation) : invalidation :=
  {| iv_keys := iv_keys iv; iv_barred := filter (λ k, k ∉ keys) (iv_barred iv) |}.

Inductive sys_step : sys → sys → Prop :=
  | sys_tick s t :
      s_now s ≤ t < invalidationBarrierTime →
      sys_step s {| s_cache := s_cache s; s_now := t; s_entries := s_entries s; s_writers := s_writers s;
                    s_pending := s_pending s; s_done := s_done s |}
  (* [StoreContext] and [Freshen], past their marker check *)
  | sys_begin s res keys refreshes :
      0 < r_RequestTime res ≤ s_now s → responseSuperseded res keys (s_cache s) = false →
      sys_step s (with_writers (s_entries s)
        ({| w_res := res; w_keys := keys; w_storedAt := None; w_refreshes := refreshes |} :: s_writers s) s)
  | sys_stamp s w ws1 ws2 :
      s_writers s = ws1 ++ w :: ws2 → w_storedAt w = None →
      sys_step s (with_writers (s_entries s) (ws1 ++ writing (Some (s_now s)) w :: ws2) s)
  | sys_store_publish s w ws1 ws2 t :
      s_writers s = ws1 ++ w :: ws2 → w_storedAt w = Some t → w_refreshes w = false →
      sys_step s (with_writers (publish_all (w_keys w) (SetStoredAt t (w_res w)) (s_entries s)) (ws1 ++ ws2) s)
  (* [freshenResourceForKey]: one of the keys, and on to the next *)
  | sys_freshen s w ws1 ws2 t k old :
      s_writers s = ws1 ++ w :: ws2 → w_storedAt w = Some t → w_refreshes w = true → k ∈ w_keys w → s_entries s !! k = Some old →
      sys_step s (with_writers (<[k := refreshed_entry t (w_res w) old]> (s_entries s)) (ws1 ++ writing None w :: ws2) s)
  (* a failure, or the end of a refresh *)
  | sys_end s w ws1 ws2 :
      s_writers s = ws1 ++ w :: ws2 → sys_step s (with_writers (s_entries s) (ws1 ++ ws2) s)
  | sys_remove s k :
      sys_step s (with_writers (delete k (s_entries s)) (s_writers s) s)
  (* a failed writer that cannot remove what it wrote *)
  | sys_residual s w k :
      w ∈ s_writers s → k ∈ w_keys w →
      sys_step s (with_cache (residual_marker k (s_now s) (s_cache s)) (s_pending s) (s_done s) s)
  | sys_barrier s keys :
      keys ≠ [] →
      sys_step s (with_cache (Invalidate_barrier keys (s_cache s)) ({| iv_keys := keys; iv_barred := keys |} :: s_pending s) (s_done s) s)
  | sys_final s iv p1 p2 :
      s_pending s = p1 ++ iv :: p2 → s_writers s = [] →
      sys_step s (with_cache (Invalidate_final (iv_keys iv) (s_now s) (s_cache s)) (lift_barriers (iv_keys iv) <$> p1 ++ p2)
        (((λ k, (k, s_now s)) <$> iv_keys iv) ++ s_done s) s).

(** ** The invariant *)

Record gen_inv (s : sys) : Prop := {
  g_now : 0 < s_now s < invalidationBarrierTime;
  g_entries : ∀ k res, s_entries s !! k = Some res → 0 < r_RequestTime res ∧ 0 < r_storedAt res ≤ s_now s;
  g_nonempty : ∀ iv, iv ∈ s_pending s → iv_keys iv ≠ [];
  g_pending : ∀ iv k, iv ∈ s_pending s → k ∈ iv_barred iv → StaleAt k (s_cache s) = Some invalidationBarrierTime;
  g_fresh : ∀ k res m t, s_entries s !! k = Some res → StaleAt k (s_cache s) = Some m → (k, t) ∈ s_done s →
    m < r_storedAt res → t < r_RequestTime res;
  g_writers : ∀ w, w ∈ s_writers s → 0 < r_RequestTime (w_res w) ∧
    (∀ t, w_storedAt w = Some t → 0 < t ≤ s_now s) ∧
    ∀ k t, k ∈ w_keys w → (k, t) ∈ s_done s → t < r_RequestTime (w_res w);
  g_done : ∀ k t, (k, t) ∈ s_done s → t ≤ s_now s ∧ ∃ m, StaleAt k (s_cache s) = Some m ∧ t ≤ m;
}.

Lemma responseSuperseded_false res keys c :
  responseSuperseded res keys c = false ↔
  ∀ k m, k ∈ keys → StaleAt k c = Some m → ReceivedAfter res m = true.
Proof.
  induction keys as [|k0 keys IH]; cbn [responseSuperseded].
  - split; [|done]. by intros _ k m ?%elem_of_nil.
  - split.
    + intros Hs k m [->|Hk]%elem_of_cons Hm.
      * rewrite Hm in Hs. by destruct (ReceivedAfter res m).
      * refine (proj1 IH _ k m Hk Hm). destruct (StaleAt k0 c) as [m0|]; [|done].
        by destruct (ReceivedAfter res m0).
    + intros Hall. assert (responseSuperseded res keys c = false) as Hrest.
      { apply IH. intros k m Hk. apply Hall. by apply elem_of_cons; right. }
      destruct (StaleAt k0 c) as [m0|] eqn:E; [|done].
      rewrite (Hall k0 m0); [done|by apply elem_of_cons; left|done].
Qed.

Lemma ReceivedAfter_request res m : 0 < r_RequestTime res → ReceivedAfter res m = (m <? r_RequestTime res).
Proof. intros Hr. unfold ReceivedAfter, IsZero. by rewrite (proj2 (Z.eqb_neq (r_RequestTime res) 0)) by lia. Qed.

Lemma StoredAfter_stored res m : 0 < r_storedAt res → StoredAfter res m = (m <? r_storedAt res).
Proof. intros Hr. unfold StoredAfter, IsZero. by rewrite (proj2 (Z.eqb_neq (r_storedAt res) 0)) by lia. Qed.

Lemma publish_all_lookup keys res e k :
  publish_all keys res e !! k = if decide (k ∈ keys) then Some res else e !! k.
Proof.
  unfold publish_all. revert e. induction keys as [|k0 keys IH]; intros e; cbn [foldl].
  { by rewrite decide_False by apply not_elem_of_nil. }
  rewrite IH. destruct (decide (k0 = k)) as [->|Hne].
  - rewrite lookup_insert_eq, (decide_True (P := k ∈ k :: keys)) by (apply elem_of_cons; by left). by case_decide.
  - rewrite lookup_insert_ne by done. apply decide_ext. rewrite elem_of_cons. naive_solver.
Qed.

Lemma StaleAt_barrier keys c k :
  keys ≠ [] → StaleAt k (Invalidate_barrier keys c) = if decide (k ∈ keys) then Some invalidationBarrierTime else StaleAt k c.
Proof.
  intros Hk. unfold Invalidate_barrier, StaleAt. destruct keys as [|k0 keys]; [done|].
  by rewrite set_markers_stale, mark_all_lookup.
Qed.

Lemma StaleAt_final keys now c k :
  keys ≠ [] → StaleAt k (Invalidate_final keys now c) = if decide (k ∈ keys) then Some now else StaleAt k c.
Proof.
  intros Hk. unfold Invalidate_final, StaleAt. destruct keys as [|k0 keys]; [done|].
  by rewrite set_markers_stale, mark_all_lookup.
Qed.

Lemma residual_frame key now c : ∃ m g f, residual_marker key now c = set_stale_map m g (set_fs f c).
Proof. unfold residual_marker. eexists. apply set_markers_frame. Qed.

Lemma StaleAt_residual key now c k :
  0 < now → StaleAt k (residual_marker key now c) = if decide (k = key) then Some (Z.max now (default zero_time (StaleAt key c))) else StaleAt k c.
Proof.
  intros Hn. unfold residual_marker, StaleAt. rewrite set_markers_stale. unfold Before. case_decide as Hk; [subst k|].
  - destruct (Z.ltb_spec (default zero_time (stale c !! key)) now) as [Hlt|Hge].
    + rewrite lookup_insert_eq. f_equal. lia.
    + destruct (stale c !! key) as [m|] eqn:E; cbn in *; [|unfold zero_time in Hge; lia]. f_equal. unfold id in *. lia.
  - case_match; [|done]. by rewrite lookup_insert_ne.
Qed.

Lemma middle_elem {A} (x : A) l1 y l2 : x ∈ l1 ++ l2 → x ∈ l1 ++ y :: l2.
Proof. rewrite !elem_of_app, elem_of_cons. tauto. Qed.

(** A step that changes the entries and the writers: every entry is one that
    was there, or is as fresh as one of the writers makes it. *)
Lemma gen_inv_writers s e ws :
  gen_inv s →
  (∀ k res, e !! k = Some res → s_entries s !! k = Some res ∨
     ∃ w t, w ∈ s_writers s ∧ k ∈ w_keys w ∧ w_storedAt w = Some t ∧ r_storedAt res = t ∧ r_RequestTime res = r_RequestTime (w_res w)) →
  (∀ w, w ∈ ws → ∃ w', w' ∈ s_writers s ∧ w_res w = w_res w' ∧ w_keys w = w_keys w' ∧
     (w_storedAt w = w_storedAt w' ∨ w_storedAt w = None ∨ w_storedAt w = Some (s_now s))) →
  gen_inv (with_writers e ws s).
Proof.
  intros [] He Hw. split; simpl; try done.
  - intros k res [Hk|(w & t & Hin & _ & Ht & Hst & Hreq)]%He; [by apply (g_entries0 k)|].
    destruct (g_writers0 w Hin) as (H1 & H2 & _). specialize (H2 t Ht). rewrite Hst, Hreq. lia.
  - intros k res m t [Hk|(w & t' & Hin & Hkey & Ht & Hst & ->)]%He Hm Hd Hlt; [by eapply g_fresh0|].
    destruct (g_writers0 w Hin) as (_ & _ & H3). by apply (H3 k t).
  - intros w (w' & Hin & -> & -> & Hst)%Hw. destruct (g_writers0 w' Hin) as (H1 & H2 & H3). split; [done|]. split; [|done].
    intros t Ht. destruct Hst as [Hst|[Hst|Hst]]; rewrite Hst in Ht; [by apply H2|done|]. injection Ht as <-. lia.
Qed.

Lemma gen_inv_markers s c pending :
  gen_inv s →
  (∀ k, StaleAt k c = StaleAt k (s_cache s) ∨ ∃ m, StaleAt k c = Some m ∧ s_now s ≤ m) →
  (∀ iv, iv ∈ pending → iv_keys iv ≠ [] ∧ ∀ k, k ∈ iv_barred iv → StaleAt k c = Some invalidationBarrierTime) →
  gen_inv (with_cache c pending (s_done s) s).
Proof.
  intros [] Hm Hp. split; simpl; try done; [by intros iv [? _]%Hp|by intros iv k [_ H]%Hp; apply H| |].
  - intros k res m t Hk Hs Hd Hlt. destruct (Hm k) as [E|(m' & E & Hnow)]; rewrite E in Hs; [by eapply g_fresh0|].
    injection Hs as ->. destruct (g_entries0 k res Hk). lia.
  - intros k t Hd. destruct (g_done0 k t Hd) as (H1 & m & Hs & Hle). split; [done|].
    destruct (Hm k) as [->|(m' & -> & Hge)]; [by eauto|]. exists m'. split; [done|lia].
Qed.

Lemma gen_inv_final s iv p1 p2 :
  gen_inv s → s_pending s = p1 ++ iv :: p2 → s_writers s = [] →
  gen_inv (with_cache (Invalidate_final (iv_keys iv) (s_now s) (s_cache s)) (lift_barriers (iv_keys iv) <$> p1 ++ p2)
    (((λ k, (k, s_now s)) <$> iv_keys iv) ++ s_done s) s).
Proof.
  intros [] Hp Hnw. destruct g_now0.
  assert (iv_keys iv ≠ []) as Hne by (apply g_nonempty0; rewrite Hp; apply elem_of_app; right; by apply elem_of_cons; left).
  split; cbn [with_cache s_cache s_now s_entries s_writers s_pending s_done]; try done.
  - intros iv' (iv0 & -> & Hin)%list_elem_of_fmap. cbn [lift_barriers iv_keys]. apply g_nonempty0. rewrite Hp. by apply middle_elem.
  - intros iv' k (iv0 & -> & Hin)%list_elem_of_fmap [Hk Hb]%list_elem_of_filter. rewrite StaleAt_final, decide_False by done.
    apply (g_pending0 iv0); [|done]. rewrite Hp. by apply middle_elem.
  - intros k res m t Hk Hs Hd Hlt. destruct (g_entries0 k res Hk) as [_ Hst]. rewrite StaleAt_final in Hs by done. case_decide as Hin.
    + injection Hs as <-. lia.
    + apply elem_of_app in Hd as [(k' & [= -> ->] & ?)%list_elem_of_fmap|Hd]; [done|by eapply g_fresh0].
  - rewrite Hnw. by intros w ?%elem_of_nil.
  - intros k t [Hin|Hin]%elem_of_app.
    + apply list_elem_of_fmap in Hin as (k' & [= -> ->] & Hk'). split; [lia|].
      rewrite StaleAt_final, decide_True by done. eexists; split; [done|]. lia.
    + destruct (g_done0 k t Hin) as (H1 & m & H2 & H3). split; [done|].
      rewrite StaleAt_final by done. case_decide; [|by eauto]. eexists; split; [done|]. lia.
Qed.

Lemma gen_inv_begin s res keys refreshes :
  gen_inv s → 0 < r_RequestTime res → responseSuperseded res keys (s_cache s) = false →
  gen_inv (with_writers (s_entries s) ({| w_res := res; w_keys := keys; w_storedAt := None; w_refreshes := refreshes |} :: s_writers s) s).
Proof.
  intros [] Hr Hsup. split; simpl; try done. intros w [->|Hw]%elem_of_cons; [|by apply g_writers0]. simpl. split; [done|]. split; [done|].
  intros k t Hk Hd. destruct (g_done0 k t Hd) as (_ & m & Hm & Hle).
  pose proof (proj1 (responseSuperseded_false res keys (s_cache s)) Hsup k m Hk Hm) as Hra.
  rewrite ReceivedAfter_request in Hra by lia. apply Z.ltb_lt in Hra. lia.
Qed.

(** The writers that stay are those before. *)
Lemma writers_stay (l1 l2 ws : list writer) (now : Time) w f :
  ws = l1 ++ w :: l2 → w_res (f w) = w_res w → w_keys (f w) = w_keys w → w_storedAt (f w) = None ∨ w_storedAt (f w) = Some now →
  ∀ x, x ∈ l1 ++ f w :: l2 ∨ x ∈ l1 ++ l2 → ∃ w', w' ∈ ws ∧ w_res x = w_res w' ∧ w_keys x = w_keys w' ∧
    (w_storedAt x = w_storedAt w' ∨ w_storedAt x = None ∨ w_storedAt x = Some now).
Proof.
  intros -> Hr Hk Hst x. assert (x ∈ l1 ∨ x ∈ l2 → ∃ w', w' ∈ l1 ++ w :: l2 ∧ w_res x = w_res w' ∧ w_keys x = w_keys w' ∧
    (w_storedAt x = w_storedAt w' ∨ w_storedAt x = None ∨ w_storedAt x = Some now)) as Hold.
  { intros Hx. exists x. rewrite elem_of_app, elem_of_cons. naive_solver. }
  rewrite !elem_of_app, elem_of_cons. intros [[?|[->|?]]|[?|?]]; try (apply Hold; tauto).
  exists w. rewrite elem_of_app, elem_of_cons. naive_solver.
Qed.

Lemma gen_inv_step s s' : gen_inv s → sys_step s s' → gen_inv s'.
Proof.
  intros Hs Hstep. pose proof (g_now _ Hs) as Hnow. destruct Hstep as [s t Ht|s res keys b Hr Hsup|s w ws1 ws2 Hw Hst|s w ws1 ws2 t Hw Hst _
    |s w ws1 ws2 t k old Hw Hst _ Hk Hold|s w ws1 ws2 Hw|s k|s w k Hw Hk|s keys Hne|s iv p1 p2 Hp Hnw].
  - destruct Hs. split; simpl; try done; [lia| | |].
    + intros k res Hk. destruct (g_entries0 k res Hk). lia.
    + intros w Hw. destruct (g_writers0 w Hw) as (H1 & H2 & H3). split; [lia|]. split; [|done]. intros t' Ht'. specialize (H2 t' Ht'). lia.
    + intros k t' Hk. destruct (g_done0 k t' Hk) as [? ?]. split; [lia|done].
  - apply gen_inv_begin; [done|lia|done].
  - apply gen_inv_writers; [done|by left|]. intros x Hx. apply (writers_stay ws1 ws2 _ (s_now s) w (writing (Some (s_now s))) Hw); [done|done|by right|by left].
  - apply gen_inv_writers; [done| |].
    + intros k res. rewrite publish_all_lookup. case_decide; [intros [= <-]|by left]. right. exists w, t. rewrite Hw. split; [|done].
      apply elem_of_app. right. by left.
    + intros x Hx. apply (writers_stay ws1 ws2 _ (s_now s) w (writing None) Hw); [done|done|by left|by right].
  - apply gen_inv_writers; [done| |].
    + intros k' res. destruct (decide (k = k')) as [<-|Hne]; [|rewrite lookup_insert_ne by done; by left]. rewrite lookup_insert_eq. intros [= <-].
      right. exists w, t. rewrite Hw. split; [|done]. apply elem_of_app. right. by left.
    + intros x Hx. apply (writers_stay ws1 ws2 _ (s_now s) w (writing None) Hw); [done|done|by left|by left].
  - apply gen_inv_writers; [done|by left|]. intros x Hx. apply (writers_stay ws1 ws2 _ (s_now s) w (writing None) Hw); [done|done|by left|by right].
  - apply gen_inv_writers; [done| |by intros x Hx; exists x; auto]. intros k' res Hk. left. by apply lookup_delete_Some in Hk as [_ ?].
  - apply gen_inv_markers; [done| |].
    + intros k'. rewrite StaleAt_residual by lia. case_decide; [subst k'|by left]. right. eexists. split; [done|]. lia.
    + intros iv Hiv. split; [by apply (g_nonempty _ Hs)|]. intros k' Hk'. pose proof (g_pending _ Hs iv k' Hiv Hk') as Hb.
      rewrite StaleAt_residual by lia. case_decide; [subst k'|done]. rewrite Hb. cbn. unfold id. f_equal. lia.
  - apply gen_inv_markers; [done| |].
    + intros k. rewrite StaleAt_barrier by done. case_decide; [|by left]. right. eexists. split; [done|]. lia.
    + intros iv [->|Hiv]%elem_of_cons; cbn [iv_keys iv_barred]; [split; [done|]; intros k Hk; by rewrite StaleAt_barrier, decide_True|].
      split; [by apply (g_nonempty _ Hs)|]. intros k Hk. rewrite StaleAt_barrier by done. case_decide; [done|]. by apply (g_pending _ Hs iv).
  - by apply gen_inv_final.
Qed.

Definition sys_init (c : cache) (now : Time) : sys :=
  {| s_cache := c; s_now := now; s_entries := ∅; s_writers := []; s_pending := []; s_done := [] |}.

Lemma gen_inv_init c now : 0 < now < invalidationBarrierTime → gen_inv (sys_init c now).
Proof. intros Hn. split; simpl; try done; by intros ? ?%elem_of_nil || (by intros ? ? ?%elem_of_nil). Qed.

(** C5: no interleaving of stores, refreshes, lookups and invalidations, which
    may overlap in any way, serves a superseded response.  After an invalidation
    of [key] finished at [t], an entry found under [key] and not marked stale
    was fetched, or last confirmed by a validation, by a request that was sent
    after [t].  And while an invalidation of [key] is under way, everything
    found under [key] is marked stale, at least until another invalidation of
    [key] finishes. *)
Theorem no_superseded_response c now s key res :
  0 < now < invalidationBarrierTime → rtc sys_step (sys_init c now) s →
  s_entries s !! key = Some res → r_stale (mark_retrieved key res (s_cache s)) = false →
  (∀ t, (key, t) ∈ s_done s → t < r_RequestTime res) ∧ (∀ iv, iv ∈ s_pending s → key ∉ iv_barred iv).
Proof.
  intros Hnow Hsteps Hk Hfresh.
  assert (gen_inv s) as [].
  { pose proof (gen_inv_init c now Hnow) as Hi. induction Hsteps as [s|s1 s2 s3 Hstep _ IH]; [done|].
    apply IH; [done|done|]. by eapply gen_inv_step. }
  destruct (g_entries0 key res Hk) as [Hreq Hst].
  assert (∀ m, StaleAt key (s_cache s) = Some m → m < r_storedAt res) as Hm.
  { intros m Hm. unfold mark_retrieved in Hfresh. rewrite Hm, StoredAfter_stored in Hfresh by lia.
    apply Z.ltb_lt. by destruct (m <? r_storedAt res). }
  split.
  - intros t Hdone. destruct (g_done0 key t Hdone) as (_ & m & Hs & Hle).
    by apply (g_fresh0 key res m t Hk Hs Hdone), Hm.
  - intros iv Hp Hin. pose proof (Hm _ (g_pending0 iv key Hp Hin)). lia.
Qed.
End System.

(** ** Witness *)

#[local] Existing Instance mem_fs.
#[local] Existing Instance mem_os.
#[local] Existing Instance stamp_date.

Definition response (requested : Time) : Resource := set_requestTime requested (NewResourceBytes 200 "body" ∅).

(** A codec that refuses every map: the markers stay in memory. *)
Definition memory_only : MarkerJSON :=
  {| encode_snapshot _ _ := None; decode_snapshot _ := None; encode_map _ := None; decode_map _ := None |}.
Definition fresh_cache : cache := @new_cache mem_fs mem_empty DefaultCacheConfig EmptyString.

Definition running_one (op : option Time) (requested : Time) : writer :=
  {| w_res := response requested; w_keys := [key_a]; w_storedAt := op; w_refreshes := false |}.
Definition running (op : option Time) (requested : Time) : list writer := [running_one op requested].
Definition state (c : cache) (now : Time) (entries : gmap string Resource) (writers : list writer)
    (pending : list invalidation) (finished : list (string * Time)) : sys :=
  {| s_cache := c; s_now := now; s_entries := entries; s_writers := writers; s_pending := pending;
     s_done := finished |}.
Definition first_entries : gmap string Resource := publish_all [key_a] (SetStoredAt 10 (response 5)) ∅.
Definition last_entries : gmap string Resource := publish_all [key_a] (SetStoredAt 30 (response 25)) first_entries.
Definition barrier_cache : cache := Invalidate_barrier (J := memory_only) [key_a] fresh_cache.
Definition final_cache : cache := Invalidate_final (J := memory_only) [key_a] 20 barrier_cache.

Definition of_a : invalidation := {| iv_keys := [key_a]; iv_barred := [key_a] |}.

(** A store that started before an invalidation and published during it, the
    invalidation, and a store of a later response. *)
Lemma no_superseded_response_witness :
  ∃ s res, rtc (sys_step (J := memory_only)) (sys_init fresh_cache 10) s ∧ s_entries s !! key_a = Some res ∧
    (key_a, 20) ∈ s_done s ∧ 20 < r_RequestTime res.
Proof.
  pose (last := state final_cache 30 last_entries [] [] [(key_a, 20)]).
  assert (rtc (sys_step (J := memory_only)) (sys_init fresh_cache 10) last) as Hs.
  { apply (rtc_l _ _ (state fresh_cache 10 ∅ (running None 5) [] []));
      [apply (sys_begin (sys_init fresh_cache 10)); [split; done|by vm_compute]|].
    apply (rtc_l _ _ (state fresh_cache 10 ∅ (running (Some 10) 5) [] []));
      [by apply (sys_stamp (state fresh_cache 10 ∅ (running None 5) [] []) (running_one None 5) [] [])|].
    apply (rtc_l _ _ (state barrier_cache 10 ∅ (running (Some 10) 5) [of_a] []));
      [apply (sys_barrier (state fresh_cache 10 ∅ (running (Some 10) 5) [] []) [key_a]); done|].
    apply (rtc_l _ _ (state barrier_cache 10 first_entries [] [of_a] []));
      [by apply (sys_store_publish (state barrier_cache 10 ∅ (running (Some 10) 5) [of_a] []) (running_one (Some 10) 5) [] [] 10)|].
    apply (rtc_l _ _ (state barrier_cache 20 first_entries [] [of_a] []));
      [apply (sys_tick (state barrier_cache 10 first_entries [] [of_a] []) 20); split; done|].
    apply (rtc_l _ _ (state final_cache 20 first_entries [] [] [(key_a, 20)]));
      [by apply (sys_final (state barrier_cache 20 first_entries [] [of_a] []) of_a [] [])|].
    apply (rtc_l _ _ (state final_cache 30 first_entries [] [] [(key_a, 20)]));
      [apply (sys_tick (state final_cache 20 first_entries [] [] [(key_a, 20)]) 30); split; done|].
    apply (rtc_l _ _ (state final_cache 30 first_entries (running None 25) [] [(key_a, 20)]));
      [apply (sys_begin (state final_cache 30 first_entries [] [] [(key_a, 20)])); [split; done|by vm_compute]|].
    apply (rtc_l _ _ (state final_cache 30 first_entries (running (Some 30) 25) [] [(key_a, 20)]));
      [by apply (sys_stamp (state final_cache 30 first_entries (running None 25) [] [(key_a, 20)]) (running_one None 25) [] [])|].
    apply rtc_once.
    by apply (sys_store_publish (state final_cache 30 first_entries (running (Some 30) 25) [] [(key_a, 20)]) (running_one (Some 30) 25) [] [] 30). }
  assert (s_entries last !! key_a = Some (SetStoredAt 30 (response 25))) as He by (vm_compute; reflexivity).
  assert (r_stale (mark_retrieved key_a (SetStoredAt 30 (response 25)) (s_cache last)) = false) as Hf by (vm_compute; reflexivity).
  assert ((key_a, 20) ∈ s_done last) as Hd by (apply elem_of_cons; by left).
  exists last, (SetStoredAt 30 (response 25)). split_and!; [done|done|done|].
  exact (proj1 (no_superseded_response (J := memory_only) fresh_cache 10 last key_a _ (conj eq_refl eq_refl) Hs He Hf) 20 Hd).
Defined.

#[local] Existing Instance binary_json.

(** Two overlapping invalidations of one key.  The first to finish
    replaces the barrier the second has published by its own instant, while
    the second still waits for the active writers: a response requested
    after the first and before the second is then stored and served as
    fresh, and a restart restores the first instant only. *)
Example barrier_erased :
  let c := Invalidate_final [key_a] 20 (Invalidate_barrier [key_a] (Invalidate_barrier [key_a] cache_journal)) in
  StaleAt key_a c = Some 20 ∧
  responseSuperseded (response 25) [key_a] c = false ∧
  r_stale (mark_retrieved key_a (SetStoredAt 30 (response 25)) c) = false ∧
  StaleAt key_a (loadStale 90 (new_cache (c_fs c) DefaultCacheConfig EmptyString)) = Some 20.
Proof. vm_compute. by split_and!. Qed.
