(* ===== verification/Policy.v ===== *)
(** * Handler decisions ([handler.go])

    Which requests are looked up, which responses are stored, when a stored
    response may be reused without asking the origin, and how a Vary variant
    is judged against the invalidation markers.  Each call of [Clock] is an
    instant of its own: [n1], [n2] and [n3] are the readings of [MaxAge],
    [Age] and [heuristicFreshness], in this order. *)

From S2P Require Import Prelude GoStrings GoTime GoQuote GoHttp GoUrl CacheControl Keys Resource.
Import Headers.

(** The fields of [Handler] the decisions read. *)
Record Handler := { Shared : bool; hasStagingBudget : bool }.

(** [type cacheRequest struct] *)
Record cacheRequest := {
  cr_Request : Request;
  cr_Key : Key;
  cr_Time : Time;
  cr_CacheControl : CacheControl;
  cr_discoveryKey : string;
  cr_servedKey : string;
}.

(** [newCacheRequest]: [None] is the error. *)
Definition newCacheRequest (now : Time) (r : Request) : option cacheRequest :=
  match ParseCacheControlHeaders (req_Header r) with
  | None => None
  | Some cc =>
      if (req_Proto r =?s "HTTP/1.1") && (req_Host r =?s EmptyString) then None
      else Some {| cr_Request := r; cr_Key := NewRequestKey r; cr_Time := now; cr_CacheControl := cc;
                   cr_discoveryKey := EmptyString; cr_servedKey := EmptyString |}
  end.

Definition storeable (status : Z) : bool :=
  match status with 200 | 302 | 203 | 300 | 301 | 410 | 404 => true | _ => false end.
Definition cacheableByDefault (status : Z) : bool :=
  match status with 200 | 302 | 304 | 203 | 300 | 301 | 410 | 206 => true | _ => false end.

(** [cacheRequest.isStateChanging] *)
Definition isStateChanging (r : cacheRequest) : bool :=
  let m := req_Method (cr_Request r) in
  negb ((m =?s "GET") || (m =?s "HEAD") || (m =?s "OPTIONS") || (m =?s "TRACE")).

(** [cacheRequest.isCacheable] *)
Definition request_isCacheable (r : cacheRequest) : bool :=
  let h := req_Header (cr_Request r) in
  let m := req_Method (cr_Request r) in
  if (m <>?s "GET") && (m <>?s "HEAD") then false
  else if (Get h "If-Match" <>?s EmptyString) || (Get h "If-Unmodified-Since" <>?s EmptyString)
          || (Get h "If-Range" <>?s EmptyString) then false
  else if match cc_Get (cr_CacheControl r) "max-age" with
          | (maxAge, true) => maxAge =?s "0"
          | (_, false) => false
          end then false
  else if cc_Has (cr_CacheControl r) "no-store" || cc_Has (cr_CacheControl r) "no-cache" then false
  else true.

(** [cacheRequest.validationKeys] *)
Definition validationKeys `{Unicode} (r : cacheRequest) : list string :=
  let key := Key_String (cr_Key r) in
  let keys := [key] in
  let keys := if nonempty (cr_discoveryKey r) && (cr_discoveryKey r <>?s key)
              then keys ++ [cr_discoveryKey r] else keys in
  if nonempty (cr_servedKey r) && negb (bool_decide (cr_servedKey r ∈ keys))
  then keys ++ [cr_servedKey r] else keys.

(** [http.Request.ProtoAtLeast] *)
Definition ProtoAtLeast (r : Request) (major minor : Z) : bool :=
  (major <? req_ProtoMajor r) || ((req_ProtoMajor r =? major) && (minor <=? req_ProtoMinor r)).

Definition canConveyStaging (r : Request) (status : Z) : bool :=
  ProtoAtLeast r 1 1 && (req_Method r <>?s "HEAD") && (200 <=? status)
  && negb (status =? 204) && negb (status =? 205) && negb (status =? 304).

Section Decisions.
Context `{HttpDate}.

(** [Handler.allowsAuthenticatedStorage] *)
Definition allowsAuthenticatedStorage (h : Handler) (res : Resource) (r : cacheRequest) (cc : CacheControl) : bool :=
  if negb (Shared h) then true
  else if (Get (req_Header (cr_Request r)) "Authorization" <>?s EmptyString)
          && negb (cc_Has cc "public") && negb (cc_Has cc "s-maxage") then false
  else (Get (r_header res) "Authorization" =?s EmptyString)
       || cc_Has cc "must-revalidate" || cc_Has cc "s-maxage".

(** [Handler.allowsResponseStorage] *)
Definition allowsResponseStorage (h : Handler) (res : Resource) (r : cacheRequest) (cc : CacheControl) : bool :=
  if cc_Has cc "no-cache" || cc_Has cc "no-store" then false
  else if varyWildcard (combinedHeaderValues (r_header res) "Vary") then false
  else if cc_Has cc "private" && bool_decide (cc_index cc "private" = []) && Shared h then false
  else if negb (storeable (r_statusCode res)) then false
  else allowsAuthenticatedStorage h res r cc.

(** [Handler.isCacheable] *)
Definition isCacheable (n1 n3 : Time) (h : Handler) (res : Resource) (r : cacheRequest) : bool :=
  match cacheControl res with
  | None => false
  | Some cc =>
      if negb (allowsResponseStorage h res r cc) then false
      else if hasExplicitExpiration res (Shared h) then
        match MaxAge n1 res (Shared h) with
        | None => false
        | Some maxAge => (0 <? maxAge) || HasValidators res
        end
      else if negb (cacheableByDefault (r_statusCode res)) && negb (cc_Has cc "public") then false
      else HasValidators res || (0 <? heuristicFreshness n3 res (Shared h))
  end.

(** [Handler.canStageResponse] *)
Definition canStageResponse (n1 n3 : Time) (h : Handler) (res : Resource) (r : cacheRequest) : bool :=
  (negb (hasStagingBudget h) || canConveyStaging (cr_Request r) (r_statusCode res)) && isCacheable n1 n3 h res r.

(** [Handler.freshness]: [None] is the error. *)
Definition freshness (n1 n2 n3 : Time) (h : Handler) (res : Resource) (r : cacheRequest) : option Duration :=
  match MaxAge n1 res (Shared h) with
  | None => None
  | Some maxAge =>
      match (if cc_Has (cr_CacheControl r) "max-age" then
               match cc_Duration (cr_CacheControl r) "max-age" with
               | None => None
               | Some reqMaxAge => Some (if reqMaxAge <? maxAge then reqMaxAge else maxAge)
               end
             else Some maxAge) with
      | None => None
      | Some maxAge =>
          match Age n2 res with
          | None => None
          | Some age =>
              if r_stale res then Some 0
              else
                let hFresh := heuristicFreshness n3 res (Shared h) in
                let maxAge := if maxAge <? hFresh then hFresh else maxAge in
                Some (dur_sub maxAge age)
          end
      end
  end.

(** [Handler.needsValidation] *)
Definition needsValidation (n1 n2 n3 : Time) (h : Handler) (res : Resource) (r : cacheRequest) : bool :=
  if r_stale res then true
  else match freshness n1 n2 n3 h res r with
  | None => true
  | Some fresh =>
      if (fresh <=? 0) && MustValidate res (Shared h) then true
      else
        let minFresh :=
          if cc_Has (cr_CacheControl r) "min-fresh" then
            match cc_Duration (cr_CacheControl r) "min-fresh" with
            | None => true
            | Some reqMinFresh => fresh <? reqMinFresh
            end
          else false in
        if minFresh then true
        else if (fresh <=? 0) && cc_Has (cr_CacheControl r) "max-stale" then
          match cc_index (cr_CacheControl r) "max-stale" with
          | [] => false
          | _ =>
              let maxStale := default 0 (cc_Duration (cr_CacheControl r) "max-stale") in
              if dur_mul fresh (-1) <=? maxStale then false else fresh <=? 0
          end
        else fresh <=? 0
  end.

(** [correctedAge] *)
Definition correctedAge (now : Time) (h : Header) (reqTime respTime : Time) : option Duration :=
  match timeHeader "Date" h with
  | None => None
  | Some date =>
      let apparentAge := Sub respTime date in
      let apparentAge := if apparentAge <? 0 then 0 else apparentAge in
      let respDelay := Sub respTime reqTime in
      match intHeader "Age" h with
      | None => None
      | Some ageSeconds =>
          let age := dur_mul second ageSeconds in
          let corrected := dur_add age respDelay in
          let corrected := if corrected <? apparentAge then apparentAge else corrected in
          let residentTime := Sub now respTime in
          Some (dur_add corrected residentTime)
      end
  end.

(** [Handler.resourceFreshAfter]: [checker] tells whether the cache is a
    [staleAtChecker], which orders generations itself. *)
Definition resourceFreshAfter (checker : bool) (res : Resource) (staleAt : Time) : bool :=
  if checker then StoredAfter res staleAt else After (r_handlerStoredAt res) staleAt.

(** [Handler.markInvalidatedResource]: [resourceMark] and [baseMark] are the
    answers of [h.staleAt]; the first one is asked only when the keys
    differ. *)
Definition markInvalidatedResource (checker : bool) (resourceMark baseMark : option Time) (res : Resource)
    (resourceKey baseKey : string) (baseStale : bool) : Resource :=
  let res :=
    if resourceKey <>?s baseKey then
      match resourceMark with
      | Some t => if negb (resourceFreshAfter checker res t) then MarkStale res else res
      | None => res
      end
    else res in
  match baseMark with
  | Some t => if negb (resourceFreshAfter checker res t) then MarkStale res else res
  | None => if baseStale then MarkStale res else res
  end.
End Decisions.

(** ** Lemmas *)

Section Facts.
Context `{HttpDate}.

Lemma freshness_None_iff n1 n2 n3 h res r :
  freshness n1 n2 n3 h res r = None ↔
  MaxAge n1 res (Shared h) = None ∨
  (cc_Has (cr_CacheControl r) "max-age" = true ∧ cc_Duration (cr_CacheControl r) "max-age" = None) ∨
  Age n2 res = None.
Proof.
  unfold freshness. destruct (MaxAge n1 res (Shared h)) as [m|]; [|by split; auto].
  destruct (cc_Has (cr_CacheControl r) "max-age").
  - destruct (cc_Duration (cr_CacheControl r) "max-age") as [q|]; [|split; auto].
    destruct (Age n2 res); [|by split; auto]. destruct (r_stale res); split; (done || naive_solver).
  - destruct (Age n2 res); [|by split; auto]. destruct (r_stale res); split; (done || naive_solver).
Qed.

(** The lifetime [freshness] measures the age against. *)
Definition lifetime (n3 : Time) (h : Handler) (res : Resource) (r : cacheRequest) (maxAge : Duration) : Duration :=
  Z.max (if cc_Has (cr_CacheControl r) "max-age" then
           match cc_Duration (cr_CacheControl r) "max-age" with
           | Some q => Z.min q maxAge
           | None => maxAge
           end
         else maxAge)
    (heuristicFreshness n3 res (Shared h)).

Lemma freshness_lifetime n1 n2 n3 h res r f :
  freshness n1 n2 n3 h res r = Some f → r_stale res = false →
  ∃ maxAge age, MaxAge n1 res (Shared h) = Some maxAge ∧ Age n2 res = Some age ∧
    f = dur_sub (lifetime n3 h res r maxAge) age.
Proof.
  unfold freshness, lifetime. destruct (MaxAge n1 res (Shared h)) as [m|]; [|done].
  destruct (cc_Has (cr_CacheControl r) "max-age").
  - destruct (cc_Duration (cr_CacheControl r) "max-age") as [q|]; [|done].
    destruct (Age n2 res) as [a|]; [|done]. intros Hf Hs. rewrite Hs in Hf. injection Hf as <-.
    exists m, a. split_and!; [done|done|]. f_equal.
    destruct (q <? m) eqn:E1, (_ <? heuristicFreshness n3 res (Shared h)) eqn:E2; unbool; lia.
  - destruct (Age n2 res) as [a|]; [|done]. intros Hf Hs. rewrite Hs in Hf. injection Hf as <-.
    exists m, a. split_and!; [done|done|]. f_equal.
    destruct (m <? heuristicFreshness n3 res (Shared h)) eqn:E2; unbool; lia.
Qed.

Lemma heuristic_explicit n res shared : hasExplicitExpiration res shared = true → heuristicFreshness n res shared = 0.
Proof. intros He. unfold heuristicFreshness. by rewrite He. Qed.

(** What a client accepts beyond the lifetime: [max-stale]. *)
Definition accepts_stale (r : cacheRequest) (fresh : Duration) : Prop :=
  cc_Has (cr_CacheControl r) "max-stale" = true ∧
  (cc_index (cr_CacheControl r) "max-stale" = [] ∨
   dur_mul fresh (-1) ≤ default 0 (cc_Duration (cr_CacheControl r) "max-stale")).

Definition satisfies_min_fresh (r : cacheRequest) (fresh : Duration) : Prop :=
  cc_Has (cr_CacheControl r) "min-fresh" = true →
  ∃ m, cc_Duration (cr_CacheControl r) "min-fresh" = Some m ∧ m ≤ fresh.

Lemma min_fresh_check r f :
  (if cc_Has (cr_CacheControl r) "min-fresh" then
     match cc_Duration (cr_CacheControl r) "min-fresh" with None => true | Some m => f <? m end
   else false) = false ↔ satisfies_min_fresh r f.
Proof.
  unfold satisfies_min_fresh. destruct (cc_Has (cr_CacheControl r) "min-fresh"); [|by split].
  destruct (cc_Duration (cr_CacheControl r) "min-fresh") as [m|]; split; try done.
  - intros Hf _. unbool. eauto.
  - intros Hm. destruct (Hm eq_refl) as (m' & [= <-] & Hle). by apply Z.ltb_ge.
  - intros Hm. by destruct (Hm eq_refl) as (m' & ? & _).
Qed.

Lemma max_stale_check r f :
  f ≤ 0 →
  (if (f <=? 0) && cc_Has (cr_CacheControl r) "max-stale" then
     match cc_index (cr_CacheControl r) "max-stale" with
     | [] => false
     | _ => let maxStale := default 0 (cc_Duration (cr_CacheControl r) "max-stale") in
            if dur_mul f (-1) <=? maxStale then false else f <=? 0
     end
   else f <=? 0) = false ↔ accepts_stale r f.
Proof.
  intros Hf. rewrite (proj2 (Z.leb_le f 0) Hf). simpl. unfold accepts_stale.
  destruct (cc_Has (cr_CacheControl r) "max-stale"); [|split; [done|by intros [? _]]].
  destruct (cc_index (cr_CacheControl r) "max-stale") as [|v vs]; [by split; auto|].
  destruct (dur_mul f (-1) <=? _) eqn:E; unbool; split; try done.
  - intros _. auto.
  - intros (_ & [?|Hle]); [done|lia].
Qed.

Lemma needsValidation_false_iff n1 n2 n3 h res r :
  needsValidation n1 n2 n3 h res r = false ↔
  r_stale res = false ∧ ∃ f, freshness n1 n2 n3 h res r = Some f ∧ satisfies_min_fresh r f ∧
    (0 < f ∨ f ≤ 0 ∧ MustValidate res (Shared h) = false ∧ accepts_stale r f).
Proof.
  unfold needsValidation. destruct (r_stale res); [split; [done|by intros [? _]]|].
  destruct (freshness n1 n2 n3 h res r) as [f|]; [|split; [done|by intros (_ & ? & ? & _)]].
  transitivity (satisfies_min_fresh r f ∧
    (0 < f ∨ f ≤ 0 ∧ MustValidate res (Shared h) = false ∧ accepts_stale r f)).
  2: { split; [intros [? ?]; split; [done|by exists f]|by intros (_ & f' & [= <-] & ? & ?)]. }
  destruct (decide (f ≤ 0)) as [Hf|Hf].
  - rewrite <- (max_stale_check r f Hf), <- min_fresh_check, (proj2 (Z.leb_le f 0) Hf). simpl.
    destruct (MustValidate res (Shared h)); [split; [done|]; intros [_ [?|(_ & ? & _)]]; [lia|done]|].
    cbv zeta. destruct (if cc_Has (cr_CacheControl r) "min-fresh" then _ else _).
    + split; [done|by intros [? _]].
    + split; [intros ?; split; [done|by right]|]. intros [_ [?|(_ & _ & ?)]]; [lia|done].
  - rewrite <- min_fresh_check, (proj2 (Z.leb_gt f 0)) by lia. simpl.
    destruct (if cc_Has (cr_CacheControl r) "min-fresh" then _ else _).
    + split; [done|by intros [? _]].
    + split; [|done]. intros _. split; [done|]. left. lia.
Qed.

(** ** Ageing *)

(** The instant [Age] counts from. *)
Definition age_base (res : Resource) : option Time :=
  match timeHeader ProxyDateHeader (r_header res) with
  | Some d => Some d
  | None => timeHeader "Date" (r_header res)
  end.

Definition age_header (res : Resource) : Duration :=
  match intHeader "Age" (r_header res) with Some a => dur_mul second a | None => 0 end.

Lemma Age_base now res :
  Age now res = (λ d, dur_add (Sub now d) (age_header res)) <$> age_base res.
Proof.
  unfold Age, age_base, age_header. destruct (timeHeader ProxyDateHeader (r_header res)); [done|].
  by destruct (timeHeader "Date" (r_header res)).
Qed.

Lemma MaxAge_clock now now' res shared d :
  age_base res = Some d → MaxAge now' res shared = MaxAge now res shared.
Proof.
  unfold age_base, MaxAge. intros Hd. destruct (cacheControl res) as [cc|]; [|done].
  destruct (cc_Has cc "s-maxage" && shared), (cc_Has cc "max-age"), (expiresValue res) as [v []]; try done.
  destruct (ParseTime v); [|done]. destruct (timeHeader "Date" (r_header res)); [done|].
  by destruct (timeHeader ProxyDateHeader (r_header res)).
Qed.

(** No sum of [freshness] at [now] leaves the 64 bits. *)
Definition no_overflow (now : Time) (h : Handler) (res : Resource) (r : cacheRequest) : Prop :=
  ∀ d m, age_base res = Some d → MaxAge now res (Shared h) = Some m →
    int64 (now - d) ∧ int64 (now - d + age_header res) ∧
    min_int64 < lifetime now h res r m - (now - d + age_header res) ≤ max_int64.

Lemma heuristic_slope now now' res shared :
  now ≤ now' → heuristicFreshness now' res shared ≤ heuristicFreshness now res shared + (now' - now).
Proof.
  intros Hle. unfold heuristicFreshness. case_goal; [|lia].
  unfold Sub, lastModDivisor, min_int64, max_int64. set (l := LastModified res).
  assert (∀ x y, x ≤ y → Z.quot y 10 ≤ Z.quot x 10 + (y - x)) as Hq.
  { intros x y Hxy. pose proof (Z.quot_rem' x 10) as Hx. pose proof (Z.quot_rem' y 10) as Hy.
    pose proof (Z.rem_bound_abs x 10 ltac:(lia)) as H1. pose proof (Z.rem_bound_abs y 10 ltac:(lia)) as H2.
    destruct (decide (x = y)) as [->|Hne]; [lia|].
    assert (10 * (Z.quot y 10 - Z.quot x 10) ≤ 10 * (y - x)); [|lia].
    destruct (decide (2 ≤ y - x)) as [?|?]; [lia|]. assert (y = x + 1) as -> by lia.
    pose proof (Z.quot_le_mono x (x + 1) 10 ltac:(lia) ltac:(lia)) as Hm. lia. }
  etrans; [apply (Hq (Z.max (- 2 ^ 63) (Z.min (2 ^ 63 - 1) (now - l)))); lia|]. lia.
Qed.

Lemma freshness_at now h res r d m :
  r_stale res = false → no_overflow now h res r → age_base res = Some d → MaxAge now res (Shared h) = Some m →
  (cc_Has (cr_CacheControl r) "max-age" = true → is_Some (cc_Duration (cr_CacheControl r) "max-age")) →
  freshness now now now h res r = Some (lifetime now h res r m - (now - d + age_header res)).
Proof.
  intros Hs Hno Hd Hm Hreq. destruct (Hno d m Hd Hm) as (H1 & H2 & H3).
  destruct (freshness now now now h res r) as [f|] eqn:Hf.
  - destruct (freshness_lifetime _ _ _ _ _ _ _ Hf Hs) as (m' & a & Hm' & Ha & ->).
    assert (m' = m) as -> by congruence. rewrite Age_base, Hd in Ha. injection Ha as <-.
    rewrite (Sub_exact _ _ H1). unfold dur_add, dur_sub. rewrite (wrap64_id _ H2), wrap64_id; [done|].
    unfold int64 in *. lia.
  - apply freshness_None_iff in Hf as [Hf|[[Hq1 Hq2]|Hf]].
    + congruence.
    + apply Hreq in Hq1 as [q Hq]. congruence.
    + rewrite Age_base, Hd in Hf. done.
Qed.

Lemma freshness_antitone now now' h res r f' :
  now ≤ now' → r_stale res = false → no_overflow now h res r → no_overflow now' h res r →
  freshness now' now' now' h res r = Some f' →
  ∃ f, freshness now now now h res r = Some f ∧ f' ≤ f ∧ min_int64 < f' ∧ f ≤ max_int64.
Proof.
  intros Hle Hs Hno Hno' Hf'.
  destruct (freshness_lifetime _ _ _ _ _ _ _ Hf' Hs) as (m & a & Hm & Ha & _).
  rewrite Age_base in Ha. destruct (age_base res) as [d|] eqn:Hd; [|done].
  assert (cc_Has (cr_CacheControl r) "max-age" = true → is_Some (cc_Duration (cr_CacheControl r) "max-age")) as Hreq.
  { intros Hh. destruct (cc_Duration (cr_CacheControl r) "max-age") eqn:E; [done|].
    assert (freshness now' now' now' h res r = None) as Hn by (apply freshness_None_iff; auto). congruence. }
  rewrite (freshness_at now' h res r d m Hs Hno' Hd Hm Hreq) in Hf'. injection Hf' as <-.
  rewrite (MaxAge_clock now now' res (Shared h) d Hd) in Hm.
  exists (lifetime now h res r m - (now - d + age_header res)).
  split; [by apply freshness_at|].
  destruct (Hno d m Hd Hm) as (_ & _ & H1).
  rewrite <- (MaxAge_clock now now' res (Shared h) d Hd) in Hm. destruct (Hno' d m Hd Hm) as (_ & _ & H2).
  split; [|split; lia]. unfold lifetime. pose proof (heuristic_slope now now' res (Shared h) Hle). lia.
Qed.
End Facts.

(** ** Theorems *)

Section Theorems.
Context `{HttpDate}.

(** C24: a stored response is reused without asking the origin exactly when it
    was not invalidated, its freshness is known and covers the request's
    [min-fresh], and either it is still fresh, or the request accepts it with
    [max-stale] and the response does not demand revalidation once stale. *)
Theorem reuse_without_validation_iff n1 n2 n3 h res r :
  needsValidation n1 n2 n3 h res r = false ↔
  r_stale res = false ∧ ∃ f, freshness n1 n2 n3 h res r = Some f ∧ satisfies_min_fresh r f ∧
    (0 < f ∨ f ≤ 0 ∧ MustValidate res (Shared h) = false ∧ accepts_stale r f).
Proof. apply needsValidation_false_iff. Qed.

(** A stored response never becomes reusable by waiting: once a request
    would have to revalidate it, the same request at any later instant has
    to, whatever the directives (the freshness only decreases, heuristic
    freshness included). *)
Theorem validation_is_monotone now now' h res r :
  now ≤ now' → no_overflow now h res r → no_overflow now' h res r →
  needsValidation now now now h res r = true → needsValidation now' now' now' h res r = true.
Proof.
  intros Hle Hno Hno' Hn. destruct (needsValidation now' now' now' h res r) eqn:E; [done|].
  rewrite <- Hn. apply needsValidation_false_iff in E as (Hs & f' & Hf' & Hmin & Hcase).
  destruct (freshness_antitone now now' h res r f' Hle Hs Hno Hno' Hf') as (f & Hf & Hff & Hb1 & Hb2).
  symmetry. apply needsValidation_false_iff. split; [done|]. exists f. split_and!; [done| |].
  - intros Hh. destruct (Hmin Hh) as (m & Hm & ?). exists m. split; [done|lia].
  - destruct (decide (0 < f)) as [?|Hf0]; [by left|right].
    destruct Hcase as [?|(Hf'0 & Hmv & Hh & Hacc)]; [lia|]. split_and!; [lia|done|split; [done|]].
    destruct Hacc as [?|Hacc]; [by left|right]. unfold dur_mul in *.
    assert (int64 (f * -1) ∧ int64 (f' * -1)) as [Hi Hi'] by (unfold int64, min_int64, max_int64 in *; lia).
    rewrite (wrap64_id _ Hi') in Hacc. rewrite (wrap64_id _ Hi). lia.
Qed.

(** What a handler stores.  A response is stored exactly when nothing
    forbids its storage (no-store, no-cache, [Vary: *], an unqualified
    private in a shared cache, a status outside the storable ones, an
    authenticated exchange in a shared cache) and it will be usable: a
    positive lifetime or validators for an explicit expiration, otherwise a
    status cacheable by default or public, with validators or heuristic
    freshness. *)
Theorem isCacheable_iff n1 n3 h res r :
  isCacheable n1 n3 h res r = true ↔
  ∃ cc, cacheControl res = Some cc ∧
    cc_Has cc "no-store" = false ∧ cc_Has cc "no-cache" = false ∧
    varyWildcard (combinedHeaderValues (r_header res) "Vary") = false ∧
    (Shared h = true → cc_Has cc "private" = true → cc_index cc "private" ≠ []) ∧
    storeable (r_statusCode res) = true ∧
    (Shared h = true →
       (Get (req_Header (cr_Request r)) "Authorization" = EmptyString ∨ cc_Has cc "public" = true ∨ cc_Has cc "s-maxage" = true) ∧
       (Get (r_header res) "Authorization" = EmptyString ∨ cc_Has cc "must-revalidate" = true ∨ cc_Has cc "s-maxage" = true)) ∧
    if hasExplicitExpiration res (Shared h)
    then ∃ maxAge, MaxAge n1 res (Shared h) = Some maxAge ∧ (0 < maxAge ∨ HasValidators res = true)
    else (cacheableByDefault (r_statusCode res) = true ∨ cc_Has cc "public" = true) ∧
         (HasValidators res = true ∨ 0 < heuristicFreshness n3 res (Shared h)).
Proof.
  unfold isCacheable. destruct (cacheControl_total res) as [cc Hcc]. rewrite Hcc.
  assert (allowsAuthenticatedStorage h res r cc = true ↔ (Shared h = true →
    (Get (req_Header (cr_Request r)) "Authorization" = EmptyString ∨ cc_Has cc "public" = true ∨ cc_Has cc "s-maxage" = true) ∧
    (Get (r_header res) "Authorization" = EmptyString ∨ cc_Has cc "must-revalidate" = true ∨ cc_Has cc "s-maxage" = true))) as Hauth.
  { unfold allowsAuthenticatedStorage. rewrite <- !String.eqb_eq.
    destruct (Shared h), (Get _ _ =?s _), (Get (r_header res) _ =?s _), (cc_Has cc "public"),
      (cc_Has cc "s-maxage"), (cc_Has cc "must-revalidate"); simpl; naive_solver. }
  assert (allowsResponseStorage h res r cc = true ↔
    cc_Has cc "no-store" = false ∧ cc_Has cc "no-cache" = false ∧
    varyWildcard (combinedHeaderValues (r_header res) "Vary") = false ∧
    (Shared h = true → cc_Has cc "private" = true → cc_index cc "private" ≠ []) ∧
    storeable (r_statusCode res) = true ∧ allowsAuthenticatedStorage h res r cc = true) as Hallow.
  { unfold allowsResponseStorage. rewrite <- (bool_decide_eq_false (cc_index cc "private" = [])).
    destruct (cc_Has cc "no-cache"), (cc_Has cc "no-store"), (varyWildcard _), (cc_Has cc "private"),
      (bool_decide _), (Shared h), (storeable _); simpl; naive_solver. }
  transitivity (allowsResponseStorage h res r cc = true ∧
    if hasExplicitExpiration res (Shared h)
    then ∃ maxAge, MaxAge n1 res (Shared h) = Some maxAge ∧ (0 < maxAge ∨ HasValidators res = true)
    else (cacheableByDefault (r_statusCode res) = true ∨ cc_Has cc "public" = true) ∧
         (HasValidators res = true ∨ 0 < heuristicFreshness n3 res (Shared h))).
  - destruct (allowsResponseStorage h res r cc); simpl; [|naive_solver].
    destruct (hasExplicitExpiration res (Shared h)).
    + destruct (MaxAge n1 res (Shared h)) as [m|]; [|naive_solver].
      rewrite orb_true_iff, Z.ltb_lt. naive_solver.
    + destruct (cacheableByDefault _), (cc_Has cc "public"); simpl; rewrite ?orb_true_iff, ?Z.ltb_lt; naive_solver.
  - rewrite Hallow, Hauth. split; [intros [(?&?&?&?&?&?) ?]; exists cc; tauto|].
    intros (cc' & [= <-] & ?&?&?&?&?&?&?). tauto.
Qed.

(** A Vary variant counts as invalidated as soon as its own marker or
    the marker of its base key came after it was stored; without a marker
    for the base, as soon as the base entry was itself found stale.  An
    invalidated variant is never made fresh again by the judgement. *)
Theorem markInvalidatedResource_spec checker resourceMark baseMark res resourceKey baseKey baseStale :
  r_stale (markInvalidatedResource checker resourceMark baseMark res resourceKey baseKey baseStale) = false ↔
  r_stale res = false ∧
  (resourceKey ≠ baseKey → ∀ t, resourceMark = Some t → resourceFreshAfter checker res t = true) ∧
  match baseMark with Some t => resourceFreshAfter checker res t = true | None => baseStale = false end.
Proof.
  unfold markInvalidatedResource. destruct (String.eqb_spec resourceKey baseKey) as [->|Hne]; simpl.
  - destruct baseMark as [t|]; [destruct (resourceFreshAfter checker res t)|destruct baseStale]; simpl; naive_solver.
  - assert (∀ t, resourceFreshAfter checker (MarkStale res) t = resourceFreshAfter checker res t) as Hms
      by (by destruct checker).
    destruct resourceMark as [t1|]; [destruct (resourceFreshAfter checker res t1) eqn:E1|];
      (destruct baseMark as [t|]; [destruct (resourceFreshAfter checker res t) eqn:E2|destruct baseStale]);
      simpl; rewrite ?Hms, ?E2; simpl; naive_solver.
Qed.

(** The corrected age is the one of RFC 7234 section 4.2.3: the larger
    of the apparent age and of the age header plus the response delay, plus
    the time since the response. *)
Theorem correctedAge_rfc now h reqTime respTime date age :
  timeHeader "Date" h = Some date → intHeader "Age" h = Some age →
  int64 (respTime - date) → int64 (respTime - reqTime) → int64 (now - respTime) →
  int64 (age * second) → int64 (age * second + (respTime - reqTime)) →
  int64 (Z.max (Z.max 0 (respTime - date)) (age * second + (respTime - reqTime)) + (now - respTime)) →
  correctedAge now h reqTime respTime =
    Some (Z.max (Z.max 0 (respTime - date)) (age * second + (respTime - reqTime)) + (now - respTime)).
Proof.
  intros Hd Ha H1 H2 H3 H4 H5 H6. unfold correctedAge. rewrite Hd, Ha.
  rewrite !Sub_exact by done. unfold dur_add, dur_mul. rewrite (Z.mul_comm second age).
  rewrite (wrap64_id (age * second)), (wrap64_id (age * second + (respTime - reqTime))) by done.
  replace (if _ <? (if respTime - date <? 0 then 0 else respTime - date) then _ else _)
    with (Z.max (Z.max 0 (respTime - date)) (age * second + (respTime - reqTime))); [by rewrite wrap64_id|].
  destruct (respTime - date <? 0) eqn:E1; case_match; unbool; lia.
Qed.
End Theorems.

(** ** Witnesses *)

#[local] Existing Instance stamp_date.

Definition get_request (h : Header) : cacheRequest :=
  {| cr_Request := example_request h; cr_Key := NewRequestKey (example_request h); cr_Time := example_now;
     cr_CacheControl := default ∅ (ParseCacheControlHeaders h); cr_discoveryKey := EmptyString;
     cr_servedKey := EmptyString |}.

Definition shared_handler : Handler := {| Shared := true; hasStagingBudget := false |}.

Definition one_minute : Resource := stamped_example (<["Cache-Control" := ["max-age=60"]]> ∅)%string.

Lemma one_minute_no_overflow n :
  0 ≤ n ≤ 10 ^ 12 → no_overflow (example_now + n) shared_handler one_minute (get_request ∅).
Proof.
  intros Hn d m Hd Hm.
  assert (age_base one_minute = Some example_now) as Hbase by (vm_compute; reflexivity).
  assert (d = example_now) as -> by congruence.
  assert (heuristicFreshness (example_now + n) one_minute true = 0) as Hh by (by apply heuristic_explicit).
  assert (MaxAge (example_now + n) one_minute true = Some (60 * second)) as Hm'.
  { rewrite (MaxAge_clock example_now (example_now + n) one_minute true example_now); vm_compute; reflexivity. }
  simpl Shared in Hm. assert (m = 60 * second) as -> by congruence.
  unfold lifetime. simpl Shared. rewrite Hh.
  assert (cc_Has (cr_CacheControl (get_request ∅)) "max-age" = false) as -> by (vm_compute; reflexivity).
  assert (age_header one_minute = 0) as -> by (vm_compute; reflexivity).
  unfold int64, min_int64, max_int64, second. lia.
Qed.

Lemma validation_is_monotone_witness :
  needsValidation (example_now + 60 * second) (example_now + 60 * second) (example_now + 60 * second)
    shared_handler one_minute (get_request ∅) = true ∧
  needsValidation (example_now + 90 * second) (example_now + 90 * second) (example_now + 90 * second)
    shared_handler one_minute (get_request ∅) = true.
Proof.
  assert (needsValidation (example_now + 60 * second) (example_now + 60 * second) (example_now + 60 * second)
    shared_handler one_minute (get_request ∅) = true) as Hn by (vm_compute; reflexivity).
  split; [exact Hn|].
  apply (validation_is_monotone (example_now + 60 * second) (example_now + 90 * second)).
  - unfold second. lia.
  - apply one_minute_no_overflow. unfold second. lia.
  - apply one_minute_no_overflow. unfold second. lia.
  - exact Hn.
Defined.

Definition aged_header : Header := (<["Date" := [FormatTime example_now]]> (<["Age" := ["5"]]> ∅))%string.

Lemma correctedAge_rfc_witness :
  correctedAge (example_now + 4 * second) aged_header (example_now + second) (example_now + 3 * second)
  = Some (8 * second).
Proof.
  pose proof (correctedAge_rfc (example_now + 4 * second) aged_header (example_now + second) (example_now + 3 * second)
    example_now 5) as Hc.
  rewrite Hc; [vm_compute; reflexivity|vm_compute; reflexivity|vm_compute; reflexivity|..];
    split; vm_compute; congruence.
Defined.

(** A request's [max-age] is ignored when the stored response has only
    heuristic freshness: a response modified a hundred days ago and received
    a day ago is reused for a request that accepts one minute. *)
Example request_max_age_ignored :
  let res := stamped_example (<["Last-Modified" := [FormatTime (example_now - 100 * 24 * hour)]]> ∅)%string in
  let r := get_request (<["Cache-Control" := ["max-age=60"]]> ∅)%string in
  let now := example_now + 24 * hour in
  Age now res = Some (24 * hour) ∧ cc_Duration (cr_CacheControl r) "max-age" = Some (60 * second) ∧
  needsValidation now now now shared_handler res r = false.
Proof. vm_compute. by split_and!. Qed.

(** Without an [Age] field in the response the corrected age is an
    error, although the response delay and the apparent age are known. *)
Example correctedAge_needs_age_field :
  correctedAge (example_now + 9 * second) (<["Date" := [FormatTime example_now]]> ∅)%string
    (example_now + second) (example_now + 8 * second) = None.
Proof. vm_compute. reflexivity. Qed.
