(* ===== verification/Validator.v ===== *)
(** * Validation of stored responses ([validator.go], [conditional_response.go])

    The conditional request built from a stored response, the comparison of a
    304 with it, the merge of the headers and of the warnings, and the
    decisions around a full response to a conditional request. *)

From Stdlib Require Import SpecFloat.
From S2P Require Import Prelude GoStrings GoTime GoQuote GoHttp GoUrl CacheControl Keys Resource Policy.
Import Headers.

(** ** Canonical headers *)

(** [canonicalValidationHeaders], over the names in bytewise order. *)
Definition canonicalValidationHeaders (header : Header) : Header :=
  foldl (λ canonical name,
    let key := CanonicalHeaderKey name in
    <[key := default [] (canonical !! key) ++ default [] (header !! name)]> canonical)
    ∅ (sort_strings (header_names header)).

Definition validationHeaders : list string :=
  ["ETag"; "Content-MD5"; "Last-Modified"; "Content-Length"; "Content-Encoding"]%string.

(** [headersEqual]: every validator present in [h2] agrees with [h1]. *)
Definition headersEqual (h1 h2 : Header) : bool :=
  forallb (λ header,
    let value := Get h2 header in
    if nonempty value then
      (Get h1 header =?s value) || ((header =?s "Content-Encoding") && EqualFold (Get h1 header) value)
    else true) validationHeaders.

(** ** Warnings *)

Definition isTransientWarning (value : string) : bool :=
  match value with
  | String a (String b (String c (String d _))) =>
      Ascii.eqb a "1" && is_digit b && is_digit c && (Ascii.eqb d " " || Ascii.eqb d tab)
  | _ => false
  end.

(** The scan of [splitWarningValues]: [start..i] is the value under way. *)
Fixpoint split_warning (quoted escaped : bool) (value : string) (field : string) : list string :=
  match field with
  | EmptyString => [value]
  | String c field =>
      let next := (value +:+ str1 c)%string in
      if escaped then split_warning quoted false next field
      else if quoted && Ascii.eqb c backslash then split_warning quoted true next field
      else if Ascii.eqb c dquote then split_warning (negb quoted) false next field
      else if Ascii.eqb c "," && negb quoted then value :: split_warning quoted false EmptyString field
      else split_warning quoted false next field
  end.

Definition splitWarningValues (field : string) : list string := split_warning false false EmptyString field.

(** [strings.Trim(value, " \t")] *)
Definition is_blank (c : ascii) : bool := Ascii.eqb c " " || Ascii.eqb c tab.
Definition trim_blank (value : string) : string := trim is_blank value.

(** The loop over the values of one field: the values retained and the
    values seen. *)
Fixpoint retain_warnings (values : list string) (seen : list string) : list string * list string :=
  match values with
  | [] => ([], seen)
  | value :: values =>
      let value := trim_blank value in
      if negb (nonempty value) || isTransientWarning value then retain_warnings values seen
      else if bool_decide (value ∈ seen) then retain_warnings values seen
      else let '(retained, seen) := retain_warnings values (value :: seen) in (value :: retained, seen)
  end.

Fixpoint warning_fields (fields : list string) (seen : list string) : list string :=
  match fields with
  | [] => []
  | field :: fields =>
      let '(retained, seen) := retain_warnings (splitWarningValues field) seen in
      match retained with
      | [] => warning_fields fields seen
      | _ => Join retained ", " :: warning_fields fields seen
      end
  end.

Definition validatedWarningValues (fields : list string) : list string := warning_fields fields [].

(** ** Requests *)

(** [conditionalRequest]: [None] is the false result. *)
Definition conditionalRequest (req : Request) (res : Resource) : option Request :=
  if varyUsesClientValidators (combinedHeaderValues (r_header res) "Vary") then None
  else
    let headers := canonicalValidationHeaders (r_header res) in
    if nonempty (Get headers "Etag") then
      Some (with_header req (Set_ (req_Header req) "If-None-Match" (Get headers "Etag")))
    else if nonempty (Get headers "Last-Modified") then
      Some (with_header req (Set_ (req_Header req) "If-Modified-Since" (Get headers "Last-Modified")))
    else None.

(** [retryOriginalPreconditions] *)
Definition retryOriginalPreconditions (status : Z) (original validation : Request) : bool :=
  if negb (status =? 416) && negb (status =? 412) then false
  else if (Get (req_Header original) "If-None-Match" =?s EmptyString)
          && (Get (req_Header original) "If-Modified-Since" =?s EmptyString) then false
  else (combinedHeaderValues (req_Header original) "If-None-Match"
          <>?s combinedHeaderValues (req_Header validation) "If-None-Match")
       || (combinedHeaderValues (req_Header original) "If-Modified-Since"
             <>?s combinedHeaderValues (req_Header validation) "If-Modified-Since").

(** [cacheRequest.validationResourceKey] *)
Definition validationResourceKey `{Unicode} (req : cacheRequest) : string :=
  if nonempty (cr_servedKey req) then cr_servedKey req
  else if nonempty (cr_discoveryKey req) then cr_discoveryKey req
  else Key_String (cr_Key req).

(** ** The 304 *)

(** [Duration.Seconds] *)
Definition Seconds (d : Duration) : spec_float :=
  float_add (float_of (Z.quot d second)) (float_div (float_of (Z.rem d second)) (float_of second)).

(** The nearest integer of a finite value, halves to even. *)
Definition round_half_even (f : spec_float) : Z :=
  match f with
  | S754_finite s m e =>
      let n :=
        if 0 <=? e then Zpos m * 2 ^ e
        else let q := Zpos m / 2 ^ (- e) in
             let twice := 2 * (Zpos m mod 2 ^ (- e)) in
             if twice <? 2 ^ (- e) then q
             else if 2 ^ (- e) <? twice then q + 1
             else if Z.even q then q else q + 1 in
      if s then - n else n
  | _ => 0
  end.

(** [fmt.Sprintf("%.f", ...)] *)
Definition format_seconds (d : Duration) : string :=
  let n := round_half_even (Seconds d) in
  if (n =? 0) && (d <? 0) then "-0"%string else Itoa n.

(** [NewResource] over a response without a body. *)
Definition NewResource (status : Z) (header : Header) : Resource := NewResourceBytes status EmptyString header.

Section Apply.
Context `{HttpDate}.

(** Every field of the 304 but [Warning] replaces the stored one. *)
Definition merge_fields (resHeaders responseHeaders : Header) : Header :=
  delete "Warning"%string responseHeaders ∪ Del resHeaders "Age".

Definition merge_warnings (resHeaders responseHeaders merged : Header) : Header :=
  let warnings := validatedWarningValues (Values resHeaders "Warning" ++ Values responseHeaders "Warning") in
  match warnings with
  | [] => Del merged "Warning"
  | _ => <["Warning"%string := warnings]> merged
  end.

(** [applyValidationResponse]: [None] is the false result.  [cancelled] is
    the error of the request context; [n1] to [n4] are the clock readings of
    the date, of the response time, of [correctedAge] and of the stamp. *)
Definition applyValidationResponse (n1 n2 n3 n4 : Time) (cancelled : bool) (res : Resource) (status : Z)
    (header : Header) (t : Time) : option Resource :=
  let resHeaders := canonicalValidationHeaders (r_header res) in
  let responseHeaders := canonicalValidationHeaders header in
  if cancelled || negb (status =? 304) || negb (headersEqual resHeaders responseHeaders) then None
  else
    let merged := merge_fields resHeaders responseHeaders in
    let merged := merge_warnings resHeaders responseHeaders merged in
    let merged := if nonempty (Get responseHeaders "Date") then merged
                  else Set_ merged "Date" (FormatTime n1) in
    let merged := match correctedAge n3 merged t n2 with
                  | Some age => Set_ merged "Age" (format_seconds age)
                  | None => merged
                  end in
    Some (set_requestTime t (set_header (Set_ merged ProxyDateHeader (FormatTime n4)) None res)).

(** [Handler.fullResponseVaryChanged] *)
Definition fullResponseVaryChanged (n1 n3 : Time) (h : Handler) (req : cacheRequest) (status : Z)
    (previous replacement : Header) : bool :=
  if sameVaryFields (combinedHeaderValues previous "Vary") (combinedHeaderValues replacement "Vary") then false
  else isCacheable n1 n3 h (NewResource status replacement) req.
End Apply.

(** [copyValidationTrailers] *)
Definition TrailerPrefix : string := "Trailer:".
Definition copyValidationTrailers (dst final initial : Header) : Header :=
  let announced :=
    foldl (λ d name, match Values final name with [] => d | v => <[name := v]> d end)
      dst (parseVary (combinedHeaderValues initial "Trailer")) in
  filter (λ '(name, _), HasPrefix name TrailerPrefix = true) final ∪ announced.

(** ** Reading back a list of warnings *)

(** The state of the scan after a text: quoted, escaped. *)
Fixpoint scan (quoted escaped : bool) (s : string) : bool * bool :=
  match s with
  | EmptyString => (quoted, escaped)
  | String c s =>
      if escaped then scan quoted false s
      else if quoted && Ascii.eqb c backslash then scan quoted true s
      else if Ascii.eqb c dquote then scan (negb quoted) false s
      else scan quoted false s
  end.

(** No comma outside quotes. *)
Fixpoint no_comma (quoted escaped : bool) (s : string) : bool :=
  match s with
  | EmptyString => true
  | String c s =>
      if escaped then no_comma quoted false s
      else if quoted && Ascii.eqb c backslash then no_comma quoted true s
      else if Ascii.eqb c dquote then no_comma (negb quoted) false s
      else if Ascii.eqb c "," && negb quoted then false
      else no_comma quoted false s
  end.

Definition single (s : string) : Prop := no_comma false false s = true.
Definition closed (s : string) : Prop := scan false false s = (false, false).

(** Values that can be joined: all but the last have their quotes closed. *)
Fixpoint joinable (l : list string) : Prop :=
  match l with
  | [] => True
  | [s] => single s
  | s :: l => single s ∧ closed s ∧ joinable l
  end.

Lemma split_warning_nonempty q e v s : split_warning q e v s ≠ [].
Proof. revert q e v. induction s as [|c s IH]; intros q e v; cbn [split_warning]; [done|]. by repeat case_match. Qed.

Lemma split_warning_join q e v s : Join (split_warning q e v s) "," = (v +:+ s)%string.
Proof.
  revert q e v. induction s as [|c s IH]; intros q e v; cbn [split_warning].
  { unfold Join. simpl. by rewrite str_app_nil_r. }
  assert (∀ q e, Join (split_warning q e (v +:+ str1 c)%string s) "," = (v +:+ String c s)%string) as Hnext.
  { intros q' e'. rewrite IH, <- str_app_assoc. done. }
  repeat case_match; try apply Hnext. unbool.
  match goal with Hc : Ascii.eqb c "," = true |- _ => apply Ascii.eqb_eq in Hc as -> end.
  unfold Join in *. destruct (split_warning q false EmptyString s) as [|w l] eqn:E.
  - by destruct (split_warning_nonempty q false EmptyString s).
  - change (String.concat "," (v :: w :: l)) with (v +:+ ("," +:+ String.concat "," (w :: l)))%string.
    rewrite <- E, IH. done.
Qed.

Lemma split_warning_app q e v s t :
  no_comma q e s = true →
  split_warning q e v (s +:+ t)%string = split_warning (scan q e s).1 (scan q e s).2 (v +:+ s)%string t.
Proof.
  revert q e v. induction s as [|c s IH]; intros q e v; [by rewrite str_app_nil_r|].
  rewrite str_app_cons. cbn [split_warning no_comma scan].
  repeat case_match; try done; intros Hn; rewrite IH by done; by rewrite <- str_app_assoc.
Qed.

Lemma split_warning_comma v t :
  split_warning false false v (String "," t) = v :: splitWarningValues t.
Proof. done. Qed.

(** Scanning never stops inside an escape outside quotes. *)
Lemma scan_quoted q e s : (e = true → q = true) → (scan q e s).2 = true → (scan q e s).1 = true.
Proof.
  revert q e. induction s as [|c s IH]; intros q e He; [done|]. cbn [scan].
  repeat case_match; unbool; apply IH; try done; by destruct q, e; auto.
Qed.

Lemma scan_app q e s t : scan q e (s +:+ t)%string = scan (scan q e s).1 (scan q e s).2 t.
Proof. revert q e. induction s as [|c s IH]; intros q e; [done|]. rewrite str_app_cons. cbn [scan]. by repeat case_match. Qed.

Lemma no_comma_app q e s t :
  no_comma q e (s +:+ t)%string = no_comma q e s && no_comma (scan q e s).1 (scan q e s).2 t.
Proof.
  revert q e. induction s as [|c s IH]; intros q e; [done|]. rewrite str_app_cons. cbn [scan no_comma].
  by repeat case_match.
Qed.

Definition is_blank_text (s : string) : bool := str_forall is_blank s.

Lemma blank_cases c : is_blank c = true →
  Ascii.eqb c backslash = false ∧ Ascii.eqb c dquote = false ∧ Ascii.eqb c "," = false.
Proof. unfold is_blank. intros [Hc|Hc]%orb_true_iff; apply Ascii.eqb_eq in Hc as ->; done. Qed.

Lemma scan_blank_fst q e s : is_blank_text s = true → (scan q e s).1 = q.
Proof.
  revert q e. induction s as [|c s IH]; intros q e; [done|]. unfold is_blank_text. cbn [str_forall scan].
  intros [Hc Hs]%andb_true_iff. destruct (blank_cases c Hc) as (-> & -> & _). rewrite andb_false_r.
  destruct e; by apply IH.
Qed.

Lemma scan_blank_open s : is_blank_text s = true → scan false false s = (false, false).
Proof.
  induction s as [|c s IH]; [done|]. unfold is_blank_text. cbn [str_forall scan].
  intros [Hc Hs]%andb_true_iff. destruct (blank_cases c Hc) as (-> & -> & _). simpl. by apply IH.
Qed.

Lemma no_comma_blank q e s : is_blank_text s = true → no_comma q e s = true.
Proof.
  revert q e. induction s as [|c s IH]; intros q e; [done|]. unfold is_blank_text. cbn [str_forall no_comma].
  intros [Hc Hs]%andb_true_iff. destruct (blank_cases c Hc) as (-> & -> & ->). rewrite andb_false_r.
  destruct e; by apply IH.
Qed.

(** ** Trimming *)

Lemma drop_while_split p s : ∃ pre, s = (pre +:+ drop_while p s)%string ∧ str_forall p pre = true.
Proof.
  induction s as [|c s [pre [Hs Hp]]]; [by exists EmptyString|]. cbn [drop_while]. destruct (p c) eqn:Hc.
  - exists (String c pre). rewrite str_app_cons, <- Hs. split; [done|]. cbn [str_forall]. by rewrite Hc.
  - by exists EmptyString.
Qed.

Lemma trim_right_split p s : ∃ post, s = (trim_right p s +:+ post)%string ∧ str_forall p post = true.
Proof.
  induction s as [|c s [post [Hs Hp]]]; [by exists EmptyString|]. cbn [trim_right].
  destruct (trim_right p s) as [|c' r] eqn:Hr.
  - destruct (p c) eqn:Hc.
    + exists (String c s). split; [done|]. cbn [str_forall]. rewrite Hc. rewrite Hs. by rewrite str_app_nil_l.
    + exists s. split; [done|]. rewrite Hs. by rewrite str_app_nil_l.
  - exists post. split; [|done]. by rewrite Hs at 1.
Qed.

Lemma trim_blank_split s : ∃ pre post,
  s = (pre +:+ trim_blank s +:+ post)%string ∧ is_blank_text pre = true ∧ is_blank_text post = true.
Proof.
  unfold trim_blank, trim. destruct (drop_while_split is_blank s) as (pre & Hs & Hpre).
  destruct (trim_right_split is_blank (drop_while is_blank s)) as (post & Ht & Hpost).
  exists pre, post. split; [|done]. rewrite <- Ht. exact Hs.
Qed.

Lemma single_trim s : single s → single (trim_blank s).
Proof.
  unfold single. destruct (trim_blank_split s) as (pre & post & Hs & Hpre & _). rewrite Hs at 1.
  rewrite no_comma_app, scan_blank_open by done. rewrite no_comma_app. simpl.
  intros [_ [? _]%andb_true_iff]%andb_true_iff. done.
Qed.

Lemma closed_trim s : closed s → closed (trim_blank s).
Proof.
  unfold closed. destruct (trim_blank_split s) as (pre & post & Hs & Hpre & Hpost). rewrite Hs at 1.
  rewrite scan_app, scan_blank_open by done. simpl. rewrite scan_app. intros Hc.
  pose proof (scan_blank_fst (scan false false (trim_blank s)).1 (scan false false (trim_blank s)).2 post Hpost) as Hf.
  rewrite Hc in Hf. simpl in Hf. destruct (scan false false (trim_blank s)) as [q e] eqn:E. simpl in *. subst q.
  destruct e; [|done]. pose proof (scan_quoted false false (trim_blank s)) as Hq. rewrite E in Hq. simpl in Hq.
  by discriminate Hq.
Qed.

Lemma drop_while_head p s : match drop_while p s with EmptyString => True | String c _ => p c = false end.
Proof. induction s as [|c s IH]; [done|]. cbn [drop_while]. by destruct (p c) eqn:Hc. Qed.

Lemma trim_right_head p c s : p c = false → trim_right p (String c s) = String c (trim_right p s).
Proof. intros Hc. cbn [trim_right]. rewrite Hc. by destruct (trim_right p s). Qed.

Lemma trim_right_idemp p s : trim_right p (trim_right p s) = trim_right p s.
Proof.
  induction s as [|c s IH]; [done|]. cbn [trim_right]. destruct (trim_right p s) as [|c' r] eqn:Hr.
  - destruct (p c) eqn:Hc; [done|]. cbn [trim_right]. by rewrite Hc.
  - change (trim_right p (String c (String c' r))) with
      (match trim_right p (String c' r) with EmptyString => if p c then EmptyString else str1 c
       | _ => String c (trim_right p (String c' r)) end). by rewrite IH.
Qed.

Lemma trim_idemp p s : trim p (trim p s) = trim p s.
Proof.
  unfold trim. pose proof (drop_while_head p s) as Hh. destruct (drop_while p s) as [|c r]; [done|].
  rewrite (trim_right_head p c r Hh). cbn [drop_while]. rewrite Hh.
  rewrite <- (trim_right_head p c r Hh). apply trim_right_idemp.
Qed.

Lemma trim_blank_space s : trim_blank (String " " s) = trim_blank s.
Proof. done. Qed.

(** ** Joinable lists *)

Lemma joinable_cons s l : single s → closed s → joinable l → joinable (s :: l).
Proof. destruct l; simpl; auto. Qed.

Lemma joinable_tail s l : joinable (s :: l) → joinable l.
Proof. destruct l; simpl; tauto. Qed.

Lemma joinable_map l : joinable l → joinable (map trim_blank l).
Proof.
  induction l as [|s [|s' l] IH]; [done| |].
  - apply single_trim.
  - intros (H1 & H2 & H3). apply (joinable_cons (trim_blank s) (map trim_blank (s' :: l)));
      [by apply single_trim|by apply closed_trim|by apply IH].
Qed.

Lemma joinable_sublist l1 l2 : sublist l1 l2 → joinable l2 → joinable l1.
Proof.
  induction 1 as [|x l1 l2 Hsub IH|x l1 l2 Hsub IH]; [done| |].
  - destruct l2 as [|y l2]; [by apply sublist_nil_r in Hsub as ->|].
    intros (H1 & H2 & H3). apply joinable_cons; auto.
  - intros Hj. apply IH. by eapply joinable_tail.
Qed.

Lemma split_warning_joinable q e v s :
  no_comma false false v = true → scan false false v = (q, e) → joinable (split_warning q e v s).
Proof.
  revert q e v. induction s as [|c s IH]; intros q e v Hn Hs; cbn [split_warning]; [done|].
  assert (∀ q' e', scan q e (str1 c) = (q', e') → no_comma q e (str1 c) = true →
    joinable (split_warning q' e' (v +:+ str1 c)%string s)) as Hnext.
  { intros q' e' Hs' Hn'. apply IH; [by rewrite no_comma_app, Hn, Hs|by rewrite scan_app, Hs]. }
  destruct e; [by apply Hnext|].
  destruct (q && Ascii.eqb c backslash) eqn:E1; [apply Hnext; unfold str1; cbn [scan no_comma]; by rewrite E1|].
  destruct (Ascii.eqb c dquote) eqn:E2; [apply Hnext; unfold str1; cbn [scan no_comma]; by rewrite E1, E2|].
  destruct (Ascii.eqb c "," && negb q) eqn:E3.
  - assert (q = false) as -> by (apply andb_true_iff in E3 as [_ Hq]; by destruct q).
    apply joinable_cons; [done|exact Hs|by apply IH].
  - apply Hnext; unfold str1; cbn [scan no_comma]; by rewrite E1, E2, ?E3.
Qed.

Lemma split_joinable field : joinable (splitWarningValues field).
Proof. by apply split_warning_joinable. Qed.

Lemma split_warning_prefix p q e v s :
  split_warning q e (p +:+ v)%string s
  = match split_warning q e v s with [] => [] | w :: ws => (p +:+ w)%string :: ws end.
Proof.
  revert q e v. induction s as [|c s IH]; intros q e v; cbn [split_warning]; [done|].
  rewrite <- str_app_assoc. destruct e; [apply IH|]. destruct (q && Ascii.eqb c backslash); [apply IH|].
  destruct (Ascii.eqb c dquote); [apply IH|]. destruct (Ascii.eqb c "," && negb q); [done|apply IH].
Qed.

Lemma splitWarningValues_space s :
  map trim_blank (splitWarningValues (String " " s)) = map trim_blank (splitWarningValues s).
Proof.
  unfold splitWarningValues.
  change (split_warning false false EmptyString (String " " s)) with
    (split_warning false false (str1 " " +:+ EmptyString)%string s). rewrite (split_warning_prefix (str1 " ") false false EmptyString s).
  by destruct (split_warning false false EmptyString s).
Qed.

(** Joining values and reading them back. *)
Lemma read_back l :
  l ≠ [] → joinable l → Forall (λ s, trim_blank s = s) l →
  map trim_blank (splitWarningValues (Join l ", ")) = l.
Proof.
  induction l as [|s [|s' l] IH]; intros Hl Hj Ht; [done| |].
  - apply Forall_cons in Ht as [Ht _]. unfold Join. simpl. simpl in Hj. unfold single in Hj.
    pose proof (split_warning_app false false EmptyString s EmptyString Hj) as Hs.
    rewrite str_app_nil_r in Hs. unfold splitWarningValues. rewrite Hs. cbn [split_warning map]. by rewrite str_app_nil_l, Ht.
  - apply Forall_cons in Ht as [Hts Ht]. destruct Hj as (H1 & H2 & H3).
    change (Join (s :: s' :: l) ", ") with (s +:+ (String "," (String " " (Join (s' :: l) ", "))))%string.
    unfold splitWarningValues at 1. rewrite (split_warning_app false false EmptyString s _ H1), H2. cbn [fst snd].
    rewrite str_app_nil_l, split_warning_comma. cbn [map]. rewrite Hts, splitWarningValues_space. f_equal.
    by apply IH.
Qed.

(** ** The reference selection *)

Definition warning_values (fields : list string) : list string :=
  mjoin (map (λ f, map trim_blank (splitWarningValues f)) fields).

Definition persistent (value : string) : bool := nonempty value && negb (isTransientWarning value).

Fixpoint first_occurrences (seen l : list string) : list string :=
  match l with
  | [] => []
  | x :: l => if bool_decide (x ∈ seen) then first_occurrences seen l
              else x :: first_occurrences (x :: seen) l
  end.

Lemma first_occurrences_app seen l1 l2 :
  first_occurrences seen (l1 ++ l2)
  = first_occurrences seen l1 ++ first_occurrences (rev (first_occurrences seen l1) ++ seen) l2.
Proof.
  revert seen. induction l1 as [|x l1 IH]; intros seen; simpl; [done|].
  case_bool_decide; [done|]. simpl. rewrite IH. by rewrite <- app_assoc.
Qed.

Lemma retain_warnings_spec values seen :
  retain_warnings values seen =
  (first_occurrences seen (filter (λ v, persistent v = true) (map trim_blank values)),
   rev (first_occurrences seen (filter (λ v, persistent v = true) (map trim_blank values))) ++ seen).
Proof.
  revert seen. induction values as [|v values IH]; intros seen; [done|]. cbn [retain_warnings map].
  assert (negb (nonempty (trim_blank v)) || isTransientWarning (trim_blank v) = negb (persistent (trim_blank v))) as ->.
  { unfold persistent. by destruct (nonempty _), (isTransientWarning _). }
  destruct (persistent (trim_blank v)) eqn:Hp; cbn [negb].
  - rewrite filter_cons_True by done. cbn [first_occurrences]. case_bool_decide; [apply IH|].
    rewrite IH. simpl. by rewrite <- app_assoc.
  - rewrite filter_cons_False by congruence. apply IH.
Qed.

Lemma first_occurrences_sublist seen l : sublist (first_occurrences seen l) l.
Proof. revert seen. induction l as [|x l IH]; intros seen; simpl; [done|]. case_bool_decide; by constructor. Qed.

Lemma retained_read_back field seen :
  let retained := (retain_warnings (splitWarningValues field) seen).1 in
  retained ≠ [] → map trim_blank (splitWarningValues (Join retained ", ")) = retained.
Proof.
  cbv zeta. rewrite retain_warnings_spec. simpl. intros Hne.
  assert (sublist (first_occurrences seen (filter (λ v, persistent v = true) (map trim_blank (splitWarningValues field))))
    (map trim_blank (splitWarningValues field))) as Hsub.
  { etrans; [apply first_occurrences_sublist|]. apply sublist_filter. }
  apply read_back; [done|eapply joinable_sublist; [done|apply joinable_map, split_joinable]|].
  apply Forall_forall. intros s Hs%(λ H, elem_of_sublist _ _ s H Hsub). apply list_elem_of_fmap in Hs as (s0 & -> & _).
  apply trim_idemp.
Qed.

Lemma warning_fields_spec fields seen :
  warning_values (warning_fields fields seen)
  = first_occurrences seen (filter (λ v, persistent v = true) (warning_values fields)).
Proof.
  revert seen. induction fields as [|field fields IH]; intros seen; [done|]. cbn [warning_fields].
  pose proof (retained_read_back field seen) as Hread. cbv zeta in Hread.
  pose proof (retain_warnings_spec (splitWarningValues field) seen) as Hr.
  unfold warning_values at 2. cbn [map mjoin list_join]. fold (warning_values fields).
  rewrite filter_app, first_occurrences_app.
  destruct (retain_warnings (splitWarningValues field) seen) as [retained seen']. injection Hr as Hret Hseen.
  rewrite <- Hret in Hseen |- *. rewrite <- Hseen. simpl in Hread. destruct retained as [|v retained].
  - by rewrite IH.
  - unfold warning_values. cbn [map mjoin list_join]. rewrite Hread by done. f_equal. apply IH.
Qed.

(** ** Canonical headers *)

Definition canonical_step (header : Header) (canonical : Header) (name : string) : Header :=
  <[CanonicalHeaderKey name := default [] (canonical !! CanonicalHeaderKey name) ++ default [] (header !! name)]> canonical.

Lemma canonical_steps_keys header l m k :
  (∀ k, is_Some (m !! k) → CanonicalHeaderKey k = k) →
  is_Some (foldl (canonical_step header) m l !! k) → CanonicalHeaderKey k = k.
Proof.
  revert m. induction l as [|n l IH]; intros m Hm; [apply Hm|]. simpl. apply IH. intros k'.
  unfold canonical_step. rewrite lookup_insert_is_Some. intros [<-|[_ ?]]; [apply CanonicalHeaderKey_idemp|by apply Hm].
Qed.

Lemma canonicalValidationHeaders_keys header k :
  is_Some (canonicalValidationHeaders header !! k) → CanonicalHeaderKey k = k.
Proof. apply canonical_steps_keys. intros k'. rewrite lookup_empty. by intros [? ?]. Qed.

Lemma canonical_steps_fixed header l m k :
  NoDup l → (∀ n, n ∈ l → CanonicalHeaderKey n = n ∧ m !! n = None ∧ is_Some (header !! n)) →
  foldl (canonical_step header) m l !! k = if decide (k ∈ l) then header !! k else m !! k.
Proof.
  revert m. induction l as [|n l IH]; intros m Hnd Hl; [by rewrite decide_False by apply not_elem_of_nil|].
  apply NoDup_cons in Hnd as [Hn Hnd]. cbn [foldl].
  destruct (Hl n) as (Hc & Hm & [v Hv]); [by apply elem_of_cons; left|].
  unfold canonical_step at 2. rewrite Hc, Hm, Hv. simpl. rewrite IH; [|done|].
  - destruct (decide (k = n)) as [->|Hne].
    + rewrite (decide_False (P := n ∈ l)) by done. rewrite lookup_insert_eq, decide_True; [done|by apply elem_of_cons; left].
    + rewrite lookup_insert_ne by done. apply decide_ext. rewrite elem_of_cons. naive_solver.
  - intros n' Hn'. destruct (Hl n') as (Hc' & Hm' & Hv'); [by apply elem_of_cons; right|].
    split; [done|]. split; [|done]. rewrite lookup_insert_ne; [done|]. by intros ->.
Qed.

Lemma canonicalValidationHeaders_fixed header :
  (∀ k, is_Some (header !! k) → CanonicalHeaderKey k = k) → canonicalValidationHeaders header = header.
Proof.
  intros Hk. apply map_eq. intros k. unfold canonicalValidationHeaders.
  change (foldl (canonical_step header) ∅ (sort_strings (header_names header)) !! k = header !! k).
  rewrite canonical_steps_fixed.
  - case_decide as Hin; [done|]. rewrite lookup_empty. symmetry. apply eq_None_not_Some.
    by rewrite <- elem_of_header_names, <- elem_of_sort_strings.
  - rewrite sort_strings_perm. apply NoDup_fst_map_to_list.
  - intros n. rewrite elem_of_sort_strings, elem_of_header_names. intros Hn. by split; [apply Hk|].
Qed.

(** ** Theorems *)

(** The warnings kept by a successful validation.  Read back as a list,
    the new fields hold the persistent (2xx) values of the stored and new
    fields, unchanged and quoted commas included, in order, each once; so a
    304 that repeats its warnings never makes the stored header grow. *)
Theorem validated_warnings_spec fields :
  warning_values (validatedWarningValues fields)
  = first_occurrences [] (filter (λ v, persistent v = true) (warning_values fields)) ∧
  Forall (λ v, isTransientWarning v = false) (warning_values (validatedWarningValues fields)).
Proof.
  unfold validatedWarningValues. rewrite warning_fields_spec. split; [done|].
  apply Forall_forall. intros v Hv.
  pose proof (elem_of_sublist _ _ _ Hv (first_occurrences_sublist [] _)) as Hin.
  apply list_elem_of_filter in Hin as [Hp _]. unfold persistent in Hp. by unbool.
Qed.

(** Splitting a warning field loses nothing: joined by commas its values
    are the field. *)
Theorem split_warning_lossless field : Join (splitWarningValues field) "," = field.
Proof. apply split_warning_join. Qed.

Section ApplyTheorems.
Context `{HttpDate}.

(** C25: a 304 updates the stored response only when it answers for the same
    representation (every validator it carries agrees with the stored one),
    and then it replaces the fields it carries, keeps every field it omits
    (Content-Length, Content-Type, ...), keeps body and status, and dates
    the resource by the start of the validation.  Warnings are merged; Age,
    Date and Proxy-Date, which record the receipt, are not part of this. *)
Theorem applyValidationResponse_spec n1 n2 n3 n4 cancelled res status header t res' :
  applyValidationResponse n1 n2 n3 n4 cancelled res status header t = Some res' →
  let stored := canonicalValidationHeaders (r_header res) in
  let received := canonicalValidationHeaders header in
  status = 304 ∧ cancelled = false ∧
  (∀ v, v ∈ validationHeaders → Get received v ≠ EmptyString →
     Get stored v = Get received v ∨ v = "Content-Encoding"%string ∧ EqualFold (Get stored v) (Get received v) = true) ∧
  (∀ k, k ∉ ["Age"; "Warning"; "Date"; "Proxy-Date"]%string →
     r_header res' !! k = match received !! k with Some vs => Some vs | None => stored !! k end) ∧
  Values (r_header res') "Warning" = validatedWarningValues (Values stored "Warning" ++ Values received "Warning") ∧
  r_body res' = r_body res ∧ r_statusCode res' = r_statusCode res ∧ r_RequestTime res' = t ∧ r_cc res' = None.
Proof.
  intros Hap stored received. unfold applyValidationResponse in Hap. fold stored received in Hap.
  destruct (cancelled || negb (status =? 304) || negb (headersEqual stored received)) eqn:E; [done|].
  apply orb_false_iff in E as [E Heq]. apply orb_false_iff in E as [-> E]. unbool.
  injection Hap as <-. cbn [r_header set_requestTime set_header r_body r_statusCode r_RequestTime r_cc].
  set (m1 := merge_warnings stored received (merge_fields stored received)).
  set (m2 := if nonempty (Get received "Date") then m1 else Set_ m1 "Date" (FormatTime n1)).
  set (m3 := match correctedAge n3 m2 t n2 with Some age => Set_ m2 "Age" (format_seconds age) | None => m2 end).
  assert (∀ k, k ∉ ["Age"; "Date"; "Proxy-Date"]%string →
    Set_ m3 ProxyDateHeader (FormatTime n4) !! k = m1 !! k) as Hm3.
  { intros k Hk. rewrite !not_elem_of_cons in Hk. destruct Hk as (Ha & Hd & Hp & _). unfold Set_ at 1.
    rewrite lookup_insert_ne by (vm_compute CanonicalHeaderKey; congruence). unfold m3.
    destruct (correctedAge n3 m2 t n2); [unfold Set_ at 1; rewrite lookup_insert_ne by (vm_compute CanonicalHeaderKey; congruence)|];
      (unfold m2; destruct (nonempty (Get received "Date")); [done|unfold Set_; by rewrite lookup_insert_ne by (vm_compute CanonicalHeaderKey; congruence)]). }
  assert (∀ k, k ≠ "Warning"%string → m1 !! k = merge_fields stored received !! k) as Hm1.
  { intros k Hk. unfold m1, merge_warnings, Del. destruct (validatedWarningValues _); [rewrite lookup_delete_ne; [done|]|by rewrite lookup_insert_ne].
    vm_compute CanonicalHeaderKey; congruence. }
  split_and!; try done.
  - intros v Hv Hne. unfold headersEqual in Heq. rewrite forallb_forall in Heq.
    assert (List.In v validationHeaders) as Hin by (by apply list_elem_of_In). specialize (Heq v Hin).
    cbv zeta in Heq. destruct (Get received v) as [|c s] eqn:Eg; [done|]. simpl in Heq.
    apply orb_true_iff in Heq as [Heq|[Hce Hf]%andb_true_iff]; unbool; auto.
  - intros k Hk. rewrite !not_elem_of_cons in Hk. destruct Hk as (Ha & Hw & Hd & Hp & _).
    rewrite Hm3 by (rewrite !not_elem_of_cons; split_and!; [done|done|done|apply not_elem_of_nil]).
    rewrite Hm1 by done. unfold merge_fields. rewrite lookup_union, lookup_delete_ne by done.
    unfold Del. rewrite lookup_delete_ne by (vm_compute CanonicalHeaderKey; congruence).
    by destruct (received !! k), (stored !! k).
  - unfold Values at 1. change (CanonicalHeaderKey "Warning") with "Warning"%string.
    rewrite Hm3 by (rewrite !not_elem_of_cons; split_and!; [done|done|done|apply not_elem_of_nil]).
    unfold m1, merge_warnings. destruct (validatedWarningValues _) as [|w ws] eqn:Ew.
    + unfold Del. change (CanonicalHeaderKey "Warning") with "Warning"%string. by rewrite lookup_delete_eq.
    + by rewrite lookup_insert_eq.
Qed.
End ApplyTheorems.

(** The conditional request asks about the stored representation: it is
    the client's request with one condition set to a validator of the stored
    response (the entity tag first), and it is refused when the response
    varies on the conditions or has no validator. *)
Theorem conditionalRequest_spec req res :
  let stored := canonicalValidationHeaders (r_header res) in
  match conditionalRequest req res with
  | None => varyUsesClientValidators (combinedHeaderValues (r_header res) "Vary") = true ∨
            (Get stored "Etag" = EmptyString ∧ Get stored "Last-Modified" = EmptyString)
  | Some out =>
      varyUsesClientValidators (combinedHeaderValues (r_header res) "Vary") = false ∧
      req_Method out = req_Method req ∧ req_URL out = req_URL req ∧
      ∃ name value, value ≠ EmptyString ∧ req_Header out = Set_ (req_Header req) name value ∧
        (name = "If-None-Match"%string ∧ value = Get stored "Etag" ∨
         name = "If-Modified-Since"%string ∧ value = Get stored "Last-Modified" ∧ Get stored "Etag" = EmptyString)
  end.
Proof.
  unfold conditionalRequest. destruct (varyUsesClientValidators _); [by left|]. cbv zeta.
  destruct (Get (canonicalValidationHeaders (r_header res)) "Etag") as [|c s] eqn:E; simpl.
  - destruct (Get (canonicalValidationHeaders (r_header res)) "Last-Modified") as [|c s] eqn:E2; simpl; [by right|].
    split_and!; try done. exists "If-Modified-Since"%string, (String c s). split_and!; [done|done|by right].
  - split_and!; try done. exists "If-None-Match"%string, (String c s). split_and!; [done|done|by left].
Qed.

(** Canonical names are merged once and for all: every name of the result
    is canonical and canonicalising again changes nothing. *)
Theorem canonicalValidationHeaders_idemp header :
  (∀ k, is_Some (canonicalValidationHeaders header !! k) → CanonicalHeaderKey k = k) ∧
  canonicalValidationHeaders (canonicalValidationHeaders header) = canonicalValidationHeaders header.
Proof.
  split; [apply canonicalValidationHeaders_keys|].
  apply canonicalValidationHeaders_fixed, canonicalValidationHeaders_keys.
Qed.

(** ** Witnesses *)

#[local] Existing Instance stamp_date.

Definition tagged : Resource :=
  NewResourceBytes 200 "body" (<["Etag" := ["a"]]> (<["Content-Type" := ["text/plain"]]> ∅))%string.

Definition not_modified : Header := (<["etag" := ["a"]]> (<["Cache-Control" := ["max-age=60"]]> ∅))%string.

Definition revalidated : Resource :=
  default tagged (applyValidationResponse example_now example_now example_now example_now false tagged 304
    not_modified example_now).

Lemma applyValidationResponse_spec_witness :
  applyValidationResponse example_now example_now example_now example_now false tagged 304 not_modified example_now
    = Some revalidated ∧
  r_header revalidated !! "Content-Type"%string = Some ["text/plain"]%string ∧
  r_header revalidated !! "Cache-Control"%string = Some ["max-age=60"]%string.
Proof.
  assert (applyValidationResponse example_now example_now example_now example_now false tagged 304 not_modified
    example_now = Some revalidated) as Hap by (vm_compute; reflexivity).
  split; [exact Hap|].
  destruct (applyValidationResponse_spec _ _ _ _ _ _ _ _ _ _ Hap) as (_ & _ & _ & Hk & _).
  split; rewrite Hk by (vm_compute; intros Hin; repeat (inversion Hin; subst; clear Hin; rename select (_ ∈ _) into Hin));
    vm_compute; reflexivity.
Defined.
