(* ===== verification/Publication.v ===== *)
(** * The handler's own freshness evidence ([handler_publication.go], [handler.go])

    A third-party cache reports neither invalidation times nor the generation
    a retrieval returned.  The handler then keeps both itself: [localStale]
    holds the markers, [localFresh] the proofs that a key was last written by
    one publication alone.  Each operation below is a critical section of
    [localStaleMu].  The transition system [pub_step] interleaves them with an
    opaque backend that may perform the writes of a publication at any time
    between its beginning and its end. *)

From S2P Require Import Prelude GoStrings GoTime Config GoHttp Resource Policy.

(** ** Operations *)

(** [type localPublication struct] *)
Record localPublication := { lp_active : Z; lp_overlap : bool }.

(** [type localFreshProof struct]; [lf_id] is the identity of the object. *)
Record localFreshProof := { lf_id : nat; lf_at : Time }.

#[export] Instance localFreshProof_eq : EqDecision localFreshProof.
Proof. solve_decision. Defined.

(** The fields of [Handler] guarded by [localStaleMu]. *)
Record local := {
  localStale : gmap string Time;
  localFresh : gmap string localFreshProof;
  localPublications : gmap string localPublication;
  nextProof : nat;
}.

Definition local_init : local :=
  {| localStale := ∅; localFresh := ∅; localPublications := ∅; nextProof := 0 |}.

Definition defaultStaleMarkerTTL : Duration := DefaultCacheTTL.
Definition staleMarkerTTL (localStaleTTL : Duration) : Duration :=
  if 0 <? localStaleTTL then localStaleTTL else defaultStaleMarkerTTL.
Definition marker_cutoff (ttl : Duration) (now : Time) : Time := Add now (dur_neg (staleMarkerTTL ttl)).

Definition recent_fresh (cutoff : Time) (m : gmap string localFreshProof) : gmap string localFreshProof :=
  filter (λ '(_, p), Before (lf_at p) cutoff = false) m.

(** [Handler.recordStale], for a cache that is not a [staleAtChecker]. *)
Definition recordStale (ttl : Duration) (now : Time) (keys : list string) (st : local) : local :=
  let cutoff := marker_cutoff ttl now in
  let kept := filter (λ '(_, t), Before t cutoff = false) (localStale st) in
  {| localStale := foldl (λ m key, <[key := now]> m) kept keys;
     localFresh := recent_fresh cutoff (localFresh st);
     localPublications := localPublications st; nextProof := nextProof st |}.

(** [Handler.locallyFreshAfter] *)
Definition locallyFreshAfter (key : string) (staleAt : Time) (st : local) : bool :=
  match localFresh st !! key with Some p => After (lf_at p) staleAt | None => false end.

(** [Handler.staleAt] and [Handler.staleSnapshot] over the handler's map. *)
Definition staleAt_local (key : string) (st : local) : option Time := localStale st !! key.
Definition staleSnapshot_local (keys : list string) (st : local) : gmap string Time :=
  foldl (λ m key, match localStale st !! key with Some t => <[key := t]> m | None => m end) ∅ keys.

Definition publication_keys (keys : list string) : list string := compact (sort_strings keys).
Definition publication_time (at_ now : Time) : Time := if IsZero at_ then now else at_.

(** The loop bodies of [beginLocalPublication] and [finishLocalPublication]. *)
Definition begin_key (st : local) (key : string) : local :=
  let publication := default {| lp_active := 0; lp_overlap := false |} (localPublications st !! key) in
  let publication := {| lp_active := lp_active publication + 1;
                        lp_overlap := lp_overlap publication || (1 <? lp_active publication + 1) |} in
  {| localStale := localStale st; localFresh := delete key (localFresh st);
     localPublications := <[key := publication]> (localPublications st); nextProof := nextProof st |}.

Definition finish_key (at_ : Time) (success : bool) (st : local) (key : string) : local :=
  match localPublications st !! key with
  | None => st (* a nil dereference in the code: see [finish_registered] *)
  | Some publication =>
      let active := lp_active publication - 1 in
      if active =? 0 then
        {| localStale := localStale st;
           localFresh := if success && negb (lp_overlap publication)
                         then <[key := {| lf_id := nextProof st; lf_at := at_ |}]> (localFresh st)
                         else localFresh st;
           localPublications := delete key (localPublications st);
           nextProof := S (nextProof st) |}
      else
        {| localStale := localStale st; localFresh := localFresh st;
           localPublications := <[key := {| lp_active := active; lp_overlap := lp_overlap publication |}]>
                                  (localPublications st);
           nextProof := nextProof st |}
  end.

(** [Handler.beginLocalPublication]; its caller keeps [publication_time] and
    [publication_keys] for the end. *)
Definition beginLocalPublication (keys : list string) (st : local) : local := foldl begin_key st (publication_keys keys).

(** [Handler.finishLocalPublication] *)
Definition sweep_fresh (ttl : Duration) (now : Time) (st : local) : local :=
  {| localStale := localStale st; localFresh := recent_fresh (marker_cutoff ttl now) (localFresh st);
     localPublications := localPublications st; nextProof := nextProof st |}.
Definition finishLocalPublication (ttl : Duration) (now at_ : Time) (keys : list string) (success : bool)
    (st : local) : local :=
  foldl (finish_key at_ success) (sweep_fresh ttl now st) keys.

(** [Handler.localPublicationSnapshot] *)
Definition localPublicationSnapshot (key : string) (st : local) : option localFreshProof * bool :=
  (localFresh st !! key, bool_decide (localPublications st !! key = None)).

(** The end of [Handler.generationRetriever]: the evidence of a retrieval. *)
Definition retrieval_evidence (before after : option localFreshProof * bool) : Time :=
  if before.2 && after.2 && bool_decide (before.1 = after.1)
  then match before.1 with Some p => lf_at p | None => zero_time end
  else zero_time.

Definition set_handlerStoredAt (t : Time) (r : Resource) : Resource :=
  {| r_body := r_body r; r_RequestTime := r_RequestTime r; r_ResponseTime := r_ResponseTime r;
     r_header := r_header r; r_statusCode := r_statusCode r; r_cc := r_cc r; r_stale := r_stale r;
     r_storedAt := r_storedAt r; r_storedKey := r_storedKey r;
     r_storageGeneration := r_storageGeneration r; r_storageRecord := r_storageRecord r;
     r_handlerStoredAt := t |}.

(** ** Publications, the backend and retrievals *)

(** A running [publishResource] or [freshenResource]. *)
Record publication := { p_at : Time; p_keys : list string; p_written : gset string }.

(** A running retrieval: the snapshot before it and what the backend gave. *)
Record retrieval := {
  q_key : string;
  q_before : option localFreshProof * bool;
  q_value : option (option Time);
}.

(** [b_value] holds, for each key, the start of the fetch or validation
    behind the representation the backend now has. *)
Record backend := {
  b_local : local;
  b_value : gmap string Time;
  b_running : list publication;
  b_retrievals : list retrieval;
}.

Definition mark_written (key : string) (p : publication) : publication :=
  {| p_at := p_at p; p_keys := p_keys p; p_written := {[ key ]} ∪ p_written p |}.

Inductive pub_step (ttl : Duration) : backend → backend → Prop :=
  | pub_begin b at_ now keys :
      pub_step ttl b
        {| b_local := beginLocalPublication keys (b_local b); b_value := b_value b;
           b_running := {| p_at := publication_time at_ now; p_keys := publication_keys keys; p_written := ∅ |}
                        :: b_running b;
           b_retrievals := b_retrievals b |}
  | pub_write b l1 p l2 key :
      b_running b = l1 ++ p :: l2 → key ∈ p_keys p →
      pub_step ttl b
        {| b_local := b_local b; b_value := <[key := p_at p]> (b_value b);
           b_running := l1 ++ mark_written key p :: l2; b_retrievals := b_retrievals b |}
  | pub_evict b key :
      pub_step ttl b
        {| b_local := b_local b; b_value := delete key (b_value b); b_running := b_running b;
           b_retrievals := b_retrievals b |}
  | pub_finish b l1 p l2 now success :
      b_running b = l1 ++ p :: l2 → (success = true → ∀ k, k ∈ p_keys p → k ∈ p_written p) →
      pub_step ttl b
        {| b_local := finishLocalPublication ttl now (p_at p) (p_keys p) success (b_local b);
           b_value := b_value b; b_running := l1 ++ l2; b_retrievals := b_retrievals b |}
  | pub_stale b now keys :
      pub_step ttl b
        {| b_local := recordStale ttl now keys (b_local b); b_value := b_value b; b_running := b_running b;
           b_retrievals := b_retrievals b |}
  | pub_retrieve b key :
      pub_step ttl b
        {| b_local := b_local b; b_value := b_value b; b_running := b_running b;
           b_retrievals := {| q_key := key; q_before := localPublicationSnapshot key (b_local b); q_value := None |}
                           :: b_retrievals b |}
  | pub_read b l1 q l2 :
      b_retrievals b = l1 ++ q :: l2 →
      pub_step ttl b
        {| b_local := b_local b; b_value := b_value b; b_running := b_running b;
           b_retrievals := l1 ++ {| q_key := q_key q; q_before := q_before q;
                                    q_value := Some (b_value b !! q_key q) |} :: l2 |}
  | pub_return b l1 q l2 :
      b_retrievals b = l1 ++ q :: l2 →
      pub_step ttl b
        {| b_local := b_local b; b_value := b_value b; b_running := b_running b; b_retrievals := l1 ++ l2 |}.

Definition backend_init : backend :=
  {| b_local := local_init; b_value := ∅; b_running := []; b_retrievals := [] |}.

(** Publications of a key under way. *)
Definition writers_of (k : string) (l : list publication) : nat := length (filter (λ p, k ∈ p_keys p) l).

(** ** Sorted keys *)

Lemma elem_of_compact x l : x ∈ compact l ↔ x ∈ l.
Proof.
  induction l as [|y l IH]; [done|]. cbn [compact]. rewrite elem_of_cons, <- IH.
  destruct (compact l) as [|z r]; [by rewrite list_elem_of_singleton, elem_of_nil; naive_solver|].
  destruct (String.eqb_spec y z) as [->|]; rewrite !elem_of_cons; naive_solver.
Qed.

Lemma NoDup_compact l : Sorted String.le l → NoDup (compact l).
Proof.
  intros Hs. apply Sorted_StronglySorted in Hs; [|apply _].
  induction Hs as [|y l Hs IH Hy]; [constructor|]. cbn [compact].
  destruct (compact l) as [|z r] eqn:E; [apply NoDup_singleton|].
  destruct (String.eqb_spec y z) as [->|Hne]; [done|]. apply NoDup_cons. split; [|done].
  intros Hin. rewrite <- E, elem_of_compact in Hin.
  assert (Forall (String.le z) (z :: r)) as Hz.
  { assert (z ∈ l) as Hzl by (rewrite <- elem_of_compact, E; by left). clear -E Hs Hzl.
    revert z r E Hzl. induction Hs as [|w l Hs IH Hw]; intros z r E Hzl; [done|]. cbn [compact] in E.
    destruct (compact l) as [|v s] eqn:E2.
    - injection E as <- <-. by constructor.
    - destruct (String.eqb_spec w v) as [->|].
      + injection E as <- <-. apply (IH v s eq_refl). rewrite <- elem_of_compact, E2. by left.
      + injection E as <- <-. constructor; [done|]. apply Forall_forall. intros x Hx.
        rewrite <- E2, elem_of_compact in Hx. rewrite Forall_forall in Hw. by apply Hw. }
  assert (y ∈ z :: r) as Hyr by (by rewrite <- E, elem_of_compact).
  rewrite Forall_forall in Hz, Hy. apply Hne.
  apply (anti_symm String.le); [apply Hy; rewrite <- elem_of_compact, E; by left|by apply Hz].
Qed.

Lemma NoDup_publication_keys keys : NoDup (publication_keys keys).
Proof. apply NoDup_compact, sort_strings_sorted. Qed.

(** ** The critical sections key by key *)

Definition bumped (o : option localPublication) : localPublication :=
  let p := default {| lp_active := 0; lp_overlap := false |} o in
  {| lp_active := lp_active p + 1; lp_overlap := lp_overlap p || (1 <? lp_active p + 1) |}.

Definition lowered (o : option localPublication) : option localPublication :=
  match o with
  | None => None
  | Some p => if lp_active p - 1 =? 0 then None
              else Some {| lp_active := lp_active p - 1; lp_overlap := lp_overlap p |}
  end.

Lemma begin_keys l st k :
  NoDup l →
  localPublications (foldl begin_key st l) !! k
    = (if decide (k ∈ l) then Some (bumped (localPublications st !! k)) else localPublications st !! k) ∧
  localFresh (foldl begin_key st l) !! k = (if decide (k ∈ l) then None else localFresh st !! k) ∧
  nextProof (foldl begin_key st l) = nextProof st.
Proof.
  revert st. induction l as [|x l IH]; intros st Hnd.
  { by rewrite !decide_False by apply not_elem_of_nil. }
  apply NoDup_cons in Hnd as [Hx Hnd]. cbn [foldl]. destruct (IH (begin_key st x) Hnd) as (-> & -> & ->).
  unfold begin_key. cbn [localPublications localFresh nextProof]. destruct (decide (k = x)) as [->|Hne].
  - rewrite !(decide_False (P := x ∈ l)) by done. rewrite !decide_True by (by left).
    rewrite lookup_insert_eq, lookup_delete_eq. done.
  - rewrite lookup_insert_ne, lookup_delete_ne by done.
    assert (k ∈ x :: l ↔ k ∈ l) as Hk by (rewrite elem_of_cons; naive_solver).
    destruct (decide (k ∈ l)); [rewrite !decide_True by (by apply Hk)|rewrite !decide_False by (by rewrite Hk)]; done.
Qed.

Lemma finish_keys at_ success l st k :
  NoDup l →
  let st' := foldl (finish_key at_ success) st l in
  localPublications st' !! k
    = (if decide (k ∈ l) then lowered (localPublications st !! k) else localPublications st !! k) ∧
  (nextProof st ≤ nextProof st')%nat ∧
  (localFresh st' !! k = localFresh st !! k ∧
   (k ∈ l → success = true → localPublications st !! k ≠ Some {| lp_active := 1; lp_overlap := false |}) ∨
   k ∈ l ∧ success = true ∧ (∃ lp, localPublications st !! k = Some lp ∧ lp_active lp = 1 ∧ lp_overlap lp = false) ∧
   ∃ p, localFresh st' !! k = Some p ∧ lf_at p = at_ ∧ (nextProof st ≤ lf_id p < nextProof st')%nat).
Proof.
  revert st. induction l as [|x l IH]; intros st Hnd; cbv zeta.
  { rewrite decide_False by apply not_elem_of_nil. simpl. split_and!; [done|done|left]. by split; [|intros ?%elem_of_nil]. }
  apply NoDup_cons in Hnd as [Hx Hnd]. cbn [foldl].
  set (st1 := finish_key at_ success st x). destruct (IH st1 Hnd) as (Hp & Hn & Hf). cbv zeta in *.
  assert (localPublications st1 !! k = (if decide (k = x) then lowered (localPublications st !! k) else localPublications st !! k)
    ∧ (nextProof st ≤ nextProof st1)%nat
    ∧ (localFresh st1 !! k = localFresh st !! k ∧
       (k = x → success = true → localPublications st !! k ≠ Some {| lp_active := 1; lp_overlap := false |}) ∨
       k = x ∧ success = true ∧ (∃ lp, localPublications st !! k = Some lp ∧ lp_active lp = 1 ∧ lp_overlap lp = false) ∧
       ∃ p, localFresh st1 !! k = Some p ∧ lf_at p = at_ ∧ (nextProof st ≤ lf_id p < nextProof st1)%nat)) as (Hp1 & Hn1 & Hf1).
  { unfold st1, finish_key. destruct (localPublications st !! x) as [lp|] eqn:Ex.
    - destruct (lp_active lp - 1 =? 0) eqn:Ea; cbn [localPublications nextProof localFresh].
      + unbool. split; [|split; [lia|]].
        * destruct (decide (k = x)) as [->|]; [|by rewrite lookup_delete_ne by done].
          rewrite lookup_delete_eq, Ex. simpl. by rewrite (proj2 (Z.eqb_eq _ _)) by lia.
        * destruct (success && negb (lp_overlap lp)) eqn:Es; cycle 1.
          { left. split; [done|]. intros -> -> Hlp. rewrite Ex in Hlp. by injection Hlp as ->. }
          destruct (decide (k = x)) as [->|Hne]; [right|left; by rewrite lookup_insert_ne by done].
          unbool. split_and!; [done|done|exists lp; split_and!; [done|lia|done]|].
          eexists. rewrite lookup_insert_eq. split_and!; [done|done|simpl; lia|simpl; lia].
      + split; [|split; [lia|left; split; [done|]; intros -> _ Hlp; rewrite Ex in Hlp; by injection Hlp as ->]].
        destruct (decide (k = x)) as [->|]; [|by rewrite lookup_insert_ne by done].
        rewrite lookup_insert_eq, Ex. simpl. by rewrite Ea.
    - split; [|split; [lia|left; split; [done|]; intros -> _; by rewrite Ex]]. destruct (decide (k = x)) as [->|]; [by rewrite ?Ex|done]. }
  split; [|split; [lia|]].
  - rewrite Hp, Hp1. destruct (decide (k = x)) as [->|Hne].
    + rewrite (decide_False (P := x ∈ l)), decide_True by (done || by left). done.
    + assert (k ∈ x :: l ↔ k ∈ l) as Hk by (rewrite elem_of_cons; naive_solver).
      destruct (decide (k ∈ l)); [rewrite decide_True by (by apply Hk)|rewrite decide_False by (by rewrite Hk)]; done.
  - destruct Hf as [[Hf Hno]|(Hk & Hs & Hlp & p & Hpf & Hat & Hid)].
    + rewrite Hf. destruct Hf1 as [[Hf1 Hno1]|(-> & Hs & Hlp & p & Hpf & Hat & Hid)]; [left|right].
      { split; [done|]. intros Hk Hs. destruct (decide (k = x)) as [->|Hne]; [by apply Hno1|].
        apply elem_of_cons in Hk as [|Hk]; [done|]. specialize (Hno Hk Hs).
        assert (localPublications st1 !! k = localPublications st !! k) as <-; [|done]. rewrite Hp1. by destruct (decide (k = x)). }
      split_and!; [by left|done|done|]. exists p. split_and!; [by rewrite <- Hpf|done|lia|lia].
    + right. assert (k ≠ x) as Hne by (by intros ->). rewrite Hp1, decide_False in Hlp by done.
      split_and!; [by right|done|done|]. exists p. split_and!; [done|done|lia|lia].
Qed.

Lemma recent_fresh_subset cutoff m : recent_fresh cutoff m ⊆ m.
Proof. apply map_filter_subseteq. Qed.

(** ** The invariant *)

Record pub_inv (b : backend) : Prop := {
  i_count : ∀ k, match localPublications (b_local b) !! k with
                 | None => writers_of k (b_running b) = 0%nat
                 | Some lp => lp_active lp = Z.of_nat (writers_of k (b_running b)) ∧ lp_active lp > 0 ∧
                              (lp_overlap lp = false → lp_active lp = 1)
                 end;
  i_isolated : ∀ k lp p v, localPublications (b_local b) !! k = Some lp → lp_overlap lp = false →
    p ∈ b_running b → k ∈ p_keys p → k ∈ p_written p → b_value b !! k = Some v → v = p_at p;
  i_fresh : ∀ k p, localFresh (b_local b) !! k = Some p →
    (lf_id p < nextProof (b_local b))%nat ∧ localPublications (b_local b) !! k = None ∧
    ∀ v, b_value b !! k = Some v → v = lf_at p;
  i_nodup : ∀ p, p ∈ b_running b → NoDup (p_keys p);
  i_retrievals : ∀ q p, q ∈ b_retrievals b → (q_before q).1 = Some p →
    (lf_id p < nextProof (b_local b))%nat ∧
    ∀ v, q_value q = Some (Some v) → localFresh (b_local b) !! q_key q = Some p → v = lf_at p;
}.

Lemma pub_inv_init : pub_inv backend_init.
Proof.
  split; simpl.
  - intros k. by rewrite lookup_empty.
  - intros k lp p v. by rewrite lookup_empty.
  - intros k p. by rewrite lookup_empty.
  - by intros p ?%elem_of_nil.
  - by intros q p ?%elem_of_nil.
Qed.

Lemma writers_of_cons k p l :
  writers_of k (p :: l) = ((if decide (k ∈ p_keys p) then 1 else 0) + writers_of k l)%nat.
Proof. unfold writers_of. rewrite filter_cons. by case_decide. Qed.

Lemma writers_of_app k l1 l2 : writers_of k (l1 ++ l2) = (writers_of k l1 + writers_of k l2)%nat.
Proof. unfold writers_of. by rewrite filter_app, length_app. Qed.

Lemma writers_of_pos k p l : p ∈ l → k ∈ p_keys p → (0 < writers_of k l)%nat.
Proof.
  intros Hp Hk. apply list_elem_of_split in Hp as (l1 & l2 & ->).
  rewrite writers_of_app, writers_of_cons, decide_True by done. lia.
Qed.

(** Dropping proofs keeps the invariant. *)
Lemma pub_inv_fresh_subset b st :
  pub_inv b → localFresh st ⊆ localFresh (b_local b) → localPublications st = localPublications (b_local b) →
  nextProof st = nextProof (b_local b) →
  pub_inv {| b_local := st; b_value := b_value b; b_running := b_running b; b_retrievals := b_retrievals b |}.
Proof.
  intros [Hc Hi Hf Hn Hr] Hsub Hp Hx. split; cbn [b_local b_value b_running b_retrievals].
  - intros k. rewrite Hp. apply Hc.
  - intros k lp p v. rewrite Hp. apply Hi.
  - intros k p Hk. rewrite Hp, Hx. apply Hf. by eapply lookup_weaken.
  - done.
  - intros q p Hq Hb. rewrite Hx. destruct (Hr q p Hq Hb) as [Hid Hv]. split; [done|].
    intros v Hqv Hk. apply Hv; [done|]. by eapply lookup_weaken.
Qed.

Lemma pub_inv_begin b at_ now keys :
  pub_inv b →
  pub_inv {| b_local := beginLocalPublication keys (b_local b); b_value := b_value b;
             b_running := {| p_at := publication_time at_ now; p_keys := publication_keys keys; p_written := ∅ |}
                          :: b_running b;
             b_retrievals := b_retrievals b |}.
Proof.
  intros [Hc Hi Hf Hn Hr]. unfold beginLocalPublication. set (ks := publication_keys keys).
  assert (NoDup ks) as Hnd by apply NoDup_publication_keys.
  pose proof (λ k, begin_keys ks (b_local b) k Hnd) as Hbegin.
  split; cbn [b_local b_value b_running b_retrievals].
  - intros k. destruct (Hbegin k) as (-> & _ & _). rewrite writers_of_cons. cbn [p_keys]. specialize (Hc k).
    destruct (decide (k ∈ ks)); [|done]. unfold bumped. destruct (localPublications (b_local b) !! k) as [lp|]; simpl.
    + destruct Hc as (Ha & Hpos & _). split_and!; [lia|lia|]. intros Ho. unbool. lia.
    + rewrite Hc. by split_and!.
  - intros k lp p v Hk Ho [->|Hp]%elem_of_cons Hkp Hw Hv; [by apply elem_of_empty in Hw|].
    destruct (Hbegin k) as (Hb & _ & _). rewrite Hb in Hk. destruct (decide (k ∈ ks)) as [Hin|Hin]; [|by eapply Hi].
    injection Hk as <-. unfold bumped in Ho. specialize (Hc k).
    pose proof (writers_of_pos k p _ Hp Hkp) as Hpos.
    destruct (localPublications (b_local b) !! k) as [lp|]; simpl in Ho; [unbool; lia|lia].
  - intros k p. destruct (Hbegin k) as (-> & -> & ->). destruct (decide (k ∈ ks)); [done|apply Hf].
  - intros p [->|Hp]%elem_of_cons; [done|by apply Hn].
  - intros q p Hq Hb. destruct (Hbegin (q_key q)) as (_ & Hfr & ->). destruct (Hr q p Hq Hb) as [Hid Hv].
    split; [done|]. rewrite Hfr. destruct (decide (q_key q ∈ ks)); [done|apply Hv].
Qed.

Lemma pub_inv_finish ttl b l1 p l2 now success :
  pub_inv b → b_running b = l1 ++ p :: l2 → (success = true → ∀ k, k ∈ p_keys p → k ∈ p_written p) →
  pub_inv {| b_local := finishLocalPublication ttl now (p_at p) (p_keys p) success (b_local b);
             b_value := b_value b; b_running := l1 ++ l2; b_retrievals := b_retrievals b |}.
Proof.
  intros Hinv Hrun Hsucc. apply (pub_inv_fresh_subset b (sweep_fresh ttl now (b_local b))) in Hinv;
    [|apply recent_fresh_subset|done..].
  destruct Hinv as [Hc Hi Hf Hn Hr]. cbn [b_local b_value b_running b_retrievals] in *.
  unfold finishLocalPublication. set (st := sweep_fresh ttl now (b_local b)) in *.
  assert (p ∈ b_running b) as Hpr by (rewrite Hrun, elem_of_app, elem_of_cons; auto).
  pose proof (λ k, finish_keys (p_at p) success (p_keys p) st k (Hn p Hpr)) as Hfin. cbv zeta in Hfin.
  assert (∀ k, writers_of k (b_running b) = ((if decide (k ∈ p_keys p) then 1 else 0) + writers_of k (l1 ++ l2))%nat) as Hw.
  { intros k. rewrite Hrun, !writers_of_app, writers_of_cons. lia. }
  assert (∀ p', p' ∈ l1 ++ l2 → p' ∈ b_running b) as Hsub.
  { intros p'. rewrite Hrun, !elem_of_app, elem_of_cons. tauto. }
  split; cbn [b_local b_value b_running b_retrievals].
  - intros k. destruct (Hfin k) as (-> & _ & _). specialize (Hc k). specialize (Hw k).
    destruct (decide (k ∈ p_keys p)) as [Hk|Hk]; [|by rewrite Hw in Hc].
    destruct (localPublications st !! k) as [lp|] eqn:E; simpl; [|lia].
    destruct Hc as (Ha & Hpos & Ho). destruct (lp_active lp - 1 =? 0) eqn:E1; unbool; [lia|].
    cbn [lp_active lp_overlap]. split_and!; [lia|lia|]. intros Hov. specialize (Ho Hov). lia.
  - intros k lp p' v Hk Ho Hp' Hkp Hwr Hv. destruct (Hfin k) as (Hl & _ & _). rewrite Hl in Hk.
    destruct (decide (k ∈ p_keys p)) as [Hin|Hin]; [|by eapply Hi; eauto].
    specialize (Hc k). specialize (Hw k). rewrite decide_True in Hw by done.
    pose proof (writers_of_pos k p' _ Hp' Hkp) as Hpos. destruct (localPublications st !! k) as [lp0|] eqn:E; [|lia].
    simpl in Hk. destruct (lp_active lp0 - 1 =? 0); [done|]. injection Hk as <-. simpl in Ho.
    destruct Hc as (Ha & _ & Hone). specialize (Hone Ho). lia.
  - intros k p' Hk. destruct (Hfin k) as (Hl & Hnx & [[Hsame _]|(Hin & Hs & (lp & Hlp & Hact & Hov) & p0 & Hp0 & Hat & Hid)]).
    + rewrite Hsame in Hk. destruct (Hf k p' Hk) as (Hid & Hnone & Hv). split_and!; [lia| |done].
      rewrite Hl, Hnone. by destruct (decide (k ∈ p_keys p)).
    + rewrite Hk in Hp0. injection Hp0 as ->. split_and!; [lia| |].
      * rewrite Hl, decide_True, Hlp by done. simpl. by rewrite (proj2 (Z.eqb_eq _ _)) by lia.
      * intros v Hv. rewrite Hat. eapply Hi; eauto.
  - intros p' Hp'. apply Hn, Hsub, Hp'.
  - intros q p' Hq Hb. destruct (Hr q p' Hq Hb) as [Hid Hv].
    destruct (Hfin (q_key q)) as (_ & Hnx & [[Hsame _]|(_ & _ & _ & p0 & Hp0 & _ & Hid0)]); (split; [lia|]).
    + rewrite Hsame. apply Hv.
    + intros v Hqv Hk. rewrite Hk in Hp0. injection Hp0 as ->. lia.
Qed.

Lemma pub_inv_step ttl b b' : pub_inv b → pub_step ttl b b' → pub_inv b'.
Proof.
  intros Hinv Hstep. destruct Hstep as [b at_ now keys|b l1 p l2 key Hrun Hkey|b key|b l1 p l2 now success Hrun Hs
    |b now keys|b key|b l1 q l2 Hq|b l1 q l2 Hq].
  - by apply pub_inv_begin.
  - destruct Hinv as [Hc Hi Hf Hn Hr].
    assert (∀ k, writers_of k (l1 ++ mark_written key p :: l2) = writers_of k (b_running b)) as Hw.
    { intros k. by rewrite Hrun, !writers_of_app, !writers_of_cons. }
    assert (0 < writers_of key (b_running b))%nat as Hpos.
    { apply (writers_of_pos _ p); [rewrite Hrun, elem_of_app, elem_of_cons; auto|done]. }
    split; cbn [b_local b_value b_running b_retrievals].
    + intros k. rewrite Hw. apply Hc.
    + intros k lp p' v Hk Ho Hp' Hkp Hwr Hv. destruct (decide (k = key)) as [->|Hne].
      * rewrite lookup_insert_eq in Hv. injection Hv as <-. specialize (Hc key). rewrite Hk in Hc.
        destruct Hc as (Ha & _ & Hone). specialize (Hone Ho). rewrite <- Hw, writers_of_app, writers_of_cons in Ha.
        cbn [mark_written p_keys] in Ha. rewrite decide_True in Ha by done.
        apply elem_of_app in Hp' as [Hp'|[->|Hp']%elem_of_cons]; [|done|];
          pose proof (writers_of_pos key p' _ Hp' Hkp); lia.
      * rewrite lookup_insert_ne in Hv by done.
        apply elem_of_app in Hp' as [Hp'|[->|Hp']%elem_of_cons].
        -- eapply Hi; eauto. rewrite Hrun, elem_of_app; auto.
        -- apply (Hi k lp p v); try done; [rewrite Hrun, elem_of_app, elem_of_cons; auto|].
           simpl in Hwr. set_solver.
        -- eapply Hi; eauto. rewrite Hrun, elem_of_app, elem_of_cons; auto.
    + intros k p' Hk. destruct (Hf k p' Hk) as (Hid & Hnone & Hv). split_and!; [done|done|].
      intros v Hkv. destruct (decide (k = key)) as [->|Hne]; [specialize (Hc key); rewrite Hnone in Hc; lia|].
      rewrite lookup_insert_ne in Hkv by done. by apply Hv.
    + intros p' [Hp'|[->|Hp']%elem_of_cons]%elem_of_app; [apply Hn|simpl; apply Hn|apply Hn];
        rewrite Hrun, elem_of_app, elem_of_cons; auto.
    + done.
  - destruct Hinv as [Hc Hi Hf Hn Hr]. split; cbn [b_local b_value b_running b_retrievals]; try done.
    + intros k lp p v Hk Ho Hp Hkp Hw [_ Hv]%lookup_delete_Some. by eapply Hi.
    + intros k p Hk. destruct (Hf k p Hk) as (Hid & Hnone & Hv). split_and!; [done|done|].
      intros v [_ Hkv]%lookup_delete_Some. by apply Hv.
  - by apply pub_inv_finish.
  - apply pub_inv_fresh_subset; [done|apply recent_fresh_subset|done..].
  - destruct Hinv as [Hc Hi Hf Hn Hr]. split; cbn [b_local b_value b_running b_retrievals]; try done.
    intros q p [->|Hq]%elem_of_cons Hb; [|by apply Hr]. simpl in Hb. split; [by apply (Hf key)|done].
  - destruct Hinv as [Hc Hi Hf Hn Hr]. split; cbn [b_local b_value b_running b_retrievals]; try done.
    intros q' p [Hq'|[->|Hq']%elem_of_cons]%elem_of_app Hb.
    + apply Hr; [rewrite Hq, elem_of_app; auto|done].
    + simpl in Hb. destruct (Hr q p) as [Hid _]; [rewrite Hq, elem_of_app, elem_of_cons; auto|done|].
      split; [done|]. cbn [q_key q_value]. intros v [= Hv] Hk. by apply (Hf _ _ Hk).
    + apply Hr; [rewrite Hq, elem_of_app, elem_of_cons; auto|done].
  - destruct Hinv as [Hc Hi Hf Hn Hr]. split; cbn [b_local b_value b_running b_retrievals]; try done.
    intros q' p Hq' Hb. apply Hr; [|done]. rewrite Hq, elem_of_app, elem_of_cons.
    apply elem_of_app in Hq'. tauto.
Qed.

Lemma pub_inv_reachable ttl b : rtc (pub_step ttl) backend_init b → pub_inv b.
Proof.
  intros Hr. assert (∀ b0 b1, rtc (pub_step ttl) b0 b1 → pub_inv b0 → pub_inv b1) as Hind.
  { induction 1; eauto using pub_inv_step. }
  by eapply Hind, pub_inv_init.
Qed.

(** Every key of a running publication is registered: the dereference of
    [finishLocalPublication] never fails. *)
Lemma finish_registered b p k :
  pub_inv b → p ∈ b_running b → k ∈ p_keys p → is_Some (localPublications (b_local b) !! k).
Proof.
  intros [Hc _ _ _ _] Hp Hk. specialize (Hc k). pose proof (writers_of_pos k p _ Hp Hk).
  destruct (localPublications (b_local b) !! k); [done|lia].
Qed.

(** The markers of [recordStale]. *)
Lemma recordStale_lookup ttl now keys st k :
  staleAt_local k (recordStale ttl now keys st)
  = if decide (k ∈ keys) then Some now
    else match staleAt_local k st with
         | Some t => if Before t (marker_cutoff ttl now) then None else Some t
         | None => None
         end.
Proof.
  unfold staleAt_local, recordStale. cbn [localStale].
  set (m := filter _ (localStale st)).
  assert (m !! k = match localStale st !! k with
                   | Some t => if Before t (marker_cutoff ttl now) then None else Some t
                   | None => None
                   end) as <-.
  { unfold m. rewrite map_lookup_filter. destruct (localStale st !! k) as [t|]; [|done]. simpl.
    destruct (Before t (marker_cutoff ttl now)) ; done. }
  clearbody m. revert m. induction keys as [|x keys IH]; intros m; [by rewrite decide_False by apply not_elem_of_nil|].
  cbn [foldl]. rewrite IH. destruct (decide (k ∈ keys)); [by rewrite decide_True by (by right)|].
  destruct (decide (k = x)) as [->|Hne].
  - by rewrite lookup_insert_eq, decide_True by (by left).
  - rewrite lookup_insert_ne by done. rewrite decide_False; [done|]. by intros [?|?]%elem_of_cons.
Qed.

(** ** Theorems *)

Section PublicationTheorems.
Context `{HttpDate}.

(** C8: over a cache that reports nothing, a retrieved response that the
    handler judges fresh in spite of an invalidation marker was fetched or
    validated after that invalidation began: whatever publications overlapped
    the retrieval and however late the backend wrote, the evidence attached
    is the start of the fetch behind the very representation read. *)
Theorem opaque_cache_freshness ttl b q v res resourceMark m resourceKey baseKey baseStale :
  rtc (pub_step ttl) backend_init b →
  q ∈ b_retrievals b → q_value q = Some (Some v) → 0 ≤ m →
  let evidence := retrieval_evidence (q_before q) (localPublicationSnapshot (q_key q) (b_local b)) in
  (IsZero evidence = false → evidence = v) ∧
  (r_stale (markInvalidatedResource false resourceMark (Some m) (set_handlerStoredAt evidence res)
     resourceKey baseKey baseStale) = false → m < v).
Proof.
  intros Hr Hq Hv Hm evidence. apply pub_inv_reachable in Hr.
  assert (IsZero evidence = false → evidence = v) as Hev.
  { unfold evidence, retrieval_evidence. case_match eqn:E; [|done]. unbool.
    destruct (q_before q).1 as [p|] eqn:Eb; [|done]. intros _. symmetry.
    eapply (proj2 (i_retrievals b Hr q p Hq Eb)); [done|]. by simpl in *. }
  split; [done|]. clearbody evidence. unfold markInvalidatedResource.
  assert (∀ r, r_handlerStoredAt r = evidence → r_stale
    (if negb (resourceFreshAfter false r m) then MarkStale r else r) = false → m < v) as Hcase.
  { intros r Hre. unfold resourceFreshAfter. rewrite Hre. destruct (After evidence m) eqn:Ea; [|done]. intros _.
    apply After_true in Ea. rewrite <- Hev; [done|]. apply Z.eqb_neq. lia. }
  apply Hcase. by repeat case_match.
Qed.

(** Evidence is not only sound, it is obtained: when one publication of
    the keys runs alone and succeeds, every later retrieval that overlaps no
    other publication carries the start of that publication's fetch. *)
Theorem isolated_publication_proves ttl now at_ keys k st :
  k ∈ keys → 0 < at_ →
  (∀ k, k ∈ keys → localPublications st !! k = None) →
  let st' := finishLocalPublication ttl now at_ (publication_keys keys) true (beginLocalPublication keys st) in
  let snapshot := localPublicationSnapshot k st' in
  retrieval_evidence snapshot snapshot = at_ ∧
  ∀ m, m < at_ → resourceFreshAfter false (set_handlerStoredAt (retrieval_evidence snapshot snapshot)
                   (NewResourceBytes 200 EmptyString ∅)) m = true.
Proof.
  intros Hk Hat Hnone st' snapshot.
  assert (k ∈ publication_keys keys) as Hkp.
  { unfold publication_keys. by rewrite elem_of_compact, elem_of_sort_strings. }
  assert (retrieval_evidence snapshot snapshot = at_) as Hev; [|split; [done|]].
  - destruct (begin_keys (publication_keys keys) st k (NoDup_publication_keys keys)) as (Hb & Hbf & _).
    rewrite decide_True in Hb by done. rewrite (Hnone k Hk) in Hb.
    pose proof (finish_keys at_ true (publication_keys keys)
      (sweep_fresh ttl now (beginLocalPublication keys st)) k (NoDup_publication_keys keys)) as Hf.
    cbv zeta in Hf. destruct Hf as (Hl & _ & Hf).
    fold (finishLocalPublication ttl now at_ (publication_keys keys) true (beginLocalPublication keys st)) in Hl, Hf.
    fold st' in Hl, Hf. rewrite decide_True in Hl by done.
    change (localPublications (sweep_fresh ttl now (beginLocalPublication keys st)))
      with (localPublications (foldl begin_key st (publication_keys keys))) in Hl, Hf. rewrite Hb in Hl, Hf. simpl in Hl.
    destruct Hf as [[_ Hf]|(_ & _ & _ & p & Hp & Hpa & _)].
    + by destruct (Hf Hkp eq_refl).
    + subst snapshot. unfold localPublicationSnapshot, retrieval_evidence. cbn [fst snd].
      rewrite Hl, Hp. rewrite !bool_decide_eq_true_2 by done. done.
  - intros m Hm. rewrite Hev. by apply After_true.
Qed.
End PublicationTheorems.

(** ** Witnesses *)

#[local] Existing Instance stamp_date.

Definition one_key : list string := ["GET:/a"]%string.
Definition published : local := finishLocalPublication 0 example_now 7 one_key true (beginLocalPublication one_key local_init).
Definition one_writer (written : gset string) : publication := {| p_at := 7; p_keys := one_key; p_written := written |}.
Definition backend_of (st : local) (value : gmap string Time) (running : list publication) (rs : list retrieval) : backend :=
  {| b_local := st; b_value := value; b_running := running; b_retrievals := rs |}.
Definition read_back (value : option (option Time)) : retrieval :=
  {| q_key := "GET:/a"; q_before := localPublicationSnapshot "GET:/a" published; q_value := value |}.

Lemma one_publication :
  rtc (pub_step 0) backend_init
    (backend_of published (<["GET:/a"%string := 7]> ∅) [] [read_back (Some (Some 7))]).
Proof.
  eapply rtc_l; [apply (pub_begin 0 backend_init 7 7 one_key)|].
  eapply rtc_l; [apply (pub_write 0 _ [] (one_writer ∅) [] "GET:/a"); [reflexivity|by left]|].
  eapply rtc_l.
  { apply (pub_finish 0 _ [] (one_writer (p_written (mark_written "GET:/a" (one_writer ∅)))) [] example_now true); [reflexivity|].
    intros _ k [->|Hk]%elem_of_cons; [|by apply elem_of_nil in Hk]. simpl. set_solver. }
  eapply rtc_l; [apply (pub_retrieve 0 _ "GET:/a")|].
  eapply rtc_l; [apply (pub_read 0 _ [] (read_back None) []); reflexivity|]. apply rtc_refl.
Qed.

Lemma opaque_cache_freshness_witness :
  let b := backend_of published (<["GET:/a"%string := 7]> ∅) [] [read_back (Some (Some 7))] in
  let evidence := retrieval_evidence (q_before (read_back (Some (Some 7)))) (localPublicationSnapshot "GET:/a" published) in
  evidence = 7 ∧ 5 < 7.
Proof.
  assert (retrieval_evidence (q_before (read_back (Some (Some 7)))) (localPublicationSnapshot "GET:/a" published) = 7)
    as Hev by (vm_compute; reflexivity).
  split; [exact Hev|].
  refine (proj2 (opaque_cache_freshness 0 _ (read_back (Some (Some 7))) 7 (NewResourceBytes 200 EmptyString ∅) None 5
    "GET:/a" "GET:/a" false one_publication _ eq_refl _) _); [by left|lia|vm_compute; reflexivity].
Defined.

Lemma isolated_publication_proves_witness :
  "GET:/a"%string ∈ one_key ∧
  retrieval_evidence (localPublicationSnapshot "GET:/a" published) (localPublicationSnapshot "GET:/a" published) = 7.
Proof.
  split; [by left|].
  exact (proj1 (isolated_publication_proves 0 example_now 7 one_key "GET:/a" local_init
    ltac:(by left) ltac:(lia) ltac:(intros k _; apply lookup_empty))).
Defined.
