(* ===== verification/Program.v ===== *)
(** * Programs over external operations

    The request path of the handler calls the cache, the origin, the clock and
    the client.  It is written as a program over a signature [E] of such
    operations: [E X] are the operations answered by a value of [X].  A
    [monitor] watches a run: it says which answers the surroundings can give,
    which operations the program may perform, and what it records of them.
    [safe] quantifies over every answer, so a [safe] program keeps to its
    monitor whatever the other goroutines and components do. *)

From S2P Require Import Prelude.

Section Program.
Context {E : Type → Type}.

Inductive prog (A : Type) : Type :=
  | Ret (a : A)
  | Vis {X : Type} (e : E X) (k : X → prog A).
Arguments Ret {A} a.
Arguments Vis {A X} e k.

Fixpoint prog_bind {A B} (f : A → prog B) (p : prog A) : prog B :=
  match p with
  | Ret a => f a
  | Vis e k => Vis e (λ x, prog_bind f (k x))
  end.

Definition call {X} (e : E X) : prog X := Vis e Ret.

(** ** Monitors *)

Record monitor (S : Type) := {
  possible : ∀ X, E X → X → S → Prop;
  allowed : ∀ X, E X → S → Prop;
  next : ∀ X, E X → X → S → S;
}.

Context {S : Type} (M : monitor S).

Fixpoint safe {A} (p : prog A) (Q : A → S → Prop) (s : S) : Prop :=
  match p with
  | Ret a => Q a s
  | Vis e k => allowed S M _ e s ∧ ∀ x, possible S M _ e x s → safe (k x) Q (next S M _ e x s)
  end.

Lemma safe_mono {A} (p : prog A) (Q R : A → S → Prop) s :
  (∀ a s, Q a s → R a s) → safe p Q s → safe p R s.
Proof. intros HQR. revert s. induction p as [a|X e k IH]; intros s; simpl; [apply HQR|]. intros [Ha Hs]. split; auto. Qed.

Lemma safe_bind {A B} (p : prog A) (f : A → prog B) (Q : A → S → Prop) (R : B → S → Prop) s :
  safe p Q s → (∀ a s, Q a s → safe (f a) R s) → safe (prog_bind f p) R s.
Proof.
  intros Hp Hf. revert s Hp. induction p as [a|X e k IH]; intros s; simpl; [by apply Hf|].
  intros [Ha Hs]. split; auto.
Qed.

(** ** Runs

    A run is fixed by what the surroundings answer: [steps p tr p'] tells that
    [p] performs the operations of [tr], with their answers, and goes on as
    [p']; it is complete when [p'] is a result. *)

Inductive event : Type := | Event {X : Type} (e : E X) (x : X).

Inductive steps {A} : prog A → list event → prog A → Prop :=
  | steps_nil p : steps p [] p
  | steps_vis X (e : E X) k x tr p' : steps (k x) tr p' → steps (Vis e k) (Event e x :: tr) p'.

Definition observe (s : S) (v : event) : S := match v with Event e x => next S M _ e x s end.
Definition observe_all (tr : list event) (s : S) : S := foldl observe s tr.

(** The answers of the surroundings are possible ones. *)
Fixpoint feasible (tr : list event) (s : S) : Prop :=
  match tr with
  | [] => True
  | Event e x as v :: tr => possible S M _ e x s ∧ feasible tr (observe s v)
  end.

Lemma safe_steps {A} (p p' : prog A) Q s tr :
  safe p Q s → steps p tr p' → feasible tr s → safe p' Q (observe_all tr s).
Proof.
  intros Hs Hr. revert s Hs. induction Hr as [p|X e k x tr p' Hr IH]; intros s; simpl; [done|].
  intros [Ha Hs] [Hp Hf]. apply IH; [by apply Hs|done].
Qed.

Lemma steps_cut {A} (p p' : prog A) X (e : E X) x tr1 tr2 :
  steps p (tr1 ++ Event e x :: tr2) p' → ∃ k, steps p tr1 (Vis e k).
Proof.
  intros Hs. remember (tr1 ++ Event e x :: tr2) as tr eqn:Htr. revert tr1 Htr.
  induction Hs as [p|Y e0 k0 y tr p' Hs IH]; intros tr1 Htr; [by destruct tr1|].
  destruct tr1 as [|v tr1].
  - assert (match [] ++ Event e x :: tr2 with
            | Event e' _ :: _ => ∃ k, steps (Vis e0 k0) [] (Vis e' k)
            | [] => True
            end); [|done].
    rewrite <- Htr. eexists. constructor.
  - rewrite <- app_comm_cons in Htr. pose proof (f_equal tail Htr) as Ht. simpl in Ht.
    destruct (IH tr1 Ht) as [k Hk]. exists k.
    assert (v = Event e0 y) as -> by (by apply (f_equal head) in Htr; simpl in Htr; apply (inj Some) in Htr).
    by constructor.
Qed.

Lemma feasible_app tr1 tr2 s : feasible (tr1 ++ tr2) s → feasible tr1 s.
Proof. revert s. induction tr1 as [|[X e x] tr1 IH]; intros s; simpl; [done|]. intros [? ?]. split; eauto. Qed.

(** An operation performed by a safe program was allowed. *)
Lemma safe_allowed {A} (p p' : prog A) Q s tr1 tr2 X (e : E X) x :
  safe p Q s → steps p (tr1 ++ Event e x :: tr2) p' → feasible (tr1 ++ Event e x :: tr2) s →
  allowed S M _ e (observe_all tr1 s).
Proof.
  intros Hs [k Hk]%steps_cut Hf%feasible_app. by destruct (safe_steps _ _ _ _ _ Hs Hk Hf).
Qed.

(** Executable runs: the surroundings are a state machine, which may leave an
    operation unanswered. *)
Fixpoint execute {A W} (env : ∀ X, E X → W → option (X * W)) (p : prog A) (w : W) : list event * prog A :=
  match p with
  | Ret a => ([], Ret a)
  | Vis e k =>
      match env _ e w with
      | Some (x, w) => let '(tr, p) := execute env (k x) w in (Event e x :: tr, p)
      | None => ([], p)
      end
  end.

Lemma execute_steps {A W} (env : ∀ X, E X → W → option (X * W)) (p : prog A) w :
  steps p (execute env p w).1 (execute env p w).2.
Proof.
  revert w. induction p as [a|X e k IH]; intros w; simpl; [constructor|].
  destruct (env X e w) as [[x w']|]; [|constructor]. specialize (IH x w').
  destruct (execute env (k x) w') as [tr p']. by constructor.
Qed.
End Program.

Arguments prog : clear implicits.
Arguments Ret {E A} a.
Arguments Vis {E A X} e k.

#[export] Instance prog_mret E : MRet (prog E) := λ A a, Ret a.
#[export] Instance prog_mbind E : MBind (prog E) := λ A B f p, prog_bind f p.

(** Symbolic execution of a [safe] goal, operation by operation. *)
Ltac prog_simpl := cbn [safe prog_bind mbind prog_mbind mret prog_mret call].
