(* ===== verification/Lookup.v ===== *)
(** * Lookup of a stored response ([handler.go], [handler_publication.go])

    The operations through which the handler acts on its surroundings, and the
    lookup: the base entry (with the GET fallback of a HEAD request), its Vary
    variant, the judgement against the invalidation markers and the evidence
    attached to each retrieval. *)

From S2P Require Import Prelude GoStrings GoTime GoQuote GoHttp GoUrl CacheControl Keys Resource Policy Validator Publication Program.
Import Headers.

(** ** Operations *)

(** The configuration of a handler: which optional interfaces its cache
    implements, and the options of [HandlerOptions] the request path reads. *)
Record Server := {
  sv_handler : Handler;
  sv_staleAtChecker : bool;
  sv_cacheRechecker : bool;
  sv_coordinationRetriever : bool;
  sv_requestKey : option (Request → option Key);
  sv_missCoordinator : bool;
  sv_metrics : bool;
}.

(** [Retrieve], [RetrieveForRecheck], [retrieveUncounted] *)
Inductive retriever := Retrieve | RetrieveForRecheck | RetrieveUncounted.

(** A retrieved resource is named by [id]: it must be closed. *)
Inductive retrieved :=
  | Found (id : nat) (res : Resource)
  | NotFoundInCache
  | RetrieveFailed.

(** What the origin answered to a validation: the end of the client's
    context, or the first final status and the header snapshot. *)
Inductive exchanged := ExchangeCancelled | Exchanged (status : Z) (snapshot : Header).

(** [MissCoordinator.Acquire]: an error, with or without a lease, a lease
    without a context, or a lease. *)
Inductive acquired := AcquireFailed (lease : bool) | NoLeaseContext (lease : bool) | Acquired.

(** What is released when a fill has ended: the flight, the lease. *)
Record completion := { co_flight : option (string * nat); co_lease : bool }.

Inductive metric := CacheSkip | CacheMiss | CacheHit.

Inductive hop : Type → Type :=
  | Clock : hop Time
  | ContextErr : hop bool
  | RetrieveKey (m : retriever) (key : string) : hop retrieved
  | CloseResource (id : nat) : hop unit
  | PublicationSnapshot (key : string) : hop (option localFreshProof * bool)
  | StaleAtKey (key : string) : hop (option Time)
  | StaleSnapshotKeys (keys : list string) : hop (gmap string Time)
  | RecordStale (keys : list string) : hop unit
  | CacheInvalidate (keys : list string) : hop unit
  | BeginPublication (at_ : Time) (keys : list string) : hop unit
  | FinishPublication (at_ : Time) (keys : list string) (success : bool) : hop unit
  | CacheFreshen (res : Resource) (keys : list string) : hop bool
  | StartExchange (out : Request) : hop exchanged
  | DrainExchange : hop bool
  | CloseExchange : hop unit
  | DeliverExchange (storage : cacheRequest) (original : Request) (start : Time) : hop unit
  | PassUpstream (r : cacheRequest) (complete : option completion) : hop unit
  | PipeUpstream (r : cacheRequest) : hop unit
  | HttpError (status : Z) : hop unit
  | SetClientHeader (name value : string) : hop unit
  | ServeResource (id : nat) (res : Resource) (r : cacheRequest) : hop unit
  | ClaimMiss (key : string) : hop (nat * bool)
  | FinishMiss (key : string) (flight : nat) : hop unit
  | AwaitFlight (flight : nat) : hop bool
  | AcquireLease (key : string) : hop acquired
  | LeaseErr : hop bool
  | CloseLease : hop unit
  | RecordMetric (m : metric) (method : string) : hop unit
  | OutOfFuel : hop Empty_set.

Definition task : Type → Type := prog hop.

Definition when (b : bool) (p : task unit) : task unit := if b then p else mret tt.
Definition set_discovery (discovery served : string) (r : cacheRequest) : cacheRequest :=
  {| cr_Request := cr_Request r; cr_Key := cr_Key r; cr_Time := cr_Time r; cr_CacheControl := cr_CacheControl r;
     cr_discoveryKey := discovery; cr_servedKey := served |}.

(** The outcome of a lookup. *)
Inductive looked_up := LookupFound (id : nat) (res : Resource) | LookupMiss | LookupError.

Section Lookup.
Context `{D : HttpDate, U : Unicode} (sv : Server).

(** [Handler.generationRetriever] around [retrieve]. *)
Definition generationRetriever (m : retriever) (key : string) : task retrieved :=
  if sv_staleAtChecker sv then call (RetrieveKey m key)
  else
    before ← call (PublicationSnapshot key);
    got ← call (RetrieveKey m key);
    match got with
    | Found id res =>
        after ← call (PublicationSnapshot key);
        mret (Found id (set_handlerStoredAt (retrieval_evidence before after) res))
    | _ => mret got
    end.

(** [Handler.markInvalidatedResource], with its reads of the markers. *)
Definition mark_invalidated (res : Resource) (resourceKey baseKey : string) (baseStale : bool) : task Resource :=
  resourceMark ← (if resourceKey <>?s baseKey then call (StaleAtKey resourceKey) else mret None);
  baseMark ← call (StaleAtKey baseKey);
  mret (markInvalidatedResource (sv_staleAtChecker sv) resourceMark baseMark res resourceKey baseKey baseStale).

(** [Handler.lookupBaseUsing]: the request with its keys, the key looked up
    and the outcome. *)
Definition lookupBaseUsing (m : retriever) (req : cacheRequest) : task (cacheRequest * Key * retrieved) :=
  let req := set_discovery EmptyString EmptyString req in
  let lookupKey := cr_Key req in
  got ← generationRetriever m (Key_String lookupKey);
  match got with
  | NotFoundInCache =>
      if req_Method (cr_Request req) =?s "HEAD" then
        let lookupKey := ForMethod (cr_Key req) "GET" in
        let baseKey := Key_String lookupKey in
        got ← generationRetriever m baseKey;
        match got with
        | Found id res =>
            if hasExplicitExpiration res (Shared (sv_handler sv)) && request_isCacheable req then
              mret (set_discovery baseKey baseKey req, lookupKey, got)
            else
              call (CloseResource id);; mret (req, lookupKey, NotFoundInCache)
        | _ => mret (req, lookupKey, got)
        end
      else mret (req, lookupKey, got)
  | Found _ _ => mret (set_discovery (Key_String lookupKey) EmptyString req, lookupKey, got)
  | RetrieveFailed => mret (req, lookupKey, got)
  end.

(** [Handler.lookupVaryResource] *)
Definition lookupVaryResource (m : retriever) (req : cacheRequest) (id : nat) (base : Resource) (lookupKey : Key)
    (vary : string) : task (cacheRequest * looked_up) :=
  if varyWildcard vary then call (CloseResource id);; mret (req, LookupMiss)
  else
    let baseStale := r_stale base in
    let baseKey := Key_String lookupKey in
    let variantKey := Key_String (Key_Vary lookupKey vary (cr_Request req)) in
    got ← generationRetriever m variantKey;
    call (CloseResource id);;
    match got with
    | Found vid varied =>
        varied ← mark_invalidated varied variantKey baseKey baseStale;
        mret (set_discovery (cr_discoveryKey req) variantKey req, LookupFound vid varied)
    | NotFoundInCache => mret (req, LookupMiss)
    | RetrieveFailed => mret (req, LookupError)
    end.

(** [Handler.lookupUsing] *)
Definition lookupUsing (m : retriever) (req : cacheRequest) : task (cacheRequest * looked_up) :=
  '(req, lookupKey, got) ← lookupBaseUsing m req;
  match got with
  | NotFoundInCache => mret (req, LookupMiss)
  | RetrieveFailed => mret (req, LookupError)
  | Found id res =>
      let baseKey := Key_String lookupKey in
      let req := set_discovery baseKey (cr_servedKey req) req in
      res ← mark_invalidated res baseKey baseKey false;
      let vary := combinedHeaderValues (r_header res) "Vary" in
      if nonempty vary then lookupVaryResource m req id res lookupKey vary
      else mret (req, LookupFound id res)
  end.

(** [Handler.lookup], [Handler.recheckMiss] *)
Definition lookup_resource (req : cacheRequest) : task (cacheRequest * looked_up) := lookupUsing Retrieve req.
Definition recheckMiss (req : cacheRequest) : task (cacheRequest * looked_up) :=
  lookupUsing (if sv_cacheRechecker sv then RetrieveForRecheck
               else if sv_coordinationRetriever sv then RetrieveUncounted else Retrieve) req.
End Lookup.
