(* ===== verification/Serve.v ===== *)
(** * The request path ([handler.go], [conditional_response.go], [miss_coordinator.go])

    [ServeHTTP] as a program over the operations of [Lookup]: the admission of
    the request, the lookup, the coalescing of misses, the validation of a
    stored response at the origin, its refresh, and the fallbacks to a full
    fetch.  The three streaming operations ([PassUpstream], [PipeUpstream],
    [DeliverExchange]) are single operations here. *)

From S2P Require Import Prelude GoStrings GoTime GoQuote GoHttp GoUrl CacheControl Keys Resource Policy Validator Publication Program Lookup.
Import Headers.

Definition CacheHeader : string := "X-Cache".

Definition with_request (req : Request) (t : Time) (r : cacheRequest) : cacheRequest :=
  {| cr_Request := req; cr_Key := cr_Key r; cr_Time := t; cr_CacheControl := cr_CacheControl r;
     cr_discoveryKey := cr_discoveryKey r; cr_servedKey := cr_servedKey r |}.

Definition with_key (k : Key) (r : cacheRequest) : cacheRequest :=
  {| cr_Request := cr_Request r; cr_Key := k; cr_Time := cr_Time r; cr_CacheControl := cr_CacheControl r;
     cr_discoveryKey := cr_discoveryKey r; cr_servedKey := cr_servedKey r |}.

Section Serve.
Context `{D : HttpDate, U : Unicode} (sv : Server).

Definition metrics (m : metric) (method : string) : task unit := when (sv_metrics sv) (call (RecordMetric m method)).

(** [Handler.recordStale]; [Handler.fenceValidationKeys] *)
Definition record_stale (keys : list string) : task unit :=
  when (negb (sv_staleAtChecker sv)) (call (RecordStale keys)).
Definition fence (keys : list string) : task unit := record_stale keys;; call (CacheInvalidate keys).
Definition fenceValidationKeys (r : cacheRequest) : task unit := fence (validationKeys r).

(** [Handler.freshenResource]: [true] is success. *)
Definition freshenResource (res : Resource) (keys : list string) : task bool :=
  if sv_staleAtChecker sv then call (CacheFreshen res keys)
  else
    now ← (if IsZero (r_RequestTime res) then call Clock else mret (r_RequestTime res));
    call (BeginPublication now (publication_keys keys));;
    ok ← call (CacheFreshen res keys);
    call (FinishPublication now (publication_keys keys) ok);;
    mret ok.

(** [Handler.refetchOriginalResponse] *)
Definition refetchOriginalResponse (r : cacheRequest) : task unit :=
  fenceValidationKeys r;;
  now ← call Clock;
  call (PassUpstream (with_request (cr_Request r) now r) None).

(** [Handler.refetchCachedResponse] *)
Definition refetchCachedResponse (r : cacheRequest) (id : nat) : task unit :=
  call (CloseResource id);; refetchOriginalResponse r.

(** [Handler.streamVaryRebuild] *)
Definition streamVaryRebuild (rebuilt : cacheRequest) (original : Request) : task unit :=
  got ← call (StartExchange (cr_Request rebuilt));
  match got with
  | ExchangeCancelled => call CloseExchange
  | Exchanged status snapshot =>
      if varyChangedClientValidators (combinedHeaderValues snapshot "Vary") original (cr_Request rebuilt) then
        call CloseExchange;;
        refetchOriginalResponse (with_request original (cr_Time rebuilt) rebuilt)
      else
        call (DeliverExchange rebuilt original (cr_Time rebuilt));; call CloseExchange
  end.

(** [Handler.refetchVaryResponse] *)
Definition refetchVaryResponse (r : cacheRequest) (vary : string) : task unit :=
  if varyUsesClientValidators vary then refetchOriginalResponse r
  else
    fenceValidationKeys r;;
    let header := Del (Del (req_Header (cr_Request r)) "If-None-Match") "If-Modified-Since" in
    now ← call Clock;
    streamVaryRebuild (with_request (with_header (cr_Request r) header) now r) (cr_Request r).

(** [Handler.refetchChangedVaryResponse] *)
Definition refetchChangedVaryResponse (r : cacheRequest) (id : nat) (res : Resource) : task unit :=
  let vary := combinedHeaderValues (r_header res) "Vary" in
  call (CloseResource id);; refetchVaryResponse r vary.

(** The result of [validateUpstreamResponse]: the resource as it leaves it,
    or a response already served. *)
Inductive validation := Invalid | Valid (res : Resource) | Served.

(** [applyValidationResponse], with its reads of the context and the clock.
    The code reads an instant only on the paths that use it; the model always
    reads the four of the longest path, which it counts as operations. *)
Definition apply_validation (res : Resource) (status : Z) (header : Header) (start : Time) : task validation :=
  cancelled ← call ContextErr;
  n1 ← call Clock; n2 ← call Clock; n3 ← call Clock; n4 ← call Clock;
  mret match applyValidationResponse n1 n2 n3 n4 cancelled res status header start with
       | Some res => Valid res
       | None => Invalid
       end.

(** [Handler.validateUpstreamResponse] after the answer of the origin. *)
Definition judge_validation (req : cacheRequest) (res : Resource) (out : Request) (start : Time) (status : Z)
    (snapshot : Header) : task validation :=
  if status =? 304 then
    drained ← call DrainExchange;
    if negb drained then call CloseExchange;; mret Invalid
    else v ← apply_validation res status snapshot start; call CloseExchange;; mret v
  else if retryOriginalPreconditions status (cr_Request req) out then
    fenceValidationKeys req;; call CloseExchange;; mret Invalid
  else if varyChangedClientValidators (combinedHeaderValues snapshot "Vary") (cr_Request req) out then
    call CloseExchange;; mret Invalid
  else
    n1 ← call Clock; n3 ← call Clock;
    if fullResponseVaryChanged n1 n3 (sv_handler sv) (with_request out start req) status (r_header res) snapshot then
      call CloseExchange;;
      refetchVaryResponse req (combinedHeaderValues snapshot "Vary");; mret Served
    else
      call (DeliverExchange (with_request out start req) (cr_Request req) start);;
      call CloseExchange;; mret Served.

(** [Handler.validateUpstreamResponse] *)
Definition validateUpstreamResponse (req : cacheRequest) (res : Resource) : task validation :=
  match conditionalRequest (cr_Request req) res with
  | None => mret Invalid
  | Some out =>
      cancelled ← call ContextErr;
      if cancelled : bool then mret Invalid
      else
        fence [validationResourceKey req];;
        cancelled ← call ContextErr;
        if cancelled : bool then mret Invalid
        else
          start ← call Clock;
          got ← call (StartExchange out);
          match got with
          | ExchangeCancelled => call CloseExchange;; mret Invalid
          | Exchanged status snapshot => judge_validation req res out start status snapshot
          end
  end.

(** [Handler.freshenValidatedResponse] *)
Definition superseded (res : Resource) (snapshot : gmap string Time) : bool :=
  existsb (λ '(_, staleAt), negb (ReceivedAfter res staleAt)) (map_to_list snapshot).

Definition freshenValidatedResponse (res : Resource) (keys : list string) : task (option Resource) :=
  ok ← freshenResource res keys;
  if negb ok then mret None
  else
    snapshot ← call (StaleSnapshotKeys keys);
    mret (if superseded res snapshot then None else Some (markFresh res)).

(** [Handler.validateCachedResponse]: [Some] is the true result. *)
Definition validateCachedResponse (req : cacheRequest) (id : nat) (res : Resource) : task (option Resource) :=
  if cc_Has (cr_CacheControl req) "only-if-cached" then
    call (CloseResource id);; call (HttpError 504);; mret None
  else
    let previousVary := combinedHeaderValues (r_header res) "Vary" in
    v ← validateUpstreamResponse req res;
    match v with
    | Served => call (CloseResource id);; mret None
    | Invalid => refetchCachedResponse req id;; mret None
    | Valid res =>
        let varyChanged := negb (sameVaryFields previousVary (combinedHeaderValues (r_header res) "Vary")) in
        n1 ← call Clock; n3 ← call Clock;
        if negb (isCacheable n1 n3 (sv_handler sv) res req) || varyChanged then
          (if varyChanged then refetchChangedVaryResponse req id res else refetchCachedResponse req id);; mret None
        else
          let res := if Shared (sv_handler sv) then RemovePrivateHeaders res else res in
          fresh ← freshenValidatedResponse res (validationKeys req);
          match fresh with
          | None => refetchCachedResponse req id;; mret None
          | Some res => mret (Some res)
          end
    end.

(** [Handler.serveCachedResponse] *)
Definition serveCachedResponse (req : cacheRequest) (id : nat) (res : Resource) : task unit :=
  n1 ← call Clock; n2 ← call Clock; n3 ← call Clock;
  reuse ← (if needsValidation n1 n2 n3 (sv_handler sv) res req then validateCachedResponse req id res
           else mret (Some res));
  match reuse with
  | None => mret tt
  | Some res =>
      let res := set_header (Set_ (r_header res) CacheHeader "HIT") (r_cc res) res in
      metrics CacheHit (req_Method (cr_Request req));;
      call (ServeResource id res req);;
      call (CloseResource id)
  end.

(** ** Misses *)

(** The completion of a leader's fill, called at once. *)
Definition complete_now (c : completion) : task unit :=
  when (co_lease c) (call CloseLease);;
  match co_flight c with Some (key, flight) => call (FinishMiss key flight) | None => mret tt end.

(** [Handler.leadMiss]: [Some] is a resource to serve. *)
Definition coordination_unavailable (complete : completion) : task unit :=
  complete_now complete;;
  cancelled ← call ContextErr;
  when (negb cancelled) (call (HttpError 503)).

Definition leadMiss (r : cacheRequest) (flight : string * nat) : task (cacheRequest * option (nat * Resource)) :=
  if negb (sv_missCoordinator sv) then
    call (PassUpstream r (Some {| co_flight := Some flight; co_lease := false |}));; mret (r, None)
  else
    got ← call (AcquireLease (Key_String (cr_Key r)));
    match got with
    | AcquireFailed lease | NoLeaseContext lease =>
        coordination_unavailable {| co_flight := Some flight; co_lease := lease |};; mret (r, None)
    | Acquired =>
        let complete := {| co_flight := Some flight; co_lease := true |} in
        '(r, found) ← recheckMiss sv r;
        match found with
        | LookupFound id res => complete_now complete;; mret (r, Some (id, res))
        | LookupError => complete_now complete;; call (HttpError 500);; mret (r, None)
        | LookupMiss =>
            expired ← call LeaseErr;
            if expired : bool then coordination_unavailable complete;; mret (r, None)
            else call (PassUpstream r (Some complete));; mret (r, None)
        end
    end.

(** The loop of [Handler.resolveMiss]; [fuel] bounds its turns: one for each
    fill waited for, and the one that does not wait. *)
Fixpoint resolve_loop (fuel : nat) (r : cacheRequest) : task (cacheRequest * option (nat * Resource)) :=
  match fuel with
  | O => Vis OutOfFuel (λ e : Empty_set, match e with end)
  | S fuel =>
      cancelled ← call ContextErr;
      if cancelled : bool then mret (r, None)
      else
        '(flight, leader) ← call (ClaimMiss (Key_String (cr_Key r)));
        if leader : bool then leadMiss r (Key_String (cr_Key r), flight)
        else
          finished ← call (AwaitFlight flight);
          if negb finished then mret (r, None)
          else
            '(r, found) ← recheckMiss sv r;
            match found with
            | LookupFound id res => mret (r, Some (id, res))
            | _ =>
                if sv_missCoordinator sv then resolve_loop fuel r
                else call (PassUpstream r None);; mret (r, None)
            end
  end.

(** [Handler.resolveMiss] *)
Definition resolveMiss (fuel : nat) (r : cacheRequest) : task (cacheRequest * option (nat * Resource)) :=
  if cc_Has (cr_CacheControl r) "only-if-cached" then call (HttpError 504);; mret (r, None)
  else
    metrics CacheMiss (req_Method (cr_Request r));;
    resolve_loop fuel r.

(** ** [Handler.ServeHTTP] *)

Definition serve_request (fuel : nat) (r : cacheRequest) : task unit :=
  if negb (request_isCacheable r) then
    call (SetClientHeader CacheHeader "SKIP");;
    metrics CacheSkip EmptyString;;
    call (PipeUpstream r)
  else
    '(r, found) ← lookup_resource sv r;
    match found with
    | LookupError => call (HttpError 500)
    | LookupFound id res => serveCachedResponse r id res
    | LookupMiss =>
        '(r, missed) ← resolveMiss fuel r;
        match missed with
        | Some (id, res) => serveCachedResponse r id res
        | None => mret tt
        end
    end.

Definition ServeHTTP (fuel : nat) (r : Request) : task unit :=
  now ← call Clock;
  match newCacheRequest now r with
  | None => call (HttpError 400)
  | Some cReq =>
      match sv_requestKey sv with
      | None => serve_request fuel cReq
      | Some requestKey =>
          match requestKey r with
          | None => call (HttpError 400)
          | Some key => serve_request fuel (with_key key cReq)
          end
      end
  end.
End Serve.
