(* ===== verification/Conduct.v ===== *)
(** * The conduct of the request path

    What every run of [ServeHTTP] does with the objects it is entrusted with,
    whatever the cache, the origin, the coordinator and the other requests
    answer: each retrieved resource is closed, once, and not used after; the
    client gets one answer; a claimed flight, a lease and an exchange with the
    origin are released or handed over. *)

From S2P Require Import Prelude GoStrings GoTime GoQuote GoHttp GoUrl CacheControl Keys Resource Policy Validator Publication Program Lookup Serve.
Import Headers.

(** What a run holds. *)
Record conduct := Conduct {
  opened : gset nat;
  answered : bool;
  cancelled : bool;
  held_flight : option (string * nat);
  held_lease : bool;
  exchanging : bool;
}.

Definition conduct_init : conduct := Conduct ∅ false false None false false.

(** A backend never gives the same resource twice. *)
Definition conduct_possible {X} (e : hop X) : X → conduct → Prop :=
  match e in hop X return X → conduct → Prop with
  | RetrieveKey _ _ => λ x s, match x with Found id _ => id ∉ opened s | _ => True end
  | _ => λ _ _, True
  end.

Definition conduct_allowed (coordinated : bool) {X} (e : hop X) (s : conduct) : Prop :=
  match e with
  | CloseResource id => id ∈ opened s
  | ServeResource id _ _ => id ∈ opened s ∧ answered s = false
  | HttpError _ | PipeUpstream _ => answered s = false
  | PassUpstream _ complete =>
      answered s = false ∧
      match complete with
      | None => held_flight s = None ∧ held_lease s = false
      | Some c => held_flight s = co_flight c ∧ held_lease s = co_lease c
      end
  | StartExchange _ => exchanging s = false ∧ answered s = false
  | DrainExchange => exchanging s = true
  | DeliverExchange _ _ _ => exchanging s = true ∧ answered s = false
  | ClaimMiss _ => held_flight s = None
  | FinishMiss key flight => held_flight s = Some (key, flight)
  | AwaitFlight _ => held_flight s = None
  | AcquireLease _ => held_lease s = false
  | CloseLease => held_lease s = true
  | OutOfFuel => coordinated = true
  | _ => True
  end.

Definition conduct_next {X} (e : hop X) : X → conduct → conduct :=
  match e in hop X return X → conduct → conduct with
  | RetrieveKey _ _ => λ x s,
      match x with
      | Found id _ => Conduct ({[ id ]} ∪ opened s) (answered s) (cancelled s) (held_flight s) (held_lease s) (exchanging s)
      | _ => s
      end
  | CloseResource id => λ _ s,
      Conduct (opened s ∖ {[ id ]}) (answered s) (cancelled s) (held_flight s) (held_lease s) (exchanging s)
  | ContextErr => λ x s,
      Conduct (opened s) (answered s) (cancelled s || x) (held_flight s) (held_lease s) (exchanging s)
  | AwaitFlight _ => λ x s,
      Conduct (opened s) (answered s) (cancelled s || negb x) (held_flight s) (held_lease s) (exchanging s)
  | ServeResource _ _ _ | HttpError _ | PipeUpstream _ | DeliverExchange _ _ _ => λ _ s,
      Conduct (opened s) true (cancelled s) (held_flight s) (held_lease s) (exchanging s)
  | PassUpstream _ _ => λ _ s, Conduct (opened s) true (cancelled s) None false (exchanging s)
  | StartExchange _ => λ x s,
      Conduct (opened s) (answered s)
        (cancelled s || match x with ExchangeCancelled => true | Exchanged _ _ => false end)
        (held_flight s) (held_lease s) true
  | CloseExchange => λ _ s, Conduct (opened s) (answered s) (cancelled s) (held_flight s) (held_lease s) false
  | ClaimMiss key => λ x s,
      Conduct (opened s) (answered s) (cancelled s) (if x.2 then Some (key, x.1) else None) (held_lease s) (exchanging s)
  | FinishMiss _ _ => λ _ s, Conduct (opened s) (answered s) (cancelled s) None (held_lease s) (exchanging s)
  | AcquireLease _ => λ x s,
      Conduct (opened s) (answered s) (cancelled s) (held_flight s)
        (match x with AcquireFailed b | NoLeaseContext b => b | Acquired => true end) (exchanging s)
  | CloseLease => λ _ s, Conduct (opened s) (answered s) (cancelled s) (held_flight s) false (exchanging s)
  | _ => λ _ s, s
  end.

Definition conduct_monitor (coordinated : bool) : monitor (E := hop) conduct :=
  {| possible := @conduct_possible; allowed := @conduct_allowed coordinated; next := @conduct_next |}.

Ltac run_simpl :=
  cbn [safe prog_bind mbind prog_mbind mret prog_mret call possible allowed next conduct_monitor
       conduct_possible conduct_allowed conduct_next opened answered cancelled held_flight held_lease exchanging
       co_flight co_lease fst snd when].

(** Execute the operations one after the other; the answers are introduced
    and the conditions of the program split. *)
Ltac run_step :=
  run_simpl;
  match goal with
  | |- _ ∧ (∀ _, _) => split; [try done|intros ? ?]
  end.

Section Conduct.
Context `{D : HttpDate, U : Unicode} (sv : Server).
Abbreviation safe_ p Q s := (safe (conduct_monitor (sv_missCoordinator sv)) p Q s).

Lemma generationRetriever_conduct m key o a c f l e :
  safe_ (generationRetriever sv m key)
    (λ got s, match got with
              | Found id _ => id ∉ o ∧ s = Conduct ({[ id ]} ∪ o) a c f l e
              | _ => s = Conduct o a c f l e
              end) (Conduct o a c f l e).
Proof.
  unfold generationRetriever. destruct (sv_staleAtChecker sv).
  - run_step. run_simpl. by destruct x.
  - run_step. run_step. destruct x0; [run_step|..]; run_simpl; done.
Qed.

Lemma mark_invalidated_conduct res rk bk bs s : safe_ (mark_invalidated sv res rk bk bs) (λ _ s', s' = s) s.
Proof. unfold mark_invalidated. destruct (rk <>?s bk); [run_step|]; run_step; by run_simpl. Qed.

(** What a lookup leaves open. *)
Definition lookup_post a c f l e (found : looked_up) (s : conduct) : Prop :=
  match found with
  | LookupFound id _ => s = Conduct {[ id ]} a c f l e
  | _ => s = Conduct ∅ a c f l e
  end.

Lemma lookupBaseUsing_conduct m req a c f l e :
  safe_ (lookupBaseUsing sv m req)
    (λ '(_, _, got) s, match got with
                       | Found id _ => s = Conduct {[ id ]} a c f l e
                       | _ => s = Conduct ∅ a c f l e
                       end) (Conduct ∅ a c f l e).
Proof.
  unfold lookupBaseUsing. cbv zeta. run_simpl.
  eapply safe_bind; [apply generationRetriever_conduct|]. intros [id res| |] s; [intros [_ ->]|intros ->..].
  - run_simpl. by rewrite union_empty_r_L.
  - destruct (_ =?s _); [|by run_simpl]. run_simpl.
    eapply safe_bind; [apply generationRetriever_conduct|]. intros [id res| |] s; [intros [_ ->]|intros ->..]; try done.
    destruct (_ && _); [run_simpl; by rewrite union_empty_r_L|].
    run_step; [set_solver|]. run_simpl. f_equal. set_solver.
  - done.
Qed.

Lemma lookupVaryResource_conduct m req id base k vary a c f l e :
  safe_ (lookupVaryResource sv m req id base k vary) (λ '(_, found) s, lookup_post a c f l e found s)
    (Conduct {[ id ]} a c f l e).
Proof.
  unfold lookupVaryResource. cbv zeta. destruct (varyWildcard vary).
  - run_step; [set_solver|]. run_simpl. unfold lookup_post. f_equal. set_solver.
  - run_simpl. eapply safe_bind; [apply generationRetriever_conduct|].
    intros [vid res| |] s; [intros [Hne ->]|intros ->..]; (run_step; [set_solver|]).
    + run_simpl. eapply safe_bind; [apply mark_invalidated_conduct|]. intros r s ->. run_simpl. unfold lookup_post.
      f_equal. set_solver.
    + run_simpl. unfold lookup_post. f_equal. set_solver.
    + run_simpl. unfold lookup_post. f_equal. set_solver.
Qed.

Lemma lookupUsing_conduct m req a c f l e :
  safe_ (lookupUsing sv m req) (λ '(_, found) s, lookup_post a c f l e found s) (Conduct ∅ a c f l e).
Proof.
  unfold lookupUsing. run_simpl. eapply safe_bind; [apply lookupBaseUsing_conduct|].
  intros [[r k] [id res| |]] s Hs; [|done..]. subst s. cbv zeta. run_simpl.
  eapply safe_bind; [apply mark_invalidated_conduct|]. intros res' s ->.
  destruct (nonempty _); [apply lookupVaryResource_conduct|done].
Qed.

(** ** The validation *)

Lemma metrics_conduct m method s : safe_ (metrics sv m method) (λ _ s', s' = s) s.
Proof. unfold metrics. destruct (sv_metrics sv); [run_step|]; by run_simpl. Qed.

Lemma fence_conduct keys s : safe_ (fence sv keys) (λ _ s', s' = s) s.
Proof.
  unfold fence, record_stale. destruct (sv_staleAtChecker sv); cbn [negb when].
  - run_step. by run_simpl.
  - run_step. run_step. by run_simpl.
Qed.

Lemma freshenResource_conduct res keys s : safe_ (freshenResource sv res keys) (λ _ s', s' = s) s.
Proof.
  unfold freshenResource. destruct (sv_staleAtChecker sv); [run_step; by run_simpl|].
  destruct (IsZero _); [run_step|]; run_step; run_step; run_step; by run_simpl.
Qed.

Lemma refetchOriginalResponse_conduct r o c e :
  safe_ (refetchOriginalResponse sv r) (λ _ s', s' = Conduct o true c None false e) (Conduct o false c None false e).
Proof.
  unfold refetchOriginalResponse, fenceValidationKeys. run_simpl. eapply safe_bind; [apply fence_conduct|].
  intros _ s ->. run_step. run_step. by run_simpl.
Qed.

Lemma refetchCachedResponse_conduct r id c e :
  safe_ (refetchCachedResponse sv r id) (λ _ s', s' = Conduct ∅ true c None false e)
    (Conduct {[ id ]} false c None false e).
Proof.
  unfold refetchCachedResponse. run_step; [set_solver|]. run_simpl.
  replace ({[ id ]} ∖ {[ id ]} : gset nat) with (∅ : gset nat) by set_solver. apply refetchOriginalResponse_conduct.
Qed.

(** A response was given, unless the client had gone. *)
Definition settled (o : gset nat) (s : conduct) : Prop :=
  ∃ a c, s = Conduct o a c None false false ∧ (a = true ∨ c = true).

Lemma streamVaryRebuild_conduct r original o c :
  safe_ (streamVaryRebuild sv r original) (λ _, settled o) (Conduct o false c None false false).
Proof.
  unfold streamVaryRebuild. run_step. destruct x as [|status snapshot].
  - run_step. run_simpl. do 2 eexists. split; [done|right]. apply orb_true_r.
  - rewrite orb_false_r. destruct (varyChangedClientValidators _ _ _).
    + run_step. run_simpl. eapply safe_mono; [|apply refetchOriginalResponse_conduct].
      intros _ s ->. do 2 eexists. split; [done|by left].
    + run_step. run_step. run_simpl. do 2 eexists. split; [done|by left].
Qed.

Lemma refetchVaryResponse_conduct r vary o c :
  safe_ (refetchVaryResponse sv r vary) (λ _, settled o) (Conduct o false c None false false).
Proof.
  unfold refetchVaryResponse. destruct (varyUsesClientValidators vary).
  - eapply safe_mono; [|apply refetchOriginalResponse_conduct]. intros _ s ->. do 2 eexists. split; [done|by left].
  - unfold fenceValidationKeys. run_simpl. eapply safe_bind; [apply fence_conduct|]. intros _ s ->. cbv zeta.
    run_step. run_simpl. apply streamVaryRebuild_conduct.
Qed.

Lemma refetchChangedVaryResponse_conduct r id res c :
  safe_ (refetchChangedVaryResponse sv r id res) (λ _, settled ∅) (Conduct {[ id ]} false c None false false).
Proof.
  unfold refetchChangedVaryResponse. cbv zeta. run_step; [set_solver|]. run_simpl.
  replace ({[ id ]} ∖ {[ id ]} : gset nat) with (∅ : gset nat) by set_solver. apply refetchVaryResponse_conduct.
Qed.

(** A validation that serves nothing leaves the exchange closed. *)
Definition validated (o : gset nat) (v : validation) (s : conduct) : Prop :=
  match v with Served => settled o s | _ => ∃ c, s = Conduct o false c None false false end.

Lemma judge_validation_conduct req res out start status snapshot o c :
  safe_ (judge_validation sv req res out start status snapshot) (validated o) (Conduct o false c None false true).
Proof.
  unfold judge_validation. destruct (status =? 304).
  - run_step. destruct x; cbn [negb].
    + unfold apply_validation. do 6 run_step. run_simpl. by destruct (applyValidationResponse _ _ _ _ _ _ _ _ _); eexists.
    + run_step. run_simpl. by eexists.
  - destruct (retryOriginalPreconditions _ _ _).
    { unfold fenceValidationKeys. run_simpl. eapply safe_bind; [apply fence_conduct|]. intros _ s2 ->.
      run_step. run_simpl. by eexists. }
    destruct (varyChangedClientValidators _ _ _); [run_step; run_simpl; by eexists|].
    run_step. run_step. destruct (fullResponseVaryChanged _ _ _ _ _ _ _).
    + run_step. run_simpl. eapply safe_bind; [apply refetchVaryResponse_conduct|]. intros ? s2 Hs2. run_simpl. exact Hs2.
    + run_step. run_step. run_simpl. do 2 eexists. split; [done|by left].
Qed.

Lemma validateUpstreamResponse_conduct req res o c :
  safe_ (validateUpstreamResponse sv req res) (validated o) (Conduct o false c None false false).
Proof.
  unfold validateUpstreamResponse. destruct (conditionalRequest _ _); [|by eexists].
  run_step. destruct x; [by eexists|]. run_simpl. eapply safe_bind; [apply fence_conduct|]. intros _ s ->.
  run_step. destruct x; [by eexists|]. run_step. run_step. destruct x0 as [|status snapshot].
  - run_step. run_simpl. by eexists.
  - apply judge_validation_conduct.
Qed.

Lemma freshenValidatedResponse_conduct res keys s :
  safe_ (freshenValidatedResponse sv res keys) (λ _ s', s' = s) s.
Proof.
  unfold freshenValidatedResponse. run_simpl. eapply safe_bind; [apply freshenResource_conduct|]. intros [] s' ->.
  - cbn [negb]. run_step. by run_simpl.
  - by run_simpl.
Qed.

Lemma validateCachedResponse_conduct req id res c :
  safe_ (validateCachedResponse sv req id res)
    (λ reuse s, match reuse with
                | Some _ => ∃ c, s = Conduct {[ id ]} false c None false false
                | None => settled ∅ s
                end) (Conduct {[ id ]} false c None false false).
Proof.
  assert (∀ c, safe_ (refetchCachedResponse sv req id;; mret None)
    (λ (reuse : option Resource) s, match reuse with
                | Some _ => ∃ c, s = Conduct {[ id ]} false c None false false
                | None => settled ∅ s
                end) (Conduct {[ id ]} false c None false false)) as Hrefetch.
  { intros c'. run_simpl. eapply safe_bind; [apply refetchCachedResponse_conduct|]. intros _ s ->. run_simpl.
    do 2 eexists. split; [done|by left]. }
  unfold validateCachedResponse. destruct (cc_Has _ _).
  { run_step; [set_solver|]. run_step. run_simpl. do 2 eexists. split; [|by left]. f_equal. set_solver. }
  cbv zeta. run_simpl. eapply safe_bind; [apply validateUpstreamResponse_conduct|]. intros [|res'|] s Hs.
  - destruct Hs as [c' ->]. apply Hrefetch.
  - destruct Hs as [c' ->]. run_step. run_step. destruct (_ || _).
    + destruct (negb _).
      * run_simpl. eapply safe_bind; [apply refetchChangedVaryResponse_conduct|]. intros ? s Hs. exact Hs.
      * apply Hrefetch.
    + run_simpl. eapply safe_bind; [apply freshenValidatedResponse_conduct|]. intros [res2|] s ->; [by eexists|].
      apply Hrefetch.
  - destruct Hs as (a & c' & -> & Ha). run_step; [set_solver|]. run_simpl. do 2 eexists. split; [|done]. f_equal. set_solver.
Qed.

Lemma serveCachedResponse_conduct req id res c :
  safe_ (serveCachedResponse sv req id res) (λ _, settled ∅) (Conduct {[ id ]} false c None false false).
Proof.
  unfold serveCachedResponse. do 3 run_step. run_simpl.
  eapply (safe_bind _ _ _ (λ (reuse : option Resource) s, match reuse with
                | Some _ => ∃ c, s = Conduct {[ id ]} false c None false false
                | None => settled ∅ s
                end)).
  { destruct (needsValidation _ _ _ _ _ _); [apply validateCachedResponse_conduct|]. by eexists. }
  intros [res'|] s; [|done]. intros [c' ->]. cbv zeta. run_simpl. eapply safe_bind; [apply metrics_conduct|].
  intros _ s ->. run_step; [set_solver|]. run_step; [set_solver|]. run_simpl. do 2 eexists. split; [|by left].
  f_equal. set_solver.
Qed.

(** ** Misses *)

Definition missed_post (found : option (nat * Resource)) (s : conduct) : Prop :=
  match found with
  | Some (id, _) => ∃ c, s = Conduct {[ id ]} false c None false false
  | None => settled ∅ s
  end.

Lemma complete_now_conduct o a c fl l e :
  safe_ (complete_now {| co_flight := Some fl; co_lease := l |}) (λ _ s, s = Conduct o a c None false e)
    (Conduct o a c (Some fl) l e).
Proof.
  unfold complete_now. destruct l, fl as [key flight]; cbn [co_lease co_flight when];
    run_step; [run_step|]; by run_simpl.
Qed.

Lemma coordination_unavailable_conduct c fl l :
  safe_ (coordination_unavailable {| co_flight := Some fl; co_lease := l |}) (λ _, settled ∅)
    (Conduct ∅ false c (Some fl) l false).
Proof.
  unfold coordination_unavailable. run_simpl. eapply safe_bind; [apply complete_now_conduct|]. intros _ s ->.
  run_step. destruct x; cbn [negb].
  - run_simpl. do 2 eexists. split; [done|right]. apply orb_true_r.
  - run_step. run_simpl. do 2 eexists. split; [done|by left].
Qed.

Lemma leadMiss_conduct r fl c :
  safe_ (leadMiss sv r fl) (λ '(_, found) s, missed_post found s) (Conduct ∅ false c (Some fl) false false).
Proof.
  unfold leadMiss. destruct (sv_missCoordinator sv) eqn:Ec; cbn [negb]; cycle 1.
  { run_step. run_simpl. do 2 eexists. split; [done|by left]. }
  run_step. rewrite <- Ec. destruct x as [l|l|].
  - run_simpl. eapply safe_bind; [apply coordination_unavailable_conduct|]. intros ? s Hs. exact Hs.
  - run_simpl. eapply safe_bind; [apply coordination_unavailable_conduct|]. intros ? s Hs. exact Hs.
  - cbv zeta. run_simpl. eapply safe_bind; [apply lookupUsing_conduct|]. intros [r' [id res| |]] s Hs; red in Hs; subst s.
    + run_simpl. eapply safe_bind; [apply complete_now_conduct|]. intros _ s ->. run_simpl. by eexists.
    + run_step. destruct x.
      * run_simpl. eapply safe_bind; [apply coordination_unavailable_conduct|]. intros ? s Hs. exact Hs.
      * run_step. run_simpl. do 2 eexists. split; [done|by left].
    + run_simpl. eapply safe_bind; [apply complete_now_conduct|]. intros _ s ->. run_step. run_simpl.
      do 2 eexists. split; [done|by left].
Qed.

Lemma resolve_loop_conduct fuel r c :
  (sv_missCoordinator sv = false → fuel ≠ O) →
  safe_ (resolve_loop sv fuel r) (λ '(_, found) s, missed_post found s) (Conduct ∅ false c None false false).
Proof.
  revert r c. induction fuel as [|fuel IH]; intros r c Hfuel; cbn [resolve_loop].
  { run_simpl. split; [|done]. destruct (sv_missCoordinator sv); [done|by destruct Hfuel]. }
  run_step. destruct x.
  { run_simpl. do 2 eexists. split; [done|right]. apply orb_true_r. }
  run_step. destruct x as [flight leader]. run_simpl. destruct leader; [apply leadMiss_conduct|].
  run_step. destruct x; cbn [negb]; cycle 1.
  { run_simpl. do 2 eexists. split; [done|right]. apply orb_true_r. }
  run_simpl. eapply safe_bind; [apply lookupUsing_conduct|]. intros [r' found] s Hs.
  assert (∀ c', safe_ (if sv_missCoordinator sv then resolve_loop sv fuel r'
                  else call (PassUpstream r' None);; mret (r', None)) (λ '(_, found) s, missed_post found s)
    (Conduct ∅ false c' None false false)) as Hagain.
  { intros c'. destruct (sv_missCoordinator sv) eqn:Ec; [by apply IH|].
    run_step. run_simpl. do 2 eexists. split; [done|by left]. }
  destruct found as [id res| |]; red in Hs; subst s; [by eexists|apply Hagain..].
Qed.

Lemma resolveMiss_conduct fuel r c :
  (sv_missCoordinator sv = false → fuel ≠ O) →
  safe_ (resolveMiss sv fuel r) (λ '(_, found) s, missed_post found s) (Conduct ∅ false c None false false).
Proof.
  intros Hfuel. unfold resolveMiss. destruct (cc_Has _ _).
  - run_step. run_simpl. do 2 eexists. split; [done|by left].
  - run_simpl. eapply safe_bind; [apply metrics_conduct|]. intros _ s ->. by apply resolve_loop_conduct.
Qed.

Lemma serve_request_conduct fuel r c :
  (sv_missCoordinator sv = false → fuel ≠ O) →
  safe_ (serve_request sv fuel r) (λ _, settled ∅) (Conduct ∅ false c None false false).
Proof.
  intros Hfuel. unfold serve_request. destruct (negb _).
  - run_step. run_simpl. eapply safe_bind; [apply metrics_conduct|]. intros _ s ->. run_step. run_simpl.
    do 2 eexists. split; [done|by left].
  - run_simpl. eapply safe_bind; [apply lookupUsing_conduct|]. intros [r' [id res| |]] s Hs; red in Hs; subst s.
    + apply serveCachedResponse_conduct.
    + run_simpl. eapply safe_bind; [by apply resolveMiss_conduct|]. intros [r2 [[id res]|]] s Hs.
      * destruct Hs as [c' ->]. apply serveCachedResponse_conduct.
      * exact Hs.
    + run_step. run_simpl. do 2 eexists. split; [done|by left].
Qed.

Lemma ServeHTTP_conduct fuel req :
  (sv_missCoordinator sv = false → fuel ≠ O) → safe_ (ServeHTTP sv fuel req) (λ _, settled ∅) conduct_init.
Proof.
  intros Hfuel. unfold ServeHTTP. run_step.
  assert (safe_ (call (HttpError 400)) (λ _, settled ∅) conduct_init) as Herr.
  { run_step. run_simpl. do 2 eexists. split; [done|by left]. }
  destruct (newCacheRequest _ _); [|exact Herr]. destruct (sv_requestKey sv) as [rk|]; [|by apply serve_request_conduct].
  destruct (rk req); [by apply serve_request_conduct|exact Herr].
Qed.

(** ** Theorems *)

(** C15: a request that ends leaves nothing behind.  In every run of
    [ServeHTTP] that comes to its end, whatever the surroundings answered,
    every resource retrieved from the cache has been closed, no miss flight,
    lease or exchange is still held, and the client has been answered once,
    unless its context ended first. *)
Theorem ServeHTTP_settles fuel req tr :
  (sv_missCoordinator sv = false → fuel ≠ O) →
  steps (ServeHTTP sv fuel req) tr (mret tt) →
  feasible (conduct_monitor (sv_missCoordinator sv)) tr conduct_init →
  let s := observe_all (conduct_monitor (sv_missCoordinator sv)) tr conduct_init in
  opened s = ∅ ∧ held_flight s = None ∧ held_lease s = false ∧ exchanging s = false ∧
  (answered s = true ∨ cancelled s = true).
Proof.
  intros Hfuel Hs Hf. pose proof (safe_steps _ _ _ _ _ _ (ServeHTTP_conduct fuel req Hfuel) Hs Hf) as Hq.
  cbv zeta. destruct Hq as (a & c & -> & Ha). by split_and!.
Qed.

(** C16: and it breaks no rule on the way.  At every point of every run, a
    resource is only closed or served while it is open (so it is closed once
    and not used afterwards), the client is answered at most once, a full
    fetch takes over exactly the flight and the lease held, and without a
    miss coordinator the loop over misses runs at most once. *)
Theorem ServeHTTP_disciplined fuel req p' tr1 tr2 X (e : hop X) x :
  (sv_missCoordinator sv = false → fuel ≠ O) →
  steps (ServeHTTP sv fuel req) (tr1 ++ Event e x :: tr2) p' →
  feasible (conduct_monitor (sv_missCoordinator sv)) (tr1 ++ Event e x :: tr2) conduct_init →
  conduct_allowed (sv_missCoordinator sv) e (observe_all (conduct_monitor (sv_missCoordinator sv)) tr1 conduct_init).
Proof.
  intros Hfuel Hs Hf. exact (safe_allowed _ _ _ _ _ _ _ _ _ _ (ServeHTTP_conduct fuel req Hfuel) Hs Hf).
Qed.
End Conduct.

(** ** Witnesses *)

#[local] Existing Instance stamp_date.
#[local] Existing Instance latin1_print.

Definition plain_server : Server :=
  {| sv_handler := shared_handler; sv_staleAtChecker := true; sv_cacheRechecker := false;
     sv_coordinationRetriever := true; sv_requestKey := None; sv_missCoordinator := false; sv_metrics := true |}.

(** Surroundings in which one entry is stored, a minute fresh; the clock is
    [now], the origin answers a validation with [status]. *)
Definition one_entry (stored : retrieved) (now : Time) (status : Z) (header : Header) X (e : hop X) (w : unit) :
  option (X * unit) :=
  match e in hop X return option (X * unit) with
  | Clock => Some (now, w)
  | ContextErr => Some (false, w)
  | RetrieveKey _ _ => Some (stored, w)
  | StaleAtKey _ => Some (None, w)
  | PublicationSnapshot _ => Some ((None, true), w)
  | StaleSnapshotKeys _ => Some (∅, w)
  | CacheFreshen _ _ | DrainExchange | AwaitFlight _ => Some (true, w)
  | StartExchange _ => Some (Exchanged status header, w)
  | ClaimMiss _ => Some ((O, true), w)
  | AcquireLease _ => Some (Acquired, w)
  | LeaseErr => Some (false, w)
  | OutOfFuel => None
  | CloseResource _ | RecordStale _ | CacheInvalidate _ | BeginPublication _ _ | FinishPublication _ _ _
  | CloseExchange | DeliverExchange _ _ _ | PassUpstream _ _ | PipeUpstream _ | HttpError _ | SetClientHeader _ _
  | ServeResource _ _ _ | FinishMiss _ _ | CloseLease | RecordMetric _ _ => Some (tt, w)
  end.

Definition hit_run : list (event (E := hop)) * task unit :=
  execute (one_entry (Found 0 one_minute) example_now 200 ∅) (ServeHTTP plain_server 1 (example_request ∅)) tt.

Lemma ServeHTTP_settles_witness :
  let s := observe_all (conduct_monitor false) hit_run.1 conduct_init in
  hit_run.2 = mret tt ∧ answered s = true ∧ opened s = ∅ ∧ held_flight s = None.
Proof.
  assert (hit_run.2 = mret tt) as Hend by (vm_compute; reflexivity).
  assert (feasible (conduct_monitor false) hit_run.1 conduct_init) as Hf.
  { vm_compute. repeat split; intros Hx; inversion Hx. }
  assert (steps (ServeHTTP plain_server 1 (example_request ∅)) hit_run.1 hit_run.2) as Hs by apply execute_steps.
  rewrite Hend in Hs.
  destruct (ServeHTTP_settles plain_server 1 (example_request ∅) hit_run.1 ltac:(intros _; discriminate) Hs Hf)
    as (Ho & Hfl & _ & _ & _).
  split; [exact Hend|]. split; [vm_compute; reflexivity|]. split; [exact Ho|exact Hfl].
Defined.

(** The first operations of that run: the clock, the lookup, the marker. *)
Lemma ServeHTTP_disciplined_witness :
  ∃ tr1 e tr2, hit_run.1 = tr1 ++ Event (CloseResource 0) e :: tr2 ∧
    0%nat ∈ opened (observe_all (conduct_monitor false) tr1 conduct_init).
Proof.
  set (tr1 := take 8 hit_run.1). assert (∃ e tr2, hit_run.1 = tr1 ++ Event (CloseResource 0) e :: tr2) as (e & tr2 & Heq).
  { exists tt, []. vm_compute. reflexivity. }
  exists tr1, e, tr2. split; [exact Heq|].
  assert (feasible (conduct_monitor false) (tr1 ++ Event (CloseResource 0) e :: tr2) conduct_init) as Hf.
  { rewrite <- Heq. vm_compute. repeat split; intros Hx; inversion Hx. }
  assert (steps (ServeHTTP plain_server 1 (example_request ∅)) (tr1 ++ Event (CloseResource 0) e :: tr2) hit_run.2) as Hs.
  { rewrite <- Heq. apply execute_steps. }
  exact (ServeHTTP_disciplined plain_server 1 (example_request ∅) _ tr1 tr2 unit (CloseResource 0) e
    ltac:(intros _; discriminate) Hs Hf).
Defined.
