(* ===== verification/Reuse.v ===== *)
(** * When a stored response is reused

    The evidence behind every stored response that [ServeHTTP] gives to a
    client: either it needed no validation at instants read during the
    request, or the origin confirmed it by a 304 to a conditional request
    built from it, asked after the stored entry had been fenced, and the
    refreshed entry outlived every invalidation.  Also: what is fenced before
    a full fetch replaces a stored response, and [only-if-cached]. *)

From S2P Require Import Prelude GoStrings GoTime GoQuote GoHttp GoUrl CacheControl Keys Resource Policy Validator Publication Program Lookup Serve Conduct.
Import Headers.

(** A question put to the origin: the request, when it was put, the keys
    fenced by then, and the answer. *)
Record asked := {
  a_out : Request;
  a_start : Time;
  a_fenced : list string;
  a_status : Z;
  a_header : Header;
}.

Inductive stage :=
  | Unasked
  | Asked (a : asked)
  | Drained (a : asked)
  | Refreshed (a : asked) (res : Resource)
  | Confirmed (a : asked) (res : Resource).

Record history := History {
  u_clocks : list Time;
  u_got : list (nat * Resource);
  u_fenced : list string;
  u_stage : stage;
}.

Definition history_init : history := History [] [] [] Unasked.

(** The marks and the evidence of the lookup apart, the same response. *)
Definition same_representation (r1 r2 : Resource) : Prop :=
  r_body r1 = r_body r2 ∧ r_header r1 = r_header r2 ∧ r_statusCode r1 = r_statusCode r2.

Definition hit (res : Resource) : Resource := set_header (Set_ (r_header res) CacheHeader "HIT") (r_cc res) res.

Section Reuse.
Context `{D : HttpDate, U : Unicode} (sv : Server).

Inductive justified (s : history) (id : nat) (r : cacheRequest) : Resource → Prop :=
  | justified_fresh stored res n1 n2 n3 :
      u_stage s = Unasked → n1 ∈ u_clocks s → n2 ∈ u_clocks s → n3 ∈ u_clocks s →
      (id, stored) ∈ u_got s → same_representation stored res →
      needsValidation n1 n2 n3 (sv_handler sv) res r = false →
      justified s id r (hit res)
  | justified_validated stored res validated a n1 n2 n3 n4 n5 n6 :
      (id, stored) ∈ u_got s → same_representation stored res →
      conditionalRequest (cr_Request r) res = Some (a_out a) →
      validationResourceKey r ∈ a_fenced a →
      applyValidationResponse n1 n2 n3 n4 false res (a_status a) (a_header a) (a_start a) = Some validated →
      isCacheable n5 n6 (sv_handler sv) validated r = true →
      sameVaryFields (combinedHeaderValues (r_header res) "Vary") (combinedHeaderValues (r_header validated) "Vary") = true →
      let kept := if Shared (sv_handler sv) then RemovePrivateHeaders validated else validated in
      u_stage s = Confirmed a kept →
      justified s id r (hit (markFresh kept)).

(** [offline]: the request carries [only-if-cached]. *)
Definition reuse_allowed (offline : bool) {X} (e : hop X) (s : history) : Prop :=
  match e with
  | ServeResource id res r => justified s id r res
  | PassUpstream r _ | DeliverExchange r _ _ =>
      offline = false ∧ (u_stage s ≠ Unasked → validationResourceKey r ∈ u_fenced s)
  | StartExchange _ | PipeUpstream _ => offline = false
  | _ => True
  end.

Definition reuse_next {X} (e : hop X) : X → history → history :=
  match e in hop X return X → history → history with
  | Clock => λ x s, History (x :: u_clocks s) (u_got s) (u_fenced s) (u_stage s)
  | RetrieveKey _ _ => λ x s,
      match x with
      | Found id res => History (u_clocks s) ((id, res) :: u_got s) (u_fenced s) (u_stage s)
      | _ => s
      end
  | CacheInvalidate keys => λ _ s, History (u_clocks s) (u_got s) (keys ++ u_fenced s) (u_stage s)
  | StartExchange out => λ x s,
      match x with
      | Exchanged status header =>
          History (u_clocks s) (u_got s) (u_fenced s)
            (Asked {| a_out := out; a_start := default zero_time (head (u_clocks s)); a_fenced := u_fenced s;
                      a_status := status; a_header := header |})
      | ExchangeCancelled => s
      end
  | DrainExchange => λ x s,
      match x, u_stage s with
      | true, Asked a => History (u_clocks s) (u_got s) (u_fenced s) (Drained a)
      | _, _ => s
      end
  | CacheFreshen res _ => λ x s,
      match x, u_stage s with
      | true, Drained a => History (u_clocks s) (u_got s) (u_fenced s) (Refreshed a res)
      | _, _ => s
      end
  | StaleSnapshotKeys _ => λ x s,
      match u_stage s with
      | Refreshed a res =>
          if superseded res x then s else History (u_clocks s) (u_got s) (u_fenced s) (Confirmed a res)
      | _ => s
      end
  | _ => λ _ s, s
  end.

Definition reuse_monitor (offline : bool) : monitor (E := hop) history :=
  {| possible := λ _ _ _ _, True; allowed := @reuse_allowed offline; next := @reuse_next |}.
End Reuse.

Ltac run_simpl :=
  cbn [safe prog_bind mbind prog_mbind mret prog_mret call possible allowed next reuse_monitor
       reuse_allowed reuse_next u_clocks u_got u_fenced u_stage fst snd when].
Ltac run_step :=
  run_simpl;
  match goal with
  | |- _ ∧ (∀ _, _) => split; [try done|intros ? _]
  end.

Section Lemmas.
Context `{D : HttpDate, U : Unicode} (sv : Server) (offline : bool).
Abbreviation safe_ p Q s := (safe (reuse_monitor sv offline) p Q s).
Abbreviation anything := (λ _ _, True).

Lemma same_representation_refl r : same_representation r r.
Proof. done. Qed.

Lemma same_representation_mark ch m1 m2 res rk bk bs stored :
  same_representation stored res → same_representation stored (markInvalidatedResource ch m1 m2 res rk bk bs).
Proof. intros ?. unfold markInvalidatedResource. by repeat case_match. Qed.

(** A program that only adds resources to the history. *)
Definition retrieved_only (s s' : history) : Prop :=
  u_clocks s' = u_clocks s ∧ u_fenced s' = u_fenced s ∧ u_stage s' = u_stage s ∧ u_got s ⊆ u_got s'.

Definition got_as (s : history) (id : nat) (res : Resource) : Prop :=
  ∃ stored, (id, stored) ∈ u_got s ∧ same_representation stored res.

Lemma got_as_weaken s s' id res : got_as s id res → u_got s ⊆ u_got s' → got_as s' id res.
Proof. intros (st & Hin & Hs) Hsub. exists st. split; [by apply Hsub|done]. Qed.

Lemma retrieved_only_refl s : retrieved_only s s.
Proof. done. Qed.

Lemma retrieved_only_trans s1 s2 s3 : retrieved_only s1 s2 → retrieved_only s2 s3 → retrieved_only s1 s3.
Proof. intros (? & ? & ? & ?) (? & ? & ? & ?). split_and!; [congruence..|set_solver]. Qed.

Lemma generationRetriever_reuse m key s :
  safe_ (generationRetriever sv m key)
    (λ got s', retrieved_only s s' ∧ match got with Found id res => got_as s' id res | _ => True end) s.
Proof.
  assert (∀ id res, retrieved_only s (History (u_clocks s) ((id, res) :: u_got s) (u_fenced s) (u_stage s))) as Hadd.
  { intros id res. split_and!; try done. simpl. set_solver. }
  unfold generationRetriever. destruct (sv_staleAtChecker sv).
  - run_step. destruct x as [id res| |]; run_simpl; [|done..]. split; [apply Hadd|]. exists res. by split; [left|].
  - run_step. run_step. destruct x0 as [id res| |]; [|run_simpl; done..]. run_step. run_simpl.
    split; [apply Hadd|]. exists res. by split; [left|].
Qed.

Lemma mark_invalidated_reuse res rk bk bs s :
  safe_ (mark_invalidated sv res rk bk bs)
    (λ res' s', s' = s ∧ ∀ id, got_as s id res → got_as s id res') s.
Proof.
  assert (∀ m1 m2 id, got_as s id res →
    got_as s id (markInvalidatedResource (sv_staleAtChecker sv) m1 m2 res rk bk bs)) as Hm.
  { intros m1 m2 id (st & Hin & Hs). exists st. split; [done|by apply same_representation_mark]. }
  unfold mark_invalidated. destruct (rk <>?s bk); [run_step|]; run_step; run_simpl; eauto.
Qed.

Definition same_directives (r r' : cacheRequest) : Prop := cr_CacheControl r' = cr_CacheControl r.

Definition lookup_reuse (r : cacheRequest) (s : history) (r' : cacheRequest) (found : looked_up) (s' : history) : Prop :=
  same_directives r r' ∧ retrieved_only s s' ∧ match found with LookupFound id res => got_as s' id res | _ => True end.

Lemma lookupBaseUsing_reuse m r s :
  safe_ (lookupBaseUsing sv m r)
    (λ '(r', _, got) s', same_directives r r' ∧ retrieved_only s s' ∧
       match got with Found id res => got_as s' id res | _ => True end) s.
Proof.
  unfold lookupBaseUsing. cbv zeta. run_simpl.
  eapply safe_bind; [apply generationRetriever_reuse|]. intros [id res| |] s1 [H1 Hg]; [by run_simpl| |by run_simpl].
  destruct (_ =?s _); [|by run_simpl]. run_simpl.
  eapply safe_bind; [apply generationRetriever_reuse|].
  intros [id res| |] s2 [H2 Hg2]; pose proof (retrieved_only_trans _ _ _ H1 H2); [|by run_simpl..].
  destruct (_ && _); [by run_simpl|]. run_step. by run_simpl.
Qed.

Lemma lookupVaryResource_reuse m r id base k vary s :
  safe_ (lookupVaryResource sv m r id base k vary) (λ '(r', found) s', lookup_reuse r s r' found s') s.
Proof.
  unfold lookupVaryResource. cbv zeta. destruct (varyWildcard vary); [run_step; by run_simpl|].
  run_simpl. eapply safe_bind; [apply generationRetriever_reuse|].
  intros [vid res| |] s1 [H1 Hg]; run_step; [|by run_simpl..].
  run_simpl. eapply safe_bind; [apply mark_invalidated_reuse|]. intros res' s2 [-> Hres]. run_simpl.
  split_and!; [done..|]. by apply Hres.
Qed.

Lemma lookupUsing_reuse m r s :
  safe_ (lookupUsing sv m r) (λ '(r', found) s', lookup_reuse r s r' found s') s.
Proof.
  unfold lookupUsing. run_simpl. eapply safe_bind; [apply lookupBaseUsing_reuse|].
  intros [[r1 k] [id res| |]] s1 (Hd & H1 & Hg); [|by run_simpl..]. cbv zeta. run_simpl.
  eapply safe_bind; [apply mark_invalidated_reuse|]. intros res' s2 [-> Hres].
  destruct (nonempty _); [|by run_simpl; split_and!; [done..|apply Hres]].
  eapply safe_mono; [|apply lookupVaryResource_reuse]. intros [r2 found] s2 (Hd2 & H2 & Hf).
  split_and!; [by etrans|by eapply retrieved_only_trans|done].
Qed.

(** ** Fences and full fetches *)

Lemma validationResourceKey_governed r : validationResourceKey r ∈ validationKeys r.
Proof.
  unfold validationResourceKey, validationKeys. cbv zeta.
  destruct (cr_servedKey r) as [|c sk] eqn:Es; cbn [nonempty andb].
  - destruct (cr_discoveryKey r) as [|c' dk] eqn:Ed; cbn [nonempty andb]; [by left|].
    destruct (String.eqb_spec (String c' dk) (Key_String (cr_Key r))) as [->|]; cbn [negb]; set_solver.
  - destruct (bool_decide _) eqn:Eb; cbn [negb]; [by apply bool_decide_eq_true in Eb|].
    rewrite elem_of_app. right. by left.
Qed.

Lemma metrics_reuse m method s : safe_ (metrics sv m method) (λ _ s', s' = s) s.
Proof. unfold metrics. destruct (sv_metrics sv); [run_step|]; by run_simpl. Qed.

Lemma fence_reuse keys s :
  safe_ (fence sv keys) (λ _ s', s' = History (u_clocks s) (u_got s) (keys ++ u_fenced s) (u_stage s)) s.
Proof.
  unfold fence, record_stale. destruct (sv_staleAtChecker sv); cbn [negb when]; [|run_step]; run_step; by run_simpl.
Qed.

Lemma refetchOriginalResponse_reuse r s :
  offline = false → safe_ (refetchOriginalResponse sv r) anything s.
Proof.
  intros Ho. unfold refetchOriginalResponse, fenceValidationKeys. run_simpl.
  eapply safe_bind; [apply fence_reuse|]. intros _ s' ->. run_step. run_step; [|by run_simpl].
  split; [done|]. intros _. apply elem_of_app. left. exact (validationResourceKey_governed r).
Qed.

Lemma refetchCachedResponse_reuse r id s :
  offline = false → safe_ (refetchCachedResponse sv r id) anything s.
Proof. intros Ho. unfold refetchCachedResponse. run_step. by apply refetchOriginalResponse_reuse. Qed.

Lemma refetchVaryResponse_reuse r vary s :
  offline = false → safe_ (refetchVaryResponse sv r vary) anything s.
Proof.
  intros Ho. unfold refetchVaryResponse. destruct (varyUsesClientValidators vary); [by apply refetchOriginalResponse_reuse|].
  unfold fenceValidationKeys. run_simpl. eapply safe_bind; [apply fence_reuse|]. intros _ s' ->. cbv zeta. run_step.
  unfold streamVaryRebuild. run_step. destruct x0; [run_step; by run_simpl|].
  destruct (varyChangedClientValidators _ _ _); [run_step; by apply refetchOriginalResponse_reuse|].
  run_step; [|run_step; by run_simpl].
  split; [done|]. intros _. apply elem_of_app. left. exact (validationResourceKey_governed r).
Qed.

Lemma refetchChangedVaryResponse_reuse r id res s :
  offline = false → safe_ (refetchChangedVaryResponse sv r id res) anything s.
Proof. intros Ho. unfold refetchChangedVaryResponse. cbv zeta. run_step. by apply refetchVaryResponse_reuse. Qed.

(** ** The validation *)

Definition confirmed_by (r : cacheRequest) (res : Resource) (a : asked) (validated : Resource) : Prop :=
  conditionalRequest (cr_Request r) res = Some (a_out a) ∧ validationResourceKey r ∈ a_fenced a ∧
  ∃ n1 n2 n3 n4,
    applyValidationResponse n1 n2 n3 n4 false res (a_status a) (a_header a) (a_start a) = Some validated.

Definition validation_post (r : cacheRequest) (res : Resource) (s : history) (v : validation) (s' : history) : Prop :=
  match v with
  | Valid validated => u_got s' = u_got s ∧ ∃ a, u_stage s' = Drained a ∧ confirmed_by r res a validated
  | _ => True
  end.

Lemma judge_validation_reuse r res a clocks got s :
  offline = false → u_got s = got →
  conditionalRequest (cr_Request r) res = Some (a_out a) → validationResourceKey r ∈ a_fenced a →
  safe_ (judge_validation sv r res (a_out a) (a_start a) (a_status a) (a_header a)) (validation_post r res s)
    (History clocks got (a_fenced a) (Asked a)).
Proof.
  intros Ho Hgot Hc Hk. unfold judge_validation. destruct (a_status a =? 304) eqn:E.
  - run_step. destruct x; cbn [negb]; [|run_step; by run_simpl].
    unfold apply_validation. run_step. do 5 run_step. run_simpl.
    destruct (applyValidationResponse _ _ _ _ _ _ _ _ _) as [v|] eqn:Ea; [|done].
    split; [done|]. exists a. split; [done|]. split; [done|]. split; [done|].
    destruct x; [unfold applyValidationResponse in Ea; by simpl in Ea|]. by do 4 eexists.
  - destruct (retryOriginalPreconditions _ _ _).
    { unfold fenceValidationKeys. run_simpl. eapply safe_bind; [apply fence_reuse|]. intros _ s' ->.
      run_step. by run_simpl. }
    destruct (varyChangedClientValidators _ _ _); [run_step; by run_simpl|].
    run_step. run_step. destruct (fullResponseVaryChanged _ _ _ _ _ _ _).
    + run_step. run_simpl. eapply safe_bind; [by apply refetchVaryResponse_reuse|]. intros _ s' _. by run_simpl.
    + do 2 run_step. by run_simpl.
Qed.

Lemma validateUpstreamResponse_reuse r res s :
  offline = false → safe_ (validateUpstreamResponse sv r res) (validation_post r res s) s.
Proof.
  intros Ho. unfold validateUpstreamResponse. destruct (conditionalRequest _ _) as [out|] eqn:Ec; [|done].
  run_step. destruct x; [done|]. run_simpl. eapply safe_bind; [apply fence_reuse|]. intros _ s' ->.
  run_step. destruct x; [done|]. run_step. run_step. destruct x0 as [|status snapshot]; [run_step; by run_simpl|].
  set (a := {| a_out := out; a_start := _; a_fenced := _; a_status := _; a_header := _ |}).
  apply (judge_validation_reuse r res a); try done. by left.
Qed.

Lemma freshenResource_reuse res keys s :
  safe_ (freshenResource sv res keys)
    (λ ok s', u_got s' = u_got s ∧
       ∀ a, u_stage s = Drained a → ok = true → u_stage s' = Refreshed a res) s.
Proof.
  unfold freshenResource. destruct (sv_staleAtChecker sv).
  { run_step. run_simpl. destruct x; destruct (u_stage s); naive_solver. }
  destruct (IsZero (r_RequestTime res)); [run_step|]; run_step; run_step; run_step; run_simpl;
    [destruct x1|destruct x0]; destruct (u_stage s); naive_solver.
Qed.

Lemma freshenValidatedResponse_reuse res keys s a :
  u_stage s = Drained a →
  safe_ (freshenValidatedResponse sv res keys)
    (λ fresh s', ∀ res', fresh = Some res' →
       u_got s' = u_got s ∧ u_stage s' = Confirmed a res ∧ res' = markFresh res) s.
Proof.
  intros Hs. unfold freshenValidatedResponse. run_simpl. eapply safe_bind; [apply freshenResource_reuse|].
  intros [] s' [Hg Hr]; cbn [negb]; [|by run_simpl]. specialize (Hr a Hs eq_refl). run_step. run_simpl. rewrite Hr.
  destruct (superseded res x); [done|]. cbn [u_got u_stage]. intros res' [= <-]. done.
Qed.

Definition reusable (r : cacheRequest) (id : nat) (res : Resource) (s : history) : Prop := justified sv s id r (hit res).

Lemma validateCachedResponse_reuse r id res s :
  got_as s id res → offline = cc_Has (cr_CacheControl r) "only-if-cached" →
  safe_ (validateCachedResponse sv r id res)
    (λ reuse s', match reuse with Some res' => reusable r id res' s' | None => True end) s.
Proof.
  intros (stored & Hin & Hsame) Ho. unfold validateCachedResponse.
  destruct (cc_Has _ _) eqn:Eo; [run_step; run_step; by run_simpl|].
  assert (∀ s', safe_ (refetchCachedResponse sv r id;; mret None)
    (λ reuse s', match reuse with Some res' => reusable r id res' s' | None => True end) s') as Hrefetch.
  { intros s'. run_simpl. eapply safe_bind; [by apply refetchCachedResponse_reuse|]. intros _ s2 _. by run_simpl. }
  cbv zeta. run_simpl. eapply safe_bind; [by apply validateUpstreamResponse_reuse|].
  intros [|validated|] s1 Hv; [apply Hrefetch| |run_step; by run_simpl].
  destruct Hv as (Hg & a & Hst & Hc & Hk & n1 & n2 & n3 & n4 & Ha). run_step. run_step.
  destruct (negb (isCacheable x x0 (sv_handler sv) validated r) || _) eqn:E.
  { destruct (negb (sameVaryFields _ _)); [|apply Hrefetch].
    run_simpl. eapply safe_bind; [by apply refetchChangedVaryResponse_reuse|]. intros _ s2 _. by run_simpl. }
  unbool. run_simpl. eapply safe_bind; [by apply freshenValidatedResponse_reuse|].
  intros [res'|] s2 Hf; [|apply Hrefetch]. destruct (Hf res' eq_refl) as (Hg2 & Hst2 & ->). run_simpl.
  eapply (justified_validated sv s2 id r stored res validated a); [..|exact Hst2]; try done. by rewrite Hg2; simpl; rewrite Hg.
Qed.

Lemma serveCachedResponse_reuse r id res s :
  got_as s id res → u_stage s = Unasked → offline = cc_Has (cr_CacheControl r) "only-if-cached" →
  safe_ (serveCachedResponse sv r id res) anything s.
Proof.
  intros Hg Hs Ho. unfold serveCachedResponse. do 3 run_step. run_simpl.
  apply (safe_bind _ _ _ (λ reuse s', match reuse with Some res' => reusable r id res' s' | None => True end)).
  - destruct (needsValidation x x0 x1 (sv_handler sv) res r) eqn:En; [by apply validateCachedResponse_reuse|].
    destruct Hg as (stored & Hin & Hsame).
    apply (justified_fresh sv _ id r stored res x x0 x1); try done; cbn [u_clocks]; set_solver.
  - intros [res'|] s' Hr; [|done]. cbv zeta. run_simpl. eapply safe_bind; [apply metrics_reuse|]. intros _ s2 ->.
    run_step. run_step. by run_simpl.
Qed.

(** ** Misses *)

Definition missed_reuse (r : cacheRequest) (r' : cacheRequest) (found : option (nat * Resource)) (s : history) : Prop :=
  match found with
  | Some (id, res) => same_directives r r' ∧ u_stage s = Unasked ∧ got_as s id res
  | None => True
  end.

Lemma complete_now_reuse c s : safe_ (complete_now c) (λ _ s', s' = s) s.
Proof. unfold complete_now. destruct c as [[[key fl]|] []]; cbn [co_lease co_flight when]; repeat run_step; by run_simpl. Qed.

Lemma coordination_unavailable_reuse c s : safe_ (coordination_unavailable c) anything s.
Proof.
  unfold coordination_unavailable. run_simpl. eapply safe_bind; [apply complete_now_reuse|]. intros _ s' ->.
  run_step. destruct x; cbn [negb]; [by run_simpl|run_step; by run_simpl].
Qed.

Lemma leadMiss_reuse r fl s :
  offline = false → u_stage s = Unasked →
  safe_ (leadMiss sv r fl) (λ '(r', found) s', missed_reuse r r' found s') s.
Proof.
  intros Ho Hs. unfold leadMiss. destruct (negb _); [run_step; by run_simpl|].
  run_step. destruct x as [l|l|].
  - run_simpl. eapply safe_bind; [apply coordination_unavailable_reuse|]. intros _ s' _. by run_simpl.
  - run_simpl. eapply safe_bind; [apply coordination_unavailable_reuse|]. intros _ s' _. by run_simpl.
  - cbv zeta. run_simpl. eapply safe_bind; [apply lookupUsing_reuse|].
    intros [r' [id res| |]] s1 (Hd & (_ & _ & Hst & _) & Hg).
    + run_simpl. eapply safe_bind; [apply complete_now_reuse|]. intros _ s2 ->. run_simpl. split_and!; [done| |done]. congruence.
    + run_step. destruct x.
      * run_simpl. eapply safe_bind; [apply coordination_unavailable_reuse|]. intros _ s' _. by run_simpl.
      * run_step; [|by run_simpl]. split; [done|]. simpl in Hst. congruence.
    + run_simpl. eapply safe_bind; [apply complete_now_reuse|]. intros _ s2 ->. run_step. by run_simpl.
Qed.

Lemma resolve_loop_reuse fuel r s :
  offline = false → u_stage s = Unasked →
  safe_ (resolve_loop sv fuel r) (λ '(r', found) s', missed_reuse r r' found s') s.
Proof.
  intros Ho. revert r s. induction fuel as [|fuel IH]; intros r s Hs; cbn [resolve_loop]; [by run_simpl|].
  run_step. destruct x; [by run_simpl|]. run_step. destruct x as [flight leader]. run_simpl.
  destruct leader; [by apply leadMiss_reuse|]. run_step. destruct x; cbn [negb]; [|by run_simpl].
  run_simpl. eapply safe_bind; [apply lookupUsing_reuse|].
  intros [r' found] s1 (Hd & (_ & _ & Hst & _) & Hg).
  assert (u_stage s1 = Unasked) as Hs1 by (simpl in Hst; congruence).
  assert (safe_ (if sv_missCoordinator sv then resolve_loop sv fuel r'
             else call (PassUpstream r' None);; mret (r', None)) (λ '(r', found) s', missed_reuse r r' found s') s1) as Hagain.
  { destruct (sv_missCoordinator sv).
    - eapply safe_mono; [|by apply IH]. intros [r2 [[id res]|]] s2; [|done].
      intros (Hd2 & ? & ?). split_and!; [by etrans|done..].
    - run_step. by run_simpl. }
  destruct found as [id res| |]; [by run_simpl|apply Hagain..].
Qed.

Lemma resolveMiss_reuse fuel r s :
  offline = cc_Has (cr_CacheControl r) "only-if-cached" → u_stage s = Unasked →
  safe_ (resolveMiss sv fuel r) (λ '(r', found) s', missed_reuse r r' found s') s.
Proof.
  intros Ho Hs. unfold resolveMiss. destruct (cc_Has _ _); [run_step; by run_simpl|].
  run_simpl. eapply safe_bind; [apply metrics_reuse|]. intros _ s' ->. by apply resolve_loop_reuse.
Qed.

Lemma serve_request_reuse fuel r s :
  offline = cc_Has (cr_CacheControl r) "only-if-cached" && request_isCacheable r → u_stage s = Unasked →
  safe_ (serve_request sv fuel r) anything s.
Proof.
  intros Ho Hs. unfold serve_request. destruct (request_isCacheable r); cbn [negb]; rewrite ?andb_true_r, ?andb_false_r in Ho.
  - run_simpl. eapply safe_bind; [apply lookupUsing_reuse|]. intros [r' [id res| |]] s1 (Hd & (_ & _ & Hst & _) & Hg).
    + apply serveCachedResponse_reuse; [done|congruence|by rewrite Hd].
    + run_simpl. eapply safe_bind; [apply (resolveMiss_reuse fuel r'); [by rewrite Hd|congruence]|].
      intros [r2 [[id res]|]] s2 Hm; [|by run_simpl]. destruct Hm as (Hd2 & Hs2 & Hg2).
      apply serveCachedResponse_reuse; [done..|]. by rewrite Hd2, Hd.
    + run_step. by run_simpl.
  - run_step. run_simpl. eapply safe_bind; [apply metrics_reuse|]. intros _ s' ->. run_step. by run_simpl.
Qed.
End Lemmas.

(** Whether the answer must come from the cache. *)
Definition must_be_cached (req : Request) : bool :=
  match newCacheRequest zero_time req with
  | Some r => cc_Has (cr_CacheControl r) "only-if-cached" && request_isCacheable r
  | None => false
  end.

Lemma ServeHTTP_reuse `{D : HttpDate, U : Unicode} (sv : Server) fuel req :
  safe (reuse_monitor sv (must_be_cached req)) (ServeHTTP sv fuel req) (λ _ _, True) history_init.
Proof.
  unfold ServeHTTP. run_step.
  assert (must_be_cached req = match newCacheRequest x req with
    | Some r => cc_Has (cr_CacheControl r) "only-if-cached" && request_isCacheable r | None => false end) as Hm.
  { unfold must_be_cached, newCacheRequest. destruct (ParseCacheControlHeaders _); [|done]. by destruct (_ && _). }
  rewrite Hm. destruct (newCacheRequest x req) as [r|]; [|run_step; by run_simpl].
  destruct (sv_requestKey sv) as [rk|]; [|by apply serve_request_reuse].
  destruct (rk req) as [k|]; [|run_step; by run_simpl]. by apply serve_request_reuse.
Qed.

Lemma reuse_feasible `{D : HttpDate, U : Unicode} (sv : Server) offline tr s :
  feasible (reuse_monitor sv offline) tr s.
Proof. revert s. induction tr as [|[X e x] tr IH]; intros s; simpl; [done|]. by split. Qed.

(** ** Theorems *)

Section Theorems.
Context `{D : HttpDate, U : Unicode} (sv : Server).

(** What the operations of a run amount to. *)
Definition record_of (tr : list (event (E := hop))) : history := observe_all (reuse_monitor sv false) tr history_init.

Lemma observe_offline b tr s : observe_all (reuse_monitor sv b) tr s = observe_all (reuse_monitor sv false) tr s.
Proof. unfold observe_all. revert s. induction tr as [|[X e x] tr IH]; intros s; [done|]. apply IH. Qed.

Lemma run_allowed fuel req p' tr1 tr2 X (e : hop X) x :
  steps (ServeHTTP sv fuel req) (tr1 ++ Event e x :: tr2) p' →
  reuse_allowed sv (must_be_cached req) e (record_of tr1).
Proof.
  intros Hs. unfold record_of. rewrite <- (observe_offline (must_be_cached req)).
  eapply (safe_allowed (reuse_monitor sv (must_be_cached req))); [apply ServeHTTP_reuse|done|apply reuse_feasible].
Qed.

(** C2: a stored response reaches a client only with a reason.  In every run
    of [ServeHTTP], whatever the cache, the origin and the other requests
    do: either the response served is one the cache returned during this
    request and [needsValidation] is false for it at instants read during
    this request, nothing having been asked of the origin; or it is the
    result of applying to such a response the 304 that answered a conditional
    request built from it, put to the origin after the entry had been
    invalidated, with the same Vary fields, still allowed in the cache,
    without its private fields in a shared cache, refreshed there, and with
    no invalidation later than the start of the validation. *)
Theorem reuse_is_justified fuel req p' tr1 tr2 id res r x :
  steps (ServeHTTP sv fuel req) (tr1 ++ Event (ServeResource id res r) x :: tr2) p' →
  justified sv (record_of tr1) id r res.
Proof. intros Hs. exact (run_allowed _ _ _ _ _ _ _ _ Hs). Qed.

(** The operations that fetch a full response for the client. *)
Definition fetched {X} (e : hop X) : option cacheRequest :=
  match e with PassUpstream r _ | DeliverExchange r _ _ => Some r | _ => None end.

(** C21: when a validation does not end with the stored response, that
    response is withdrawn before anything replaces it: once the origin was
    asked about it, a full response is fetched or delivered only after the
    selected entry was invalidated, so a failed store cannot leave it
    reusable. *)
Theorem predecessor_is_fenced fuel req p' tr1 tr2 X (e : hop X) x r :
  steps (ServeHTTP sv fuel req) (tr1 ++ Event e x :: tr2) p' →
  fetched e = Some r → u_stage (record_of tr1) ≠ Unasked →
  validationResourceKey r ∈ u_fenced (record_of tr1).
Proof.
  intros Hs%run_allowed Hf Hst. destruct e; try done; injection Hf as ->; destruct Hs as [_ Hs]; by apply Hs.
Qed.

Definition contacts_origin (v : event (E := hop)) : bool :=
  match v with
  | Event e _ => match e with
                 | StartExchange _ | PassUpstream _ _ | PipeUpstream _ | DeliverExchange _ _ _ => true
                 | _ => false
                 end
  end.

(** [only-if-cached] is obeyed: a cacheable request that carries it is
    answered without contacting the origin, on every path. *)
Theorem only_if_cached_stays_local fuel req p' tr v :
  must_be_cached req = true → steps (ServeHTTP sv fuel req) tr p' → v ∈ tr → contacts_origin v = false.
Proof.
  intros Hm Hs (tr1 & tr2 & ->)%list_elem_of_split. destruct v as [X e x]. pose proof (run_allowed _ _ _ _ _ _ _ _ Hs) as Ha.
  rewrite Hm in Ha. unfold contacts_origin. destruct e; try done; simpl in Ha; intuition congruence.
Qed.
End Theorems.

(** ** Witnesses *)

#[local] Existing Instance stamp_date.
#[local] Existing Instance latin1_print.

(** A validated response: the stored one has a validator and is a minute
    too old; the origin answers 304. *)
Definition stale_tagged : Resource :=
  stamped_example (<["Etag" := ["a"]]> (<["Cache-Control" := ["max-age=60"]]> ∅))%string.
Definition late : Time := example_now + 120 * second.
Definition execute_with (stored : retrieved) (status : Z) (header : Header) (req : Request) :=
  execute (one_entry stored late status header) (ServeHTTP plain_server 1 req) tt.
Definition validated_run := execute_with (Found 0 stale_tagged) 304 (<["Etag" := ["a"]]> ∅)%string (example_request ∅).
Definition replaced_run := execute_with (Found 0 stale_tagged) 200 ∅ (example_request ∅).
Definition cached_only : Request := example_request (<["Cache-Control" := ["only-if-cached"]]> ∅)%string.
Definition local_run := execute_with (Found 0 stale_tagged) 200 ∅ cached_only.

Lemma reuse_is_justified_witness :
  ∃ tr1 res r x, validated_run.1 = tr1 ++ Event (ServeResource 0 res r) x :: [Event (CloseResource 0) tt] ∧
    justified plain_server (record_of plain_server tr1) 0 r res.
Proof.
  assert (∃ res r x, validated_run.1 = take 23 validated_run.1 ++ Event (ServeResource 0 res r) x :: [Event (CloseResource 0) tt])
    as (res & r & x & Heq) by (do 3 eexists; vm_compute; reflexivity).
  exists (take 23 validated_run.1), res, r, x. split; [exact Heq|].
  assert (steps (ServeHTTP plain_server 1 (example_request ∅)) validated_run.1 validated_run.2) as Hs by apply execute_steps.
  rewrite Heq in Hs. exact (reuse_is_justified plain_server 1 _ _ _ _ _ _ _ _ Hs).
Defined.

Lemma predecessor_is_fenced_witness :
  ∃ tr1 r original start x tr2, replaced_run.1 = tr1 ++ Event (DeliverExchange r original start) x :: tr2 ∧
    validationResourceKey r ∈ u_fenced (record_of plain_server tr1).
Proof.
  assert (∃ r original start x tr2,
    replaced_run.1 = take 13 replaced_run.1 ++ Event (DeliverExchange r original start) x :: tr2)
    as (r & original & start & x & tr2 & Heq) by (do 5 eexists; vm_compute; reflexivity).
  exists (take 13 replaced_run.1), r, original, start, x, tr2. split; [exact Heq|].
  assert (steps (ServeHTTP plain_server 1 (example_request ∅)) replaced_run.1 replaced_run.2) as Hs by apply execute_steps.
  rewrite Heq in Hs.
  refine (predecessor_is_fenced plain_server 1 _ _ _ _ _ _ _ r Hs eq_refl _). vm_compute. discriminate.
Defined.

Lemma only_if_cached_stays_local_witness :
  must_be_cached cached_only = true ∧ length local_run.1 = 8%nat ∧
  ∀ v, v ∈ local_run.1 → contacts_origin v = false.
Proof.
  assert (must_be_cached cached_only = true) as Hm by (vm_compute; reflexivity).
  split; [exact Hm|]. split; [vm_compute; reflexivity|].
  assert (steps (ServeHTTP plain_server 1 cached_only) local_run.1 local_run.2) as Hs by apply execute_steps.
  intros v. exact (only_if_cached_stays_local plain_server 1 cached_only _ _ v Hm Hs).
Defined.
