(* ===== verification/Effort.v ===== *)
(** * How much a request can cost

    Every run of [ServeHTTP] is finite, whatever the surroundings answer: it
    never retries without a bound.  A budget is a monitor: an operation is
    allowed while it can be paid for.  The prices are those of an ordinary
    operation and of one that has the origin asked. *)

From S2P Require Import Prelude GoStrings GoTime GoQuote GoHttp GoUrl CacheControl Keys Resource Policy Validator Publication Program Lookup Serve Conduct Reuse.
Import Headers.

(** ** Budgets *)

(** Whether an operation has the origin asked, or waits for the fill of
    another request. *)
Definition asks_origin {X} (e : hop X) : bool :=
  match e with StartExchange _ | PassUpstream _ _ | PipeUpstream _ => true | _ => false end.
Definition awaits {X} (e : hop X) : bool := match e with AwaitFlight _ => true | _ => false end.

Definition event_asks (v : event (E := hop)) : bool := match v with Event e _ => asks_origin e end.
Definition event_awaits (v : event (E := hop)) : bool := match v with Event e _ => awaits e end.

(** The fills a run has waited for. *)
Definition waits (tr : list (event (E := hop))) : nat := length (filter event_awaits tr).

(** The loop of [resolve_loop] has used up its turns. *)
Definition out_of_fuel {A} (p : task A) : Prop := match p with Vis OutOfFuel _ => True | _ => False end.

Section Budget.
Context (op fetch wait back dry : nat).

Definition price {X} (e : hop X) : nat :=
  match e with
  | StartExchange _ | PassUpstream _ _ | PipeUpstream _ => fetch
  | AwaitFlight _ => wait
  | OutOfFuel => dry
  | _ => op
  end.

(** A wait pays for the turn it begins. *)
Definition refund {X} (e : hop X) : nat := match e with AwaitFlight _ => back | _ => 0 end.

Definition affordable {X} (e : hop X) (s : nat) : Prop := (price e ≤ s)%nat.
Definition paying {X} (e : hop X) (_ : X) (s : nat) : nat := (s - price e + refund e)%nat.

Definition budget_monitor : monitor (E := hop) nat :=
  {| possible := λ _ _ _ _, True; allowed := @affordable; next := @paying |}.

Definition spent (tr : list (event (E := hop))) : nat := sum_list_with (λ v, match v with Event e _ => price e end) tr.

Lemma budget_steps {A} (p p' : task A) Q n tr :
  safe budget_monitor p Q n → steps p tr p' → ∃ s, safe budget_monitor p' Q s ∧ (s + spent tr = n + back * waits tr)%nat.
Proof.
  intros Hs Hr. revert n Hs. induction Hr as [p|X e k x tr p' Hr IH]; intros n Hs; [exists n; split; [exact Hs|unfold spent, waits; cbn; lia]|].
  destruct Hs as [Ha Hs]. cbn in Ha. unfold affordable in Ha. destruct (IH _ (Hs x I)) as (s & Hs' & Heq). exists s. split; [exact Hs'|].
  cbn in Heq. unfold paying in Heq. unfold spent, waits in *. cbn [sum_list_with]. rewrite filter_cons. cbn [event_awaits].
  assert (refund e = back * if awaits e then 1 else 0)%nat as Hb by (destruct e; cbn; lia).
  destruct (decide (awaits e)) as [Hw|Hw]; destruct (awaits e); try done; cbn [length]; lia.
Qed.
End Budget.

Section Effort.
Context `{D : HttpDate, U : Unicode} (sv : Server) (op fetch wait back dry : nat).

Abbreviation safe_ p Q n := (safe (budget_monitor op fetch wait back dry) p Q n).

(** [p] takes at most [a]. *)
Definition takes {A} (a : nat) (p : task A) : Prop := ∀ n, (a ≤ n)%nat → safe_ p (λ _ s, n ≤ s + a)%nat n.

Ltac pay :=
  repeat (cbn [safe prog_bind mbind prog_mbind mret prog_mret call possible allowed next budget_monitor when negb];
    unfold affordable, paying, price, refund; cbn beta iota;
    match goal with
    | |- _ ∧ _ => split; [lia|intros ? _]
    end).
Ltac paid := pay; cbn [safe prog_bind mbind prog_mbind mret prog_mret call possible allowed next budget_monitor when negb];
  unfold affordable, paying, price, refund; cbn beta iota; try lia.

Lemma takes_bind {A B} a b (p : task A) (f : A → task B) : takes a p → (∀ x, takes b (f x)) → takes (a + b) (p ≫= f).
Proof.
  intros Hp Hf n Hn. eapply (safe_bind _ p f); [apply (Hp n); lia|]. intros x s Hs. cbn beta in Hs. eapply safe_mono; [|apply (Hf x); lia]. cbn. lia.
Qed.

Lemma takes_more {A} a b (p : task A) : (a ≤ b)%nat → takes a p → takes b p.
Proof. intros Hab Hp n Hn. eapply safe_mono; [|apply Hp; lia]. cbn. lia. Qed.

Lemma takes_ret {A} a (x : A) : takes a (mret x).
Proof. intros n Hn. cbn. lia. Qed.

Lemma generationRetriever_takes m key : takes (3 * op) (generationRetriever sv m key).
Proof. intros n Hn. unfold generationRetriever. destruct (sv_staleAtChecker sv); paid. destruct x0; paid. Qed.

Lemma mark_invalidated_takes res rk bk bs : takes (2 * op) (mark_invalidated sv res rk bk bs).
Proof. intros n Hn. unfold mark_invalidated. destruct (rk <>?s bk); paid. Qed.

Lemma lookupBaseUsing_takes m r : takes (7 * op) (lookupBaseUsing sv m r).
Proof.
  unfold lookupBaseUsing. cbv zeta. apply (takes_more (3 * op + 4 * op)); [lia|]. apply takes_bind; [apply generationRetriever_takes|].
  intros [id res| |]; [apply takes_ret| |apply takes_ret]. destruct (_ =?s _); [|apply takes_ret].
  apply (takes_more (3 * op + op)); [lia|]. apply takes_bind; [apply generationRetriever_takes|]. intros [id res| |]; [|apply takes_ret..].
  destruct (_ && _); [apply takes_ret|]. intros n Hn. paid.
Qed.

Lemma lookupVaryResource_takes m r id base k vary : takes (6 * op) (lookupVaryResource sv m r id base k vary).
Proof.
  unfold lookupVaryResource. destruct (varyWildcard vary); [intros n Hn; paid|]. cbv zeta. apply (takes_more (3 * op + 3 * op)); [lia|].
  apply takes_bind; [apply generationRetriever_takes|]. intros got. apply (takes_more (op + 2 * op)); [lia|].
  apply takes_bind; [intros n Hn; paid|]. intros _. destruct got as [vid varied| |]; [|apply takes_ret..].
  apply (takes_more (2 * op + 0)); [lia|]. apply takes_bind; [apply mark_invalidated_takes|]. intros varied'. apply takes_ret.
Qed.

Lemma lookupUsing_takes m r : takes (15 * op) (lookupUsing sv m r).
Proof.
  unfold lookupUsing. apply (takes_more (7 * op + 8 * op)); [lia|]. apply takes_bind; [apply lookupBaseUsing_takes|].
  intros [[r1 k] [id res| |]]; [|apply takes_ret..]. cbv zeta. apply (takes_more (2 * op + 6 * op)); [lia|].
  apply takes_bind; [apply mark_invalidated_takes|]. intros res'. destruct (nonempty _); [apply lookupVaryResource_takes|apply takes_ret].
Qed.

Lemma metrics_takes m method : takes op (metrics sv m method).
Proof. intros n Hn. unfold metrics. destruct (sv_metrics sv); paid. Qed.

Lemma fence_takes keys : takes (2 * op) (fence sv keys).
Proof. intros n Hn. unfold fence, record_stale. destruct (sv_staleAtChecker sv); paid. Qed.

Lemma freshenResource_takes res keys : takes (4 * op) (freshenResource sv res keys).
Proof. intros n Hn. unfold freshenResource. destruct (sv_staleAtChecker sv); [paid|]. destruct (IsZero _); paid. Qed.

Lemma refetchOriginalResponse_takes r : takes (3 * op + fetch) (refetchOriginalResponse sv r).
Proof.
  unfold refetchOriginalResponse, fenceValidationKeys. apply (takes_more (2 * op + (op + fetch))); [lia|].
  apply takes_bind; [apply fence_takes|]. intros _ n Hn. paid.
Qed.

Lemma refetchCachedResponse_takes r id : takes (4 * op + fetch) (refetchCachedResponse sv r id).
Proof.
  unfold refetchCachedResponse. apply (takes_more (op + (3 * op + fetch))); [lia|]. apply takes_bind; [intros n Hn; paid|].
  intros _. apply refetchOriginalResponse_takes.
Qed.

Lemma streamVaryRebuild_takes r original : takes (4 * op + 2 * fetch) (streamVaryRebuild sv r original).
Proof.
  unfold streamVaryRebuild. apply (takes_more (fetch + (4 * op + fetch))); [lia|]. apply takes_bind; [intros n Hn; paid|].
  intros [|status snapshot]; [intros n Hn; paid|]. destruct (varyChangedClientValidators _ _ _); [|intros n Hn; paid].
  apply (takes_more (op + (3 * op + fetch))); [lia|]. apply takes_bind; [intros n Hn; paid|]. intros _. apply refetchOriginalResponse_takes.
Qed.

Lemma refetchVaryResponse_takes r vary : takes (7 * op + 2 * fetch) (refetchVaryResponse sv r vary).
Proof.
  unfold refetchVaryResponse. destruct (varyUsesClientValidators vary).
  - eapply takes_more; [|apply refetchOriginalResponse_takes]. lia.
  - unfold fenceValidationKeys. apply (takes_more (2 * op + (op + (4 * op + 2 * fetch)))); [lia|]. apply takes_bind; [apply fence_takes|].
    intros _. cbv zeta. apply takes_bind; [intros n Hn; paid|]. intros now. apply streamVaryRebuild_takes.
Qed.

Lemma refetchChangedVaryResponse_takes r id res : takes (8 * op + 2 * fetch) (refetchChangedVaryResponse sv r id res).
Proof.
  unfold refetchChangedVaryResponse. cbv zeta. apply (takes_more (op + (7 * op + 2 * fetch))); [lia|]. apply takes_bind; [intros n Hn; paid|].
  intros _. apply refetchVaryResponse_takes.
Qed.

(** *** Outcomes of different prices *)

(** The budget left after an outcome [a] that took [dear] or [cheap]. *)
Definition left_by (dear cheap : nat) (b : bool) (n s : nat) : Prop := (n ≤ s + if b then dear else cheap)%nat.
Definition served (v : validation) : bool := match v with Served => true | _ => false end.
Definition missed {A} (x : option A) : bool := match x with None => true | Some _ => false end.

Lemma bind_left {A B} dear cheap (test : A → bool) (p : task A) (f : A → task B) (Q : B → nat → Prop) n :
  safe_ p (λ a s, left_by dear cheap (test a) n s) n →
  (∀ a s, left_by dear cheap (test a) n s → safe_ (f a) Q s) → safe_ (p ≫= f) Q n.
Proof. intros Hp Hf. eapply (safe_bind _ p f); [exact Hp|exact Hf]. Qed.

(** A program of one price, then the rest. *)
Lemma bind_takes {A B} a (p : task A) (f : A → task B) (Q : B → nat → Prop) n :
  takes a p → (a ≤ n)%nat → (∀ x s, (n ≤ s + a)%nat → safe_ (f x) Q s) → safe_ (p ≫= f) Q n.
Proof. intros Hp Hn Hf. eapply (safe_bind _ p f); [by apply Hp|exact Hf]. Qed.

Lemma judge_validation_takes req res out start status snapshot n :
  (10 * op + 2 * fetch ≤ n)%nat →
  safe_ (judge_validation sv req res out start status snapshot) (λ v s, left_by (10 * op + 2 * fetch) (7 * op) (served v) n s) n.
Proof.
  intros Hn. unfold judge_validation, left_by. destruct (status =? 304).
  - pay. destruct x; cbn [negb]; [|paid; cbn; lia]. unfold apply_validation. paid. destruct (applyValidationResponse _ _ _ _ _ _ _ _ _); cbn; lia.
  - destruct (retryOriginalPreconditions _ _ _).
    { unfold fenceValidationKeys. eapply bind_takes; [apply fence_takes|lia|]. intros _ s Hs. paid. cbn. lia. }
    destruct (varyChangedClientValidators _ _ _); [paid; cbn; lia|]. pay. destruct (fullResponseVaryChanged _ _ _ _ _ _ _); [|paid; cbn; lia].
    pay. eapply bind_takes; [apply refetchVaryResponse_takes|lia|]. intros _ s Hs. paid. cbn. lia.
Qed.

Lemma validateUpstreamResponse_takes req res n :
  (15 * op + 3 * fetch ≤ n)%nat →
  safe_ (validateUpstreamResponse sv req res) (λ v s, left_by (15 * op + 3 * fetch) (12 * op + fetch) (served v) n s) n.
Proof.
  intros Hn. unfold validateUpstreamResponse, left_by. destruct (conditionalRequest _ _) as [out|]; [|paid; cbn; lia].
  pay. destruct x; [paid; cbn; lia|]. eapply bind_takes; [apply fence_takes|lia|]. intros _ s Hs. pay. destruct x; [paid; cbn; lia|].
  pay. destruct x0 as [|status snapshot]; [paid; cbn; lia|]. eapply safe_mono; [|apply judge_validation_takes; lia].
  intros v s' Hleft. unfold left_by in Hleft. destruct (served v); lia.
Qed.

Lemma validateCachedResponse_takes req id res : takes (23 * op + 3 * fetch) (validateCachedResponse sv req id res).
Proof.
  intros n Hn. assert (∀ (p : task ()) a, takes a p → takes (a + 0) (p;; mret (@None Resource))) as Hend.
  { intros p a Hp. apply takes_bind; [exact Hp|]. intros _. apply takes_ret. }
  unfold validateCachedResponse. destruct (cc_Has _ _); [paid|]. cbv zeta.
  eapply (bind_left (15 * op + 3 * fetch) (12 * op + fetch) served); [apply validateUpstreamResponse_takes; lia|].
  intros [|res'|] s Hs; unfold left_by in Hs; cbn [served] in Hs; [| |paid].
  - eapply safe_mono; [|apply (Hend _ _ (refetchCachedResponse_takes req id)); lia]. cbn. lia.
  - pay. destruct (_ || _).
    + assert (∀ b : bool, takes (8 * op + 2 * fetch + 0) ((if b then refetchChangedVaryResponse sv req id res' else refetchCachedResponse sv req id);; mret (@None Resource))) as Hboth.
      { intros b. apply Hend. destruct b; [apply refetchChangedVaryResponse_takes|]. eapply takes_more; [|apply refetchCachedResponse_takes]. lia. }
      eapply safe_mono; [|apply Hboth; lia]. cbn. lia.
    + eapply (bind_takes (5 * op)).
      * unfold freshenValidatedResponse. apply (takes_more (4 * op + op)); [lia|]. apply takes_bind; [apply freshenResource_takes|].
        intros []; cbn [negb]; [|apply takes_ret]. intros m Hm. paid.
      * lia.
      * intros [res2|] s' Hs'; [paid|]. eapply safe_mono; [|apply (Hend _ _ (refetchCachedResponse_takes req id)); lia]. cbn. lia.
Qed.

Lemma serveCachedResponse_takes req id res : takes (29 * op + 3 * fetch) (serveCachedResponse sv req id res).
Proof.
  unfold serveCachedResponse. intros n Hn. pay. eapply (bind_takes (23 * op + 3 * fetch)); [|lia|].
  - destruct (needsValidation _ _ _ _ _ _); [apply validateCachedResponse_takes|apply takes_ret].
  - intros [res'|] s Hs; [|paid]. cbv zeta. eapply (bind_takes op); [apply metrics_takes|lia|]. intros _ s' Hs'. paid.
Qed.

Lemma complete_now_takes c : takes (2 * op) (complete_now c).
Proof. intros n Hn. unfold complete_now. destruct (co_lease c); destruct (co_flight c) as [[]|]; paid. Qed.

Lemma coordination_unavailable_takes c : takes (4 * op) (coordination_unavailable c).
Proof.
  intros n Hn. unfold coordination_unavailable. eapply (bind_takes (2 * op)); [apply complete_now_takes|lia|]. intros _ s Hs. pay. destruct x; paid.
Qed.

(** What is found costs no fetch. *)
Definition miss_left (a n : nat) (r : cacheRequest * option (nat * Resource)) (s : nat) : Prop := left_by (a + fetch) a (missed r.2) n s.

Lemma leadMiss_takes r flight n : (21 * op + fetch ≤ n)%nat → safe_ (leadMiss sv r flight) (miss_left (21 * op) n) n.
Proof.
  intros Hn. unfold leadMiss, miss_left, left_by. destruct (sv_missCoordinator sv); cbn [negb]; [|paid; cbn; lia].
  assert (∀ c s, (4 * op ≤ s)%nat → (n ≤ s + 17 * op)%nat →
    safe_ (coordination_unavailable c;; mret (r, @None (nat * Resource))) (λ r s, (n ≤ s + if missed r.2 then 21 * op + fetch else 21 * op)%nat) s) as Hun.
  { intros c s Hs Hns. eapply (bind_takes (4 * op)); [apply coordination_unavailable_takes|exact Hs|]. intros _ s' Hs'. cbn. lia. }
  pay. destruct x; [apply Hun; lia..|]. cbv zeta. unfold recheckMiss. eapply (bind_takes (15 * op)); [apply lookupUsing_takes|lia|].
  intros [r1 [id res| |]] s Hs.
  - eapply (bind_takes (2 * op)); [apply complete_now_takes|lia|]. intros _ s' Hs'. cbn. lia.
  - pay. destruct x; [|paid; cbn; lia]. eapply (bind_takes (4 * op)); [apply coordination_unavailable_takes|lia|]. intros _ s' Hs'. cbn. lia.
  - eapply (bind_takes (2 * op)); [apply complete_now_takes|lia|]. intros _ s' Hs'. paid. cbn. lia.
Qed.

(** *** The loop

    A turn costs two operations, the wait and a lookup; what the wait does not
    pay for is the deficit of a turn. *)

Section Loop.
Context (deficit : nat) (Hturn : (wait + 17 * op ≤ back + deficit)%nat) (Hwait : (wait ≤ op + deficit)%nat) (Hdry : (dry ≤ op)%nat).

Lemma resolve_loop_takes fuel r n :
  (fuel * deficit + 23 * op + fetch ≤ n)%nat → safe_ (resolve_loop sv fuel r) (miss_left (fuel * deficit + 23 * op) n) n.
Proof.
  revert r n. induction fuel as [|fuel IH]; intros r n Hn; cbn [resolve_loop]; unfold miss_left, left_by in *.
  { pay. done. }
  cbn [Nat.mul] in Hn |- *. set (more := (fuel * deficit)%nat) in *. pay. destruct x; [paid; cbn; lia|]. pay. destruct x as [flight []].
  { eapply safe_mono; [|apply leadMiss_takes; lia]. intros [r' found] s Hs. unfold miss_left, left_by in Hs. cbn in *. destruct (missed found); lia. }
  pay. destruct x; cbn [negb]; [|paid; cbn; lia]. unfold recheckMiss. eapply (bind_takes (15 * op)); [apply lookupUsing_takes|lia|].
  intros [r1 found] s Hs.
  assert (safe_ (if sv_missCoordinator sv then resolve_loop sv fuel r1 else call (PassUpstream r1 None);; mret (r1, None))
    (λ r s, (n ≤ s + if missed r.2 then deficit + more + 23 * op + fetch else deficit + more + 23 * op)%nat) s) as Hagain.
  { destruct (sv_missCoordinator sv); [|paid; cbn; lia]. eapply safe_mono; [|apply IH; lia]. intros [r' x] s' Hs'. cbn in *. destruct (missed x); lia. }
  destruct found as [id res| |]; [cbn; lia|exact Hagain..].
Qed.

Lemma resolveMiss_takes fuel r n :
  (fuel * deficit + 24 * op + fetch ≤ n)%nat → safe_ (resolveMiss sv fuel r) (miss_left (fuel * deficit + 24 * op) n) n.
Proof.
  intros Hn. unfold resolveMiss, miss_left, left_by. destruct (cc_Has _ _); [paid; cbn; lia|].
  eapply (bind_takes op); [apply metrics_takes|lia|]. intros _ s Hs. eapply safe_mono; [|apply resolve_loop_takes; lia].
  intros [r' x] s' Hs'. unfold miss_left, left_by in Hs'. cbn in *. destruct (missed x); lia.
Qed.

Lemma serve_request_takes fuel r : takes (68 * op + fuel * deficit + 3 * fetch) (serve_request sv fuel r).
Proof.
  intros n Hn. unfold serve_request. destruct (negb _).
  - pay. eapply (bind_takes op); [apply metrics_takes|lia|]. intros _ s Hs. paid.
  - unfold lookup_resource. eapply (bind_takes (15 * op)); [apply lookupUsing_takes|lia|]. intros [r1 [id res| |]] s Hs.
    + eapply safe_mono; [|apply serveCachedResponse_takes; lia]. cbn. lia.
    + eapply (safe_bind _ (resolveMiss sv fuel r1)); [apply resolveMiss_takes; lia|]. intros [r2 [[id res]|]] s' Hs'; unfold miss_left, left_by in Hs'; cbn in Hs'.
      * eapply safe_mono; [|apply serveCachedResponse_takes; lia]. cbn. lia.
      * cbn. lia.
    + paid.
Qed.

Lemma ServeHTTP_takes fuel req : takes (69 * op + fuel * deficit + 3 * fetch) (ServeHTTP sv fuel req).
Proof.
  intros n Hn. unfold ServeHTTP. pay. assert (∀ r s, (n ≤ s + op)%nat →
    safe_ (serve_request sv fuel r) (λ _ s', n ≤ s' + (69 * op + fuel * deficit + 3 * fetch))%nat s) as Hgo.
  { intros r s Hs. eapply safe_mono; [|apply serve_request_takes; lia]. cbn. lia. }
  destruct (newCacheRequest _ _) as [r|]; [|paid]. destruct (sv_requestKey sv) as [rk|]; [destruct (rk req); [|paid]|]; apply Hgo; lia.
Qed.
End Loop.
End Effort.

(** *** Running out of turns

    Only waits pay, and [OutOfFuel] costs a wait for each turn. *)

Section Turns.
Context `{D : HttpDate, U : Unicode} (sv : Server) (dry : nat).

Abbreviation safe_ p n := (safe (budget_monitor 0 0 0 1 dry) p (λ _ _, True) n).

Lemma free_safe {A} (p : task A) n : takes 0 0 0 1 dry 0 p → safe_ p n.
Proof. intros Hp. eapply safe_mono; [|apply (Hp n); lia]. done. Qed.

Lemma free_bind {A B} (p : task A) (f : A → task B) n :
  takes 0 0 0 1 dry 0 p → (∀ x s, (n ≤ s)%nat → safe_ (f x) s) → safe_ (p ≫= f) n.
Proof. intros Hp Hf. eapply (safe_bind _ p f); [apply (Hp n); lia|]. intros x s Hs. apply Hf. cbn in Hs. lia. Qed.

Lemma free_call {X A} (e : hop X) (f : X → task A) n :
  price 0 0 0 dry e = 0%nat → (∀ x, safe_ (f x) (n + refund 1 e)%nat) → safe_ (call e ≫= f) n.
Proof. intros Hp Hf. split; [cbn; unfold affordable; rewrite Hp; lia|]. intros x _. cbn. unfold paying. rewrite Hp, Nat.sub_0_r. apply Hf. Qed.

Lemma resolve_loop_turns fuel r n : (dry ≤ n + fuel)%nat → safe_ (resolve_loop sv fuel r) n.
Proof.
  revert r n. induction fuel as [|fuel IH]; intros r n Hn; cbn [resolve_loop].
  { split; [cbn; unfold affordable; cbn; lia|intros []]. }
  apply free_call; [done|]. intros []; [done|]. apply free_call; [done|]. intros [flight []].
  { eapply safe_mono; [|apply leadMiss_takes; lia]. done. }
  apply free_call; [done|]. intros []; [|done]. cbn [negb]. unfold recheckMiss. apply free_bind; [apply lookupUsing_takes|].
  intros [r1 found] s Hs. cbn in Hs. assert (safe_ (if sv_missCoordinator sv then resolve_loop sv fuel r1 else call (PassUpstream r1 None);; mret (r1, None)) s) as Hagain.
  { destruct (sv_missCoordinator sv); [apply IH; lia|]. by apply free_call. }
  by destruct found.
Qed.

Lemma ServeHTTP_turns fuel req n : (dry ≤ n + fuel)%nat → safe_ (ServeHTTP sv fuel req) n.
Proof.
  intros Hn. assert (∀ r s, (n ≤ s)%nat → safe_ (serve_request sv fuel r) s) as Hgo.
  { intros r s Hs. unfold serve_request. destruct (negb _).
    - apply free_call; [done|]. intros _. apply free_bind; [apply metrics_takes|]. intros _ s' _. split; [|done]. cbn. unfold affordable. cbn. lia.
    - unfold lookup_resource. apply free_bind; [apply lookupUsing_takes|]. intros [r1 found] s1 Hs1. cbn in Hs1.
      destruct found as [id res| |]; [apply free_safe, serveCachedResponse_takes| |split; [cbn; unfold affordable; cbn; lia|done]].
      eapply (safe_bind _ (resolveMiss sv fuel r1) _ (λ _ _, True)).
      + unfold resolveMiss. destruct (cc_Has _ _); [by apply free_call|]. apply free_bind; [apply metrics_takes|].
        intros _ s2 Hs2. apply resolve_loop_turns. cbn in Hs2. lia.
      + intros [r2 [[id res]|]] s2 _; [apply free_safe, serveCachedResponse_takes|done]. }
  unfold ServeHTTP. apply free_call; [done|]. intros now.
  destruct (newCacheRequest _ _) as [r|]; [|split; [cbn; unfold affordable; cbn; lia|done]].
  destruct (sv_requestKey sv) as [rk|]; [destruct (rk req); [|split; [cbn; unfold affordable; cbn; lia|done]]|]; apply Hgo; cbn; lia.
Qed.
End Turns.

(** ** Theorem *)

Section Ending.
Context `{D : HttpDate, U : Unicode} (sv : Server).

Lemma spent_ops tr : (length tr ≤ spent 1 1 1 1 tr)%nat.
Proof.
  induction tr as [|[X e x] tr IH]; [cbn; lia|]. unfold spent in *. cbn [sum_list_with length].
  assert (price 1 1 1 1 e = 1)%nat as -> by by destruct e. lia.
Qed.

Lemma spent_fetches tr : spent 0 1 0 0 tr = length (filter event_asks tr).
Proof.
  induction tr as [|[X e x] tr IH]; [done|]. unfold spent in *. cbn [sum_list_with]. rewrite IH, filter_cons. cbn [event_asks].
  by destruct e.
Qed.

Lemma spent_waits tr : spent 0 0 1 0 tr = waits tr.
Proof.
  induction tr as [|[X e x] tr IH]; [done|]. unfold spent, waits in *. cbn [sum_list_with]. rewrite IH, filter_cons. cbn [event_awaits].
  by destruct e.
Qed.

(** C17: a request ends, and asks the origin three times at most.  Whatever the
    cache, the origin, the coordinator and the other requests answer, every run
    of [ServeHTTP] performs at most 72 operations and 18 more for each time it
    waited for the fill of another request, and at most three of them have the
    origin asked: a validation, a second try without the conditions of the
    client, and a full fetch.  The only loop is the one that waits: [fuel]
    bounds its turns, no run waits more often, and one that uses up its turns
    has waited that often; no other answer makes it start over. *)
Theorem ServeHTTP_terminates fuel req tr p' :
  steps (ServeHTTP sv fuel req) tr p' →
  (length tr ≤ 72 + 18 * waits tr)%nat ∧ (length (filter event_asks tr) ≤ 3)%nat ∧
  (waits tr ≤ fuel)%nat ∧ (out_of_fuel p' → waits tr = fuel).
Proof.
  intros Hr.
  assert (waits tr ≤ fuel)%nat as Hw.
  { pose proof (ServeHTTP_takes sv 0 0 1 0 0 1%nat ltac:(lia) ltac:(lia) ltac:(lia) fuel req fuel ltac:(lia)) as Hs.
    destruct (budget_steps _ _ _ _ _ _ _ _ _ _ Hs Hr) as (s & _ & Heq). rewrite spent_waits in Heq. lia. }
  split; [|split; [|split; [exact Hw|]]].
  - pose proof (ServeHTTP_takes sv 1 1 1 18 1 0 ltac:(lia) ltac:(lia) ltac:(lia) fuel req 72%nat ltac:(lia)) as Hs.
    destruct (budget_steps _ _ _ _ _ _ _ _ _ _ Hs Hr) as (s & _ & Heq). pose proof (spent_ops tr). lia.
  - pose proof (ServeHTTP_takes sv 0 1 0 0 0 0 ltac:(lia) ltac:(lia) ltac:(lia) fuel req 3%nat ltac:(lia)) as Hs.
    destruct (budget_steps _ _ _ _ _ _ _ _ _ _ Hs Hr) as (s & _ & Heq). rewrite spent_fetches in Heq. lia.
  - intros Hdry. pose proof (ServeHTTP_turns sv fuel fuel req 0%nat ltac:(lia)) as Hs.
    destruct (budget_steps _ _ _ _ _ _ _ _ _ _ Hs Hr) as (s & Hs' & Heq). destruct p' as [|X [] k]; try done.
    destruct Hs' as [Ha _]. cbn in Ha. unfold affordable in Ha. cbn in Ha. lia.
Qed.
End Ending.

(** ** Witness *)

#[local] Existing Instance stamp_date.
#[local] Existing Instance latin1_print.

(** A stale entry, a conditional request to the origin, a full answer. *)
Lemma ServeHTTP_terminates_witness :
  length replaced_run.1 = 16%nat ∧ length (filter event_asks replaced_run.1) = 1%nat ∧
  (length replaced_run.1 ≤ 72 + 18 * waits replaced_run.1)%nat ∧ (length (filter event_asks replaced_run.1) ≤ 3)%nat.
Proof.
  assert (steps (ServeHTTP plain_server 1 (example_request ∅)) replaced_run.1 replaced_run.2) as Hs by apply execute_steps.
  split; [vm_compute; reflexivity|]. split; [vm_compute; reflexivity|].
  destruct (ServeHTTP_terminates plain_server 1 (example_request ∅) replaced_run.1 replaced_run.2 Hs) as (H1 & H2 & _). by split.
Defined.
