(* ===== verification/Path.v ===== *)
(** * What the request path names

    Two more things every run of [ServeHTTP] keeps to, whatever the
    surroundings answer: the keys it looks up and fetches under are those of
    its request, and the flights it waits for are those it was told of. *)

From S2P Require Import Prelude GoStrings GoTime GoQuote GoHttp GoUrl CacheControl Keys Resource Policy Validator Publication Program Lookup Serve.
Import Headers.

(** ** The keys of a request *)

(** The key [ServeHTTP] gives to a request. *)
Definition own_key `{U : Unicode} (sv : Server) (req : Request) : option Key :=
  match sv_requestKey sv with Some requestKey => requestKey req | None => Some (NewRequestKey req) end.

(** The keys a request is looked up under: its own or, for a HEAD, that of the
    GET, and their variants. *)
Definition looked_for `{U : Unicode} (sv : Server) (req : Request) (key : string) : Prop :=
  ∃ k0 k, own_key sv req = Some k0 ∧ (k = k0 ∨ k = ForMethod k0 "GET") ∧
    (key = Key_String k ∨ ∃ vary, key = Key_String (Key_Vary k vary req)).

Section Path.
(** [good]: any property of the flights that [ClaimMiss] answers. *)
Context `{D : HttpDate, U : Unicode} (sv : Server) (req : Request) (good : nat → Prop).

(** The operations that name a key use those of the request, a flight waited
    for was claimed, and the only field the path sets on its client is
    [X-Cache]. *)
Definition path_allowed {X} (e : hop X) : Prop :=
  match e with
  | RetrieveKey _ key => looked_for sv req key
  | PassUpstream r _ | DeliverExchange r _ _ => own_key sv req = Some (cr_Key r)
  | SetClientHeader name _ => name = CacheHeader
  | AwaitFlight flight => good flight
  | _ => True
  end.

Definition path_possible {X} (e : hop X) : X → Prop :=
  match e in hop X return X → Prop with ClaimMiss _ => λ x, good x.1 | _ => λ _, True end.

Definition path_monitor : monitor (E := hop) () :=
  {| possible _ e x _ := path_possible e x; allowed _ e _ := path_allowed e; next _ _ _ s := s |}.

Abbreviation safe_ p Q := (safe path_monitor p Q tt).

(** A request as it came, but for what the lookup found out. *)
Definition as_asked (r : cacheRequest) : Prop := cr_Request r = req ∧ own_key sv req = Some (cr_Key r).

Ltac path_simpl := cbn [safe prog_bind mbind prog_mbind mret prog_mret call possible allowed next path_monitor path_allowed path_possible when fst snd].
Ltac path_step := path_simpl; match goal with |- _ ∧ (∀ _, _) => split; [try done|intros ? _] end.

Lemma path_bind {A B} (p : task A) (f : A → task B) (Q : A → Prop) (R : B → Prop) :
  safe_ p (λ a _, Q a) → (∀ a, Q a → safe_ (f a) (λ b _, R b)) → safe_ (p ≫= f) (λ b _, R b).
Proof. intros Hp Hf. eapply (safe_bind _ p f _ _ _ Hp). intros a [] Ha. by apply Hf. Qed.

Lemma generationRetriever_path m key : looked_for sv req key → safe_ (generationRetriever sv m key) (λ _ _, True).
Proof.
  intros Hk. unfold generationRetriever. destruct (sv_staleAtChecker sv); [by path_step; path_simpl|]. path_step. path_step.
  destruct x0; path_simpl; [|done..]. path_step. by path_simpl.
Qed.

Lemma mark_invalidated_path res rk bk bs : safe_ (mark_invalidated sv res rk bk bs) (λ _ _, True).
Proof. unfold mark_invalidated. destruct (rk <>?s bk); path_simpl; [path_step|]; path_step; by path_simpl. Qed.

Definition base_key (r : cacheRequest) (k : Key) : Prop := k = cr_Key r ∨ k = ForMethod (cr_Key r) "GET".

Lemma base_looked_for r k : as_asked r → base_key r k → looked_for sv req (Key_String k).
Proof. intros [_ Ho] Hk. exists (cr_Key r), k. split; [done|]. split; [exact Hk|by left]. Qed.

Lemma lookupBaseUsing_path m r :
  as_asked r → safe_ (lookupBaseUsing sv m r) (λ a _, as_asked a.1.1 ∧ base_key r a.1.2 ∧ cr_Key a.1.1 = cr_Key r).
Proof.
  intros Hr. unfold lookupBaseUsing. cbv zeta.
  eapply (path_bind _ _ (λ _, True)); [apply generationRetriever_path, (base_looked_for r); [done|by left]|].
  intros [id res| |] _; [path_simpl; split_and!; [done|by left|done]| |path_simpl; split_and!; [done|by left|done]].
  cbn [cr_Request set_discovery]. destruct (_ =?s _); [|path_simpl; split_and!; [done|by left|done]].
  eapply (path_bind _ _ (λ _, True)); [apply generationRetriever_path, (base_looked_for r); [done|by right]|].
  intros [id res| |] _; [|path_simpl; split_and!; [done|by right|done]..].
  destruct (_ && _); [path_simpl; split_and!; [done|by right|done]|]. path_step. path_simpl. split_and!; [done|by right|done].
Qed.

Lemma lookupUsing_path m r : as_asked r → safe_ (lookupUsing sv m r) (λ a _, as_asked a.1).
Proof.
  intros Hr. unfold lookupUsing. eapply (path_bind _ _ (λ a, as_asked a.1.1 ∧ base_key r a.1.2 ∧ cr_Key a.1.1 = cr_Key r) (λ a, as_asked a.1)); [by apply lookupBaseUsing_path|].
  intros [[r1 k] [id res| |]] (H1 & Hk & Hkey); cbn [fst snd] in H1, Hk, Hkey; [|by path_simpl..]. cbv zeta.
  eapply (path_bind _ _ (λ _, True) (λ a, as_asked a.1)); [apply mark_invalidated_path|]. intros res' _.
  destruct (nonempty _); [|by path_simpl]. unfold lookupVaryResource. destruct (varyWildcard _); [path_step; by path_simpl|]. cbv zeta.
  eapply (path_bind _ _ (λ _, True) (λ a, as_asked a.1)).
  { apply generationRetriever_path. destruct H1 as [Hq Ho]. exists (cr_Key r1), k. split; [done|]. rewrite Hkey. split; [exact Hk|].
    right. eexists. by rewrite <- Hq. }
  intros [vid varied| |] _; path_step; [|by path_simpl..].
  eapply (path_bind _ _ (λ _, True) (λ a, as_asked a.1)); [apply mark_invalidated_path|]. intros res2 _. by path_simpl.
Qed.

Lemma metrics_path m method : safe_ (metrics sv m method) (λ _ _, True).
Proof. unfold metrics. destruct (sv_metrics sv); path_simpl; done. Qed.

Lemma fence_path keys : safe_ (fence sv keys) (λ _ _, True).
Proof. unfold fence, record_stale. destruct (sv_staleAtChecker sv); path_simpl; done. Qed.

(** What replaces a response is fetched under the key of the request. *)
Definition keyed (r : cacheRequest) : Prop := own_key sv req = Some (cr_Key r).

Lemma refetchOriginalResponse_path r : keyed r → safe_ (refetchOriginalResponse sv r) (λ _ _, True).
Proof.
  intros Hr. unfold refetchOriginalResponse, fenceValidationKeys. eapply (path_bind _ _ (λ _, True) (λ _, True)); [apply fence_path|].
  intros _ _. path_step. by path_simpl.
Qed.

Lemma refetchVaryResponse_path r vary : keyed r → safe_ (refetchVaryResponse sv r vary) (λ _ _, True).
Proof.
  intros Hr. unfold refetchVaryResponse. destruct (varyUsesClientValidators vary); [by apply refetchOriginalResponse_path|].
  unfold fenceValidationKeys. eapply (path_bind _ _ (λ _, True) (λ _, True)); [apply fence_path|]. intros _ _. cbv zeta. path_step.
  unfold streamVaryRebuild. path_step. destruct x0; [by path_simpl|]. destruct (varyChangedClientValidators _ _ _).
  - path_step. by apply refetchOriginalResponse_path.
  - by path_simpl.
Qed.

Lemma refetchCachedResponse_path r id : keyed r → safe_ (refetchCachedResponse sv r id) (λ _ _, True).
Proof. intros Hr. unfold refetchCachedResponse. path_step. by apply refetchOriginalResponse_path. Qed.

Lemma judge_validation_path r res out start status snapshot :
  keyed r → safe_ (judge_validation sv r res out start status snapshot) (λ _ _, True).
Proof.
  intros Hr. unfold judge_validation. destruct (status =? 304).
  - path_step. destruct x; cbn [negb]; [|by path_simpl]. unfold apply_validation. by path_simpl.
  - destruct (retryOriginalPreconditions _ _ _).
    { unfold fenceValidationKeys. eapply (path_bind _ _ (λ _, True) (λ _, True)); [apply fence_path|]. intros _ _. by path_simpl. }
    destruct (varyChangedClientValidators _ _ _); [by path_simpl|]. path_step. path_step. destruct (fullResponseVaryChanged _ _ _ _ _ _ _); [|by path_simpl].
    path_step. eapply (path_bind _ _ (λ _, True) (λ _, True)); [by apply refetchVaryResponse_path|]. intros _ _. by path_simpl.
Qed.

Lemma validateCachedResponse_path r id res : keyed r → safe_ (validateCachedResponse sv r id res) (λ _ _, True).
Proof.
  intros Hr. assert (∀ p : task (), safe_ p (λ _ _, True) → safe_ (p;; mret (@None Resource)) (λ _ _, True)) as Hend.
  { intros p Hp. eapply (path_bind _ _ (λ _, True) (λ _, True)); [exact Hp|]. intros _ _. by path_simpl. }
  unfold validateCachedResponse. destruct (cc_Has _ _); [by path_simpl|]. cbv zeta.
  eapply (path_bind _ _ (λ _, True) (λ _, True)).
  - unfold validateUpstreamResponse. destruct (conditionalRequest _ _); [|by path_simpl]. path_step. destruct x; [by path_simpl|].
    eapply (path_bind _ _ (λ _, True) (λ _, True)); [apply fence_path|]. intros _ _. path_step. destruct x; [by path_simpl|].
    path_step. path_step. destruct x0; [by path_simpl|]. by apply judge_validation_path.
  - intros [|res'|] _; [apply Hend; by apply refetchCachedResponse_path| |by path_simpl]. path_step. path_step. destruct (_ || _).
    + apply Hend. destruct (negb _); [|by apply refetchCachedResponse_path]. unfold refetchChangedVaryResponse. cbv zeta. path_step.
      by apply refetchVaryResponse_path.
    + eapply (path_bind _ _ (λ _, True) (λ _, True)).
      { unfold freshenValidatedResponse. eapply (path_bind _ _ (λ _, True) (λ _, True)).
        - unfold freshenResource. destruct (sv_staleAtChecker sv); [by path_simpl|]. destruct (IsZero _); by path_simpl.
        - intros [] _; by path_simpl. }
      intros [res2|] _; [by path_simpl|]. apply Hend. by apply refetchCachedResponse_path.
Qed.

Lemma serveCachedResponse_path r id res : keyed r → safe_ (serveCachedResponse sv r id res) (λ _ _, True).
Proof.
  intros Hr. unfold serveCachedResponse. do 3 path_step. eapply (path_bind _ _ (λ _, True) (λ _, True)).
  - destruct (needsValidation _ _ _ _ _ _); [by apply validateCachedResponse_path|by path_simpl].
  - intros [res'|] _; [|by path_simpl]. cbv zeta. eapply (path_bind _ _ (λ _, True) (λ _, True)); [apply metrics_path|]. intros _ _. by path_simpl.
Qed.

Lemma complete_now_path c : safe_ (complete_now c) (λ _ _, True).
Proof. unfold complete_now. destruct (co_lease c); destruct (co_flight c) as [[]|]; by path_simpl. Qed.

Lemma leadMiss_path r flight : as_asked r → safe_ (leadMiss sv r flight) (λ a _, as_asked a.1).
Proof.
  intros Hr. assert (∀ c, safe_ (coordination_unavailable c;; mret (r, @None (nat * Resource))) (λ a _, as_asked a.1)) as Hun.
  { intros c. unfold coordination_unavailable. eapply (path_bind _ _ (λ _, True) (λ a, as_asked a.1)); [|intros _ _; by path_simpl].
    eapply (path_bind _ _ (λ _, True) (λ _, True)); [apply complete_now_path|]. intros _ _. path_step. destruct x; by path_simpl. }
  unfold leadMiss. destruct (sv_missCoordinator sv); cbn [negb]; [|path_step; [by apply Hr|by path_simpl]]. path_step.
  destruct x; [apply Hun..|]. cbv zeta.
  eapply (path_bind _ _ (λ a, as_asked a.1) (λ a, as_asked a.1)); [by apply lookupUsing_path|]. intros [r1 [id res| |]] H1.
  - eapply (path_bind _ _ (λ _, True) (λ a, as_asked a.1)); [apply complete_now_path|]. intros _ _. by path_simpl.
  - path_step. destruct x; [|path_step; [by apply H1|by path_simpl]].
    eapply (path_bind _ _ (λ _, True) (λ a, as_asked a.1)); [|intros _ _; by path_simpl].
    unfold coordination_unavailable. eapply (path_bind _ _ (λ _, True) (λ _, True)); [apply complete_now_path|]. intros _ _. path_step. destruct x; by path_simpl.
  - eapply (path_bind _ _ (λ _, True) (λ a, as_asked a.1)); [apply complete_now_path|]. intros _ _. by path_simpl.
Qed.

Lemma resolve_loop_path fuel r : as_asked r → safe_ (resolve_loop sv fuel r) (λ a _, as_asked a.1).
Proof.
  revert r. induction fuel as [|fuel IH]; intros r Hr; cbn [resolve_loop]; [path_step; done|]. path_step. destruct x; [by path_simpl|].
  path_simpl. split; [done|]. intros [flight []] Hgood; [by apply leadMiss_path|]. path_simpl. split; [exact Hgood|]. intros x _.
  destruct x; cbn [negb]; [|by path_simpl].
  eapply (path_bind _ _ (λ a, as_asked a.1) (λ a, as_asked a.1)); [by apply lookupUsing_path|]. intros [r1 found] H1.
  assert (safe_ (if sv_missCoordinator sv then resolve_loop sv fuel r1 else call (PassUpstream r1 None);; mret (r1, None)) (λ a _, as_asked a.1)) as Hagain.
  { destruct (sv_missCoordinator sv); [by apply IH|]. path_step; [by apply H1|by path_simpl]. }
  by destruct found.
Qed.

Lemma serve_request_path fuel r : as_asked r → safe_ (serve_request sv fuel r) (λ _ _, True).
Proof.
  intros Hr. unfold serve_request. destruct (negb _).
  - path_step. eapply (path_bind _ _ (λ _, True) (λ _, True)); [apply metrics_path|]. intros _ _. by path_simpl.
  - eapply (path_bind _ _ (λ a, as_asked a.1) (λ _, True)); [by apply lookupUsing_path|]. intros [r1 [id res| |]] H1.
    + by apply serveCachedResponse_path, H1.
    + eapply (path_bind _ _ (λ a, as_asked a.1) (λ _, True)).
      { unfold resolveMiss. destruct (cc_Has _ _); [by path_simpl|]. eapply (path_bind _ _ (λ _, True) (λ a, as_asked a.1)); [apply metrics_path|].
        intros _ _. by apply resolve_loop_path. }
      intros [r2 [[id res]|]] H2; [by apply serveCachedResponse_path, H2|by path_simpl].
    + by path_simpl.
Qed.

Lemma ServeHTTP_path fuel : safe_ (ServeHTTP sv fuel req) (λ _ _, True).
Proof.
  unfold ServeHTTP. path_step. assert (∀ r, newCacheRequest x req = Some r → cr_Request r = req ∧ cr_Key r = NewRequestKey req) as Hnew.
  { intros r. unfold newCacheRequest. destruct (ParseCacheControlHeaders _); [|done]. by destruct (_ && _); [|intros [= <-]]. }
  destruct (newCacheRequest x req) as [r|]; [|by path_simpl]. destruct (Hnew r eq_refl) as [Hq Hk].
  destruct (sv_requestKey sv) as [rk|] eqn:Ek.
  - destruct (rk req) as [k|] eqn:Er; [|by path_simpl]. apply serve_request_path. split; [done|]. unfold own_key. by rewrite Ek.
  - apply serve_request_path. split; [done|]. unfold own_key. by rewrite Ek, Hk.
Qed.
End Path.
