(* ===== verification/Origin.v ===== *)
(** * Invalidation targets ([handler.go], [miss_coordinator.go])

    The keys a successful unsafe request makes stale: those of its own URL and
    of the URLs its response names in Location and Content-Location, when they
    are of the same origin.  [url.Parse] is a parameter ([UrlParser]); the
    other parts of [net/url] used here are written out. *)

From S2P Require Import Prelude GoStrings GoTime GoQuote GoHttp GoUrl CacheControl Keys Resource Policy.

(** ** Package [net/url] *)

Class UrlParser := { url_Parse : string → option URL }.

(** The text before and after the last [sep]: [strings.LastIndexByte]. *)
Fixpoint cut_last (sep : ascii) (s : string) : option (string * string) :=
  match s with
  | EmptyString => None
  | String c s =>
      match cut_last sep s with
      | Some (before, after) => Some (String c before, after)
      | None => if Ascii.eqb c sep then Some (EmptyString, s) else None
      end
  end.

(** [url.splitHostPort], with [validOptionalPort]: [URL.Hostname] and
    [URL.Port]. *)
Definition splitHostPort (hostPort : string) : string * string :=
  let '(host, port) :=
    match cut_last ":" hostPort with
    | Some (host, port) => if str_forall is_digit port then (host, port) else (hostPort, EmptyString)
    | None => (hostPort, EmptyString)
    end in
  (if HasPrefix host "[" && HasSuffix host "]"
   then String.substring 1 (String.length host - 2) host else host, port).
Definition Hostname (u : URL) : string := (splitHostPort (Host u)).1.
Definition Port (u : URL) : string := (splitHostPort (Host u)).2.

(** [URL.RequestURI] *)
Definition RequestURI (u : URL) : string :=
  let result :=
    if nonempty (Opaque u) then
      (if HasPrefix (Opaque u) "//" then (Scheme u +:+ ":" +:+ Opaque u)%string else Opaque u)
    else if nonempty (EscapedPath u) then EscapedPath u else "/"%string in
  (result +:+ url_query u)%string.

(** [url.resolvePath]: the loop over the segments of the merged path; [dst]
    is what is written after the leading slash. *)
Definition drop_last_segment (dst : string) : string * bool :=
  match cut_last "/" dst with
  | Some (before, _) => (before, false)
  | None => (EmptyString, true)
  end.

Fixpoint resolve_segments (elems : list string) (dst : string) (first : bool) (elem : string) : string * string :=
  match elems with
  | [] => (dst, elem)
  | elem :: elems =>
      if elem =?s "." then resolve_segments elems dst false elem
      else if elem =?s ".." then
        let '(dst, first') := drop_last_segment dst in
        resolve_segments elems dst (first' || first) elem
      else resolve_segments elems ((if first then dst else dst +:+ "/") +:+ elem)%string false elem
  end.

Definition resolvePath (base ref : string) : string :=
  let full :=
    if negb (nonempty ref) then base
    else if starts_with_slash ref then ref
    else match cut_last "/" base with
         | Some (before, _) => (before +:+ "/" +:+ ref)%string
         | None => ref
         end in
  if negb (nonempty full) then EmptyString
  else
    let '(dst, elem) := resolve_segments (Split "/" full) EmptyString true EmptyString in
    let r := ("/" +:+ dst +:+ (if (elem =?s ".") || (elem =?s "..") then "/" else EmptyString))%string in
    match r with
    | String _ (String "/" _ as r') => r'
    | _ => r
    end%char.

(** [URL.setPath]: the path and the raw path of an escaped path. *)
Definition setPath (p : string) : string * string :=
  match unescape p with
  | Some path => (path, if escape path encodePath =?s p then EmptyString else p)
  | None => (EmptyString, EmptyString)
  end.

(** [URL.ResolveReference] on a reference without scheme, user, host, opaque
    part and fragment: its path and query. *)
Definition ResolveReference (u : URL) (path rawPath rawQuery : string) (forceQuery : bool) : URL :=
  let ref := {| Scheme := EmptyString; Opaque := EmptyString; User := None; Host := EmptyString; Path := path;
                RawPath := rawPath; OmitHost := false; ForceQuery := forceQuery; RawQuery := rawQuery;
                Fragment := EmptyString; RawFragment := EmptyString |} in
  let inherits := negb (nonempty path) && negb forceQuery && negb (nonempty rawQuery) in
  let query := if inherits then RawQuery u else rawQuery in
  let fragment := if inherits then Fragment u else EmptyString in
  let rawFragment := if inherits then RawFragment u else EmptyString in
  if negb (nonempty path) && nonempty (Opaque u) then
    {| Scheme := Scheme u; Opaque := Opaque u; User := None; Host := EmptyString; Path := path; RawPath := rawPath;
       OmitHost := false; ForceQuery := forceQuery; RawQuery := query; Fragment := fragment; RawFragment := rawFragment |}
  else
    let '(path, rawPath) := setPath (resolvePath (EscapedPath u) (EscapedPath ref)) in
    {| Scheme := Scheme u; Opaque := EmptyString; User := User u; Host := Host u; Path := path; RawPath := rawPath;
       OmitHost := false; ForceQuery := forceQuery; RawQuery := query; Fragment := fragment; RawFragment := rawFragment |}.

(** [strconv.ParseUint(s, 10, 16)] *)
Definition ParseUint16 (s : string) : option Z :=
  if nonempty s then
    match digits_acc s 0 with Some n => if n <=? 65535 then Some n else None | None => None end
  else None.

(** ** Origins *)

Section Origin.
Context `{UrlParser}.

(** [cacheRequest.originScheme] *)
Definition originScheme (r : Request) : string :=
  let scheme := ToLower (Scheme (req_URL r)) in
  if nonempty scheme then scheme else if req_TLS r then "https"%string else "http"%string.

(** [normalizedOriginAuthority]: [None] is the false result. *)
Definition normalizedOriginAuthority (scheme authority : string) : option (string * string) :=
  match url_Parse ("//" +:+ authority)%string with
  | None => None
  | Some u =>
      if negb (nonempty (Host u)) then None
      else if negb (nonempty (Hostname u)) then None
      else if nonempty (Port u) then
        match ParseUint16 (Port u) with
        | Some n => Some (Hostname u, Itoa n)
        | None => None
        end
      else Some (Hostname u, if ToLower scheme =?s "http" then "80"%string
                             else if ToLower scheme =?s "https" then "443"%string else EmptyString)
  end.

(** [cacheRequest.matchesOrigin] *)
Definition matchesOrigin (r : Request) (target : URL) : bool :=
  let requestScheme := originScheme r in
  let targetScheme := if nonempty (ToLower (Scheme target)) then ToLower (Scheme target) else requestScheme in
  let requestAuthority := if nonempty (req_Host r) then req_Host r else Host (req_URL r) in
  match normalizedOriginAuthority requestScheme requestAuthority, normalizedOriginAuthority targetScheme (Host target) with
  | Some (requestHost, requestPort), Some (targetHost, targetPort) =>
      (requestScheme =?s targetScheme) && EqualFold requestHost targetHost && (requestPort =?s targetPort)
  | _, _ => false
  end.

Definition origin_form (u : URL) : bool := negb (nonempty (Scheme u)) && negb (nonempty (Host u)).
Definition absolute (u : URL) : bool := nonempty (Scheme u) || nonempty (Host u).

(** [cacheRequest.invalidationTarget] *)
Definition invalidationTarget (r : Request) (u : URL) : URL :=
  let base := req_URL r in
  let ref := if absolute u then u else ResolveReference base (Path u) (RawPath u) (RawQuery u) (ForceQuery u) in
  let originForm := origin_form base in
  {| Scheme := if nonempty (Scheme u) && negb originForm then Scheme u else Scheme base;
     Opaque := Opaque base;
     User := if nonempty (Host u) && negb originForm then User u else User base;
     Host := if nonempty (Host u) && negb originForm then Host u else Host base;
     Path := if originForm && absolute u && negb (nonempty (Path ref)) then "/"%string else Path ref;
     RawPath := RawPath ref;
     OmitHost := OmitHost base;
     ForceQuery := ForceQuery ref;
     RawQuery := RawQuery ref;
     Fragment := EmptyString;
     RawFragment := RawFragment base |}.

(** [cacheRequest.sameOriginURL] *)
Definition sameOriginURL (r : Request) (raw : string) : option URL :=
  match url_Parse raw with
  | None => None
  | Some u =>
      if nonempty (Host u) && negb (matchesOrigin r u) then None
      else Some (invalidationTarget r u)
  end.

(** ** Keys *)

Context `{Unicode}.

Definition named_targets (res : Resource) (r : Request) : list URL :=
  omap (λ header, let raw := Get (r_header res) header in
                  if nonempty raw then sameOriginURL r raw else None) ["Location"; "Content-Location"]%string.

Definition both_keys (k : Key) : list string := [Key_String k; Key_String (ForMethod k "HEAD")].

(** The function [invalidationKeys]. *)
Definition invalidationKeys (res : Resource) (r : cacheRequest) : list string :=
  let req := cr_Request r in
  both_keys (NewKey "GET" (req_URL req) (req_Header req)) ++
  mjoin (map (λ u, both_keys (NewKey "GET" u (req_Header req))) (named_targets res req)).

(** [invalidationRequestURI] *)
Definition invalidationRequestURI (original : string) (target : URL) : string :=
  if negb (nonempty original) then EmptyString
  else if HasPrefix original "/" || (original =?s "*") then RequestURI target
  else URL_String target.

Definition retarget (r : Request) (u : URL) : Request :=
  {| req_Method := req_Method r; req_URL := u; req_Header := req_Header r;
     req_Host := if nonempty (Host u) then Host u else req_Host r; req_Proto := req_Proto r;
     req_ProtoMajor := req_ProtoMajor r; req_ProtoMinor := req_ProtoMinor r; req_TLS := req_TLS r;
     req_RequestURI := invalidationRequestURI (req_RequestURI r) u |}.

Definition as_get (r : Request) : Request :=
  {| req_Method := "GET"; req_URL := req_URL r; req_Header := req_Header r; req_Host := req_Host r;
     req_Proto := req_Proto r; req_ProtoMajor := req_ProtoMajor r; req_ProtoMinor := req_ProtoMinor r;
     req_TLS := req_TLS r; req_RequestURI := req_RequestURI r |}.

(** [Handler.invalidationKeys], with the application's key policy. *)
Definition handler_invalidationKeys (requestKey : option (Request → option Key)) (res : Resource) (r : cacheRequest) :
  list string :=
  match requestKey with
  | None => invalidationKeys res r
  | Some requestKey =>
      let requests := cr_Request r :: map (retarget (cr_Request r)) (named_targets res (cr_Request r)) in
      mjoin (map (λ request, match requestKey (as_get request) with Some k => both_keys k | None => [] end) requests)
  end.
End Origin.

(** ** Theorems *)

Section Theorems.
Context `{P : UrlParser, U : Unicode}.

(** The URL of a direct request for what a reference names, as the server
    parses it.  In origin form it has a path and a query; an absolute reference
    without a path names the root. *)
Definition in_origin_form (u : URL) : URL :=
  {| Scheme := EmptyString; Opaque := EmptyString; User := None; Host := EmptyString; Path := Path u; RawPath := RawPath u;
     OmitHost := false; ForceQuery := ForceQuery u; RawQuery := RawQuery u; Fragment := EmptyString; RawFragment := EmptyString |}.
Definition rooted (u : URL) : URL :=
  {| Scheme := Scheme u; Opaque := Opaque u; User := User u; Host := Host u;
     Path := if nonempty (Path u) then Path u else "/"%string; RawPath := RawPath u; OmitHost := OmitHost u;
     ForceQuery := ForceQuery u; RawQuery := RawQuery u; Fragment := Fragment u; RawFragment := RawFragment u |}.

(** In absolute form it is the reference, with the scheme of the request where
    it names none. *)
Definition in_absolute_form (scheme : string) (u : URL) : URL :=
  {| Scheme := if nonempty (Scheme u) then Scheme u else scheme; Opaque := EmptyString; User := User u; Host := Host u;
     Path := Path u; RawPath := RawPath u; OmitHost := false; ForceQuery := ForceQuery u; RawQuery := RawQuery u;
     Fragment := EmptyString; RawFragment := EmptyString |}.

(** What a relative reference resolves to. *)
Definition resolved (base u : URL) : URL := ResolveReference base (Path u) (RawPath u) (RawQuery u) (ForceQuery u).

Definition plain_url (u : URL) : Prop := Opaque u = EmptyString ∧ OmitHost u = false ∧ RawFragment u = EmptyString.

(** A request as a server parses it: a target in origin form, or in absolute
    form as a proxy gets it. *)
Definition server_request (r : Request) : Prop :=
  plain_url (req_URL r) ∧ Scheme (req_URL r) = EmptyString ∧ Host (req_URL r) = EmptyString ∧ User (req_URL r) = None ∧
  HasPrefix (req_RequestURI r) "/" = true.
Definition proxy_request (r : Request) : Prop :=
  plain_url (req_URL r) ∧ Scheme (req_URL r) ≠ EmptyString ∧ Host (req_URL r) ≠ EmptyString ∧
  req_RequestURI r ≠ EmptyString ∧ req_RequestURI r ≠ "*"%string ∧ HasPrefix (req_RequestURI r) "/" = false.

(** The URL [t] of a direct request for what [u] names in a response to [r]. *)
Definition names (r : Request) (u t : URL) : Prop :=
  (Host u ≠ EmptyString ∧ matchesOrigin r u = true ∧
     (server_request r ∧ t = in_origin_form (rooted u) ∨ proxy_request r ∧ t = in_absolute_form (Scheme (req_URL r)) u)) ∨
  (Scheme u = EmptyString ∧ Host u = EmptyString ∧
     (server_request r ∧ t = in_origin_form (resolved (req_URL r) u) ∨
      proxy_request r ∧ t = in_absolute_form (Scheme (req_URL r)) (resolved (req_URL r) u))).

(** A direct request for [t] from the client of [r], as an application's key
    policy sees it. *)
Definition direct_request (r : Request) (t : URL) : Request :=
  {| req_Method := "GET"; req_URL := t; req_Header := req_Header r; req_Host := if nonempty (Host t) then Host t else req_Host r;
     req_Proto := req_Proto r; req_ProtoMajor := req_ProtoMajor r; req_ProtoMinor := req_ProtoMinor r; req_TLS := req_TLS r;
     req_RequestURI := if origin_form t then RequestURI t else URL_String t |}.

Lemma elem_of_both_keys k x : x ∈ both_keys k ↔ x = Key_String k ∨ x = Key_String (ForMethod k "HEAD").
Proof. unfold both_keys. rewrite !elem_of_cons, elem_of_nil. tauto. Qed.

Lemma elem_of_invalidationKeys res r x :
  x ∈ invalidationKeys res r ↔
  ∃ u m, (u = req_URL (cr_Request r) ∨ u ∈ named_targets res (cr_Request r)) ∧ (m = "GET" ∨ m = "HEAD")%string ∧
    x = Key_String (NewKey m u (req_Header (cr_Request r))).
Proof.
  unfold invalidationKeys. rewrite elem_of_app, list_elem_of_join. split.
  - intros [[->| ->]%elem_of_both_keys|(l & Hx & (u & -> & Hu)%list_elem_of_fmap)].
    + exists (req_URL (cr_Request r)), "GET"%string. auto.
    + exists (req_URL (cr_Request r)), "HEAD"%string. auto.
    + apply elem_of_both_keys in Hx as [->| ->]; [exists u, "GET"%string|exists u, "HEAD"%string]; auto.
  - intros (u & m & [->|Hu] & Hm & ->).
    + left. apply elem_of_both_keys. destruct Hm as [->| ->]; auto.
    + right. eexists. split; [|apply list_elem_of_fmap; by exists u].
      apply elem_of_both_keys. destruct Hm as [->| ->]; auto.
Qed.

Lemma elem_of_named_targets res r u :
  u ∈ named_targets res r ↔
  ∃ header, (header = "Location" ∨ header = "Content-Location")%string ∧ Get (r_header res) header ≠ EmptyString ∧
    sameOriginURL r (Get (r_header res) header) = Some u.
Proof.
  unfold named_targets. rewrite list_elem_of_omap. split.
  - intros (header & Hh & Hu). rewrite !elem_of_cons, elem_of_nil in Hh. cbv zeta in Hu.
    destruct (Get (r_header res) header) as [|c s] eqn:E; [done|]. exists header.
    split; [tauto|]. by rewrite E.
  - intros (header & Hh & Hne & Hu). exists header. split; [rewrite !elem_of_cons; tauto|].
    cbv zeta. by destruct (Get (r_header res) header).
Qed.

Lemma Key_String_header m u h1 h2 : Key_String (NewKey m u h1) = Key_String (NewKey m u h2).
Proof. done. Qed.

Lemma resolved_origin base u :
  Opaque base = EmptyString → Scheme (resolved base u) = Scheme base ∧ Host (resolved base u) = Host base ∧ User (resolved base u) = User base.
Proof.
  intros Ho. unfold resolved, ResolveReference. rewrite Ho. cbn [nonempty]. rewrite andb_false_r.
  by destruct (setPath _).
Qed.

(** The target the code builds is the URL of a direct request. *)
Lemma invalidationTarget_names r u t : names r u t → invalidationTarget r u = t ∧ (Host u ≠ EmptyString → matchesOrigin r u = true).
Proof.
  assert (∀ s, s ≠ EmptyString → nonempty s = true) as Hne by (by intros []).
  intros [(Hh & Hm & [[((Ho & Hom & Hrf) & Hs & Hb & Hu & _) ->]|[((Ho & Hom & Hrf) & Hs & Hb & _) ->]])
    |(Hus & Huh & [[((Ho & Hom & Hrf) & Hs & Hb & Hu & _) ->]|[((Ho & Hom & Hrf) & Hs & Hb & _) ->]])]; (split; [|done]).
  - unfold invalidationTarget, origin_form, absolute. rewrite Hs, Hb, Ho, Hom, Hrf, Hu, (Hne _ Hh), orb_true_r. cbn.
    unfold in_origin_form, rooted. cbn. rewrite !andb_false_r. by destruct (Path u).
  - unfold invalidationTarget, origin_form, absolute. rewrite Ho, Hom, Hrf, (Hne _ Hh), (Hne _ Hs), orb_true_r. cbn.
    unfold in_absolute_form. by rewrite andb_true_r.
  - unfold invalidationTarget, origin_form, absolute. rewrite Hs, Hb, Ho, Hom, Hrf, Hu, Hus, Huh. done.
  - destruct (resolved_origin (req_URL r) u Ho) as (E1 & E2 & E3).
    unfold invalidationTarget, origin_form, absolute, in_absolute_form. fold (resolved (req_URL r) u).
    rewrite E1, E2, E3, Ho, Hom, Hrf, Hus, Huh, (Hne _ Hs). cbn. done.
Qed.

Lemma named_target res r header u t :
  (header = "Location" ∨ header = "Content-Location")%string → Get (r_header res) header ≠ EmptyString →
  url_Parse (Get (r_header res) header) = Some u → names r u t → t ∈ named_targets res r.
Proof.
  intros Hh Hne Hp Hn. destruct (invalidationTarget_names _ _ _ Hn) as [<- Hm]. apply elem_of_named_targets. exists header.
  split; [done|]. split; [done|]. unfold sameOriginURL. rewrite Hp. destruct (Host u); [done|]. by rewrite Hm.
Qed.

(** The request an application's policy is asked about is the direct one. *)
Lemma retarget_direct r u t : names r u t → as_get (retarget r t) = direct_request r t.
Proof.
  intros Hn. unfold as_get, retarget, direct_request, invalidationRequestURI. cbn. f_equal.
  assert (∀ s, s ≠ EmptyString → nonempty s = true) as Hne by (by intros []).
  assert (server_request r ∧ origin_form t = true ∨ proxy_request r ∧ origin_form t = false) as [[H Ht]|[H Ht]].
  { destruct Hn as [(Hh & _ & [[H ->]|[H ->]])|(_ & _ & [[H ->]|[H ->]])]; [by left|right|by left|right]; (split; [done|]).
    - unfold origin_form, in_absolute_form. cbn. rewrite (Hne _ Hh). apply andb_false_r.
    - unfold origin_form, in_absolute_form. cbn. destruct H as ((Ho & _) & _ & Hb & _).
      destruct (resolved_origin (req_URL r) u Ho) as (_ & -> & _). rewrite (Hne _ Hb). apply andb_false_r. }
  - destruct H as (_ & _ & _ & _ & Hp). rewrite Hp, Ht. by destruct (req_RequestURI r).
  - destruct H as (_ & _ & _ & Hq & Hst & Hp). rewrite Hp, Ht, (Hne _ Hq), (proj2 (String.eqb_neq _ _) Hst). done.
Qed.

Lemma handler_keys_of policy res r req k :
  req ∈ cr_Request r :: map (retarget (cr_Request r)) (named_targets res (cr_Request r)) → policy (as_get req) = Some k →
  ∀ x, x ∈ both_keys k → x ∈ handler_invalidationKeys (Some policy) res r.
Proof.
  intros Hin Hk x Hx. unfold handler_invalidationKeys. apply list_elem_of_join. exists (both_keys k). split; [done|].
  apply list_elem_of_fmap. exists req. by rewrite Hk.
Qed.

(** C36: a successful unsafe request invalidates what its URL and what its
    response name.  Among the invalidated keys are those of direct GET and
    HEAD requests for the same URL, and for whatever Location or
    Content-Location names: an absolute URL of the origin of the request
    (same path, escapes and query; the root when it has no path), or a
    relative reference, resolved against the URL of the request.  This holds
    for requests in origin form and, at a proxy, in absolute form.  With a key
    policy of the application, they are the keys the policy gives to the
    mutated URL and to direct requests for what is named. *)
Theorem invalidation_reaches_direct_requests policy res r :
  (∀ get, (req_Method get = "GET" ∨ req_Method get = "HEAD")%string →
     let reached t := req_URL get = t → Key_String (NewRequestKey get) ∈ handler_invalidationKeys None res r in
     reached (req_URL (cr_Request r)) ∧
     ∀ header u t, (header = "Location" ∨ header = "Content-Location")%string → Get (r_header res) header ≠ EmptyString →
       url_Parse (Get (r_header res) header) = Some u → names (cr_Request r) u t → reached t) ∧
  (let reached get := ∀ k, policy get = Some k →
     Key_String k ∈ handler_invalidationKeys (Some policy) res r ∧
     Key_String (ForMethod k "HEAD") ∈ handler_invalidationKeys (Some policy) res r in
   reached (as_get (cr_Request r)) ∧
   ∀ header u t, (header = "Location" ∨ header = "Content-Location")%string → Get (r_header res) header ≠ EmptyString →
     url_Parse (Get (r_header res) header) = Some u → names (cr_Request r) u t → reached (direct_request (cr_Request r) t)).
Proof.
  split.
  - intros get Hm. cbn [handler_invalidationKeys]. split.
    + intros Hu. apply elem_of_invalidationKeys. exists (req_URL (cr_Request r)), (req_Method get).
      split; [by left|]. split; [done|]. unfold NewRequestKey. rewrite Hu. apply Key_String_header.
    + intros header u t Hh Hne Hp Hn Hget. apply elem_of_invalidationKeys. exists t, (req_Method get).
      split; [right; by eapply named_target|]. split; [done|]. unfold NewRequestKey. rewrite Hget. apply Key_String_header.
  - split.
    + intros k Hk. split; (eapply (handler_keys_of policy res r (cr_Request r)); [by left|exact Hk|]); apply elem_of_both_keys; auto.
    + intros header u t Hh Hne Hp Hn k Hk. rewrite <- (retarget_direct _ _ _ Hn) in Hk.
      assert (retarget (cr_Request r) t ∈ cr_Request r :: map (retarget (cr_Request r)) (named_targets res (cr_Request r))) as Hin.
      { right. apply list_elem_of_fmap. exists t. split; [done|]. by eapply named_target. }
      split; (eapply (handler_keys_of policy res r _); [exact Hin|exact Hk|]); apply elem_of_both_keys; auto.
Qed.

(** The origin of a URL in an absolute-form request: what a key shows of it. *)
Definition shows_origin_of (r : Request) (u : URL) : Prop :=
  (Scheme u = Scheme (req_URL r) ∧ Host u = Host (req_URL r)) ∨
  matchesOrigin r u = true.

Lemma matchesOrigin_target r u :
  matchesOrigin r u = true → Host u ≠ EmptyString → origin_form (req_URL r) = false →
  ToLower (Scheme (req_URL r)) ≠ EmptyString →
  matchesOrigin r (invalidationTarget r u) = true.
Proof.
  intros Hm Hh Ho Hs. unfold matchesOrigin in *.
  assert (Host (invalidationTarget r u) = Host u) as ->.
  { unfold invalidationTarget. cbn [Host]. rewrite Ho. by destruct (Host u). }
  assert ((if nonempty (ToLower (Scheme (invalidationTarget r u))) then ToLower (Scheme (invalidationTarget r u)) else originScheme r)
    = (if nonempty (ToLower (Scheme u)) then ToLower (Scheme u) else originScheme r)) as ->; [|done].
  unfold invalidationTarget. cbn [Scheme]. rewrite Ho. destruct (Scheme u) as [|c s]; [|done]. simpl.
  unfold originScheme. by destruct (ToLower (Scheme (req_URL r))).
Qed.

(** A response cannot name its way into another origin.  The target of a
    reference that names no scheme, or names a host, shows the scheme and
    host of the request, or an equivalent spelling of its origin; nothing is
    invalidated for a reference to another origin. *)
Theorem invalidation_stays_in_origin r raw u t :
  url_Parse raw = Some u → sameOriginURL r raw = Some t →
  (origin_form (req_URL r) = true ∨ ToLower (Scheme (req_URL r)) ≠ EmptyString) →
  Scheme u = EmptyString ∨ Host u ≠ EmptyString →
  shows_origin_of r t ∧ (Host u ≠ EmptyString → matchesOrigin r u = true).
Proof.
  intros Hp Ht Hform Hnamed. unfold sameOriginURL in Ht. rewrite Hp in Ht.
  destruct (nonempty (Host u) && negb (matchesOrigin r u)) eqn:E; [done|]. injection Ht as <-.
  assert (Host u ≠ EmptyString → matchesOrigin r u = true) as Hm.
  { intros Hh. destruct (Host u); [done|]. simpl in E. by destruct (matchesOrigin r u). }
  split; [|done]. destruct (origin_form (req_URL r)) eqn:Ho.
  - left. unfold invalidationTarget. cbn [Scheme Host]. rewrite Ho. by rewrite !andb_false_r.
  - destruct Hform as [?|Hform]; [done|]. destruct (decide (Host u = EmptyString)) as [Hh|Hh].
    + left. destruct Hnamed as [Hs|]; [|done]. unfold invalidationTarget. cbn [Scheme Host]. by rewrite Hs, Hh.
    + right. apply matchesOrigin_target; auto.
Qed.
End Theorems.

(** ** Witnesses *)

#[local] Existing Instance latin1_print.

Definition string_drop (n : nat) (s : string) : string := String.substring n (String.length s) s.

(** A parser of HTTP references, enough for examples: a scheme, an authority,
    a path and a query. *)
Definition http_parser : UrlParser := {|
  url_Parse raw :=
    let '(scheme, rest) :=
      if HasPrefix raw "http:" then ("http"%string, string_drop 5 raw)
      else if HasPrefix raw "https:" then ("https"%string, string_drop 6 raw)
      else (EmptyString, raw) in
    let before_query := take_while (λ c, negb (Ascii.eqb c "?")) rest in
    let query := string_drop 1 (drop_while (λ c, negb (Ascii.eqb c "?")) rest) in
    let has_authority := HasPrefix before_query "//" in
    let authority := if has_authority then take_while not_slash (string_drop 2 before_query) else EmptyString in
    let path := if has_authority then drop_while not_slash (string_drop 2 before_query) else before_query in
    Some {| Scheme := scheme; Opaque := EmptyString; User := None; Host := authority; Path := path;
            RawPath := EmptyString; OmitHost := nonempty scheme && negb has_authority; ForceQuery := false;
            RawQuery := query; Fragment := EmptyString; RawFragment := EmptyString |}
|}.
#[local] Existing Instance http_parser.

Definition post_to (u : URL) : Request :=
  {| req_Method := "POST"; req_URL := u; req_Header := ∅; req_Host := "h"; req_Proto := "HTTP/1.1";
     req_ProtoMajor := 1; req_ProtoMinor := 1; req_TLS := false; req_RequestURI := "/orders" |}.
Definition as_cache_request (r : Request) : cacheRequest :=
  {| cr_Request := r; cr_Key := NewRequestKey r; cr_Time := 0; cr_CacheControl := ∅;
     cr_discoveryKey := EmptyString; cr_servedKey := EmptyString |}.
Definition created (location : string) : Resource :=
  NewResourceBytes 201 EmptyString (<["Location"%string := [location]]> ∅).
Definition get_of (u : URL) : Request :=
  {| req_Method := "GET"; req_URL := u; req_Header := ∅; req_Host := "h"; req_Proto := "HTTP/1.1";
     req_ProtoMajor := 1; req_ProtoMinor := 1; req_TLS := false; req_RequestURI := "/orders/7?full" |}.

(** An absolute and a relative reference, and a policy that separates tenants. *)
Definition by_host (r : Request) : option Key := Some (ForMethod (NewRequestKey r) (req_Method r +:+ "@" +:+ req_Host r)).

Lemma invalidation_reaches_direct_requests_witness :
  let r := post_to (example_url "/orders" "") in
  Key_String (NewRequestKey (get_of (example_url "/orders/7" "full")))
    ∈ handler_invalidationKeys None (created "http://H:80/orders/7?full") (as_cache_request r) ∧
  Key_String (NewRequestKey (get_of (example_url "/orders/7" "full")))
    ∈ handler_invalidationKeys None (created "./x/../orders/7?full") (as_cache_request r) ∧
  Key_String (ForMethod (NewRequestKey (get_of (example_url "/orders/7" "full"))) "GET@h")
    ∈ handler_invalidationKeys (Some by_host) (created "./x/../orders/7?full") (as_cache_request r).
Proof.
  intros r. assert (server_request r) as Hr by (vm_compute; repeat split).
  set (abs := default empty_url (url_Parse "http://H:80/orders/7?full")). set (rel := default empty_url (url_Parse "./x/../orders/7?full")).
  assert (names r abs (example_url "/orders/7" "full")) as Habs.
  { left. split; [vm_compute; discriminate|]. split; [vm_compute; reflexivity|]. left. by split. }
  assert (names r rel (example_url "/orders/7" "full")) as Hrel.
  { right. split; [vm_compute; reflexivity|]. split; [vm_compute; reflexivity|]. left. split; [done|]. vm_compute. reflexivity. }
  split; [|split].
  - destruct (proj1 (invalidation_reaches_direct_requests by_host (created "http://H:80/orders/7?full") (as_cache_request r))
      (get_of (example_url "/orders/7" "full")) (or_introl eq_refl)) as [_ Hn].
    apply (Hn "Location"%string abs _ (or_introl eq_refl) ltac:(vm_compute; discriminate) ltac:(vm_compute; reflexivity) Habs eq_refl).
  - destruct (proj1 (invalidation_reaches_direct_requests by_host (created "./x/../orders/7?full") (as_cache_request r))
      (get_of (example_url "/orders/7" "full")) (or_introl eq_refl)) as [_ Hn].
    apply (Hn "Location"%string rel _ (or_introl eq_refl) ltac:(vm_compute; discriminate) ltac:(vm_compute; reflexivity) Hrel eq_refl).
  - destruct (proj2 (invalidation_reaches_direct_requests by_host (created "./x/../orders/7?full") (as_cache_request r))) as [_ Hn].
    exact (proj1 (Hn "Location"%string rel _ (or_introl eq_refl) ltac:(vm_compute; discriminate) ltac:(vm_compute; reflexivity) Hrel _ eq_refl)).
Defined.

Lemma invalidation_stays_in_origin_witness :
  let r := post_to (example_url "/orders" "") in
  ∃ t, sameOriginURL r "http://H:80/orders/7" = Some t ∧ shows_origin_of r t ∧ sameOriginURL r "http://evil/orders/7" = None.
Proof.
  intros r. exists (default empty_url (sameOriginURL r "http://H:80/orders/7")).
  assert (sameOriginURL r "http://H:80/orders/7" = Some (default empty_url (sameOriginURL r "http://H:80/orders/7"))) as Ht
    by (vm_compute; reflexivity).
  split; [exact Ht|]. split; [|vm_compute; reflexivity].
  refine (proj1 (invalidation_stays_in_origin r "http://H:80/orders/7" _ _ eq_refl Ht (or_introl eq_refl) _)).
  right. vm_compute. discriminate.
Defined.

(** A reference that names a scheme but no host is not compared with the
    origin of the request: seen by a proxy, a response of http://h can
    invalidate what is stored for https://h. *)
Example scheme_only_reference_crosses_origin :
  let absolute_form := with_origin (example_url "/orders" "") "http" "h" "" in
  option_map (λ t, Key_String (NewKey "GET" t ∅)) (sameOriginURL (post_to absolute_form) "https:/account")
  = Some "GET:https://h/account"%string.
Proof. vm_compute. reflexivity. Qed.

Example resolve_dots : resolvePath "/a/b/c" "../d/./e" = "/a/d/e"%string.
Proof. vm_compute. reflexivity. Qed.
Example resolve_query_only : resolvePath "/a/b" "" = "/a/b"%string.
Proof. vm_compute. reflexivity. Qed.
Example resolve_above_root : resolvePath "/a" "../../x" = "/x"%string.
Proof. vm_compute. reflexivity. Qed.
