(* ===== verification/Flights.v ===== *)
(** * Shared flights and background writes ([handler.go])

    The two counters the requests of a handler share: the map of miss flights
    under [flightsMu] and the background writes under [lifecycleMu].  The
    transition system [flight_step] interleaves any number of requests:
    leaders, which owe the end of their flight, and followers, which wait for
    it.  [write_step] interleaves background stores with a shutdown. *)

From S2P Require Import Prelude GoStrings.

(** ** Operations *)

(** [flightsMu]: [flights] maps a key to the identity of its [missFlight];
    [landed] are the flights whose [done] channel is closed. *)
Record flight_map := { flights : gmap string nat; nextFlight : nat; landed : gset nat }.

Definition no_flights : flight_map := {| flights := ∅; nextFlight := 0; landed := ∅ |}.

(** [Handler.claimMiss] *)
Definition claimMiss (key : string) (s : flight_map) : (nat * bool) * flight_map :=
  match flights s !! key with
  | Some flight => ((flight, false), s)
  | None =>
      let flight := nextFlight s in
      ((flight, true),
       {| flights := <[key := flight]> (flights s); nextFlight := S flight; landed := landed s |})
  end.

(** [Handler.finishMiss] *)
Definition finishMiss (key : string) (flight : nat) (s : flight_map) : flight_map :=
  if bool_decide (flights s !! key = Some flight) then
    {| flights := delete key (flights s); nextFlight := nextFlight s; landed := {[ flight ]} ∪ landed s |}
  else s.

(** [lifecycleMu] and the wait group of the background writes. *)
Record lifecycle := { closing : bool; writes : Z }.

(** [Handler.beginWrite], [Handler.endWrite], the first part of [Shutdown]. *)
Definition beginWrite (s : lifecycle) : bool * lifecycle :=
  if closing s then (false, s) else (true, {| closing := closing s; writes := writes s + 1 |}).
Definition endWrite (s : lifecycle) : lifecycle := {| closing := closing s; writes := writes s - 1 |}.
Definition Shutdown_begin (s : lifecycle) : lifecycle := {| closing := true; writes := writes s |}.
(** [writes.Wait] returns. *)
Definition Wait_returns (s : lifecycle) : bool := writes s =? 0.

(** ** Requests over a flight map *)

Record requests := {
  rq_map : flight_map;
  rq_leaders : list (string * nat);
  rq_followers : list (string * nat);
}.

Definition requests_init : requests := {| rq_map := no_flights; rq_leaders := []; rq_followers := [] |}.

Inductive flight_step : requests → requests → Prop :=
  | step_lead s key flight m :
      claimMiss key (rq_map s) = ((flight, true), m) →
      flight_step s {| rq_map := m; rq_leaders := (key, flight) :: rq_leaders s; rq_followers := rq_followers s |}
  | step_follow s key flight m :
      claimMiss key (rq_map s) = ((flight, false), m) →
      flight_step s {| rq_map := m; rq_leaders := rq_leaders s; rq_followers := (key, flight) :: rq_followers s |}
  | step_finish s l1 key flight l2 :
      rq_leaders s = l1 ++ (key, flight) :: l2 →
      flight_step s {| rq_map := finishMiss key flight (rq_map s); rq_leaders := l1 ++ l2; rq_followers := rq_followers s |}
  | step_leave s l1 f l2 :
      (* a follower whose context ended, or whose flight has landed *)
      rq_followers s = l1 ++ f :: l2 →
      flight_step s {| rq_map := rq_map s; rq_leaders := rq_leaders s; rq_followers := l1 ++ l2 |}.

Record flight_inv (s : requests) : Prop := {
  f_map : ∀ k f, flights (rq_map s) !! k = Some f ↔ (k, f) ∈ rq_leaders s;
  f_once : NoDup (rq_leaders s);
  f_old : ∀ k f, (k, f) ∈ rq_leaders s → (f < nextFlight (rq_map s))%nat ∧ f ∉ landed (rq_map s);
  f_one_key : ∀ k1 k2 f, (k1, f) ∈ rq_leaders s → (k2, f) ∈ rq_leaders s → k1 = k2;
  f_landed : ∀ f, f ∈ landed (rq_map s) → (f < nextFlight (rq_map s))%nat;
  f_followers : ∀ k f, (k, f) ∈ rq_followers s → f ∈ landed (rq_map s) ∨ (k, f) ∈ rq_leaders s;
}.

Lemma middle_permutation {A} (l1 l2 : list A) x : l1 ++ x :: l2 ≡ₚ x :: l1 ++ l2.
Proof. symmetry. apply Permutation_middle. Qed.

Lemma flight_inv_init : flight_inv requests_init.
Proof.
  split; simpl.
  - intros k f. rewrite lookup_empty, elem_of_nil. split; [done|tauto].
  - constructor.
  - intros k f []%elem_of_nil.
  - intros k1 k2 f []%elem_of_nil.
  - intros f []%not_elem_of_empty.
  - intros k f []%elem_of_nil.
Qed.

Lemma flight_inv_lead s key flight m :
  flight_inv s → claimMiss key (rq_map s) = ((flight, true), m) →
  flight_inv {| rq_map := m; rq_leaders := (key, flight) :: rq_leaders s; rq_followers := rq_followers s |}.
Proof.
  intros [Hm Ho Hold Hk Hl Hf]. unfold claimMiss. destruct (flights (rq_map s) !! key) as [f0|] eqn:E; [done|].
  intros [= <- <-].
  assert (∀ f, (key, f) ∉ rq_leaders s) as Hkey.
  { intros f Hin. apply Hm in Hin. congruence. }
  assert (∀ k, (k, nextFlight (rq_map s)) ∉ rq_leaders s) as Hnew.
  { intros k Hin. apply Hold in Hin. lia. }
  split; cbn [rq_map rq_leaders rq_followers flights nextFlight landed].
  - intros k f. rewrite elem_of_cons. destruct (decide (k = key)) as [->|Hne].
    + rewrite lookup_insert_eq. split; [intros [= <-]; by left|].
      intros [[= ->]|Hin]; [done|]. by destruct (Hkey f).
    + rewrite lookup_insert_ne by done. rewrite Hm. split; [by right|]. intros [[= -> ->]|]; done.
  - apply NoDup_cons. split; [apply Hkey|done].
  - intros k f [[= -> ->]|Hin]%elem_of_cons.
    + split; [lia|]. intros Hin%Hl. lia.
    + destruct (Hold k f Hin). split; [lia|done].
  - intros k1 k2 f [[= -> ->]|H1]%elem_of_cons [[= ->]|H2]%elem_of_cons; subst; try done;
      [by destruct (Hnew k2)|by destruct (Hnew k1)|by eapply Hk].
  - intros f Hin%Hl. lia.
  - intros k f [Hin|Hin]%Hf; [by left|right]. by apply elem_of_cons; right.
Qed.

Lemma flight_inv_finish s l1 key flight l2 :
  flight_inv s → rq_leaders s = l1 ++ (key, flight) :: l2 →
  flight_inv {| rq_map := finishMiss key flight (rq_map s); rq_leaders := l1 ++ l2; rq_followers := rq_followers s |}.
Proof.
  intros [Hm Ho Hold Hk Hl Hf] Hs.
  assert (∀ p, p ∈ rq_leaders s ↔ p = (key, flight) ∨ p ∈ l1 ++ l2) as Hin.
  { intros p. by rewrite Hs, middle_permutation, elem_of_cons. }
  assert (NoDup ((key, flight) :: l1 ++ l2)) as [Hnot Hnd]%NoDup_cons by (by rewrite <- middle_permutation, <- Hs).
  assert (flights (rq_map s) !! key = Some flight) as Hkey by (apply Hm, Hin; by left).
  unfold finishMiss. rewrite bool_decide_eq_true_2 by done.
  split; cbn [rq_map rq_leaders rq_followers flights nextFlight landed].
  - intros k f. destruct (decide (k = key)) as [->|Hne].
    + rewrite lookup_delete_eq. split; [done|]. intros Hkf.
      assert (flights (rq_map s) !! key = Some f) as Hf' by (apply Hm, Hin; by right).
      assert (f = flight) as -> by congruence. done.
    + rewrite lookup_delete_ne, Hm, Hin by done. split; [|by right]. by intros [[= -> ->]|].
  - done.
  - intros k f Hkf. destruct (Hold k f) as [Hlt Hnl]; [apply Hin; by right|]. split; [done|].
    rewrite elem_of_union, elem_of_singleton. intros [->|]; [|done].
    assert (k = key) as -> by (apply (Hk k key flight); apply Hin; auto). done.
  - intros k1 k2 f H1 H2. apply (Hk k1 k2 f); apply Hin; auto.
  - intros f [->%elem_of_singleton|Hlf]%elem_of_union; [|by apply Hl].
    apply (Hold key flight), Hin. by left.
  - intros k f Hkf. rewrite elem_of_union, elem_of_singleton. destruct (Hf k f Hkf) as [|Hlead]; [by left; right|].
    apply Hin in Hlead as [[= -> ->]|]; [left; by left|by right].
Qed.

Lemma flight_inv_step s s' : flight_inv s → flight_step s s' → flight_inv s'.
Proof.
  intros Hinv Hstep. destruct Hstep as [s key flight m Hc|s key flight m Hc|s l1 key flight l2 Hs|s l1 f l2 Hs].
  - by eapply flight_inv_lead.
  - destruct Hinv as [Hm Ho Hold Hk Hl Hf]. unfold claimMiss in Hc.
    destruct (flights (rq_map s) !! key) as [f0|] eqn:E; [|done]. injection Hc as <- <-. split; try done. simpl.
    intros k f [[= -> ->]|Hin]%elem_of_cons; [right; by apply Hm|by apply Hf].
  - by apply flight_inv_finish.
  - destruct Hinv as [Hm Ho Hold Hk Hl Hf]. split; try done. simpl. intros k g Hg. apply Hf.
    rewrite Hs. apply elem_of_app in Hg. rewrite elem_of_app, elem_of_cons. tauto.
Qed.

Lemma flight_inv_reachable s : rtc flight_step requests_init s → flight_inv s.
Proof.
  assert (∀ s0 s1, rtc flight_step s0 s1 → flight_inv s0 → flight_inv s1) as Hind.
  { induction 1; eauto using flight_inv_step. }
  intros Hr. by eapply Hind, flight_inv_init.
Qed.

(** ** Background writes and a shutdown *)

(** Writers under way, and whether the wait of [Shutdown] has returned. *)
Record lifecycle_state := { ls : lifecycle; ls_writers : nat; ls_down : bool }.

Definition lifecycle_init : lifecycle_state :=
  {| ls := {| closing := false; writes := 0 |}; ls_writers := 0; ls_down := false |}.

Inductive write_step : lifecycle_state → lifecycle_state → Prop :=
  | step_begin s m :
      beginWrite (ls s) = (true, m) →
      write_step s {| ls := m; ls_writers := S (ls_writers s); ls_down := ls_down s |}
  | step_refused s m :
      beginWrite (ls s) = (false, m) → write_step s {| ls := m; ls_writers := ls_writers s; ls_down := ls_down s |}
  | step_end s n :
      ls_writers s = S n → write_step s {| ls := endWrite (ls s); ls_writers := n; ls_down := ls_down s |}
  | step_shutdown s :
      write_step s {| ls := Shutdown_begin (ls s); ls_writers := ls_writers s; ls_down := ls_down s |}
  | step_down s :
      (* only [Shutdown] waits, after it has set [closing] *)
      closing (ls s) = true → Wait_returns (ls s) = true →
      write_step s {| ls := ls s; ls_writers := ls_writers s; ls_down := true |}.

Definition lifecycle_inv (s : lifecycle_state) : Prop :=
  writes (ls s) = Z.of_nat (ls_writers s) ∧ (ls_down s = true → closing (ls s) = true ∧ ls_writers s = O).

Lemma lifecycle_inv_step s s' : lifecycle_inv s → write_step s s' → lifecycle_inv s'.
Proof.
  intros [Hw Hd] Hstep. destruct Hstep as [s0 m Hb|s0 m Hb|s0 n Hn|s0|s0 Hc Hz]; unfold lifecycle_inv; cbn [ls ls_writers ls_down];
    unfold beginWrite, endWrite, Shutdown_begin, Wait_returns in *; cbn [closing writes].
  - destruct (closing (ls s0)); [done|]. injection Hb as <-. cbn [closing writes]. split; [lia|].
    intros Hdown. by destruct (Hd Hdown).
  - destruct (closing (ls s0)) eqn:E; [|done]. injection Hb as <-. rewrite E. by split.
  - split; [lia|]. intros Hdown. destruct (Hd Hdown) as [_ Hz]. by rewrite Hn in Hz.
  - split; [done|]. intros Hdown. by destruct (Hd Hdown).
  - apply Z.eqb_eq in Hz. split; [done|]. intros _. split; [done|lia].
Qed.

(** ** Theorems *)

(** Misses of one key are coalesced and nobody waits in vain.  Whatever
    requests come and go, a key has at most one leader; the map holds exactly
    the flights whose leaders have not finished; and every follower waits for
    a flight that has landed or whose leader still owes its end, so a leader
    that finishes releases all its followers. *)
Theorem flights_are_shared s :
  rtc flight_step requests_init s →
  (∀ k f1 f2, (k, f1) ∈ rq_leaders s → (k, f2) ∈ rq_leaders s → f1 = f2) ∧
  (∀ k f, flights (rq_map s) !! k = Some f ↔ (k, f) ∈ rq_leaders s) ∧
  (∀ k f, (k, f) ∈ rq_followers s → f ∈ landed (rq_map s) ∨ (k, f) ∈ rq_leaders s) ∧
  (∀ k f, (k, f) ∈ rq_leaders s → f ∈ landed (finishMiss k f (rq_map s)) ∧ flights (finishMiss k f (rq_map s)) !! k = None).
Proof.
  intros [Hm Ho Hold Hk Hl Hf]%flight_inv_reachable. split_and!; [|done|done|].
  - intros k f1 f2 H1%Hm H2%Hm. congruence.
  - intros k f Hlead%Hm. unfold finishMiss. rewrite bool_decide_eq_true_2 by done. simpl.
    rewrite lookup_delete_eq. split; [|done]. apply elem_of_union_l. by apply elem_of_singleton.
Qed.

(** Once [Shutdown] has returned no background write is running and none
    can begin, whatever stores raced with it. *)
Theorem shutdown_is_final s :
  rtc write_step lifecycle_init s → ls_down s = true →
  ls_writers s = O ∧ (beginWrite (ls s)).1 = false ∧
  ∀ s', rtc write_step s s' → ls_writers s' = O ∧ ls_down s' = true.
Proof.
  assert (∀ s0 s1, rtc write_step s0 s1 → lifecycle_inv s0 → lifecycle_inv s1) as Hind.
  { induction 1; eauto using lifecycle_inv_step. }
  assert (∀ s0 s1, rtc write_step s0 s1 → ls_down s0 = true → ls_down s1 = true) as Hdown.
  { induction 1 as [|s0 s1 s2 Hs _ IH]; [done|]. intros Hd. apply IH. by destruct Hs. }
  intros Hr Hd. assert (lifecycle_inv s) as [Hw Hinv] by (eapply Hind; [done|split; done]).
  destruct (Hinv Hd) as [Hc Hn]. split; [done|]. unfold beginWrite. rewrite Hc. split; [done|].
  intros s' Hr'. assert (ls_down s' = true) as Hd' by eauto. split; [|done].
  assert (lifecycle_inv s') as [_ Hinv'] by (eapply Hind; [done|split; done]). by apply Hinv'.
Qed.

(** ** Witnesses *)

Definition two_requests : requests :=
  {| rq_map := (claimMiss "GET:/a" no_flights).2; rq_leaders := [("GET:/a"%string, 0%nat)];
     rq_followers := [("GET:/a"%string, 0%nat)] |}.

Lemma flights_are_shared_witness :
  flights (rq_map two_requests) !! "GET:/a"%string = Some 0%nat ∧
  0%nat ∈ landed (finishMiss "GET:/a" 0 (rq_map two_requests)).
Proof.
  assert (rtc flight_step requests_init two_requests) as Hr.
  { eapply rtc_l; [apply (step_lead requests_init "GET:/a" 0); reflexivity|].
    eapply rtc_l; [apply (step_follow _ "GET:/a" 0); reflexivity|]. apply rtc_refl. }
  destruct (flights_are_shared two_requests Hr) as (_ & Hm & _ & Hfin).
  split; [apply Hm; by left|apply (proj1 (Hfin "GET:/a"%string 0%nat ltac:(by left)))].
Defined.

Lemma shutdown_is_final_witness :
  let down := {| ls := {| closing := true; writes := 0 |}; ls_writers := 0; ls_down := true |} in
  (beginWrite (ls down)).1 = false ∧ ls_writers down = O.
Proof.
  intros down. assert (rtc write_step lifecycle_init down) as Hr.
  { eapply rtc_l; [apply (step_begin lifecycle_init {| closing := false; writes := 1 |}); reflexivity|].
    eapply rtc_l; [apply step_shutdown|]. eapply rtc_l; [by apply (step_end _ 0)|].
    eapply rtc_l; [by apply step_down|]. apply rtc_refl. }
  destruct (shutdown_is_final down Hr eq_refl) as (Hn & Hb & _). split; [exact Hb|exact Hn].
Defined.
