(* ===== verification/Locks.v ===== *)
(** * The locks of the keys ([cache.go])

    [lockKey]: writers of a key, and the readers of a generic file system, share
    a reference-counted [sync.RWMutex] found in a map under [writerMu].  The
    transition system [lock_step] interleaves any number of callers; its
    invariant is what lets [Store], [Freshen] and [Retrieve] treat the files of
    a key as their own. *)

From S2P Require Import Prelude GoStrings.

(** ** Operations *)

(** [type cacheKeyWriter struct]; of its mutex, the readers and the writer that
    hold it. *)
Record cacheKeyWriter := { kw_users : Z; kw_readers : Z; kw_writing : bool }.

(** [c.writers], the objects it has named, and the next one. *)
Record lock_table := { lt_writers : gmap string nat; lt_objects : gmap nat cacheKeyWriter; lt_next : nat }.

Definition no_locks : lock_table := {| lt_writers := ∅; lt_objects := ∅; lt_next := 0 |}.

Definition set_object (l : nat) (w : cacheKeyWriter) (s : lock_table) : lock_table :=
  {| lt_writers := lt_writers s; lt_objects := <[l := w]> (lt_objects s); lt_next := lt_next s |}.

Definition users_add (n : Z) (w : cacheKeyWriter) : cacheKeyWriter :=
  {| kw_users := kw_users w + n; kw_readers := kw_readers w; kw_writing := kw_writing w |}.

Definition fresh_writer : cacheKeyWriter := {| kw_users := 0; kw_readers := 0; kw_writing := false |}.

(** [lockKey], the section of [writerMu]: the object of the key, counted. *)
Definition lockKey_enter (hashedKey : string) (s : lock_table) : nat * lock_table :=
  match lt_writers s !! hashedKey with
  | Some l => (l, set_object l (users_add 1 (default fresh_writer (lt_objects s !! l))) s)
  | None =>
      let l := lt_next s in
      (l, set_object l (users_add 1 fresh_writer)
            {| lt_writers := <[hashedKey := l]> (lt_writers s); lt_objects := lt_objects s; lt_next := S l |})
  end.

(** [sync.RWMutex]: [RLock] and [Lock], [None] while they wait; [RUnlock] and
    [Unlock].  A reader may also enter while a writer waits, which the mutex of
    Go refuses: the system has more runs than the code. *)
Definition mutex_lock (read : bool) (w : cacheKeyWriter) : option cacheKeyWriter :=
  if read then
    if kw_writing w then None else Some {| kw_users := kw_users w; kw_readers := kw_readers w + 1; kw_writing := false |}
  else if kw_writing w || (0 <? kw_readers w) then None
  else Some {| kw_users := kw_users w; kw_readers := kw_readers w; kw_writing := true |}.
Definition mutex_unlock (read : bool) (w : cacheKeyWriter) : cacheKeyWriter :=
  if read then {| kw_users := kw_users w; kw_readers := kw_readers w - 1; kw_writing := kw_writing w |}
  else {| kw_users := kw_users w; kw_readers := kw_readers w; kw_writing := false |}.

(** The function [lockKey] returns, its section of [writerMu]. *)
Definition lockKey_leave (hashedKey : string) (l : nat) (s : lock_table) : lock_table :=
  let w := users_add (-1) (default fresh_writer (lt_objects s !! l)) in
  let s := set_object l w s in
  if kw_users w =? 0 then {| lt_writers := delete hashedKey (lt_writers s); lt_objects := lt_objects s; lt_next := lt_next s |} else s.

(** ** Callers *)

Inductive phase := Waiting | Holding | Leaving.
#[export] Instance phase_eq_dec : EqDecision phase.
Proof. solve_decision. Defined.

Record caller := { ca_key : string; ca_lock : nat; ca_read : bool; ca_phase : phase }.
Definition in_phase (p : phase) (t : caller) : caller :=
  {| ca_key := ca_key t; ca_lock := ca_lock t; ca_read := ca_read t; ca_phase := p |}.

Record lock_state := { ks_table : lock_table; ks_callers : gmap nat caller }.
Definition locks_init : lock_state := {| ks_table := no_locks; ks_callers := ∅ |}.

(** The caller [i] asks for a lock, obtains it, gives it back and goes. *)
Inductive lock_step : lock_state → lock_state → Prop :=
  | step_enter s i key read l m :
      ks_callers s !! i = None → lockKey_enter key (ks_table s) = (l, m) →
      lock_step s {| ks_table := m; ks_callers := <[i := {| ca_key := key; ca_lock := l; ca_read := read; ca_phase := Waiting |}]> (ks_callers s) |}
  | step_acquire s i t w w' :
      ks_callers s !! i = Some t → ca_phase t = Waiting → lt_objects (ks_table s) !! ca_lock t = Some w →
      mutex_lock (ca_read t) w = Some w' →
      lock_step s {| ks_table := set_object (ca_lock t) w' (ks_table s); ks_callers := <[i := in_phase Holding t]> (ks_callers s) |}
  | step_unlock s i t w :
      ks_callers s !! i = Some t → ca_phase t = Holding → lt_objects (ks_table s) !! ca_lock t = Some w →
      lock_step s {| ks_table := set_object (ca_lock t) (mutex_unlock (ca_read t) w) (ks_table s);
                     ks_callers := <[i := in_phase Leaving t]> (ks_callers s) |}
  | step_leave s i t :
      ks_callers s !! i = Some t → ca_phase t = Leaving →
      lock_step s {| ks_table := lockKey_leave (ca_key t) (ca_lock t) (ks_table s); ks_callers := delete i (ks_callers s) |}.

(** ** Counting callers *)

Definition indicator (p : caller → bool) (t : caller) : Z := if p t then 1 else 0.
Definition count (p : caller → bool) (m : gmap nat caller) : Z := map_zsum (indicator p <$> m).

Lemma count_insert p m i t : count p (<[i := t]> m) = count p m - default 0 (indicator p <$> m !! i) + indicator p t.
Proof. unfold count. by rewrite fmap_insert, map_zsum_insert, lookup_fmap. Qed.

Lemma count_delete p m i : count p (delete i m) = count p m - default 0 (indicator p <$> m !! i).
Proof. unfold count. by rewrite fmap_delete, map_zsum_delete, lookup_fmap. Qed.

Lemma indicator_nonneg p (m : gmap nat caller) : map_Forall (λ _ v, 0 ≤ v) (indicator p <$> m).
Proof. intros i v. rewrite lookup_fmap. destruct (m !! i) as [t|]; [|done]. intros [= <-]. unfold indicator. by destruct (p t). Qed.

Lemma count_pos p m i t : m !! i = Some t → p t = true → 1 ≤ count p m.
Proof.
  intros Hi Hp. apply (map_zsum_lookup_le _ i); [apply indicator_nonneg|]. rewrite lookup_fmap, Hi. cbn. unfold indicator. by rewrite Hp.
Qed.

Lemma count_two p m i j t u : i ≠ j → m !! i = Some t → p t = true → m !! j = Some u → p u = true → 2 ≤ count p m.
Proof.
  intros Hne Hi Hp Hj Hq. assert (1 ≤ count p (delete i m)) as H1 by (apply (count_pos _ _ j u); [by rewrite lookup_delete_ne|done]).
  rewrite count_delete, Hi in H1. cbn in H1. unfold indicator in H1. rewrite Hp in H1. lia.
Qed.

Lemma count_nonneg p m : 0 ≤ count p m.
Proof. apply map_zsum_nonneg, indicator_nonneg. Qed.

Lemma count_zero p m : (∀ i t, m !! i = Some t → p t = false) → count p m = 0.
Proof.
  induction m as [|i t m Hi IH] using map_ind; intros Hm; [done|]. rewrite count_insert, Hi. cbn.
  rewrite IH; [unfold indicator; rewrite (Hm i t) by apply lookup_insert_eq; done|].
  intros j u Hj. apply (Hm j). rewrite lookup_insert_ne; congruence.
Qed.

(** ** The invariant *)

Definition holding (p : phase) : bool := match p with Holding => true | _ => false end.
Definition on (l : nat) (t : caller) : bool := bool_decide (ca_lock t = l).
Definition holds (l : nat) (read : bool) (t : caller) : bool :=
  on l t && Bool.eqb (ca_read t) read && holding (ca_phase t).

(** An object agrees with the callers that use it and hold it. *)
Record object_ok (m : gmap nat caller) (l : nat) (w : cacheKeyWriter) : Prop := {
  ok_users : kw_users w = count (on l) m;
  ok_readers : kw_readers w = count (holds l true) m;
  ok_writing : (if kw_writing w then 1 else 0) = count (holds l false) m;
  ok_exclusive : kw_writing w = true → kw_readers w = 0;
}.

Record lock_inv (s : lock_state) : Prop := {
  k_callers : ∀ i t, ks_callers s !! i = Some t → lt_writers (ks_table s) !! ca_key t = Some (ca_lock t);
  k_next : ∀ k l, lt_writers (ks_table s) !! k = Some l → (l < lt_next (ks_table s))%nat;
  k_one : ∀ k1 k2 l, lt_writers (ks_table s) !! k1 = Some l → lt_writers (ks_table s) !! k2 = Some l → k1 = k2;
  k_objects : ∀ k l, lt_writers (ks_table s) !! k = Some l →
    ∃ w, lt_objects (ks_table s) !! l = Some w ∧ object_ok (ks_callers s) l w ∧ 1 ≤ kw_users w;
}.

(** A change of one caller leaves the other objects alone. *)
Lemma count_other p m i t : (∀ t0, m !! i = Some t0 → p t0 = false) → p t = false → count p (<[i := t]> m) = count p m.
Proof.
  intros Hold Hnew. rewrite count_insert. unfold indicator at 2. rewrite Hnew. destruct (m !! i) as [t0|] eqn:E; cbn; [|lia].
  unfold indicator. rewrite (Hold t0) by done. lia.
Qed.

Lemma off_lock l l' r t : ca_lock t = l → l' ≠ l → on l' t = false ∧ holds l' r t = false.
Proof. intros Ht Hne. assert (on l' t = false) as H by (unfold on; apply bool_decide_eq_false; congruence). split; [done|]. unfold holds. by rewrite H. Qed.

Lemma object_other m i t l l' w :
  object_ok m l' w → l' ≠ l → ca_lock t = l → (∀ t0, m !! i = Some t0 → ca_lock t0 = l) → object_ok (<[i := t]> m) l' w.
Proof.
  intros [H1 H2 H3 H4] Hne Ht Hold.
  assert (∀ t0, m !! i = Some t0 → on l' t0 = false) as O1 by (intros t0 E; exact (proj1 (off_lock l l' true t0 (Hold t0 E) Hne))).
  assert (∀ r t0, m !! i = Some t0 → holds l' r t0 = false) as O2 by (intros r t0 E; exact (proj2 (off_lock l l' r t0 (Hold t0 E) Hne))).
  assert (∀ r, holds l' r t = false) as O3 by (intros r; exact (proj2 (off_lock l l' r t Ht Hne))).
  destruct (off_lock l l' true t Ht Hne) as [O4 _].
  split; [by rewrite count_other|by rewrite count_other by auto|by rewrite count_other by auto|done].
Qed.

Lemma object_gone m i t l l' w :
  object_ok m l' w → l' ≠ l → m !! i = Some t → ca_lock t = l → object_ok (delete i m) l' w.
Proof.
  intros [H1 H2 H3 H4] Hne Hi Ht. destruct (off_lock l l' true t Ht Hne) as [O1 O2]. destruct (off_lock l l' false t Ht Hne) as [_ O3].
  split; rewrite ?count_delete, ?Hi; cbn; unfold indicator; rewrite ?O1, ?O2, ?O3, ?Z.sub_0_r; done.
Qed.

(** The object of a caller that changes phase. *)
Lemma object_phase m i t l p :
  m !! i = Some t → ca_lock t = l →
  count (on l) (<[i := in_phase p t]> m) = count (on l) m ∧
  ∀ r, count (holds l r) (<[i := in_phase p t]> m) =
    count (holds l r) m - (if Bool.eqb (ca_read t) r && holding (ca_phase t) then 1 else 0)
                        + (if Bool.eqb (ca_read t) r && holding p then 1 else 0).
Proof.
  intros Hi Ht. assert (on l t = true) as Ho by (unfold on; by apply bool_decide_eq_true). split.
  - rewrite count_insert, Hi. cbn. unfold indicator. change (on l (in_phase p t)) with (on l t). rewrite Ho. lia.
  - intros r. rewrite count_insert, Hi. cbn. unfold indicator, holds. change (on l (in_phase p t)) with (on l t). by rewrite Ho.
Qed.

Lemma lock_inv_init : lock_inv locks_init.
Proof. split; cbn; intros *; rewrite lookup_empty; done. Qed.

(** A caller changes phase and its object with it. *)
Lemma lock_inv_phase s i t w w' p :
  lock_inv s → ks_callers s !! i = Some t → lt_objects (ks_table s) !! ca_lock t = Some w →
  (object_ok (ks_callers s) (ca_lock t) w → object_ok (<[i := in_phase p t]> (ks_callers s)) (ca_lock t) w') →
  kw_users w' = kw_users w →
  lock_inv {| ks_table := set_object (ca_lock t) w' (ks_table s); ks_callers := <[i := in_phase p t]> (ks_callers s) |}.
Proof.
  intros [Hc Hn H1 Ho] Hi Hw Hok Hu. split; cbn [ks_table ks_callers set_object lt_writers lt_next lt_objects].
  - intros j u. rewrite lookup_insert_Some. intros [[<- <-]|[_ Hj]]; [by apply (Hc i t)|by apply (Hc j)].
  - done.
  - done.
  - intros k l Hk. destruct (Ho k l Hk) as (w0 & Hw0 & Hok0 & Hpos). destruct (decide (l = ca_lock t)) as [->|Hne].
    + assert (w0 = w) as -> by congruence. exists w'. rewrite lookup_insert_eq. split; [done|]. split; [by apply Hok|lia].
    + exists w0. rewrite lookup_insert_ne by done. split; [done|]. split; [|done].
      apply (object_other _ _ _ (ca_lock t)); [done|done|done|]. intros t0 Ht0. congruence.
Qed.

Lemma lock_inv_acquire s i t w w' :
  lock_inv s → ks_callers s !! i = Some t → ca_phase t = Waiting → lt_objects (ks_table s) !! ca_lock t = Some w →
  mutex_lock (ca_read t) w = Some w' →
  lock_inv {| ks_table := set_object (ca_lock t) w' (ks_table s); ks_callers := <[i := in_phase Holding t]> (ks_callers s) |}.
Proof.
  intros Hinv Hi Hp Hw Hm. apply (lock_inv_phase s i t w w'); [done..| |].
  - intros [H1 H2 H3 H4]. destruct (object_phase _ _ _ _ Holding Hi eq_refl) as [E1 E2].
    pose proof (E2 true) as Et. pose proof (E2 false) as Ef. rewrite Hp in Et, Ef. cbn in Et, Ef.
    pose proof (count_nonneg (holds (ca_lock t) true) (ks_callers s)).
    unfold mutex_lock in Hm. destruct (ca_read t); cbn in Et, Ef.
    + destruct (kw_writing w); [done|]. injection Hm as <-. split; cbn; lia || done.
    + destruct (kw_writing w); [done|]. cbn in Hm. destruct (Z.ltb_spec 0 (kw_readers w)); [done|]. injection Hm as <-. split; cbn; lia.
  - unfold mutex_lock in Hm. by repeat case_match; simplify_eq.
Qed.

Lemma lock_inv_unlock s i t w :
  lock_inv s → ks_callers s !! i = Some t → ca_phase t = Holding → lt_objects (ks_table s) !! ca_lock t = Some w →
  lock_inv {| ks_table := set_object (ca_lock t) (mutex_unlock (ca_read t) w) (ks_table s);
              ks_callers := <[i := in_phase Leaving t]> (ks_callers s) |}.
Proof.
  intros Hinv Hi Hp Hw. apply (lock_inv_phase s i t w); [done..| |unfold mutex_unlock; by destruct (ca_read t)].
  intros [H1 H2 H3 H4]. destruct (object_phase _ _ _ _ Leaving Hi eq_refl) as [E1 E2].
  pose proof (E2 true) as Et. pose proof (E2 false) as Ef. rewrite Hp in Et, Ef. cbn in Et, Ef.
  assert (∀ r, ca_read t = r → 1 ≤ count (holds (ca_lock t) r) (ks_callers s)) as Hpos.
  { intros r Hr. apply (count_pos _ _ i t Hi). unfold holds, on. rewrite bool_decide_eq_true_2, Hr, Hp by done. by destruct r. }
  unfold mutex_unlock. destruct (ca_read t) eqn:Er; cbn in Et, Ef; pose proof (Hpos _ eq_refl).
  - split; cbn; try lia. intros Hwr. rewrite (H4 Hwr) in H2. lia.
  - destruct (kw_writing w) eqn:Ew; [|lia]. split; cbn; lia || done.
Qed.

Lemma fresh_count s l r : lock_inv s → (lt_next (ks_table s) ≤ l)%nat → count (on l) (ks_callers s) = 0 ∧ count (holds l r) (ks_callers s) = 0.
Proof.
  intros [Hc Hn _ _] Hl. assert (∀ i t, ks_callers s !! i = Some t → on l t = false) as H.
  { intros i t Hi. unfold on. apply bool_decide_eq_false. pose proof (Hn _ _ (Hc i t Hi)). lia. }
  split; apply count_zero; [done|]. intros i t Hi. unfold holds. by rewrite (H i t).
Qed.

Lemma lock_inv_enter s i key read l m :
  lock_inv s → ks_callers s !! i = None → lockKey_enter key (ks_table s) = (l, m) →
  lock_inv {| ks_table := m; ks_callers := <[i := {| ca_key := key; ca_lock := l; ca_read := read; ca_phase := Waiting |}]> (ks_callers s) |}.
Proof.
  intros Hinv Hi E. pose proof Hinv as [Hc Hn H1 Ho]. set (t := {| ca_key := key; ca_lock := l; ca_read := read; ca_phase := Waiting |}).
  assert (count (on l) (<[i := t]> (ks_callers s)) = count (on l) (ks_callers s) + 1 ∧
    ∀ r, count (holds l r) (<[i := t]> (ks_callers s)) = count (holds l r) (ks_callers s)) as [E1 E2].
  { split; [rewrite count_insert, Hi|intros r; rewrite count_insert, Hi]; cbn; unfold indicator, holds, on; cbn;
      rewrite bool_decide_eq_true_2 by done; rewrite ?andb_false_r; lia. }
  assert (∀ w, object_ok (ks_callers s) l w → object_ok (<[i := t]> (ks_callers s)) l (users_add 1 w)) as Hadd.
  { intros w [A1 A2 A3 A4]. split; cbn; rewrite ?E1, ?E2; [lia|done|done|done]. }
  unfold lockKey_enter in E. destruct (lt_writers (ks_table s) !! key) as [l0|] eqn:El; injection E as <- <-.
  - destruct (Ho key l0 El) as (w & Hw & Hok & Hpos). rewrite Hw. change (default fresh_writer (Some w)) with w.
    split; cbn [ks_table ks_callers set_object lt_writers lt_next lt_objects]; [|done|done|].
    + intros j u. rewrite lookup_insert_Some. intros [[_ <-]|[_ Hj]]; [done|by apply (Hc j)].
    + intros k l Hk. destruct (decide (l = l0)) as [->|Hne].
      * eexists. rewrite lookup_insert_eq. split; [done|]. split; [by apply Hadd|cbn; lia].
      * destruct (Ho k l Hk) as (w1 & Hw1 & Hok1 & Hpos1). exists w1. rewrite lookup_insert_ne by done. split; [done|]. split; [|done].
        apply (object_other _ _ _ l0); [done|done|done|]. intros t0. by rewrite Hi.
  - split; cbn [ks_table ks_callers set_object lt_writers lt_next lt_objects].
    + intros j u. rewrite lookup_insert_Some. intros [[_ <-]|[_ Hj]]; [apply lookup_insert_eq|].
      rewrite lookup_insert_ne; [by apply (Hc j)|]. intros ->. by rewrite (Hc j u Hj) in El.
    + intros k l. rewrite lookup_insert_Some. intros [[_ <-]|[_ Hk%Hn]]; lia.
    + intros k1 k2 l. rewrite !lookup_insert_Some. intros [[<- <-]|[? Hk1]] [[<- Hl]|[? Hk2]]; [done|..|by apply (H1 _ _ l)].
      * apply Hn in Hk2. lia.
      * apply Hn in Hk1. lia.
    + intros k l. rewrite lookup_insert_Some. intros [[<- <-]|[_ Hk]].
      * eexists. rewrite lookup_insert_eq. split; [done|]. split; [|cbn; lia]. apply Hadd.
        destruct (fresh_count s (lt_next (ks_table s)) true Hinv ltac:(lia)) as [F1 F2].
        destruct (fresh_count s (lt_next (ks_table s)) false Hinv ltac:(lia)) as [_ F3]. by split.
      * pose proof (Hn _ _ Hk) as Hlt. destruct (Ho k l Hk) as (w1 & Hw1 & Hok1 & Hpos1). exists w1.
        rewrite lookup_insert_ne by lia. split; [done|]. split; [|done].
        apply (object_other _ _ _ (lt_next (ks_table s))); [done|lia|done|]. intros t0. by rewrite Hi.
Qed.

Lemma lock_inv_leave s i t :
  lock_inv s → ks_callers s !! i = Some t → ca_phase t = Leaving →
  lock_inv {| ks_table := lockKey_leave (ca_key t) (ca_lock t) (ks_table s); ks_callers := delete i (ks_callers s) |}.
Proof.
  intros [Hc Hn H1 Ho] Hi Hp. pose proof (Hc i t Hi) as Hkey. destruct (Ho _ _ Hkey) as (w & Hw & [A1 A2 A3 A4] & Hpos).
  assert (count (on (ca_lock t)) (delete i (ks_callers s)) = count (on (ca_lock t)) (ks_callers s) - 1 ∧
    ∀ r, count (holds (ca_lock t) r) (delete i (ks_callers s)) = count (holds (ca_lock t) r) (ks_callers s)) as [E1 E2].
  { split; [rewrite count_delete, Hi|intros r; rewrite count_delete, Hi]; cbn; unfold indicator, holds, on; rewrite ?Hp;
      rewrite bool_decide_eq_true_2 by done; cbn; rewrite ?andb_false_r; lia. }
  unfold lockKey_leave. rewrite Hw. change (default fresh_writer (Some w)) with w. cbv zeta.
  assert (∀ k l, lt_writers (ks_table s) !! k = Some l → (l = ca_lock t → 2 ≤ kw_users w) →
    ∃ w', lt_objects (set_object (ca_lock t) (users_add (-1) w) (ks_table s)) !! l = Some w' ∧
          object_ok (delete i (ks_callers s)) l w' ∧ 1 ≤ kw_users w') as Hobjects.
  { intros k l Hk Htwo. cbn. destruct (decide (l = ca_lock t)) as [->|Hne].
    - eexists. rewrite lookup_insert_eq. split; [done|]. specialize (Htwo eq_refl). split; [|cbn; lia].
      split; cbn; rewrite ?E1, ?E2; [lia|done..].
    - destruct (Ho k l Hk) as (w1 & Hw1 & Hok1 & Hpos1). exists w1. rewrite lookup_insert_ne by done. split; [done|]. split; [|done].
      by apply (object_gone _ _ t (ca_lock t)). }
  destruct (Z.eqb_spec (kw_users (users_add (-1) w)) 0) as [Hz|Hz]; cbn in Hz; split; cbn [ks_table ks_callers set_object lt_writers lt_next lt_objects].
  - intros j u Hj. apply lookup_delete_Some in Hj as [Hne Hj]. rewrite lookup_delete_ne; [by apply (Hc j)|]. intros Hk.
    assert (ca_lock u = ca_lock t) as Hl by (pose proof (Hc j u Hj) as Hu; rewrite <- Hk in Hu; congruence).
    assert (2 ≤ count (on (ca_lock t)) (ks_callers s)); [|lia].
    apply (count_two _ _ i j t u); [done|done|by apply bool_decide_eq_true|done|by apply bool_decide_eq_true].
  - intros k l [_ Hk]%lookup_delete_Some. by apply (Hn k).
  - intros k1 k2 l [_ Hk1]%lookup_delete_Some [_ Hk2]%lookup_delete_Some. by apply (H1 k1 k2 l).
  - intros k l [Hne Hk]%lookup_delete_Some. apply (Hobjects k l Hk). intros ->. by destruct Hne; apply (H1 _ _ (ca_lock t)).
  - intros j u [_ Hj]%lookup_delete_Some. by apply (Hc j).
  - done.
  - done.
  - intros k l Hk. apply (Hobjects k l Hk). intros _. lia.
Qed.

Lemma lock_inv_reachable s : rtc lock_step locks_init s → lock_inv s.
Proof.
  assert (∀ s0 s1, rtc lock_step s0 s1 → lock_inv s0 → lock_inv s1) as Hind.
  { induction 1 as [|s0 s1 s2 Hstep _ IH]; [done|]. intros Hinv. apply IH. destruct Hstep.
    - by eapply lock_inv_enter.
    - by eapply lock_inv_acquire.
    - by apply lock_inv_unlock.
    - by apply lock_inv_leave. }
  intros Hr. by eapply Hind, lock_inv_init.
Qed.

Lemma count_some p m : 1 ≤ count p m → ∃ i t, m !! i = Some t ∧ p t = true.
Proof.
  induction m as [|i t m Hi IH] using map_ind; [by unfold count; rewrite fmap_empty, map_zsum_empty|].
  rewrite count_insert, Hi. cbn. unfold indicator. destruct (p t) eqn:Ep; intros Hpos.
  - exists i, t. by rewrite lookup_insert_eq.
  - destruct IH as (j & u & Hj & Hu); [lia|]. exists j, u. rewrite lookup_insert_ne; [done|congruence].
Qed.

(** ** Theorems *)

(** C35: the lock of a key excludes, lets everybody in, and leaves nothing
    behind.  However the callers interleave, two of them that hold the lock of
    one key only read; a caller that waits while nobody holds the lock of its
    key obtains it; and the map holds the keys somebody uses, and no other. *)
Theorem key_locks_exclude s :
  rtc lock_step locks_init s →
  (∀ i j t u, ks_callers s !! i = Some t → ks_callers s !! j = Some u → i ≠ j → ca_phase t = Holding → ca_phase u = Holding →
     ca_key t = ca_key u → ca_read t = true ∧ ca_read u = true) ∧
  (∀ i t, ks_callers s !! i = Some t → ca_phase t = Waiting →
     (∀ j u, ks_callers s !! j = Some u → ca_key u = ca_key t → ca_phase u ≠ Holding) →
     ∃ w w', lt_objects (ks_table s) !! ca_lock t = Some w ∧ mutex_lock (ca_read t) w = Some w') ∧
  (∀ k, is_Some (lt_writers (ks_table s) !! k) ↔ ∃ i t, ks_callers s !! i = Some t ∧ ca_key t = k).
Proof.
  intros Hr. pose proof (lock_inv_reachable s Hr) as [Hc Hn H1 Ho].
  assert (∀ i t r, ks_callers s !! i = Some t → ca_phase t = Holding → ca_read t = r → holds (ca_lock t) r t = true) as Hh.
  { intros i t r _ Hp Hread. unfold holds, on. rewrite bool_decide_eq_true_2, Hp, Hread by done. by destruct r. }
  split; [|split].
  - intros i j t u Hi Hj Hne Hp Hq Hk. pose proof (Hc i t Hi) as Ht. pose proof (Hc j u Hj) as Hu.
    assert (ca_lock u = ca_lock t) as Hl by (rewrite Hk in Ht; congruence).
    destruct (Ho _ _ Ht) as (w & _ & [_ A2 A3 A4] & _).
    pose proof (Hh i t _ Hi Hp eq_refl) as X. pose proof (Hh j u _ Hj Hq eq_refl) as Y. rewrite Hl in Y.
    destruct (ca_read t) eqn:Er, (ca_read u) eqn:Eu; [done|exfalso..].
    + pose proof (count_pos _ _ i t Hi X). pose proof (count_pos _ _ j u Hj Y). destruct (kw_writing w); [|lia]. specialize (A4 eq_refl). lia.
    + pose proof (count_pos _ _ i t Hi X). pose proof (count_pos _ _ j u Hj Y). destruct (kw_writing w); [|lia]. specialize (A4 eq_refl). lia.
    + pose proof (count_two _ _ i j t u Hne Hi X Hj Y). destruct (kw_writing w); lia.
  - intros i t Hi Hp Hfree. pose proof (Hc i t Hi) as Ht. destruct (Ho _ _ Ht) as (w & Hw & [_ A2 A3 A4] & _).
    assert (∀ r, count (holds (ca_lock t) r) (ks_callers s) = 0) as Hnone.
    { intros r. apply count_zero. intros j u Hj. unfold holds. destruct (on (ca_lock t) u) eqn:Eon; [|done].
      apply bool_decide_eq_true in Eon. destruct (ca_phase u) eqn:Ep; [by rewrite andb_false_r| |by rewrite andb_false_r].
      exfalso. apply (Hfree j u Hj); [|done]. apply (H1 _ _ (ca_lock t)); [rewrite <- Eon; by apply (Hc j)|done]. }
    rewrite Hnone in A2, A3. destruct (kw_writing w) eqn:Ew; [done|]. exists w. unfold mutex_lock. rewrite Ew, A2. cbn.
    destruct (ca_read t); eauto.
  - intros k. split.
    + intros [l Hl]. destruct (Ho k l Hl) as (w & _ & [A1 _ _ _] & Hpos).
      destruct (count_some (on l) (ks_callers s)) as (i & t & Hi & Hon); [lia|]. exists i, t. split; [done|].
      apply bool_decide_eq_true in Hon. apply (H1 _ _ l); [rewrite <- Hon; by apply (Hc i)|done].
    + intros (i & t & Hi & <-). eexists. by apply (Hc i).
Qed.

(** ** Witness *)

(** A writer and a reader of one key: the reader waits until the writer goes. *)
Definition first_asks : lock_state :=
  let '(l, m) := lockKey_enter "a" no_locks in
  {| ks_table := m; ks_callers := <[0%nat := {| ca_key := "a"; ca_lock := l; ca_read := false; ca_phase := Waiting |}]> ∅ |}.
Definition second_asks : lock_state :=
  let '(l, m) := lockKey_enter "a" (ks_table first_asks) in
  {| ks_table := m; ks_callers := <[1%nat := {| ca_key := "a"; ca_lock := l; ca_read := true; ca_phase := Waiting |}]> (ks_callers first_asks) |}.

Lemma key_locks_exclude_witness :
  is_Some (lt_writers (ks_table second_asks) !! "a"%string) ∧ ¬ is_Some (lt_writers (ks_table second_asks) !! "b"%string).
Proof.
  assert (rtc lock_step locks_init second_asks) as Hr.
  { apply (rtc_l _ _ first_asks); [apply (step_enter locks_init 0 "a" false 0%nat (lockKey_enter "a" no_locks).2); reflexivity|].
    apply (rtc_l _ _ second_asks); [|apply rtc_refl].
    apply (step_enter first_asks 1 "a" true 0%nat (lockKey_enter "a" (ks_table first_asks)).2); reflexivity. }
  destruct (key_locks_exclude second_asks Hr) as (_ & _ & Hkeys). split.
  - apply Hkeys. exists 0%nat. eexists. split; reflexivity.
  - intros [l Hl]. vm_compute in Hl. discriminate Hl.
Defined.
