(* ===== verification/StoredHeader.v ===== *)
(** * The stored header record ([cache.go], [integrity.go])

    The text of a header file: an optional preamble of the cache, the status
    line, the field lines and a blank line.  [serializeStoredHeader] and
    [serializeIntegrityHeader] write it, [decodeIntegrity] and
    [readStoredHeaders] judge and read it.  The first part is what the source
    uses of [net/http], [net/textproto] and [bufio]; the encodings of
    [crypto/sha256], [encoding/base64], [encoding/json] and the RFC 3339 times
    are the operations of the class [RecordText]. *)

From S2P Require Import Prelude GoStrings GoTime GoQuote GoHttp.

(** ** Standard library *)

Definition crlf : string := String cr (str1 lf).

(** A byte that does not end a line. *)
Definition line_byte (c : ascii) : bool := negb (Ascii.eqb c cr) && negb (Ascii.eqb c lf).
Definition one_line (s : string) : bool := str_forall line_byte s.

Definition is_blank (c : ascii) : bool := Ascii.eqb c " "%char || Ascii.eqb c tab.

(** [http.StatusText] *)
Definition status_texts : list (Z * string) :=
  [(100, "Continue"); (101, "Switching Protocols"); (102, "Processing"); (103, "Early Hints");
   (200, "OK"); (201, "Created"); (202, "Accepted"); (203, "Non-Authoritative Information");
   (204, "No Content"); (205, "Reset Content"); (206, "Partial Content"); (207, "Multi-Status");
   (208, "Already Reported"); (226, "IM Used"); (300, "Multiple Choices"); (301, "Moved Permanently");
   (302, "Found"); (303, "See Other"); (304, "Not Modified"); (305, "Use Proxy");
   (307, "Temporary Redirect"); (308, "Permanent Redirect"); (400, "Bad Request"); (401, "Unauthorized");
   (402, "Payment Required"); (403, "Forbidden"); (404, "Not Found"); (405, "Method Not Allowed");
   (406, "Not Acceptable"); (407, "Proxy Authentication Required"); (408, "Request Timeout");
   (409, "Conflict"); (410, "Gone"); (411, "Length Required"); (412, "Precondition Failed");
   (413, "Request Entity Too Large"); (414, "Request URI Too Long"); (415, "Unsupported Media Type");
   (416, "Requested Range Not Satisfiable"); (417, "Expectation Failed"); (418, "I'm a teapot");
   (421, "Misdirected Request"); (422, "Unprocessable Entity"); (423, "Locked");
   (424, "Failed Dependency"); (425, "Too Early"); (426, "Upgrade Required");
   (428, "Precondition Required"); (429, "Too Many Requests");
   (431, "Request Header Fields Too Large"); (451, "Unavailable For Legal Reasons");
   (500, "Internal Server Error"); (501, "Not Implemented"); (502, "Bad Gateway");
   (503, "Service Unavailable"); (504, "Gateway Timeout"); (505, "HTTP Version Not Supported");
   (506, "Variant Also Negotiates"); (507, "Insufficient Storage"); (508, "Loop Detected");
   (510, "Not Extended"); (511, "Network Authentication Required")]%string.

Fixpoint assoc_text (code : Z) (l : list (Z * string)) : string :=
  match l with
  | [] => EmptyString
  | (c, s) :: l => if c =? code then s else assoc_text code l
  end.

Definition StatusText (code : Z) : string := assoc_text code status_texts.

(** [http.Header.Write]: names in order, invalid names skipped, line ends in
    values replaced by spaces, values trimmed ([textproto.TrimString]). *)
Definition header_space (c : ascii) : bool := is_blank c || Ascii.eqb c cr || Ascii.eqb c lf.
Definition newline_to_space (c : ascii) : ascii := if line_byte c then c else " "%char.
Definition header_value (v : string) : string := trim header_space (str_map newline_to_space v).
Definition ValidHeaderFieldName (k : string) : bool := nonempty k && str_forall is_token_byte k.

Definition header_fields (h : Header) : list (string * string) :=
  k ← filter (λ k, ValidHeaderFieldName k = true) (sort_strings (header_names h));
  (λ v, (k, header_value v)) <$> default [] (h !! k).

Definition field_line (f : string * string) : string := (f.1 +:+ ": " +:+ f.2)%string.

(** Lines, each with its end, then a blank line. *)
Fixpoint print_lines (lines : list string) : string :=
  match lines with
  | [] => crlf
  | l :: lines => (l +:+ crlf +:+ print_lines lines)%string
  end.

(** [bytes.Index] of a line end: what is before it and after it. *)
Fixpoint cut_crlf (s : string) : option (string * string) :=
  match s with
  | EmptyString => None
  | String c s' =>
      if HasPrefix s crlf then Some (EmptyString, String.substring 1 (String.length s' - 1) s')
      else match cut_crlf s' with Some (a, b) => Some (String c a, b) | None => None end
  end.

(** [bufio.Reader.ReadLine] through [textproto]: a line without its end, and
    the rest; [None] at the end of the input. *)
Fixpoint read_until_lf (s : string) : string * option string :=
  match s with
  | EmptyString => (EmptyString, None)
  | String c s => if Ascii.eqb c lf then (EmptyString, Some s)
                  else let '(a, b) := read_until_lf s in (String c a, b)
  end.

Definition ReadLine (s : string) : option (string * string) :=
  match s with
  | EmptyString => None
  | _ => match read_until_lf s with
         | (line, Some rest) => Some (TrimSuffix line (str1 cr), rest)
         | (line, None) => Some (line, EmptyString)
         end
  end.

Definition not_colon (c : ascii) : bool := negb (Ascii.eqb c ":"%char).
Definition valid_value_byte (c : ascii) : bool :=
  Ascii.eqb c tab || ((32 <=? byte_val c) && (byte_val c <=? 126)) || (128 <=? byte_val c).

(** Continuation lines: [readContinuedLineSlice] after its first line. *)
Fixpoint read_continued (fuel : nat) (buf : string) (s : string) : string * string :=
  match fuel with
  | O => (buf, s)
  | S fuel =>
      match s with
      | String c _ =>
          if is_blank c then
            match ReadLine (drop_while is_blank s) with
            | Some (line, rest) => read_continued fuel (buf +:+ " " +:+ trim is_blank line)%string rest
            | None => ((buf +:+ " ")%string, EmptyString)
            end
          else (buf, s)
      | EmptyString => (buf, s)
      end
  end.

(** [canonicalMIMEHeaderKey]: a name with a space is kept as it is. *)
Definition canonicalMIMEHeaderKey (k : string) : option string :=
  if negb (nonempty k) then None
  else if str_forall is_token_byte k then Some (canonical_bytes true k)
  else if str_forall (λ c, is_token_byte c || Ascii.eqb c " "%char) k then Some k
  else None.

Definition add_field (h : Header) (f : string * string) : Header :=
  <[f.1 := default [] (h !! f.1) ++ [f.2]]> h.

(** The loop of [ReadMIMEHeader]. *)
Fixpoint mime_loop (fuel : nat) (h : Header) (s : string) : option Header :=
  match fuel with
  | O => None
  | S fuel =>
      match ReadLine s with
      | None => None
      | Some (line, rest) =>
          if negb (nonempty line) then Some h
          else if str_forall not_colon line then None
          else
            let '(kv, rest) := read_continued (String.length rest) (trim is_blank line) rest in
            if negb (nonempty kv) then Some h
            else if str_forall not_colon kv then None
            else
              let k := take_while not_colon kv in
              let v := String.substring 1 (String.length kv) (drop_while not_colon kv) in
              match canonicalMIMEHeaderKey k with
              | None => None
              | Some key =>
                  if str_forall valid_value_byte v
                  then mime_loop fuel (add_field h (key, drop_while is_blank v)) rest
                  else None
              end
      end
  end.

Definition ReadMIMEHeader (s : string) : option Header :=
  match s with
  | String c _ => if is_blank c then None else mime_loop (String.length s) ∅ s
  | EmptyString => None
  end.

(** ** Encodings *)

(** [type integrityRecord struct] *)
Record integrityRecord := {
  ir_StoredAt : Time;
  ir_Size : Z;
  ir_BodySHA256 : string;
  ir_HeaderSHA256 : string;
  ir_KeySHA256 : string;
  ir_fingerprint : string;
}.

Definition with_header_digest (d : string) (m : integrityRecord) : integrityRecord :=
  {| ir_StoredAt := ir_StoredAt m; ir_Size := ir_Size m; ir_BodySHA256 := ir_BodySHA256 m;
     ir_HeaderSHA256 := d; ir_KeySHA256 := ir_KeySHA256 m; ir_fingerprint := ir_fingerprint m |}.
Definition with_fingerprint (d : string) (m : integrityRecord) : integrityRecord :=
  {| ir_StoredAt := ir_StoredAt m; ir_Size := ir_Size m; ir_BodySHA256 := ir_BodySHA256 m;
     ir_HeaderSHA256 := ir_HeaderSHA256 m; ir_KeySHA256 := ir_KeySHA256 m; ir_fingerprint := d |}.
Definition with_stored_at (t : Time) (m : integrityRecord) : integrityRecord :=
  {| ir_StoredAt := t; ir_Size := ir_Size m; ir_BodySHA256 := ir_BodySHA256 m;
     ir_HeaderSHA256 := ir_HeaderSHA256 m; ir_KeySHA256 := ir_KeySHA256 m; ir_fingerprint := ir_fingerprint m |}.

(** [validDigest]: what [hex.DecodeString] accepts, of 32 bytes. *)
Definition is_hex_digit (c : ascii) : bool := match unhex c with Some _ => true | None => false end.
Definition validDigest (s : string) : bool := str_forall is_hex_digit s && (String.length s =? 64)%nat.

(** A record [json.Marshal] writes faithfully: a year of four digits, a 64-bit
    size, digests. *)
Definition plain_record (m : integrityRecord) : Prop :=
  0 ≤ ir_StoredAt m < max_http_time ∧ 0 ≤ ir_Size m ≤ max_int64 ∧ validDigest (ir_BodySHA256 m) = true ∧
  (ir_HeaderSHA256 m = EmptyString ∨ validDigest (ir_HeaderSHA256 m) = true) ∧ validDigest (ir_KeySHA256 m) = true.

(** [sha256.Sum256] in hexadecimal, [base64.RawURLEncoding], [encoding/json]
    on the exported fields of a record, [time.RFC3339Nano]. *)
Class RecordText := {
  sha256_hex : string → string;
  base64_encode : string → string;
  base64_decode : string → option string;
  json_marshal : integrityRecord → option string;
  json_unmarshal : string → option integrityRecord;
  format_nano : Time → string;
  parse_nano : string → option Time;
}.

Class RecordTextLaws (R : RecordText) : Prop := {
  sha256_digest : ∀ s, validDigest (sha256_hex s) = true;
  base64_line : ∀ s, one_line (base64_encode s) = true;
  base64_roundtrip : ∀ s, base64_decode (base64_encode s) = Some s;
  json_roundtrip : ∀ m, plain_record m →
    ∃ s, json_marshal m = Some s ∧ json_unmarshal s = Some (with_fingerprint EmptyString m);
  json_exported : ∀ m f, json_marshal (with_fingerprint f m) = json_marshal m;
  nano_line : ∀ t, one_line (format_nano t) = true;
  nano_roundtrip : ∀ t, 0 ≤ t < max_http_time → parse_nano (format_nano t) = Some t;
}.

(** ** The record *)

Definition storedAtPreamble : string := "HTTPCACHE/1 ".
Definition integrityPreamble : string := "HTTPCACHE/2 ".
Definition headerRecordTerminator : string := (crlf +:+ crlf)%string.

Section Record_.
Context `{RecordText}.

Definition status_line (code : Z) : string := ("HTTP/1.1 " +:+ Itoa code +:+ " " +:+ StatusText code)%string.

(** [headersToWriter], with the status line written before it. *)
Definition response_record (code : Z) (h : Header) : string :=
  print_lines (status_line code :: (field_line <$> header_fields h)).

Definition serializeStoredHeader (code : Z) (h : Header) (storedAt : Time) : string :=
  ((storedAtPreamble +:+ format_nano storedAt) +:+ crlf +:+ response_record code h)%string.

(** [recordDigest]: the error of [Marshal] is dropped, the encoding is then
    empty. *)
Definition recordDigest (meta : integrityRecord) (record : string) : string :=
  let encoded := default EmptyString (json_marshal (with_header_digest EmptyString meta)) in
  sha256_hex (encoded +:+ str1 lf +:+ record).

Definition serializeIntegrityHeader (code : Z) (h : Header) (meta : integrityRecord) : option string :=
  let record := response_record code h in
  let meta := with_header_digest (recordDigest meta record) meta in
  match json_marshal meta with
  | None => None
  | Some encoded => Some ((integrityPreamble +:+ base64_encode encoded) +:+ crlf +:+ record)%string
  end.

(** [cache.serializeCacheHeader]; the boolean is [Integrity != IntegrityDisabled]. *)
Definition serializeCacheHeader (integrity : bool) (code : Z) (h : Header) (at_ : Time) (key : string)
    (size : Z) (digest : string) : option string :=
  if negb integrity then Some (serializeStoredHeader code h at_)
  else serializeIntegrityHeader code h
         {| ir_StoredAt := at_; ir_Size := size; ir_BodySHA256 := digest; ir_HeaderSHA256 := EmptyString;
            ir_KeySHA256 := sha256_hex key; ir_fingerprint := EmptyString |}.

Definition parseIntegrityPreamble (line : string) : option integrityRecord :=
  match base64_decode (String.substring (String.length integrityPreamble) (String.length line) line) with
  | None => None
  | Some encoded => json_unmarshal encoded
  end.

(** [decodeIntegrityRecord]: [inl] is the corruption, with its fingerprint;
    [inr None] a record without integrity data. *)
Definition decodeIntegrityRecord (raw key : string) (required checkKey : bool) : string + option integrityRecord :=
  let fail := inl (sha256_hex raw) in
  if negb (HasPrefix raw integrityPreamble) then (if required then fail else inr None)
  else match cut_crlf raw with
       | None => fail
       | Some (line, record) =>
           match base64_decode (String.substring (String.length integrityPreamble) (String.length line) line) with
           | None => fail
           | Some encoded =>
               match json_unmarshal encoded with
               | None => fail
               | Some meta =>
                   if IsZero (ir_StoredAt meta) || (ir_Size meta <? 0) || negb (validDigest (ir_BodySHA256 meta)) ||
                      negb (validDigest (ir_HeaderSHA256 meta)) || negb (validDigest (ir_KeySHA256 meta)) then fail
                   else if (checkKey && negb (ir_KeySHA256 meta =?s sha256_hex key)) ||
                           negb (ir_HeaderSHA256 meta =?s recordDigest meta record) then fail
                   else inr (Some (with_fingerprint (sha256_hex raw) meta))
               end
           end
       end.

Definition decodeIntegrity (raw key : string) (required : bool) : string + option integrityRecord :=
  decodeIntegrityRecord raw key required true.

(** The second field of [strings.SplitN(line, " ", 3)]. *)
Definition second_word (line : string) : option string :=
  let not_space c := negb (Ascii.eqb c " "%char) in
  match drop_while not_space line with
  | EmptyString => None
  | String _ rest => Some (take_while not_space rest)
  end.

Definition read_status (line rest : string) : option (Z * Header) :=
  match second_word line with
  | None => None
  | Some code =>
      match ParseInt code with
      | None => None
      | Some status => match ReadMIMEHeader rest with Some h => Some (status, h) | None => None end
      end
  end.

(** The preamble of the integrity mode, after the one of the plain mode. *)
Definition read_after_time (storedAt : Time) (line rest : string) : option (Z * Header * Time) :=
  if HasPrefix line integrityPreamble then
    match parseIntegrityPreamble line, ReadLine rest with
    | Some meta, Some (line, rest) => (λ r, (r, ir_StoredAt meta)) <$> read_status line rest
    | _, _ => None
    end
  else (λ r, (r, storedAt)) <$> read_status line rest.

Definition readStoredHeaders (raw : string) : option (Z * Header * Time) :=
  match ReadLine raw with
  | None => None
  | Some (line, rest) =>
      if HasPrefix line storedAtPreamble then
        match parse_nano (String.substring (String.length storedAtPreamble) (String.length line) line),
              ReadLine rest with
        | Some storedAt, Some (line, rest) => read_after_time storedAt line rest
        | _, _ => None
        end
      else read_after_time zero_time line rest
  end.
End Record_.

(** ** Lines *)

Lemma str_forall_impl (p q : ascii → bool) s :
  (∀ c, p c = true → q c = true) → str_forall p s = true → str_forall q s = true.
Proof. intros Hpq. induction s as [|c s IH]; [done|]. simpl. intros [Hc Hs]%andb_true_iff. by rewrite (Hpq c Hc), IH. Qed.

Lemma HasPrefix_app s t : HasPrefix (s +:+ t)%string s = true.
Proof.
  induction s as [|c s IH]; [by destruct t|]. rewrite str_app_cons. cbn [HasPrefix].
  by rewrite Ascii.eqb_refl, IH.
Qed.

Lemma one_line_app s t : one_line (s +:+ t)%string = one_line s && one_line t.
Proof. apply str_forall_app. Qed.

Lemma read_until_lf_line l rest : one_line l = true → read_until_lf (l +:+ crlf +:+ rest)%string = ((l +:+ str1 cr)%string, Some rest).
Proof.
  induction l as [|c l IH]; intros Hl; [done|]. rewrite !str_app_cons. unfold one_line in Hl. simpl in Hl. unbool.
  cbn [read_until_lf]. replace (Ascii.eqb c lf) with false by (unfold line_byte in *; unbool; congruence).
  by rewrite IH.
Qed.

Lemma ReadLine_line l rest : one_line l = true → ReadLine (l +:+ crlf +:+ rest)%string = Some (l, rest).
Proof.
  intros Hl. unfold ReadLine. rewrite read_until_lf_line by done.
  replace (match (l +:+ crlf +:+ rest)%string with EmptyString => true | _ => false end) with false by (by destruct l).
  destruct (l +:+ crlf +:+ rest)%string eqn:E; [by destruct l|]. by rewrite TrimSuffix_app.
Qed.

Lemma cut_crlf_line l rest : one_line l = true → cut_crlf (l +:+ crlf +:+ rest)%string = Some (l, rest).
Proof.
  induction l as [|c l IH]; intros Hl.
  - unfold crlf, str1. rewrite !str_app_cons, !str_app_nil_l. cbn [cut_crlf]. 
    change (String cr (String lf rest)) with (crlf +:+ rest)%string. unfold crlf, str1. rewrite HasPrefix_app. simpl. by rewrite Nat.sub_0_r, str_substring_all.
  - rewrite !str_app_cons. unfold one_line in Hl. simpl in Hl. unbool. cbn [cut_crlf].
    replace (HasPrefix (String c (l +:+ crlf +:+ rest)) crlf) with false.
    { by rewrite IH. }
    unfold crlf at 2. cbn [HasPrefix]. unfold line_byte in *. unbool.
    destruct (Ascii.eqb_spec cr c) as [<-|]; [done|]. done.
Qed.

(** A line end found in printed lines is one of theirs. *)
Lemma line_split l rest p t :
  one_line l = true → (l +:+ crlf +:+ rest)%string = (p +:+ crlf +:+ t)%string →
  (p = l ∧ rest = t) ∨ ∃ p', p = (l +:+ crlf +:+ p')%string ∧ rest = (p' +:+ crlf +:+ t)%string.
Proof.
  revert p. induction l as [|c l IH]; intros p Hl Heq.
  - unfold crlf, str1 in *. rewrite !str_app_cons, !str_app_nil_l in *.
    destruct p as [|d [|d2 p]]; rewrite ?str_app_cons, ?str_app_nil_l in Heq.
    + injection Heq as Heq. by left.
    + discriminate Heq.
    + injection Heq as <- <- ->. right. exists p. by rewrite !str_app_cons, !str_app_nil_l.
  - unfold one_line in Hl. simpl in Hl. unbool. destruct p as [|d p].
    + injection Heq as -> _. discriminate.
    + injection Heq as -> Heq. destruct (IH p) as [[-> ->]|(p' & -> & ->)]; [done|exact Heq|by left|].
      right. by exists p'.
Qed.

(** The blank line that ends a record is the first one in it. *)
Lemma print_lines_terminator lines p t :
  Forall (λ l, one_line l = true ∧ nonempty l = true) lines →
  print_lines lines = (p +:+ headerRecordTerminator +:+ t)%string → t = EmptyString.
Proof.
  unfold headerRecordTerminator. intros Hl. revert p. induction Hl as [|l lines [Hone Hne] Hl2 IH]; intros p.
  - intros Heq. apply (f_equal String.length) in Heq. rewrite !str_length_app in Heq. simpl in Heq. lia.
  - cbn [print_lines]. rewrite <- (str_app_assoc crlf crlf t).
    intros Heq. destruct (line_split _ _ _ _ Hone Heq) as [[_ Hrest]|(p' & _ & Hrest)].
    + destruct lines as [|l2 lines]; cbn [print_lines] in Hrest.
      * apply (f_equal String.length) in Hrest. rewrite !str_length_app in Hrest. simpl in Hrest.
        destruct t; [done|simpl in Hrest; lia].
      * inversion_clear Hl2 as [|? ? [Ho2 Hn2] _].
        destruct l2 as [|c l2]; [done|]. rewrite str_app_cons in Hrest. injection Hrest as -> _. by apply andb_true_iff in Ho2 as [? _].
    + rewrite (str_app_assoc crlf crlf t) in Hrest. by apply (IH p').
Qed.

(** ** Field lines *)

Lemma trim_right_length p s : (String.length (trim_right p s) ≤ String.length s)%nat.
Proof. induction s as [|c s IH]; simpl; [lia|]. destruct (trim_right p s); simpl in *; [destruct (p c); simpl; lia|lia]. Qed.

Lemma trim_id p s : trim p s = s → drop_while p s = s ∧ trim_right p s = s.
Proof.
  unfold trim. intros Ht. assert (drop_while p s = s) as Hd; [|by rewrite Hd in Ht].
  destruct s as [|c s]; [done|]. simpl in *. destruct (p c); [|done].
  pose proof (trim_right_length p (drop_while p s)) as H1. pose proof (drop_while_length p s) as H2.
  rewrite Ht in H1. simpl in H1. lia.
Qed.

Lemma trim_right_app p s t :
  trim_right p (s +:+ t)%string = if nonempty (trim_right p t) then (s +:+ trim_right p t)%string else trim_right p s.
Proof.
  induction s as [|c s IH]; [rewrite !str_app_nil_l; by destruct (trim_right p t)|].
  rewrite !str_app_cons. cbn [trim_right]. rewrite IH. destruct (trim_right p t) as [|d t'] eqn:E; simpl; [done|].
  by destruct s.
Qed.

Lemma trim_right_ext p q s : str_forall (λ c, Bool.eqb (p c) (q c)) s = true → trim_right p s = trim_right q s.
Proof.
  induction s as [|c s IH]; [done|]. simpl. intros [Hc%Bool.eqb_prop Hs]%andb_true_iff. by rewrite IH, Hc.
Qed.

Lemma drop_while_ext p q s : str_forall (λ c, Bool.eqb (p c) (q c)) s = true → drop_while p s = drop_while q s.
Proof. induction s as [|c s IH]; [done|]. simpl. intros [Hc%Bool.eqb_prop Hs]%andb_true_iff. by rewrite IH, Hc. Qed.

Lemma drop_while_forall p q s : str_forall q s = true → str_forall q (drop_while p s) = true.
Proof. induction s as [|c s IH]; [done|]. simpl. intros Hs. destruct (p c); [|done]. unbool. auto. Qed.

(** A value the record gives back as it was. *)
Definition plain_value (v : string) : bool := str_forall valid_value_byte v && (trim is_blank v =?s v).

Lemma value_byte_line c : valid_value_byte c = true → line_byte c = true.
Proof. by destruct c as [[][][][][][][][]]. Qed.

Lemma token_byte_line c : is_token_byte c = true → line_byte c = true ∧ not_colon c = true ∧ is_blank c = false.
Proof. by destruct c as [[][][][][][][][]]. Qed.

Lemma header_value_line v : one_line (header_value v) = true.
Proof.
  assert (∀ s, one_line s = true → one_line (trim header_space s) = true) as Htrim.
  { intros s Hs%(drop_while_forall header_space). unfold trim, one_line in *.
    induction (drop_while header_space s) as [|c t IH]; [done|]. simpl in Hs. unbool. specialize (IH ltac:(done)).
    cbn [trim_right]. destruct (trim_right header_space t); [destruct (header_space c); simpl; by rewrite ?andb_true_r|].
    cbn [str_forall] in *. by rewrite IH, andb_true_r. }
  apply Htrim. unfold one_line. induction v as [|c v IH]; [done|]. cbn [str_map str_forall].
  rewrite IH, andb_true_r. unfold newline_to_space. by destruct (line_byte c) eqn:E.
Qed.

Lemma header_value_plain v : plain_value v = true → header_value v = v.
Proof.
  unfold plain_value, header_value. intros [Hv Ht]%andb_true_iff. apply String.eqb_eq in Ht.
  assert (str_map newline_to_space v = v) as ->.
  { clear Ht. induction v as [|c v IH]; [done|]. simpl in *. unbool. rewrite IH by done.
    unfold newline_to_space. by rewrite value_byte_line. }
  assert (str_forall (λ c, Bool.eqb (header_space c) (is_blank c)) v = true) as Hext.
  { revert Hv. apply str_forall_impl. intros c Hc. by destruct c as [[][][][][][][][]]. }
  rewrite <- Ht at 2. unfold trim. rewrite (drop_while_ext _ _ _ Hext). apply trim_right_ext.
  by apply drop_while_forall.
Qed.

Lemma token_field_line k v :
  ValidHeaderFieldName k = true → one_line v = true →
  one_line (field_line (k, v)) = true ∧ nonempty (field_line (k, v)) = true.
Proof.
  unfold ValidHeaderFieldName, field_line. intros [Hne Hk]%andb_true_iff Hv. cbn [fst snd]. split; [|by destruct k].
  rewrite !one_line_app, Hv. cbn. rewrite andb_true_r. revert Hk. apply str_forall_impl. apply token_byte_line.
Qed.

Lemma str_substring_ge s n : (String.length s ≤ n)%nat → String.substring 0 n s = s.
Proof. revert n. induction s as [|c s IH]; intros [|n] Hn; simpl in *; try done; [lia|]. by rewrite IH by lia. Qed.

(** One turn of the loop of [ReadMIMEHeader] on a written field. *)
Lemma mime_loop_field fuel h k v rest :
  ValidHeaderFieldName k = true → CanonicalHeaderKey k = k → plain_value v = true → stops is_blank rest →
  mime_loop (S fuel) h (field_line (k, v) +:+ crlf +:+ rest)%string = mime_loop fuel (add_field h (k, v)) rest.
Proof.
  intros Hk Hcan Hv Hrest.
  assert (one_line v = true) as Hvl.
  { unfold plain_value in Hv. unbool. revert H. apply str_forall_impl, value_byte_line. }
  destruct (token_field_line k v Hk Hvl) as [Hone Hne]. cbn [mime_loop]. rewrite ReadLine_line by done. rewrite Hne.
  unfold ValidHeaderFieldName in Hk. apply andb_true_iff in Hk as [Hkne Hktok].
  unfold plain_value in Hv. apply andb_true_iff in Hv as [Hvb Htrim]. apply String.eqb_eq, trim_id in Htrim as [Hd Ht].
  assert (∀ s, str_forall not_colon (k +:+ String ":" s)%string = false) as Hcolon.
  { intros s. rewrite str_forall_app. cbn. apply andb_false_r. }
  assert (field_line (k, v) = (k +:+ String ":" (" " +:+ v))%string) as Hline by done.
  rewrite Hline, Hcolon. cbn [negb].
  set (w := if nonempty v then (" " +:+ v)%string else EmptyString).
  assert (trim is_blank (k +:+ String ":" (" " +:+ v))%string = (k +:+ String ":" w)%string) as ->.
  { unfold trim. replace (drop_while is_blank _) with (k +:+ String ":" (" " +:+ v))%string.
    2: { destruct k as [|c k]; [done|]. rewrite str_app_cons. cbn [drop_while]. simpl in Hktok. unbool.
         by rewrite (proj2 (proj2 (token_byte_line c H))). }
    rewrite trim_right_app. unfold w. rewrite str_app_cons, str_app_nil_l. cbn [trim_right]. rewrite Ht.
    destruct v as [|d v]; reflexivity. }
  assert (read_continued (String.length rest) (k +:+ String ":" w) rest = ((k +:+ String ":" w)%string, rest)) as ->.
  { destruct rest as [|d rest]; [done|]. cbn [String.length read_continued]. simpl in Hrest. by rewrite Hrest. }
  rewrite Hcolon. replace (nonempty (k +:+ String ":" w)%string) with true by (by destruct k). cbn [negb].
  assert (str_forall not_colon k = true) as Hnc by (revert Hktok; apply str_forall_impl; apply token_byte_line).
  rewrite take_while_stop, drop_while_stop by done. unfold canonicalMIMEHeaderKey. rewrite Hkne, Hktok. cbn [negb].
  unfold CanonicalHeaderKey in Hcan. rewrite Hktok in Hcan. rewrite Hcan.
  assert (∃ n, String.length (k +:+ String ":" w) = S n ∧ (String.length w ≤ n)%nat) as (n & -> & Hn).
  { rewrite str_length_app. cbn [String.length]. exists (String.length k + String.length w)%nat. lia. }
  cbn [String.substring]. rewrite str_substring_ge by lia.
  assert (str_forall valid_value_byte w = true ∧ drop_while is_blank w = v) as [-> ->]; [|done].
  unfold w. destruct v as [|d v]; [done|]. cbn [nonempty]. rewrite str_app_cons, str_app_nil_l. split; [exact Hvb|exact Hd].
Qed.

(** ** Reading back a header *)

Definition field_values (k : string) (fs : list (string * string)) : list string :=
  (filter (λ f, f.1 = k) fs).*2.

Lemma field_values_cons k f fs :
  field_values k (f :: fs) = if decide (f.1 = k) then f.2 :: field_values k fs else field_values k fs.
Proof. unfold field_values. rewrite filter_cons. by case_decide. Qed.

Lemma field_values_app k fs1 fs2 : field_values k (fs1 ++ fs2) = field_values k fs1 ++ field_values k fs2.
Proof. unfold field_values. by rewrite filter_app, fmap_app. Qed.

Lemma foldl_add_field fs h k :
  foldl add_field h fs !! k =
  match field_values k fs with [] => h !! k | vs => Some (default [] (h !! k) ++ vs) end.
Proof.
  revert h. induction fs as [|[k0 v0] fs IH]; intros h; [done|]. cbn [foldl]. rewrite IH, field_values_cons.
  unfold add_field. cbn [fst snd]. destruct (decide (k0 = k)) as [->|Hne].
  - rewrite lookup_insert_eq. destruct (field_values k fs); [done|]. simpl. by rewrite <- app_assoc.
  - by rewrite lookup_insert_ne.
Qed.

(** A header the record gives back as it is: canonical names, plain values. *)
Definition plain_header (h : Header) : Prop :=
  ∀ k vs, h !! k = Some vs → vs ≠ [] →
    ValidHeaderFieldName k = true ∧ CanonicalHeaderKey k = k ∧ Forall (λ v, plain_value v = true) vs.

Lemma header_names_NoDup {A} (h : gmap string A) : NoDup (header_names h).
Proof. apply NoDup_fst_map_to_list. Qed.

Lemma header_fields_in h k v :
  (k, v) ∈ header_fields h ↔ ValidHeaderFieldName k = true ∧ ∃ vs v0, h !! k = Some vs ∧ v0 ∈ vs ∧ v = header_value v0.
Proof.
  unfold header_fields. rewrite list_elem_of_bind. split.
  - intros (k0 & Hin & [Hk0 Hin2]%list_elem_of_filter). apply list_elem_of_fmap in Hin as (v0 & [= -> ->] & Hv0).
    split; [done|]. destruct (h !! k0) as [vs|]; [|by apply elem_of_nil in Hv0]. by exists vs, v0.
  - intros (Hk & vs & v0 & Hh & Hv0 & ->). exists k. split.
    + rewrite Hh. apply list_elem_of_fmap. by exists v0.
    + apply list_elem_of_filter. split; [done|]. apply elem_of_sort_strings, elem_of_header_names. by exists vs.
Qed.

Lemma field_values_bind (f : string → list string) ks k :
  NoDup ks → field_values k (k0 ← ks; (λ v, (k0, v)) <$> f k0) = if decide (k ∈ ks) then f k else [].
Proof.
  assert (∀ k0 l, field_values k ((λ v, (k0, v)) <$> l) = if decide (k0 = k) then l else []) as Hone.
  { intros k0 l. induction l as [|v l IH]; [by destruct (decide (k0 = k))|].
    rewrite fmap_cons, field_values_cons, IH. cbn [fst snd]. by destruct (decide (k0 = k)). }
  induction 1 as [|k0 ks Hk0 Hks IH]; [by rewrite decide_False by apply not_elem_of_nil|].
  rewrite bind_cons, field_values_app, IH, Hone. destruct (decide (k0 = k)) as [->|Hne].
  - rewrite (decide_False (P := k ∈ ks)), decide_True by (done || by left). apply app_nil_r.
  - destruct (decide (k ∈ ks)) as [Hin|Hnin]; [by rewrite decide_True by (by right)|].
    rewrite decide_False; [done|]. by intros [->|?]%elem_of_cons.
Qed.

Lemma field_values_header h k :
  field_values k (header_fields h) =
  if decide (ValidHeaderFieldName k = true) then header_value <$> default [] (h !! k) else [].
Proof.
  assert (header_fields h = (k0 ← filter (λ k, ValidHeaderFieldName k = true) (sort_strings (header_names h));
    (λ v, (k0, v)) <$> (header_value <$> default [] (h !! k0)))) as ->.
  { unfold header_fields. apply list_bind_ext; [|done]. intros k0. by rewrite <- list_fmap_compose. }
  rewrite (field_values_bind (λ k0, header_value <$> default [] (h !! k0))).
  2: { apply NoDup_filter. rewrite sort_strings_perm. apply header_names_NoDup. }
  destruct (decide (ValidHeaderFieldName k = true)) as [Hk|Hk].
  - destruct (decide (k ∈ _)) as [|Hnin]; [done|]. destruct (h !! k) as [vs|] eqn:E; [|done].
    destruct Hnin. apply list_elem_of_filter. split; [done|]. apply elem_of_sort_strings, elem_of_header_names. by exists vs.
  - rewrite decide_False; [done|]. by intros [? _]%list_elem_of_filter.
Qed.

Lemma header_fields_back h : plain_header h → foldl add_field ∅ (header_fields h) = written_fields h.
Proof.
  intros Hh. apply map_eq. intros k. rewrite foldl_add_field, field_values_header, lookup_empty. cbn [default].
  unfold written_fields. destruct (h !! k) as [[|v vs]|] eqn:E.
  - rewrite (map_lookup_filter_None_2 (λ p, p.2 ≠ []) h k).
    + by destruct (decide (ValidHeaderFieldName k = true)).
    + right. intros vs Hvs Hne. cbn in Hne. by rewrite E in Hvs; injection Hvs as <-.
  - destruct (Hh k _ E ltac:(done)) as (Hk & _ & Hvs). rewrite decide_True by done.
    change (default [] (Some (v :: vs))) with (v :: vs).
    assert (header_value <$> (v :: vs) = v :: vs) as ->.
    { clear E. induction Hvs as [|x l Hx _ IH]; [done|]. by rewrite fmap_cons, IH, header_value_plain. }
    symmetry. by apply map_lookup_filter_Some.
  - rewrite (map_lookup_filter_None_2 (λ p, p.2 ≠ []) h k) by (by left).
    by destruct (decide (ValidHeaderFieldName k = true)).
Qed.

Definition readable_field (f : string * string) : Prop :=
  ValidHeaderFieldName f.1 = true ∧ CanonicalHeaderKey f.1 = f.1 ∧ plain_value f.2 = true.

Lemma print_fields_start fs rest :
  Forall readable_field fs → stops is_blank (print_lines (field_line <$> fs) +:+ rest)%string.
Proof.
  intros [|[[|c k] v] fs' (Hk & _)]; [done..|]. unfold ValidHeaderFieldName in Hk. simpl in *.
  apply andb_true_iff in Hk as [Hc _]. apply (token_byte_line c Hc).
Qed.

Lemma mime_loop_fields fs fuel h rest :
  Forall readable_field fs →
  (length fs < fuel)%nat →
  mime_loop fuel h (print_lines (field_line <$> fs) +:+ rest)%string = Some (foldl add_field h fs).
Proof.
  intros Hfs. revert fuel h. induction Hfs as [|[k v] fs (Hk & Hc & Hv) Hfs' IH]; intros [|fuel] h Hf; simpl in Hf; try lia.
  - reflexivity.
  - rewrite fmap_cons. cbn [print_lines]. rewrite <- !str_app_assoc, mime_loop_field; try done.
    + cbn [foldl]. apply IH. lia.
    + by apply print_fields_start.
Qed.

Lemma print_lines_length lines : (length lines < String.length (print_lines lines))%nat.
Proof. induction lines as [|l lines IH]; simpl; [lia|]. rewrite !str_length_app. simpl. lia. Qed.

Lemma ReadMIMEHeader_back h :
  plain_header h → ReadMIMEHeader (print_lines (field_line <$> header_fields h)) = Some (written_fields h).
Proof.
  intros Hh. rewrite <- header_fields_back by done.
  assert (Forall readable_field (header_fields h)) as Hfs.
  { apply Forall_forall. intros [k v] (Hk & vs & v0 & E & Hv0 & ->)%header_fields_in.
    destruct (Hh k vs E) as (_ & Hc & Hvs); [by intros ->; apply elem_of_nil in Hv0|]. cbn. split; [done|]. split; [done|].
    rewrite Forall_forall in Hvs. specialize (Hvs v0 Hv0). by rewrite header_value_plain. }
  unfold ReadMIMEHeader. pose proof (print_lines_length (field_line <$> header_fields h)) as Hlen.
  rewrite length_fmap in Hlen.
  destruct (print_lines (field_line <$> header_fields h)) as [|c s] eqn:E; [simpl in Hlen; lia|].
  replace (is_blank c) with false.
  - rewrite <- E, <- (str_app_nil_r (print_lines _)), mime_loop_fields; [done|done|]. rewrite str_app_nil_r, E. lia.
  - pose proof (print_fields_start (header_fields h) EmptyString Hfs) as Hstart.
    rewrite str_app_nil_r, E in Hstart. by symmetry.
Qed.

(** ** The record is lines *)

Lemma dec_digits_forall fuel n acc :
  0 ≤ n → str_forall is_digit acc = true → str_forall is_digit (dec_digits fuel n acc) = true.
Proof.
  revert n acc. induction fuel as [|fuel IH]; intros n acc Hn Hacc; [done|]. cbn [dec_digits].
  assert (str_forall is_digit (String (dec_digit (n mod 10)) acc) = true) as Hd.
  { cbn [str_forall]. by rewrite Hacc, is_digit_dec by (apply Z.mod_pos_bound; lia). }
  destruct (n <? 10); [done|]. apply IH; [apply Z.div_pos; lia|done].
Qed.

Lemma Itoa_digits n : 0 ≤ n → str_forall is_digit (Itoa n) = true.
Proof. intros Hn. unfold Itoa. rewrite (proj2 (Z.ltb_ge n 0)) by lia. by apply dec_digits_forall. Qed.

Lemma StatusText_line code : one_line (StatusText code) = true.
Proof.
  unfold StatusText. assert (Forall (λ p, one_line p.2 = true) status_texts) as Hall by (repeat constructor).
  induction Hall as [|[c s] l Hs _ IH]; [done|]. cbn [assoc_text]. by destruct (c =? code).
Qed.

Lemma digit_byte_line c : is_digit c = true → line_byte c = true ∧ Ascii.eqb c " "%char = false.
Proof. by destruct c as [[][][][][][][][]]. Qed.

Lemma status_line_line code : 0 ≤ code → one_line (status_line code) = true ∧ nonempty (status_line code) = true.
Proof.
  intros Hc. split; [|done]. unfold status_line. rewrite !one_line_app, StatusText_line.
  replace (one_line (Itoa code)) with true; [done|]. symmetry.
  pose proof (Itoa_digits code Hc) as Hd. revert Hd. apply str_forall_impl. apply digit_byte_line.
Qed.

Lemma second_word_status code : 0 ≤ code → second_word (status_line code) = Some (Itoa code).
Proof.
  intros Hc. unfold second_word, status_line.
  change ("HTTP/1.1 " +:+ Itoa code +:+ " " +:+ StatusText code)%string
    with ("HTTP/1.1" +:+ (String " " (Itoa code +:+ String " " (StatusText code))))%string.
  rewrite drop_while_stop by done. f_equal. apply take_while_stop; [|done].
  pose proof (Itoa_digits code Hc) as Hd. revert Hd. apply str_forall_impl. intros c Hd%digit_byte_line. by destruct Hd as [_ ->].
Qed.

Definition record_lines (lines : list string) : Prop :=
  Forall (λ l, one_line l = true ∧ nonempty l = true) lines.

Lemma response_lines code h : 0 ≤ code → record_lines (status_line code :: (field_line <$> header_fields h)).
Proof.
  intros Hc. constructor; [by apply status_line_line|]. apply Forall_fmap, Forall_forall.
  intros [k v] (Hk & vs & v0 & _ & _ & ->)%header_fields_in. apply token_field_line; [done|apply header_value_line].
Qed.

Lemma str_split_at n s : s = (String.substring 0 n s +:+ String.substring n (String.length s - n) s)%string.
Proof.
  revert s. induction n as [|n IH]; intros s; [rewrite Nat.sub_0_r, str_substring_all; by destruct s|].
  destruct s as [|c s]; [done|]. cbn [String.substring String.length]. rewrite str_app_cons. f_equal. apply IH.
Qed.

Lemma HasSuffix_true s suf : HasSuffix s suf = true → ∃ p, s = (p +:+ suf)%string.
Proof.
  unfold HasSuffix. intros [Hle Heq]%andb_true_iff. apply Nat.leb_le in Hle. apply String.eqb_eq in Heq.
  exists (String.substring 0 (String.length s - String.length suf) s).
  rewrite (str_split_at (String.length s - String.length suf) s) at 1.
  replace (String.length s - (String.length s - String.length suf))%nat with (String.length suf) by lia. by rewrite Heq.
Qed.

Lemma HasSuffix_app s suf : HasSuffix (s +:+ suf)%string suf = true.
Proof.
  unfold HasSuffix. rewrite str_length_app, Nat.add_sub, str_substring_suffix, String.eqb_refl, andb_true_r.
  apply Nat.leb_le. lia.
Qed.

Lemma print_lines_cut lines s1 s2 :
  record_lines lines → print_lines lines = (s1 +:+ s2)%string → s2 ≠ EmptyString →
  HasSuffix s1 headerRecordTerminator = false.
Proof.
  intros Hl Heq Hne. apply not_true_iff_false. intros [p ->]%HasSuffix_true.
  rewrite <- str_app_assoc in Heq. by apply Hne, (print_lines_terminator lines p).
Qed.

Lemma print_lines_complete lines : lines ≠ [] → HasSuffix (print_lines lines) headerRecordTerminator = true.
Proof.
  intros Hne. assert (∃ p, print_lines lines = (p +:+ headerRecordTerminator)%string) as [p ->]; [|apply HasSuffix_app].
  induction lines as [|l lines IH]; [done|]. cbn [print_lines]. destruct lines as [|l2 lines]; [by exists l|].
  destruct IH as [p ->]; [done|]. exists (l +:+ crlf +:+ p)%string. by rewrite !str_app_assoc.
Qed.

Section Records.
Context `{R : RecordText, L : !RecordTextLaws R}.

(** Both serializations are a preamble line and the response. *)
Lemma serializeStoredHeader_lines code h at_ :
  0 ≤ code → ∃ lines, record_lines lines ∧ lines ≠ [] ∧ serializeStoredHeader code h at_ = print_lines lines.
Proof.
  intros Hc. eexists ((storedAtPreamble +:+ format_nano at_)%string :: _). split; [|split; [done|reflexivity]].
  constructor; [|by apply response_lines]. split; [|done]. by rewrite one_line_app, nano_line.
Qed.

Lemma serializeIntegrityHeader_lines code h meta raw :
  0 ≤ code → serializeIntegrityHeader code h meta = Some raw →
  ∃ lines, record_lines lines ∧ lines ≠ [] ∧ raw = print_lines lines.
Proof.
  intros Hc. unfold serializeIntegrityHeader. destruct (json_marshal _) as [encoded|]; [|done]. intros [= <-].
  eexists ((integrityPreamble +:+ base64_encode encoded)%string :: _). split; [|split; [done|reflexivity]].
  constructor; [|by apply response_lines]. split; [|done]. by rewrite one_line_app, base64_line.
Qed.

Lemma serializeCacheHeader_lines integrity code h at_ key size digest raw :
  0 ≤ code → serializeCacheHeader integrity code h at_ key size digest = Some raw →
  ∃ lines, record_lines lines ∧ lines ≠ [] ∧ raw = print_lines lines.
Proof.
  intros Hc. unfold serializeCacheHeader. destruct integrity; cbn [negb].
  - by apply serializeIntegrityHeader_lines.
  - intros [= <-]. by apply serializeStoredHeader_lines.
Qed.

Lemma read_status_back code h :
  0 ≤ code ≤ max_int64 → plain_header h →
  read_status (status_line code) (print_lines (field_line <$> header_fields h)) = Some (code, written_fields h).
Proof.
  intros Hc Hh. unfold read_status. by rewrite second_word_status, ParseInt_Itoa, ReadMIMEHeader_back by (done || lia).
Qed.

Lemma read_after_time_back at_ code h rest :
  0 ≤ code ≤ max_int64 → plain_header h → rest = print_lines (field_line <$> header_fields h) →
  read_after_time at_ (status_line code) rest = Some (code, written_fields h, at_).
Proof.
  intros Hc Hh ->. unfold read_after_time. replace (HasPrefix (status_line code) integrityPreamble) with false by done.
  by rewrite read_status_back.
Qed.

Lemma substring_after pre s : String.substring (String.length pre) (String.length (pre +:+ s)) (pre +:+ s) = s.
Proof.
  assert (∀ m, String.substring (String.length pre) m (pre +:+ s) = String.substring 0 m s) as ->.
  { intros m. induction pre as [|c pre IH]; [done|]. rewrite str_app_cons. cbn [String.length String.substring]. apply IH. }
  apply str_substring_ge. rewrite str_length_app. lia.
Qed.

Lemma stored_record_back code h at_ :
  0 ≤ code ≤ max_int64 → plain_header h → 0 ≤ at_ < max_http_time →
  readStoredHeaders (serializeStoredHeader code h at_) = Some (code, written_fields h, at_).
Proof.
  intros Hc Hh Ht. unfold readStoredHeaders, serializeStoredHeader, response_record. cbn [print_lines].
  rewrite ReadLine_line by (by rewrite one_line_app, nano_line). rewrite HasPrefix_app, substring_after, nano_roundtrip by done.
  rewrite ReadLine_line by (apply status_line_line; lia). by apply read_after_time_back.
Qed.

Lemma plain_with_digest d m : validDigest d = true → plain_record m → plain_record (with_header_digest d m).
Proof. intros Hd (? & ? & ? & _ & ?). unfold plain_record. simpl. tauto. Qed.

Lemma recordDigest_valid m r : validDigest (recordDigest m r) = true.
Proof. apply sha256_digest. Qed.

(** What is written with a record's metadata. *)
Lemma serializeIntegrityHeader_plain code h meta :
  plain_record meta → ∃ encoded,
    let record := response_record code h in
    let meta' := with_header_digest (recordDigest meta record) meta in
    serializeIntegrityHeader code h meta = Some ((integrityPreamble +:+ base64_encode encoded) +:+ crlf +:+ record)%string ∧
    json_unmarshal encoded = Some (with_fingerprint EmptyString meta').
Proof.
  intros Hm. cbv zeta. unfold serializeIntegrityHeader.
  destruct (json_roundtrip (with_header_digest (recordDigest meta (response_record code h)) meta)) as (encoded & E & E2).
  { apply plain_with_digest; [apply recordDigest_valid|done]. }
  exists encoded. by rewrite E.
Qed.

Lemma integrity_record_back code h meta raw :
  0 ≤ code ≤ max_int64 → plain_header h → plain_record meta → serializeIntegrityHeader code h meta = Some raw →
  readStoredHeaders raw = Some (code, written_fields h, ir_StoredAt meta).
Proof.
  intros Hc Hh Hm Hraw. destruct (serializeIntegrityHeader_plain code h meta Hm) as (encoded & E & E2).
  rewrite Hraw in E. injection E as ->. unfold readStoredHeaders, response_record. cbn [print_lines].
  rewrite ReadLine_line by (by rewrite one_line_app, base64_line).
  replace (HasPrefix _ storedAtPreamble) with false by done. unfold read_after_time. rewrite HasPrefix_app.
  unfold parseIntegrityPreamble. rewrite substring_after, base64_roundtrip, E2.
  rewrite ReadLine_line by (apply status_line_line; lia). by rewrite read_status_back.
Qed.

Lemma recordDigest_fields m m' r :
  ir_StoredAt m = ir_StoredAt m' → ir_Size m = ir_Size m' → ir_BodySHA256 m = ir_BodySHA256 m' →
  ir_KeySHA256 m = ir_KeySHA256 m' → recordDigest m r = recordDigest m' r.
Proof.
  intros E1 E2 E3 E4. unfold recordDigest.
  rewrite <- (json_exported (with_header_digest EmptyString m) EmptyString).
  rewrite <- (json_exported (with_header_digest EmptyString m') EmptyString).
  unfold with_header_digest, with_fingerprint. simpl. by rewrite E1, E2, E3, E4.
Qed.

Lemma integrity_record_decodes code h meta raw key required checkKey :
  plain_record meta → 0 < ir_StoredAt meta → (checkKey = true → ir_KeySHA256 meta = sha256_hex key) →
  serializeIntegrityHeader code h meta = Some raw →
  decodeIntegrityRecord raw key required checkKey =
    inr (Some (with_fingerprint (sha256_hex raw) (with_header_digest (recordDigest meta (response_record code h)) meta))).
Proof.
  intros Hm Ht Hk Hraw. destruct (serializeIntegrityHeader_plain code h meta Hm) as (encoded & E & E2).
  rewrite Hraw in E. injection E as E. unfold decodeIntegrityRecord.
  assert (HasPrefix raw integrityPreamble = true) as -> by (rewrite E, <- str_app_assoc; apply HasPrefix_app).
  assert (cut_crlf raw = Some ((integrityPreamble +:+ base64_encode encoded)%string, response_record code h)) as ->.
  { rewrite E. apply cut_crlf_line. by rewrite one_line_app, base64_line. }
  cbn [negb]. rewrite substring_after, base64_roundtrip, E2. cbn [with_fingerprint with_header_digest ir_StoredAt ir_Size
    ir_BodySHA256 ir_HeaderSHA256 ir_KeySHA256].
  destruct Hm as (Hst & Hsz & Hb & Hhd & Hkd). rewrite Hb, Hkd, recordDigest_valid. unfold IsZero.
  rewrite (proj2 (Z.eqb_neq _ 0)), (proj2 (Z.ltb_ge _ 0)) by lia. cbn [negb orb].
  rewrite (recordDigest_fields (with_fingerprint _ _) meta) by done. rewrite String.eqb_refl. cbn [negb]. rewrite orb_false_r.
  destruct checkKey; [rewrite Hk by done; rewrite String.eqb_refl|]; done.
Qed.
End Records.

(** ** Theorems *)

(** C30: a stored header is read back as it was written.  For every status,
    header with canonical names and plain values, and instant, both formats
    give back the status, the fields that have a line and the exact instant of
    the store; and in the integrity format the record passes the check of its
    own digests and of its key. *)
Theorem stored_header_roundtrip `{R : RecordText, L : !RecordTextLaws R} code h at_ key size digest raw integrity :
  0 ≤ code ≤ max_int64 → plain_header h → 0 < at_ < max_http_time → 0 ≤ size ≤ max_int64 → validDigest digest = true →
  serializeCacheHeader integrity code h at_ key size digest = Some raw →
  readStoredHeaders raw = Some (code, written_fields h, at_) ∧
  match decodeIntegrity raw key integrity with
  | inl _ => False
  | inr None => integrity = false
  | inr (Some meta) => integrity = true ∧ ir_Size meta = size ∧ ir_BodySHA256 meta = digest ∧ ir_StoredAt meta = at_
  end.
Proof.
  intros Hc Hh Ht Hs Hd. unfold serializeCacheHeader. destruct integrity; cbn [negb].
  - set (meta := {| ir_StoredAt := at_ |}). intros Hraw.
    assert (plain_record meta) as Hm by 
      by (split; [simpl; lia|split; [simpl; lia|split; [done|split; [by left|apply sha256_digest]]]]).
    split; [by apply (integrity_record_back code h meta)|].
    unfold decodeIntegrity. rewrite (integrity_record_decodes code h meta raw key true true); simpl; done || lia.
  - intros [= <-]. split; [apply stored_record_back; done || lia|]. done.
Qed.

(** The header file is a commit marker: it ends with the blank line of the
    record, and no part of it that a torn write leaves behind does, whatever
    the header holds. *)
Theorem truncated_header_is_no_record `{R : RecordText, L : !RecordTextLaws R} integrity code h at_ key size digest raw :
  0 ≤ code → serializeCacheHeader integrity code h at_ key size digest = Some raw →
  HasSuffix raw headerRecordTerminator = true ∧
  ∀ s1 s2, raw = (s1 +:+ s2)%string → s2 ≠ EmptyString → HasSuffix s1 headerRecordTerminator = false.
Proof.
  intros Hc Hraw. destruct (serializeCacheHeader_lines _ _ _ _ _ _ _ _ Hc Hraw) as (lines & Hl & Hne & ->).
  split; [by apply print_lines_complete|]. intros s1 s2. by apply print_lines_cut.
Qed.

(** ** Concrete encodings *)

Fixpoint checksum (s : string) (acc : Z) : Z :=
  match s with EmptyString => acc | String c s => checksum s ((acc * 257 + byte_val c + 1) mod 2 ^ 256) end.

Fixpoint hex_bytes (s : string) : string :=
  match s with EmptyString => EmptyString | String c s => (hex_fixed 2 (byte_val c) +:+ hex_bytes s)%string end.

Fixpoint unhex_bytes (s : string) : option string :=
  match s with
  | EmptyString => Some EmptyString
  | String a (String b s) =>
      match hex_value (String a (str1 b)) 0, unhex_bytes s with
      | Some v, Some s => Some (String (byte_of v) s)
      | _, _ => None
      end
  | _ => None
  end.

Definition next_word (s : string) : string * string :=
  let not_space c := negb (Ascii.eqb c " "%char) in
  (take_while not_space s, String.substring 1 (String.length s) (drop_while not_space s)).

(** 25 digits, enough for the nanoseconds of any year of four digits. *)
Definition time_digits (t : Time) : string := dec_digits 25 (Z.max t 0) EmptyString.

Definition word_record (m : integrityRecord) : string :=
  (time_digits (ir_StoredAt m) +:+ " " +:+ Itoa (ir_Size m) +:+ " " +:+ ir_BodySHA256 m +:+ " " +:+
   ir_HeaderSHA256 m +:+ " " +:+ ir_KeySHA256 m)%string.

Definition parse_word_record (s : string) : option integrityRecord :=
  let '(at_, s) := next_word s in
  let '(size, s) := next_word s in
  let '(body, s) := next_word s in
  let '(header, key) := next_word s in
  match digits_acc at_ 0, ParseInt size with
  | Some at_, Some size => Some {| ir_StoredAt := at_; ir_Size := size; ir_BodySHA256 := body; ir_HeaderSHA256 := header;
                                   ir_KeySHA256 := key; ir_fingerprint := EmptyString |}
  | _, _ => None
  end.

Definition hex_records : RecordText := {|
  sha256_hex s := hex_fixed 64 (checksum s 0);
  base64_encode := hex_bytes;
  base64_decode := unhex_bytes;
  json_marshal m := Some (word_record m);
  json_unmarshal := parse_word_record;
  format_nano := time_digits;
  parse_nano s := digits_acc s 0;
|}.

Lemma hex_digit_byte d : 0 ≤ d < 16 → is_hex_digit (hex_digit d) = true ∧ line_byte (hex_digit d) = true ∧ hex_digit d ≠ " "%char.
Proof.
  intros Hd. assert (d ∈ (Z.of_nat <$> seq 0 16)) as Hin.
  { apply list_elem_of_fmap. exists (Z.to_nat d). split; [lia|]. apply elem_of_seq. lia. }
  repeat (apply elem_of_cons in Hin as [->|Hin]; [done|]). by apply elem_of_nil in Hin.
Qed.

Lemma hex_fixed_forall (p : ascii → bool) n v :
  (∀ d, 0 ≤ d < 16 → p (hex_digit d) = true) → str_forall p (hex_fixed n v) = true.
Proof. intros Hp. induction n as [|n IH]; [done|]. cbn [hex_fixed str_forall]. rewrite IH, Hp; [done|]. by apply Z.mod_pos_bound. Qed.

Lemma hex_fixed_length n v : String.length (hex_fixed n v) = n.
Proof. induction n as [|n IH]; simpl; congruence. Qed.

Lemma hex_bytes_line s : one_line (hex_bytes s) = true.
Proof.
  induction s as [|c s IH]; [done|]. cbn [hex_bytes]. rewrite one_line_app, IH, andb_true_r. apply hex_fixed_forall.
  intros d Hd. by apply hex_digit_byte.
Qed.

Lemma unhex_hex_bytes s : unhex_bytes (hex_bytes s) = Some s.
Proof.
  induction s as [|c s IH]; [done|]. pose proof (byte_val_bound c) as Hb.
  pose proof (hex_value_fixed 2 (byte_val c) 0) as Hv. cbn [hex_bytes].
  cbn [hex_fixed] in *. rewrite !str_app_cons, str_app_nil_l. cbn [unhex_bytes]. rewrite IH. unfold str1. rewrite Hv by lia.
  f_equal. f_equal. rewrite <- (byte_of_val c) at 2. f_equal. rewrite Z.mod_small by (simpl; lia). lia.
Qed.

Definition no_space (s : string) : bool := str_forall (λ c, negb (Ascii.eqb c " "%char)) s.

Lemma next_word_word w s : no_space w = true → next_word (w +:+ " " +:+ s)%string = (w, s).
Proof.
  intros Hw. unfold next_word. rewrite take_while_stop, drop_while_stop by done. f_equal.
  assert (∃ n, String.length (w +:+ " " +:+ s) = S n ∧ (String.length s ≤ n)%nat) as (n & -> & Hn).
  { rewrite !str_length_app. exists (String.length w + String.length s)%nat. cbn [String.length]. lia. }
  cbn [String.substring String.append]. apply str_substring_ge. lia.
Qed.

Lemma digits_no_space s : str_forall is_digit s = true → no_space s = true.
Proof. apply str_forall_impl. intros c [_ ->]%digit_byte_line. done. Qed.

Lemma digest_no_space s : validDigest s = true → no_space s = true.
Proof.
  unfold validDigest. intros [Hs _]%andb_true_iff. revert Hs. apply str_forall_impl.
  intros c. by destruct c as [[][][][][][][][]].
Qed.

Lemma time_digits_digits t : str_forall is_digit (time_digits t) = true.
Proof. apply dec_digits_forall; [lia|done]. Qed.

Lemma digits_acc_time t : 0 ≤ t < max_http_time → digits_acc (time_digits t) 0 = Some t.
Proof.
  intros Ht. unfold time_digits. rewrite digits_acc_dec; [simpl; f_equal; lia|].
  unfold max_http_time, second in Ht. simpl. lia.
Qed.

Lemma hex_records_laws : RecordTextLaws hex_records.
Proof.
  split; cbn [hex_records sha256_hex base64_encode base64_decode json_marshal json_unmarshal format_nano parse_nano].
  - intros s. unfold validDigest. rewrite hex_fixed_length, (hex_fixed_forall is_hex_digit); [done|]. intros d Hd. apply (hex_digit_byte d Hd).
  - apply hex_bytes_line.
  - apply unhex_hex_bytes.
  - intros m (Hat & Hsz & Hb & Hh & Hk). eexists. split; [done|]. unfold word_record, parse_word_record.
    assert (no_space (ir_HeaderSHA256 m) = true) as Hhs by (destruct Hh as [->|Hh]; [done|by apply digest_no_space]).
    rewrite !next_word_word by (done || (apply digest_no_space; done) || (apply digits_no_space, Itoa_digits; lia) || apply digits_no_space, time_digits_digits).
    rewrite digits_acc_time, ParseInt_Itoa by lia. by destruct m.
  - done.
  - intros t. generalize (time_digits_digits t). apply str_forall_impl, digit_byte_line.
  - apply digits_acc_time.
Qed.

(** ** Witnesses *)

Definition sample_header : Header :=
  <["Cache-Control" := ["max-age=60"; "public"]%string]> (<["Etag" := ["v1"%string]]> (<["X-Empty" := []]> ∅)).

Lemma sample_header_plain : plain_header sample_header.
Proof.
  intros k vs Hk Hne. unfold sample_header in Hk.
  apply lookup_insert_Some in Hk as [[<- <-]|[_ Hk]]; [repeat constructor|].
  apply lookup_insert_Some in Hk as [[<- <-]|[_ Hk]]; [repeat constructor|].
  by apply lookup_insert_Some in Hk as [[<- <-]|[_ Hk]].
Qed.

Lemma stored_header_roundtrip_witness :
  let R := hex_records in
  readStoredHeaders (serializeStoredHeader 200 sample_header example_now) =
    Some (200, <["Cache-Control" := ["max-age=60"; "public"]%string]> {[ "Etag" := ["v1"%string] ]}, example_now).
Proof.
  intros R.
  destruct (@stored_header_roundtrip R hex_records_laws 200 sample_header example_now "GET:/a" 3
    (sha256_hex "abc") (serializeStoredHeader 200 sample_header example_now) false) as [Hread _].
  - by vm_compute.
  - exact sample_header_plain.
  - by vm_compute.
  - by vm_compute.
  - by vm_compute.
  - reflexivity.
  - rewrite Hread. vm_compute. reflexivity.
Defined.

Lemma truncated_header_is_no_record_witness :
  let R := hex_records in
  ∃ raw, serializeCacheHeader true 200 sample_header example_now "GET:/a" 3 (sha256_hex "abc") = Some raw ∧
    HasSuffix raw headerRecordTerminator = true ∧
    HasSuffix (String.substring 0 (String.length raw - 1) raw) headerRecordTerminator = false.
Proof.
  intros R. eexists. split; [reflexivity|].
  destruct (@truncated_header_is_no_record R hex_records_laws true 200 sample_header example_now "GET:/a" 3
    (sha256_hex "abc") _ ltac:(done) eq_refl) as [Hend Hcut].
  split; [exact Hend|]. eapply Hcut; [apply str_split_at|]. vm_compute. discriminate.
Defined.

(** A control byte in a field value is written as it is, and no such record
    can be read back: the entry is stored and every lookup of it fails. *)
Example control_byte_unreadable :
  let R := hex_records in
  let h : Header := {[ "X-Note" := [String "001" EmptyString] ]} in
  let raw := serializeStoredHeader 200 h example_now in
  HasSuffix raw headerRecordTerminator = true ∧ decodeIntegrity raw "GET:/a" false = inr None ∧ readStoredHeaders raw = None.
Proof. intros R h raw. split; [|split]; vm_compute; reflexivity. Qed.
