(* ===== verification/Staging.v ===== *)
(** * Staging budget ([staging_budget.go])

    Leases on temporary space, the writer that charges a lease for what it
    writes, and the temporary file of a response body that holds one.
    [StagingBudget] and [StagingLease] are interfaces of the application: the
    class [StagingBudget] holds their operations, over an abstract state, and
    [StagingBudgetLaws] what their comments require.  What the operating
    system answers to a write, a close or a removal is an argument. *)

From S2P Require Import Prelude GoStrings.

Inductive StageKind := StageHandlerBody | StageCacheBody | StageCacheHeader.

(** The two results of [NewLease]: an error may come with a lease. *)
Inductive lease_answer (L : Type) :=
  | LeaseRefused (l : option L)
  | LeaseGiven (l : option L).
Arguments LeaseRefused {L}.
Arguments LeaseGiven {L}.

Class StagingBudget := {
  budget : Type;
  lease : Type;
  NewLease : StageKind → budget → lease_answer lease * budget;
  Reserve : lease → Z → budget → bool * budget;
  Release : lease → Z → budget → budget;
  Close : lease → budget → budget;
  (* the bytes an admitted lease retains *)
  charged : budget → lease → Z;
}.

Class StagingBudgetLaws (B : StagingBudget) : Prop := {
  new_charged : ∀ k b l b', NewLease k b = (LeaseGiven (Some l), b') → charged b' l = 0;
  new_other : ∀ k b a b' l, NewLease k b = (a, b') → a ≠ LeaseGiven (Some l) → charged b' l = charged b l;
  reserve_charged : ∀ l n b b', Reserve l n b = (true, b') → charged b' l = charged b l + n;
  reserve_refused : ∀ l n b b', Reserve l n b = (false, b') → charged b' l = charged b l;
  reserve_other : ∀ l n b l', l' ≠ l → charged (Reserve l n b).2 l' = charged b l';
  release_charged : ∀ l n b, charged (Release l n b) l = charged b l - n;
  release_other : ∀ l n b l', l' ≠ l → charged (Release l n b) l' = charged b l';
  close_charged : ∀ l b, charged (Close l b) l = 0;
  close_other : ∀ l b l', l' ≠ l → charged (Close l b) l' = charged b l';
}.

Section Staging.
Context `{SB : StagingBudget}.

Inductive stage_error := StageCancelled | StageRefused | StageNilLease | StageFile.

Definition closeStageLease (l : option lease) (b : budget) : budget :=
  match l with Some l => Close l b | None => b end.

(** [newStageLease]; [configured] is [budget != nil], [cancelled] is
    [ctx.Err() != nil]. *)
Definition newStageLease (cancelled configured : bool) (kind : StageKind) (b : budget)
    : (stage_error + option lease) * budget :=
  if cancelled then (inl StageCancelled, b)
  else if negb configured then (inr None, b)
  else match NewLease kind b with
       | (LeaseRefused l, b) => (inl StageRefused, closeStageLease l b)
       | (LeaseGiven None, b) => (inl StageNilLease, b)
       | (LeaseGiven (Some l), b) => (inr (Some l), b)
       end.

(** [contextReader.Read]: what the reader below would give. *)
Definition contextReader_Read (cancelled : bool) (below : stage_error + string) : stage_error + string :=
  if cancelled then inl StageCancelled else below.

(** [stagingWriter.Write] of [size] bytes, of which the writer below takes
    [taken] (all of them, or fewer with an error): bytes written, error. *)
Definition stagingWriter_Write (cancelled : bool) (l : option lease) (size taken : Z) (b : budget)
    : (Z * option stage_error) * budget :=
  if cancelled then ((0, Some StageCancelled), b)
  else
    let release b := match l with Some l => if taken <? size then Release l (size - taken) b else b | None => b end in
    let result := (taken, if taken <? size then Some StageFile else None) in
    match l with
    | Some l' =>
        match Reserve l' size b with
        | (false, b) => ((0, Some StageRefused), b)
        | (true, b) => (result, release b)
        end
    | None => (result, b)
    end.

(** [type handlerStage struct]: [hs_path] is set where an open file cannot be
    unlinked; [hs_closed] is [once]. *)
Record handlerStage := { hs_lease : option lease; hs_path : bool; hs_closed : bool; hs_err : bool }.

(** [handlerStage.Close]; [close_ok] and [remove_ok] are the answers of
    [File.Close] and [os.Remove] (a missing file counts as removed). *)
Definition handlerStage_Close (close_ok remove_ok : bool) (s : handlerStage) (b : budget) : bool * (handlerStage * budget) :=
  if hs_closed s then (hs_err s, (s, b))
  else
    let err := negb close_ok || (hs_path s && negb remove_ok) in
    (err, ({| hs_lease := hs_lease s; hs_path := hs_path s; hs_closed := true; hs_err := err |},
           if hs_path s && negb remove_ok then b else closeStageLease (hs_lease s) b)).

(** [newHandlerStage]; [unlinks] is [runtime.GOOS != windows], [created],
    [unlinked], [close_ok] and [remove_ok] the answers of [os.CreateTemp],
    [os.Remove] and of the clean-up. *)
Definition newHandlerStage (cancelled configured unlinks created unlinked close_ok remove_ok : bool) (b : budget)
    : (stage_error + handlerStage) * budget :=
  match newStageLease cancelled configured StageHandlerBody b with
  | (inl e, b) => (inl e, b)
  | (inr l, b) =>
      if negb created then (inl StageFile, closeStageLease l b)
      else
        let stage := {| hs_lease := l; hs_path := true; hs_closed := false; hs_err := false |} in
        if unlinks then
          if unlinked then (inr {| hs_lease := l; hs_path := false; hs_closed := false; hs_err := false |}, b)
          else (inl StageFile, (handlerStage_Close close_ok remove_ok stage b).2.2)
        else (inr stage, b)
  end.

(** A run of writes on one stage: for each, whether the context has ended,
    the size and what the file takes.  It stops at the first error, as
    [io.Copy] and the response streamer do. *)
Fixpoint write_all (l : option lease) (writes : list (bool * Z * Z)) (b : budget) : (Z * option stage_error) * budget :=
  match writes with
  | [] => ((0, None), b)
  | (cancelled, size, taken) :: writes =>
      match stagingWriter_Write cancelled l size taken b with
      | ((n, None), b) => let '((m, err), b) := write_all l writes b in ((n + m, err), b)
      | ((n, Some e), b) => ((n, Some e), b)
      end
  end.

Definition plain_writes (writes : list (bool * Z * Z)) : Prop :=
  Forall (λ w : bool * Z * Z, 0 ≤ w.2 ≤ w.1.2) writes.
End Staging.

(** ** Charges *)

Section Charges.
Context `{SB : StagingBudget, L : !StagingBudgetLaws SB}.

Lemma stagingWriter_charge cancelled l size taken b n e b' :
  taken ≤ size → stagingWriter_Write cancelled (Some l) size taken b = ((n, e), b') → charged b' l = charged b l + n.
Proof.
  intros Ht. unfold stagingWriter_Write. destruct cancelled; [intros [= <- <- <-]; lia|].
  destruct (Reserve l size b) as [[] b1] eqn:E.
  - pose proof (reserve_charged _ _ _ _ E) as Hc. intros [= <- _ <-].
    destruct (Z.ltb_spec taken size); [rewrite release_charged|]; lia.
  - pose proof (reserve_refused _ _ _ _ E) as Hc. intros [= <- _ <-]. lia.
Qed.

Lemma stagingWriter_other cancelled l size taken b l' :
  l' ≠ l → charged (stagingWriter_Write cancelled (Some l) size taken b).2 l' = charged b l'.
Proof.
  intros Hne. unfold stagingWriter_Write. destruct cancelled; [done|].
  pose proof (reserve_other l size b l' Hne) as Hr. destruct (Reserve l size b) as [[] b1]; [|done].
  simpl in *. destruct (taken <? size); [by rewrite release_other|done].
Qed.

Lemma newStageLease_charge cancelled configured kind b l b' :
  newStageLease cancelled configured kind b = (inr (Some l), b') →
  charged b' l = 0 ∧ ∀ l', l' ≠ l → charged b' l' = charged b l'.
Proof.
  unfold newStageLease. destruct cancelled; [done|]. destruct configured; [|done]. cbn [negb].
  destruct (NewLease kind b) as [[a|[l0|]] b1] eqn:E; try done. intros [= -> ->].
  split; [by apply (new_charged _ _ _ _ E)|]. intros l' Hne. apply (new_other _ _ _ _ _ E). congruence.
Qed.

(** C37: what is on the temporary disk is what is charged.  After any run of
    writes the lease retains exactly the bytes the file took, refused and cut
    writes included, and no other lease has changed; closing the stage then
    gives every byte back, unless its file could not be removed, in which case
    the bytes stay charged; closing it again changes nothing. *)
Theorem staged_bytes_are_charged unlinks created unlinked close_ok remove_ok stage b0 b1 l writes n err b2 close_ok' remove_ok' :
  newHandlerStage false true unlinks created unlinked close_ok remove_ok b0 = (inr stage, b1) → hs_lease stage = Some l →
  plain_writes writes → write_all (hs_lease stage) writes b1 = ((n, err), b2) →
  charged b2 l = n ∧ (∀ l', l' ≠ l → charged b2 l' = charged b0 l') ∧
  let '(_, (stage', b3)) := handlerStage_Close close_ok' remove_ok' stage b2 in
  charged b3 l = (if hs_path stage && negb remove_ok' then n else 0) ∧
  ∀ c r, (handlerStage_Close c r stage' b3).2 = (stage', b3).
Proof.
  unfold newHandlerStage. destruct (newStageLease false true StageHandlerBody b0) as [[e|l0] b] eqn:E; [done|].
  destruct created; [|done]. cbn [negb]. intros Hstage Hl Hw Hrun.
  assert (b1 = b ∧ l0 = Some l ∧ hs_closed stage = false) as (-> & -> & Hopen).
  { destruct unlinks, unlinked; try done; injection Hstage as <- <-; cbn in Hl; subst; done. }
  destruct (newStageLease_charge _ _ _ _ _ _ E) as [H0 Hother].
  assert (charged b2 l = charged b l + n ∧ ∀ l', l' ≠ l → charged b2 l' = charged b l') as [Hc Hoth].
  { clear Hstage E H0 Hother. rewrite Hl in Hrun. revert b n err b2 Hrun.
    induction Hw as [|[[cancelled size] taken] writes Ht Hw IH]; intros b n err b2; cbn [write_all].
    - intros [= <- _ <-]. split; [lia|done].
    - cbn in Ht. destruct (stagingWriter_Write cancelled (Some l) size taken b) as [[n1 e1] b3] eqn:E.
      pose proof (stagingWriter_charge _ _ _ _ _ _ _ _ (proj2 Ht) E) as Hch.
      assert (∀ l', l' ≠ l → charged b3 l' = charged b l') as Ho.
      { intros l' Hne. pose proof (stagingWriter_other cancelled l size taken b l' Hne) as Ho. by rewrite E in Ho. }
      destruct e1 as [e1|]; [intros [= <- _ <-]; split; [lia|done]|].
      destruct (write_all (Some l) writes b3) as [[m e2] b4] eqn:E2. intros [= <- _ <-].
      destruct (IH _ _ _ _ E2) as [Hm Ho2]. split; [lia|]. intros l' Hne. rewrite Ho2, Ho by done. done. }
  split; [lia|]. split; [intros l' Hne; by rewrite Hoth, Hother|].
  unfold handlerStage_Close. rewrite Hopen, Hl. cbn [closeStageLease hs_closed hs_lease hs_err].
  split; [|done]. destruct (hs_path stage && negb remove_ok'); [lia|apply close_charged].
Qed.
End Charges.

(** ** A budget of one number *)

(** A limit and the bytes retained by each lease. *)
Definition counting_budget (limit : Z) : StagingBudget := {|
  budget := gmap nat Z;
  lease := nat;
  NewLease _ b := let l := fresh (dom b) in (LeaseGiven (Some l), <[l := 0]> b);
  Reserve l n b :=
    if map_zsum b + n <=? limit then (true, <[l := default 0 (b !! l) + n]> b) else (false, b);
  Release l n b := <[l := default 0 (b !! l) - n]> b;
  Close l b := <[l := 0]> b;
  charged b l := default 0 (b !! l);
|}.

Lemma counting_budget_laws limit : StagingBudgetLaws (counting_budget limit).
Proof.
  split; simpl.
  - intros _ b l b' [= <- <-]. by rewrite lookup_insert_eq.
  - intros _ b a b' l [= <- <-] Hne. rewrite lookup_insert_ne; [done|congruence].
  - intros l n b b'. case_goal; intros [= <-]. by rewrite lookup_insert_eq.
  - intros l n b b'. case_goal; by intros [= <-].
  - intros l n b l' Hne. case_goal; simpl; [by rewrite lookup_insert_ne|done].
  - intros l n b. by rewrite lookup_insert_eq.
  - intros l n b l' Hne. by rewrite lookup_insert_ne.
  - intros l b. by rewrite lookup_insert_eq.
  - intros l b l' Hne. by rewrite lookup_insert_ne.
Qed.

Lemma staged_bytes_are_charged_witness :
  let B := counting_budget 10 in
  let '(r, b1) := newHandlerStage false true true true true true true (∅ : budget) in
  ∃ stage l, r = inr stage ∧ hs_lease stage = Some l ∧
    let '((n, err), b2) := write_all (Some l) [(false, 4, 4); (false, 3, 2)] b1 in
    n = 6 ∧ err = Some StageFile ∧ charged b2 l = 6.
Proof.
  intros B.
  destruct (@staged_bytes_are_charged B (counting_budget_laws 10) true true true true true
    (@Build_handlerStage B (Some 0%nat) false false false) ∅ (<[0%nat := 0]> ∅ : gmap nat Z) 0%nat
    [(false, 4, 4); (false, 3, 2)] 6 (Some StageFile) (<[0%nat := 6]> ∅ : gmap nat Z) true true) as [Hc _].
  - reflexivity.
  - reflexivity.
  - repeat constructor; simpl; lia.
  - reflexivity.
  - eexists _, _. split; [reflexivity|]. split; [reflexivity|]. split; [reflexivity|]. split; [reflexivity|]. exact Hc.
Defined.
