(* ===== verification/Store.v ===== *)
(** * Storing a response ([cache.go])

    [StoreContext] and what it is made of: the staging of the files of an
    entry, their publication and their abandonment, and the rollback of a
    failed store.  Operations run in the state monad [ST] over the cache; what
    the surroundings answer (the clock, the context, directories, leases, the
    reader of the body) is an [Env], read in the order of the calls.  The
    locks are not part of the state: other operations on the same keys wait,
    as [generationMu], the writer locks and [publishMu] make them do. *)

From S2P Require Import Prelude GoStrings GoTime GoQuote GoHttp CacheControl Config Vfs CacheState Resource Ledger Admission Markers Generations StoredHeader.

(** ** The monad *)

Record Env := {
  clock : nat → Time;
  cancelled : nat → bool;
  dir_fails : nat → bool;
  lease_fails : nat → bool;
  seek_fails : nat → bool;
  (* the bytes after which the source, the context or the lease stops a copy *)
  copy_stops : nat → option nat;
  (* the bytes counted by a copy whose destination fails *)
  short_count : nat → nat;
  (* a refreshed resource cannot take over its header file: its body retains
     none or is closed, or closing the file it had fails *)
  retain_fails : nat → bool;
}.

Section Monad.
Context `{V : VFS}.

Record world := { w_cache : cache; w_tick : nat; w_leases : Z }.

Definition ST (A : Type) : Type := world → A * world.

#[export] Instance ST_ret : MRet ST := λ A a w, (a, w).
#[export] Instance ST_bind : MBind ST := λ A B f m w, let '(a, w) := m w in f a w.

Definition ask {A} (f : nat → A) : ST A :=
  λ w, (f (w_tick w), {| w_cache := w_cache w; w_tick := S (w_tick w); w_leases := w_leases w |}).
Definition on_cache {A} (f : cache → A * cache) : ST A :=
  λ w, let '(a, c) := f (w_cache w) in (a, {| w_cache := c; w_tick := w_tick w; w_leases := w_leases w |}).
Definition set_cache (f : cache → cache) : ST () := on_cache (λ c, ((), f c)).
Definition get_cache : ST cache := λ w, (w_cache w, w).
Definition on_fs {A} (f : fs_state → A * fs_state) : ST A :=
  on_cache (λ c, let '(a, g) := f (c_fs c) in (a, set_fs g c)).
Definition add_leases (n : Z) : ST () :=
  λ w, ((), {| w_cache := w_cache w; w_tick := w_tick w; w_leases := w_leases w + n |}).

Fixpoint for_each {A} (f : A → ST ()) (l : list A) : ST () :=
  match l with [] => mret () | x :: l => _ ← f x; for_each f l end.
End Monad.

Inductive store_error :=
  | ErrCancelled | ErrMkdir | ErrLease | ErrCreate | ErrOpen | ErrCopy | ErrSeek | ErrSerialize
  | ErrAdmission (e : admission_error)
  | ErrShortBody (written expected : Z)
  | ErrRename (target : string).

(** [type stagedEntry struct]; [lease] is [lease != nil]. *)
Record stagedEntry := { tmpPath : string; target : string; published : bool; se_lease : bool }.

(** [type preparedCacheEntry struct] *)
Record preparedCacheEntry := {
  p_key : string;
  p_hashedKey : string;
  p_storedAt : Time;
  p_body : option stagedEntry;
  p_header : option stagedEntry;
  p_size : Z;
}.

Definition with_files (body header : option stagedEntry) (p : preparedCacheEntry) : preparedCacheEntry :=
  {| p_key := p_key p; p_hashedKey := p_hashedKey p; p_storedAt := p_storedAt p; p_body := body;
     p_header := header; p_size := p_size p |}.
Definition with_size (n : Z) (p : preparedCacheEntry) : preparedCacheEntry :=
  {| p_key := p_key p; p_hashedKey := p_hashedKey p; p_storedAt := p_storedAt p; p_body := p_body p;
     p_header := p_header p; p_size := n |}.

(** What a copy takes from a source that may stop early. *)
Definition copy_data (stop : option nat) (data : string) : string :=
  match stop with Some n => String.substring 0 n data | None => data end.

(** [lockStoreKeys]: one key per hash, in the order of the caller. *)
Fixpoint unique_keys (keys : list string) (seen : list string) : list string :=
  match keys with
  | [] => []
  | k :: keys => if decide (hashKey k ∈ seen) then unique_keys keys seen else k :: unique_keys keys (hashKey k :: seen)
  end.
Definition lockStoreKeys (keys : list string) : list string := unique_keys keys [].

Section Store.
Context `{V : VFS, O : !OsFiles V, J : MarkerJSON, D : HttpDate, R : RecordText}.
(** [budgeted]: [config.StagingBudget != nil]. *)
Context (env : Env) (budgeted : bool).

(** [config.Integrity != IntegrityDisabled] *)
Definition integrity_on (c : cache) : bool :=
  match Integrity (config c) with IntegrityDisabled => false | IntegritySHA256 => true end.

(** ** Staging *)

Definition closeStageLease (l : bool) : ST () := add_leases (if l then -1 else 0).

(** One turn of [abandonStaged]. *)
Definition abandon_one (e : option stagedEntry) : ST (option stagedEntry) :=
  match e with
  | None => mret None
  | Some e =>
      if negb (nonempty (tmpPath e)) then mret (Some e)
      else
        kept ← on_fs (λ f, let '(ok, f) := os_remove (tmpPath e) f in
                           (negb ok && negb (bool_decide (fs_open f (tmpPath e) = OpenNotExist)), f));
        if kept : bool then mret (Some e)
        else
          _ ← closeStageLease (se_lease e);
          mret (Some {| tmpPath := EmptyString; target := target e; published := published e; se_lease := false |})
  end.

Definition vfsWrite (path data : string) : ST (Z * bool * option store_error) :=
  failed ← ask (dir_fails env);
  if failed : bool then mret (0, false, Some ErrMkdir)
  else
    stop ← ask (copy_stops env);
    short ← ask (short_count env);
    r ← on_fs (fs_write path (copy_data stop data));
    mret match r with
         | WriteRefused => (0, false, Some ErrOpen)
         | WriteBroken => (Z.of_nat short, true, Some ErrCopy)
         | Written => (str_len (copy_data stop data), true, match stop with Some _ => Some ErrCopy | None => None end)
         end.

(** The disk branch of [stageWriteContext], after the directory of the target. *)
Definition stage_on_disk (prefix hashedKey data : string) : ST (option stagedEntry * Z * option store_error) :=
  failed ← ask (dir_fails env);
  if failed : bool then mret (None, 0, Some ErrMkdir)
  else
    refused ← ask (lease_fails env);
    if refused : bool then mret (None, 0, Some ErrLease)
    else
      _ ← add_leases (if budgeted then 1 else 0);
      tmp ← on_fs (os_create_temp (stagingPrefix +:+ formatPrefix +:+ hashedKey +:+ ".tmp-")%string);
      match tmp with
      | None => _ ← closeStageLease budgeted; mret (None, 0, Some ErrCreate)
      | Some tmp =>
          let e := {| tmpPath := tmp; target := (prefix +:+ formatPrefix +:+ hashedKey)%string;
                      published := false; se_lease := budgeted |} in
          stop ← ask (copy_stops env);
          short ← ask (short_count env);
          copied ← on_fs (os_write tmp (copy_data stop data));
          closed ← on_fs (os_close tmp);
          let n := if copied : bool then str_len (copy_data stop data) else Z.of_nat short in
          if (copied : bool) && (closed : bool) && match stop with Some _ => false | None => true end
          then mret (Some e, n, None)
          else e ← abandon_one (Some e); mret (e, n, Some ErrCopy)
      end.

(** [stageWriteContext] of [prefix ++ formatPrefix ++ hashedKey]. *)
Definition stageWriteContext (prefix hashedKey data : string) : ST (option stagedEntry * Z * option store_error) :=
  ended ← ask (cancelled env);
  if ended : bool then mret (None, 0, Some ErrCancelled)
  else
    failed ← ask (dir_fails env);
    if failed : bool then mret (None, 0, Some ErrMkdir)
    else
      c ← get_cache;
      if negb (nonempty (diskRoot c)) then
        let path := (prefix +:+ formatPrefix +:+ hashedKey)%string in
        r ← vfsWrite path data;
        mret (Some {| tmpPath := EmptyString; target := path; published := r.1.2; se_lease := false |}, r.1.1, r.2)
      else stage_on_disk prefix hashedKey data.

Definition stageBodyContext (key data : string) : ST (option stagedEntry * Z * option store_error) :=
  stageWriteContext bodyPrefix (hashKey key) data.
Definition stageSerializedHeaderContext (key data : string) : ST (option stagedEntry * Z * option store_error) :=
  stageWriteContext headerPrefix (hashKey key) data.

(** [commitStagedLocked]: the staged files after it, and its error. *)
Fixpoint commitStagedLocked (entries : list (option stagedEntry)) : ST (list (option stagedEntry) * option store_error) :=
  match entries with
  | [] => mret ([], None)
  | None :: entries => r ← commitStagedLocked entries; mret (None :: r.1, r.2)
  | Some e :: entries =>
      if negb (nonempty (tmpPath e)) then r ← commitStagedLocked entries; mret (Some e :: r.1, r.2)
      else
        renamed ← on_fs (os_rename (tmpPath e) (target e));
        if renamed : bool then
          _ ← closeStageLease (se_lease e);
          r ← commitStagedLocked entries;
          mret (Some {| tmpPath := EmptyString; target := target e; published := true; se_lease := false |} :: r.1, r.2)
        else mret (Some e :: entries, Some (ErrRename (target e)))
  end.

Definition anyPublished (entries : list (option stagedEntry)) : bool :=
  existsb (λ e, match e with Some e => published e | None => false end) entries.

(** ** Admission and preparation *)

Definition reserve (hashedKey : string) (size : Z) : ST (option store_error) :=
  err ← on_cache (reserveEntry hashedKey size); mret (ErrAdmission <$> err).

Definition zero_digest : string := zeros 64.

(** [prepareResourceForKey]: the entry after it, and its error. *)
Definition prepareResourceForKey (res : Resource) (entry : preparedCacheEntry) (expected : option Z)
    : ST (preparedCacheEntry * option store_error) :=
  let key := p_key entry in let hashedKey := p_hashedKey entry in
  failed ← ask (seek_fails env);
  if failed : bool then mret (entry, Some ErrSeek)
  else
    c ← get_cache;
    let integrity := integrity_on c in
    match serializeCacheHeader integrity (r_statusCode res) (r_header res) (p_storedAt entry) key
            (default 0 expected) zero_digest with
    | None => mret (entry, Some ErrSerialize)
    | Some headerData =>
        early ← match expected with
                | Some n => reserve hashedKey (wrap64 (n + str_len headerData))
                | None => mret None
                end;
        match early with
        | Some e => mret (entry, Some e)
        | None =>
            let source := match expected with Some n => str_take n (r_body res) | None => r_body res end in
            '(staged, written, err) ← stageBodyContext key source;
            let entry := with_size (wrap64 (written + str_len headerData)) (with_files staged (p_header entry) entry) in
            match err with
            | Some e => mret (entry, Some e)
            | None =>
                if match expected with Some n => negb (written =? n) | None => false end
                then mret (entry, Some (ErrShortBody written (default 0 expected)))
                else
                  match serializeCacheHeader integrity (r_statusCode res) (r_header res) (p_storedAt entry) key
                          written (sha256_hex source) with
                  | None => mret (entry, Some ErrSerialize)
                  | Some headerData =>
                      late ← reserve hashedKey (wrap64 (written + str_len headerData));
                      match late with
                      | Some e => mret (entry, Some e)
                      | None =>
                          '(staged, headerBytes, err) ← stageSerializedHeaderContext key headerData;
                          let entry := with_size (wrap64 (written + headerBytes)) (with_files (p_body entry) staged entry) in
                          match err with
                          | Some e => mret (entry, Some e)
                          | None => ended ← ask (cancelled env);
                                    mret (entry, if ended : bool then Some ErrCancelled else None)
                          end
                      end
                  end
            end
        end
    end.

(** The loop of [prepareStoreEntries]: entries after it, error. *)
Fixpoint prepare_entries (res : Resource) (expected : option Z) (entries : list preparedCacheEntry)
    : ST (list preparedCacheEntry * option store_error) :=
  match entries with
  | [] => mret ([], None)
  | entry :: entries =>
      '(entry, err) ← prepareResourceForKey res entry expected;
      match err with
      | Some e => mret (entry :: entries, Some e)
      | None => r ← prepare_entries res expected entries; mret (entry :: r.1, r.2)
      end
  end.

Definition prepareStoreEntries (res : Resource) (entries : list preparedCacheEntry)
    : ST (list preparedCacheEntry * option store_error) :=
  '(entries, err) ← prepare_entries res (expectedBodySize (r_header res)) entries;
  match err with
  | Some e => mret (entries, Some e)
  | None => ended ← ask (cancelled env); mret (entries, if ended : bool then Some ErrCancelled else None)
  end.

(** ** The transaction *)

(** The stale marker of an entry whose files could not be removed. *)
Definition mark_residual (key : string) : ST () :=
  now ← ask (clock env);
  set_cache (residual_marker key now).

Fixpoint discard_all (entries : list preparedCacheEntry) : ST (list string) :=
  match entries with
  | [] => mret []
  | entry :: entries =>
      now ← ask (clock env);
      failed ← on_cache (discardUnadmitted (p_key entry) (p_hashedKey entry) (p_size entry) (p_storedAt entry) now);
      _ ← (if failed : bool then mark_residual (p_key entry) else mret ());
      rest ← discard_all entries;
      mret (if failed : bool then p_key entry :: rest else rest)
  end.

(** The loop of [discardPreparedStore]: whether something was published, the
    entries after their abandonment. *)
Fixpoint abandon_all (entries : list preparedCacheEntry) : ST (bool * list preparedCacheEntry) :=
  match entries with
  | [] => mret (false, [])
  | entry :: entries =>
      let here := anyPublished [p_body entry; p_header entry] in
      body ← abandon_one (p_body entry);
      header ← abandon_one (p_header entry);
      r ← abandon_all entries;
      mret (here || r.1, with_files body header entry :: r.2)
  end.

(** [discardPreparedStore]: the error, with the keys whose removal failed. *)
Definition discardPreparedStore (err : store_error) (entries : list preparedCacheEntry)
    : ST (option (store_error * list string)) :=
  '(published, entries) ← abandon_all entries;
  if published : bool then kept ← discard_all entries; mret (Some (err, kept))
  else mret (Some (err, [])).

Definition staged_files (entries : list preparedCacheEntry) : list (option stagedEntry) :=
  e ← entries; [p_body e; p_header e].

Fixpoint restage (entries : list preparedCacheEntry) (files : list (option stagedEntry)) : list preparedCacheEntry :=
  match entries, files with
  | e :: entries, body :: header :: files => with_files body header e :: restage entries files
  | entries, _ => entries
  end.

Definition begin_entry (key : string) : ST preparedCacheEntry :=
  now ← ask (clock env);
  _ ← set_cache (beginReservation (hashKey key));
  mret {| p_key := key; p_hashedKey := hashKey key; p_storedAt := now; p_body := None; p_header := None; p_size := 0 |}.

Definition track_one (entry : preparedCacheEntry) : ST () :=
  now ← ask (clock env);
  set_cache (trackEntry (p_key entry) (p_hashedKey entry) (p_size entry) (p_storedAt entry) now).

(** The part of [StoreContext] that holds the reservations. *)
Definition store_transaction (res : Resource) (prepared : list preparedCacheEntry) : ST (option (store_error * list string)) :=
  '(prepared, err) ← prepareStoreEntries res prepared;
  match err with
  | Some e => discardPreparedStore e prepared
  | None =>
      ended ← ask (cancelled env);
      if ended : bool then discardPreparedStore ErrCancelled prepared
      else
        '(files, err) ← commitStagedLocked (staged_files prepared);
        let prepared := restage prepared files in
        match err with
        | Some e => discardPreparedStore e prepared
        | None => _ ← for_each track_one prepared; mret None
        end
  end.

(** [StoreContext]: [None] is success. *)
Definition StoreContext (res : Resource) (keys : list string) : ST (option (store_error * list string)) :=
  ended ← ask (cancelled env);
  if ended : bool then mret (Some (ErrCancelled, []))
  else match keys with
       | [] => mret None
       | _ =>
           let keys := lockStoreKeys keys in
           ended ← ask (cancelled env);
           if ended : bool then mret (Some (ErrCancelled, []))
           else
             c ← get_cache;
             if responseSuperseded res keys c then mret None
             else
               prepared ← mapM begin_entry keys;
               err ← store_transaction res prepared;
               _ ← for_each (λ e, set_cache (releaseReservation (p_hashedKey e))) prepared;
               mret err
       end.

Definition Store (res : Resource) (keys : list string) : ST (option (store_error * list string)) := StoreContext res keys.
End Store.
