(* ===== verification/Staged.v ===== *)
(** * What staging changes ([cache.go])

    Frames for the steps of a store: what a step that stages, reserves or
    copies leaves alone ([keeps]), where the contents of a staged file are
    ([staged_data]), and the entries that are ready to be published. *)

From S2P Require Import Prelude GoStrings GoTime GoQuote GoHttp CacheControl Config Vfs CacheState Resource Ledger Admission Markers Generations StoredHeader Store.

(** ** Reasoning about the monad *)

Section Frames.
Context `{V : VFS, O : !OsFiles V, J : MarkerJSON, D : HttpDate, R : RecordText}.
Context `{VL : !VFSLaws V, OL : !OsFilesLaws V O}.
Implicit Types (w : world) (c : cache) (hs own : list string).

Lemma ST_bind_inv {A B} (m : ST A) (f : A → ST B) w b w' :
  (m ≫= f) w = (b, w') → ∃ a w1, m w = (a, w1) ∧ f a w1 = (b, w').
Proof. unfold mbind, ST_bind. destruct (m w) as [a w1]. eauto. Qed.

Definition file (w : world) (p : string) : open_result := fs_open (c_fs (w_cache w)) p.

Definition staging_path (p : string) : Prop := ∃ x, p = (stagingPrefix +:+ x)%string.
Definition entry_path hs (p : string) : Prop := ∃ h, h ∈ hs ∧ (p = bodyPath h ∨ p = headerPath h).

(** The files a store relies on: those of its keys, and what is staged. *)
Definition relevant hs w (p : string) : Prop := entry_path hs p ∨ (staging_path p ∧ file w p ≠ OpenNotExist).

Definition any_entry (p : string) : Prop := ∃ h, p = bodyPath h ∨ p = headerPath h.

(** The files of entries, and what is staged. *)
Definition touchable w (p : string) : Prop := any_entry p ∨ (staging_path p ∧ file w p ≠ OpenNotExist).

Record store_inv hs w : Prop := {
  si_ledger : ledger_inv (w_cache w);
  si_active : ∀ h, h ∈ hs → is_Some (reservations (w_cache w) !! h);
}.

(** A step that changes no relevant file out of [own]; an entry of another key
    it can only evict. *)
Record kept hs own w w' : Prop := {
  k_inv : store_inv hs w';
  k_files : ∀ p, relevant hs w p → p ∉ own → file w' p = file w p;
  k_foreign : ∀ p, any_entry p → p ∉ own → file w' p = file w p ∨ file w' p = OpenNotExist;
  k_config : config (w_cache w') = config (w_cache w);
  k_root : diskRoot (w_cache w') = diskRoot (w_cache w);
  k_stale : stale (w_cache w') = stale (w_cache w);
  k_tick : (w_tick w ≤ w_tick w')%nat;
}.
Definition keeps hs own w w' : Prop := store_inv hs w → kept hs own w w'.

Lemma relevant_touchable hs w p : relevant hs w p → touchable w p.
Proof. intros [(h & _ & Hp)|Hp]; [left; by exists h|by right]. Qed.

Lemma keeps_refl hs own w : keeps hs own w w.
Proof. split; try done. by left. Qed.

Lemma keeps_weaken hs own own' w w' : own ⊆ own' → keeps hs own w w' → keeps hs own' w w'.
Proof. intros Hsub Hk Hi. destruct (Hk Hi). split; try done; intros p Hp Hno; [apply k_files0|apply k_foreign0]; try done; intros Hin; by apply Hno, Hsub. Qed.

Lemma keeps_trans hs own1 own2 w1 w2 w3 : keeps hs own1 w1 w2 → keeps hs own2 w2 w3 → keeps hs (own1 ++ own2) w1 w3.
Proof.
  intros Hk1 Hk2 Hi. destruct (Hk1 Hi) as [I1 F1 X1 C1 D1 S1 T1], (Hk2 I1) as [I2 F2 X2 C2 D2 S2 T2].
  split; [done| | |congruence..|lia]; intros p Hp Hno; rewrite elem_of_app in Hno.
  - assert (file w2 p = file w1 p) as Heq by (apply F1; tauto). rewrite F2; [done| |tauto]. unfold relevant in *. by rewrite Heq.
  - destruct (X2 p Hp ltac:(tauto)) as [->|?]; [apply X1; tauto|by right].
Qed.

Lemma keeps_trans_nil hs own w1 w2 w3 : keeps hs [] w1 w2 → keeps hs own w2 w3 → keeps hs own w1 w3.
Proof. apply (keeps_trans hs [] own). Qed.

Lemma keeps_ask {A} hs (f : nat → A) w a w' : ask f w = (a, w') → keeps hs [] w w'.
Proof. intros [= _ <-] [Hl Ha]. split; try done; [by left|simpl; lia]. Qed.

Lemma keeps_leases hs n w a w' : add_leases n w = (a, w') → keeps hs [] w w'.
Proof. intros [= _ <-] [Hl Ha]. split; try done. by left. Qed.

(** A step on the files alone. *)
Lemma keeps_fs {A} hs own (f : fs_state → A * fs_state) w a w' :
  on_fs f w = (a, w') →
  (∀ p, touchable w p → p ∉ own → fs_open (f (c_fs (w_cache w))).2 p = file w p) →
  keeps hs own w w' ∧ a = (f (c_fs (w_cache w))).1 ∧ (∀ p, file w' p = fs_open (f (c_fs (w_cache w))).2 p).
Proof.
  unfold on_fs, on_cache. destruct (f (c_fs (w_cache w))) as [r g]. cbn. intros [= <- <-] Hf. split; [|done].
  intros [Hl Ha]. split; try done.
  - split; [|done]. by apply (ledger_inv_ext (w_cache w)).
  - intros p Hp Hno. apply Hf; [by apply relevant_touchable in Hp|done].
  - intros p Hp Hno. left. apply Hf; [by left|done].
Qed.

Lemma body_not_staging h p : staging_path p → p ≠ bodyPath h.
Proof. intros [x ->]. done. Qed.
Lemma header_not_staging h p : staging_path p → p ≠ headerPath h.
Proof. intros [x ->]. done. Qed.
Lemma entry_not_staging hs p : entry_path hs p → ¬ staging_path p.
Proof. intros (h & _ & [->| ->]) Hs; [by apply (body_not_staging h) in Hs|by apply (header_not_staging h) in Hs]. Qed.

Lemma any_not_staging p : any_entry p → ¬ staging_path p.
Proof. intros (h & [->| ->]) Hs; [by apply (body_not_staging h) in Hs|by apply (header_not_staging h) in Hs]. Qed.

(** Removals only remove. *)
Lemma remove_shrinks p f q : fs_open (fs_remove p f).2 q = fs_open f q ∨ fs_open (fs_remove p f).2 q = OpenNotExist.
Proof.
  destruct (fs_remove p f) as [r f'] eqn:E. cbn. destruct (decide (q = p)) as [->|Hne]; [|left; by apply (remove_other _ _ _ _ _ E)].
  destruct (decide (r = RemoveFailed)) as [->|Hr]; [left; by apply (remove_failed _ _ _ E)|right; by apply (remove_gone _ _ _ _ E)].
Qed.

Lemma remove_files_shrinks h c p :
  fs_open (c_fs (remove_files h c).2) p = fs_open (c_fs c) p ∨ fs_open (c_fs (remove_files h c).2) p = OpenNotExist.
Proof.
  unfold remove_files. pose proof (remove_shrinks (bodyPath h) (c_fs c) p) as H1.
  destruct (fs_remove (bodyPath h) _) as [r1 f1]. pose proof (remove_shrinks (headerPath h) f1 p) as H2.
  destruct (fs_remove _ f1) as [r2 f2]. cbn in *. destruct H2 as [->|?]; auto.
Qed.

(** Removals of evicted entries leave the keys of the store alone. *)
Lemma remove_files_other h c p : p ≠ bodyPath h → p ≠ headerPath h →
  fs_open (c_fs (remove_files h c).2) p = fs_open (c_fs c) p.
Proof.
  intros Hb Hh. unfold remove_files. destruct (fs_remove (bodyPath h) _) as [r1 f1] eqn:E1, (fs_remove _ f1) as [r2 f2] eqn:E2.
  simpl. by rewrite (remove_other _ _ _ _ _ E2 Hh), (remove_other _ _ _ _ _ E1 Hb).
Qed.

Lemma removeEntry_fs e c : c_fs (removeEntry e c).2 = c_fs (remove_files (e_hashedKey e) c).2.
Proof. unfold removeEntry. by destruct (remove_files _ _) as [[] c1]. Qed.

Lemma removals_files P c c' p :
  removals P c c' → ledger_inv c → (∀ h, P h → p ≠ bodyPath h ∧ p ≠ headerPath h) →
  fs_open (c_fs c') p = fs_open (c_fs c) p.
Proof.
  intros Hr. induction Hr as [c|c c1 c' h e He HP E _ IH|c c1 c' h e He HP E _ IH|c c' reason _ IH]; intros Hc Hp; [done|..].
  3: { apply (IH (record_inv reason c Hc) Hp). }
  1,2: rewrite (IH (removeEntry_inv _ _ _ _ _ Hc He E) Hp);
    pose proof (removeEntry_fs e c) as Hfs; rewrite E in Hfs; simpl in Hfs; rewrite Hfs;
    destruct (Hp h HP) as [Hb Hh]; rewrite (li_key _ Hc h e He); by apply remove_files_other.
Qed.

Lemma removals_shrink P c c' p :
  removals P c c' → fs_open (c_fs c') p = fs_open (c_fs c) p ∨ fs_open (c_fs c') p = OpenNotExist.
Proof.
  intros Hr. induction Hr as [c|c c1 c' h e He HP E _ IH|c c1 c' h e He HP E _ IH|c c' reason _ IH]; [by left|..|exact IH].
  1,2: pose proof (removeEntry_fs e c) as Hfs; rewrite E in Hfs; simpl in Hfs; rewrite Hfs in IH;
    pose proof (remove_files_shrinks (e_hashedKey e) c p); destruct IH as [->|?]; auto.
Qed.

Lemma removals_same P c c' :
  removals P c c' → config c' = config c ∧ diskRoot c' = diskRoot c ∧ stale c' = stale c.
Proof.
  intros Hr. induction Hr as [c|c c1 c' h e He HP E _ IH|c c1 c' h e He HP E _ IH|c c' reason _ IH]; [done|..|exact IH].
  - apply removeEntry_failed in E as [f ->]. exact IH.
  - apply removeEntry_done in E as [f ->]. exact IH.
Qed.

Lemma reserveEntry_result h size c :
  let c1 := (evictForAdmissionLocked h size c).2 in let c2 := (reserveEntry h size c).2 in
  c_fs c2 = c_fs c1 ∧ config c2 = config c1 ∧ diskRoot c2 = diskRoot c1 ∧ stale c2 = stale c1 ∧
  ∀ h', is_Some (reservations c1 !! h') → is_Some (reservations c2 !! h').
Proof.
  cbv zeta. unfold reserveEntry. destruct (evictForAdmissionLocked h size c) as [[e|] c1]; [done|].
  cbn. split_and!; try done. intros h' Hh'. rewrite lookup_insert_is_Some. destruct (decide (h = h')); auto.
Qed.

Lemma keeps_reserve hs h size w r w' : reserve h size w = (r, w') → keeps hs [] w w'.
Proof.
  intros (err & w1 & E & [= _ <-])%ST_bind_inv Hi. unfold on_cache in E.
  destruct (reserveEntry_result h size (w_cache w)) as (Hfs & Hcfg & Hroot & Hst & Hres).
  pose proof (reserveEntry_inv h size (w_cache w) (si_ledger _ _ Hi)) as Hinv.
  pose proof (evictForAdmission_frame h size (w_cache w) (si_ledger _ _ Hi)) as Hrem.
  destruct (reserveEntry h size (w_cache w)) as [err' c2]. injection E as <- <-. cbn [snd] in *.
  pose proof (removals_same _ _ _ Hrem) as (E1 & E2 & E3).
  destruct (removals_spec _ _ _ Hrem (si_ledger _ _ Hi)) as (_ & _ & Er & _).
  split; cbn [w_cache w_tick]; [| | |congruence|congruence|congruence|done].
  3: { intros p _ _. unfold file. cbn [w_cache]. rewrite Hfs. by apply (removals_shrink _ _ _ _ Hrem). }
  - split; [done|]. intros h' Hh'. apply Hres. rewrite Er. by apply Hi.
  - intros p Hp _. unfold file. cbn [w_cache]. rewrite Hfs. apply (removals_files _ _ _ _ Hrem); [apply Hi|].
    intros x Hx. assert (x ∉ hs) as Hxs.
    { intros Hin. destruct (si_active _ _ Hi x Hin) as [v Hv]. by apply (not_evictable_active h (w_cache w) x v) in Hv. }
    destruct Hp as [(h' & Hh' & [->| ->])|[Hstg _]].
    + split; [|done]. by intros ->%bodyPath_inj.
    + split; [done|]. by intros ->%headerPath_inj.
    + split; [by apply body_not_staging|by apply header_not_staging].
Qed.

(** ** Staging *)

Definition loc (e : stagedEntry) : string := if nonempty (tmpPath e) then tmpPath e else target e.
Definition owned (e : option stagedEntry) : list string :=
  match e with Some e => if published e then [target e] else [] | None => [] end.
Definition tmp_of (e : option stagedEntry) : list string :=
  match e with Some e => if nonempty (tmpPath e) then [tmpPath e] else [] | None => [] end.
(** A staged file of [path], its temporary name in the staging directory. *)
Definition staged_for (path : string) (e : option stagedEntry) : Prop :=
  match e with Some e => target e = path ∧ (nonempty (tmpPath e) = true → staging_path (tmpPath e)) | None => True end.

Lemma keeps_drop hs own p w w' : keeps hs (p :: own) w w' → ¬ touchable w p → keeps hs own w w'.
Proof.
  intros Hk Hp Hi. destruct (Hk Hi). split; try done; intros q Hq Hno; [apply k_files0|apply k_foreign0]; try done;
    intros [->|?]%elem_of_cons; try done; apply Hp; [by apply relevant_touchable in Hq|by left].
Qed.

Lemma abandon_one_kept hs path e w e' w' :
  abandon_one e w = (e', w') → staged_for path e →
  keeps hs (tmp_of e) w w' ∧ owned e' = owned e ∧ staged_for path e' ∧ anyPublished [e'] = anyPublished [e].
Proof.
  destruct e as [e|]; [|intros [= <- <-] _; split; [apply keeps_refl|done]]. cbn [abandon_one tmp_of].
  destruct (nonempty (tmpPath e)) eqn:Etmp; cbn [negb].
  2: { intros [= <- <-] Hs. split; [apply keeps_refl|]. done. }
  intros (kept_ & w1 & E1 & E)%ST_bind_inv [Ht Hst].
  apply (keeps_fs hs [tmpPath e]) in E1 as (Hk & _ & _).
  2: { intros p _ Hp. rewrite not_elem_of_cons in Hp. destruct Hp as [Hp _].
       pose proof (os_remove_other (tmpPath e) (c_fs (w_cache w)) p Hp) as Hr.
       destruct (os_remove (tmpPath e) (c_fs (w_cache w))) as [ok g]. exact Hr. }
  destruct kept_; [injection E as <- <-; split; [exact Hk|split; [done|split; [by split|done]]]|].
  apply ST_bind_inv in E as ([] & w2 & E2 & [= <- <-]). apply (keeps_leases hs) in E2.
  split; [exact (keeps_trans _ _ [] _ _ _ Hk E2)|]. split; [done|]. split; [by split|]. done.
Qed.

Lemma vfsWrite_kept env hs path data w n pub err w' :
  vfsWrite env path data w = ((n, pub, err), w') → 
  keeps hs (if pub then [path] else []) w w' ∧ (err = None → pub = true ∧ n = str_len data ∧ file w' path = Opened data).
Proof.
  unfold vfsWrite. intros (failed & w1 & E1 & E)%ST_bind_inv. apply (keeps_ask hs) in E1.
  destruct failed; [by injection E as <- <- <- <-|].
  apply ST_bind_inv in E as (stop & w2 & E2 & E). apply (keeps_ask hs) in E2.
  apply ST_bind_inv in E as (short & w3 & E3 & E). apply (keeps_ask hs) in E3.
  apply ST_bind_inv in E as (r & w4 & E4 & E). injection E as E <-.
  pose proof (keeps_trans_nil _ _ _ _ _ E1 (keeps_trans_nil _ _ _ _ _ E2 E3)) as Hk.
  set (d := copy_data stop data) in *.
  assert (keeps hs (match r with WriteRefused => [] | _ => [path] end) w3 w4 ∧ (r = Written → file w4 path = Opened d)) as [Hk4 Hd].
  { destruct (fs_write path d (c_fs (w_cache w3))) as [r' f'] eqn:Ew.
    apply (keeps_fs hs (match r with WriteRefused => [] | _ => [path] end)) in E4 as (Hk4 & -> & Hf); rewrite Ew in *; cbn [fst snd] in *.
    - split; [done|]. intros ->. rewrite Hf. apply (write_done _ _ _ _ Ew).
    - unfold on_fs, on_cache in E4. rewrite Ew in E4. injection E4 as <- _.
      intros p _ Hp. unfold file. destruct (decide (p = path)) as [->|Hne]; [|by rewrite (write_other _ _ _ _ _ _ Ew Hne)].
      destruct r'; [destruct Hp; by left..| |destruct Hp; by left]. by rewrite (write_refused _ _ _ _ Ew). }
  pose proof (keeps_trans_nil _ _ _ _ _ Hk Hk4) as Hall.
  destruct r; injection E as <- <- <-; (split; [exact Hall|]); try done. destruct stop; [done|]. intros _. by rewrite Hd.
Qed.

Lemma stage_on_disk_kept env budgeted hs prefix h data w o n err w' :
  stage_on_disk env budgeted prefix h data w = ((o, n, err), w') →
  keeps hs [] w w' ∧ staged_for (prefix +:+ formatPrefix +:+ h)%string o ∧ anyPublished [o] = false ∧
  (err = None → ∃ e, o = Some e ∧ n = str_len data ∧ nonempty (tmpPath e) = true ∧
     file w (tmpPath e) = OpenNotExist ∧ file w' (tmpPath e) = Opened data).
Proof.
  unfold stage_on_disk. intros (failed & w1 & E1 & E)%ST_bind_inv. pose proof (keeps_ask hs _ _ _ _ E1) as K1.
  destruct failed; [by injection E as <- <- <- <-|].
  apply ST_bind_inv in E as (refused & w2 & E2 & E). pose proof (keeps_ask hs _ _ _ _ E2) as K2.
  pose proof (keeps_trans_nil _ _ _ _ _ K1 K2) as K12.
  destruct refused; [by injection E as <- <- <- <-|].
  apply ST_bind_inv in E as ([] & w3 & E3 & E). pose proof (keeps_leases hs _ _ _ _ E3) as K3.
  pose proof (keeps_trans_nil _ _ _ _ _ K12 K3) as K13. clear K1 K2 K3 K12.
  assert (∀ p, file w3 p = file w p) as Hw3.
  { injection E1 as _ <-. injection E2 as _ <-. by injection E3 as <-. }
  apply ST_bind_inv in E as (tmp & w4 & E4 & E).
  destruct (os_create_temp (stagingPrefix +:+ formatPrefix +:+ h +:+ ".tmp-")%string (c_fs (w_cache w3))) as [t g] eqn:Et.
  assert (Hother := λ q, create_temp_other _ _ _ _ q Et).
  apply (keeps_fs hs []) in E4 as (K4 & -> & Hf4).
  2: { intros p Hp _. rewrite Et. apply Hother. intros ->. pose proof (create_temp_fresh _ _ _ _ Et) as Hnew.
       destruct Hp as [Hp|[_ Hp]]; [|by destruct Hp].
       destruct (create_temp_name _ _ _ _ Et) as [x ->]. by apply (any_not_staging _ Hp); eexists; rewrite <- !str_app_assoc. }
  rewrite Et in E, Hf4. cbn [fst snd] in *. pose proof (keeps_trans_nil _ _ _ _ _ K13 K4) as K14. clear K13 K4.
  destruct t as [tmp|].
  2: { apply ST_bind_inv in E as ([] & w5 & E5 & E). injection E as <- <- <- <-.
       split; [|done]. eapply keeps_trans_nil, (keeps_leases hs); [exact K14|exact E5]. }
  pose proof (create_temp_fresh _ _ _ _ Et) as Hnew. destruct (create_temp_name _ _ _ _ Et) as [x Hname].
  assert (staging_path tmp) as Hst by (rewrite Hname; eexists; by rewrite <- !str_app_assoc).
  assert (¬ touchable w tmp) as Hirr.
  { intros [Hp|[_ Hp]]; [by apply (any_not_staging _ Hp)|]. apply Hp. rewrite <- Hw3. exact Hnew. }
  apply ST_bind_inv in E as (stop & w5 & E5 & E). pose proof (keeps_ask hs _ _ _ _ E5) as K5.
  apply ST_bind_inv in E as (short & w6 & E6 & E). pose proof (keeps_ask hs _ _ _ _ E6) as K6.
  apply ST_bind_inv in E as (copied & w7 & E7 & E). set (d := copy_data stop data) in *.
  apply (keeps_fs hs [tmp]) in E7 as (K7 & Hcopied & Hf7).
  2: { intros p _ Hp. rewrite not_elem_of_cons in Hp. destruct Hp as [Hp _].
       destruct (os_write tmp d (c_fs (w_cache w6))) as [b f7] eqn:E7'. apply (os_write_other _ _ _ _ _ _ E7' Hp). }
  apply ST_bind_inv in E as (closed & w8 & E8 & E).
  apply (keeps_fs hs []) in E8 as (K8 & _ & Hf8); [|intros p _ _; apply os_close_same].
  assert (keeps hs [tmp] w w8) as K.
  { refine (keeps_trans_nil _ _ _ _ _ K14 _). refine (keeps_trans_nil _ _ _ _ _ K5 _).
    refine (keeps_trans_nil _ _ _ _ _ K6 _). exact (keeps_trans _ [tmp] [] _ _ _ K7 K8). }
  assert (staged_for (prefix +:+ formatPrefix +:+ h)%string
    (Some {| tmpPath := tmp; target := (prefix +:+ formatPrefix +:+ h)%string; published := false; se_lease := budgeted |})) as Hfor by done.
  destruct (copied && closed && match stop with Some _ => false | None => true end) eqn:Eok.
  - injection E as <- <- <- <-. split; [by apply (keeps_drop _ _ tmp)|]. split; [done|]. split; [done|]. intros _.
    eexists. split; [done|]. cbn [tmpPath]. unbool. subst copied. destruct stop; [done|].
    split; [by replace (os_write tmp d (c_fs (w_cache w6))).1 with true|].
    split; [by rewrite Hname|]. split; [rewrite <- Hw3; exact Hnew|]. rewrite Hf8, os_close_same.
    fold (file w7 tmp). rewrite Hf7. destruct (os_write tmp d (c_fs (w_cache w6))) as [b f7] eqn:E7'. cbn [fst snd] in *. subst b.
    exact (os_write_done _ _ _ _ E7').
  - apply ST_bind_inv in E as (o' & w9 & E9 & E). injection E as <- <- <- <-.
    destruct (abandon_one_kept hs _ _ _ _ _ E9 Hfor) as (K9 & _ & Hs9 & Hp9). cbn [tmp_of tmpPath] in K9.
    split; [|split; [done|split; [by rewrite Hp9|done]]].
    apply (keeps_drop _ _ tmp); [|done]. apply (keeps_weaken _ ([tmp] ++ (if nonempty tmp then [tmp] else []))).
    { intros q. rewrite elem_of_app. destruct (nonempty tmp); [tauto|]. rewrite elem_of_nil. tauto. }
    exact (keeps_trans _ _ _ _ _ _ K K9).
Qed.

(** What staging one file gives: the files it changed, and on success where
    the contents are. *)
Definition staged_data w0 w (o : option stagedEntry) (path data : string) : Prop :=
  ∃ e, o = Some e ∧ target e = path ∧ file w (loc e) = Opened data ∧
       if nonempty (tmpPath e) then published e = false ∧ file w0 (tmpPath e) = OpenNotExist else published e = true.

Lemma stageWriteContext_kept env budgeted hs prefix h data w o n err w' :
  let path := (prefix +:+ formatPrefix +:+ h)%string in
  stageWriteContext env budgeted prefix h data w = ((o, n, err), w') →
  keeps hs (owned o) w w' ∧ staged_for path o ∧ (err = None → n = str_len data ∧ staged_data w w' o path data).
Proof.
  intros path. unfold stageWriteContext. intros (ended & w1 & E1 & E)%ST_bind_inv. pose proof (keeps_ask hs _ _ _ _ E1) as K1.
  destruct ended; [by injection E as <- <- <- <-|].
  apply ST_bind_inv in E as (failed & w2 & E2 & E). pose proof (keeps_ask hs _ _ _ _ E2) as K2.
  pose proof (keeps_trans_nil _ _ _ _ _ K1 K2) as K12.
  assert (∀ p, file w2 p = file w p) as Hw2 by (injection E1 as _ <-; by injection E2 as _ <-).
  destruct failed; [by injection E as <- <- <- <-|].
  apply ST_bind_inv in E as (c & w2' & [= <- <-] & E).
  destruct (negb (nonempty (diskRoot (w_cache w2)))).
  - apply ST_bind_inv in E as ([[n' pub] err'] & w3 & E3 & E). injection E as <- <- <- <-.
    destruct (vfsWrite_kept env hs _ _ _ _ _ _ _ E3) as [K3 Hd]. cbn [fst snd owned published target].
    split; [exact (keeps_trans_nil _ _ _ _ _ K12 K3)|]. split; [by split|]. intros ->.
    destruct (Hd eq_refl) as (-> & -> & Hf). split; [done|]. eexists. split; [done|]. by split.
  - destruct (stage_on_disk_kept _ _ hs _ _ _ _ _ _ _ _ E) as (K3 & Hfor & Hpub & Hok).
    assert (owned o = []) as ->.
    { destruct o as [e|]; [|done]. cbn in Hpub |- *. by destruct (published e). }
    split; [exact (keeps_trans_nil _ _ _ _ _ K12 K3)|]. split; [done|]. intros Hnone.
    destruct (Hok Hnone) as (e & -> & -> & Htmp & Hnew & Hd). split; [done|]. exists e. split; [done|].
    destruct Hfor as [Ht Hst]. split; [done|]. unfold loc. rewrite Htmp, <- Hw2. split; [done|]. split; [|done].
    cbn in Hpub. by destruct (published e).
Qed.

(** A staged file stays where it is. *)
Lemma staged_data_kept hs own w0 w1 w2 o path data :
  store_inv hs w1 → keeps hs own w1 w2 → staged_data w0 w1 o path data → staged_for path o → entry_path hs path → path ∉ own →
  (∀ p, p ∈ own → ¬ staging_path p) → staged_data w0 w2 o path data.
Proof.
  intros Hi Hk (e & -> & Ht & Hf & Hpub) [_ Hst] Hpath Hno Hown. exists e. split; [done|]. split; [done|]. split; [|done].
  rewrite <- Hf. apply (k_files _ _ _ _ (Hk Hi)).
  - unfold relevant. unfold loc in *. destruct (nonempty (tmpPath e)); [right; split; [by apply Hst|by rewrite Hf]|left; by rewrite Ht].
  - unfold loc in *. destruct (nonempty (tmpPath e)); [|by rewrite Ht]. intros Hin. by apply (Hown _ Hin), Hst.
Qed.

Definition off_staging own : Prop := ∀ p, p ∈ own → ¬ staging_path p.

(** A name that is new after some steps was new before them. *)
Lemma staged_data_start hs own w0 w1 w2 o path data :
  store_inv hs w0 → keeps hs own w0 w1 → off_staging own → staged_for path o → staged_data w1 w2 o path data →
  staged_data w0 w2 o path data.
Proof.
  intros Hi Hk Hown Hfor (e & -> & Ht & Hf & Hpub). exists e. split; [done|]. split; [done|]. split; [done|].
  destruct (nonempty (tmpPath e)) eqn:Etmp; [|done]. destruct Hpub as [Hp Hnew]. split; [done|].
  destruct (decide (file w0 (tmpPath e) = OpenNotExist)) as [|Hex]; [done|]. destruct Hfor as [_ Hst].
  rewrite <- (k_files _ _ _ _ (Hk Hi) (tmpPath e)) in Hex; [done|right; split; [by apply Hst|done]|].
  intros Hin. by apply (Hown _ Hin), Hst.
Qed.

Definition tmps_live w (l : list string) : Prop := ∀ p, p ∈ l → staging_path p ∧ file w p ≠ OpenNotExist.

Lemma staged_tmps w0 w o path data :
  staged_data w0 w o path data → staged_for path o →
  NoDup (tmp_of o) ∧ tmps_live w (tmp_of o) ∧ ∀ p, p ∈ tmp_of o → file w0 p = OpenNotExist.
Proof.
  intros (e & -> & _ & Hf & Hpub) [_ Hst]. unfold tmp_of, loc in *. destruct (nonempty (tmpPath e)).
  - split; [apply NoDup_singleton|]. split; intros p ->%list_elem_of_singleton; [|apply Hpub].
    split; [by apply Hst|]. by rewrite Hf.
  - split; [constructor|]. split; by intros p ?%elem_of_nil.
Qed.

Lemma tmps_live_kept hs own w0 w1 l :
  store_inv hs w0 → keeps hs own w0 w1 → off_staging own → tmps_live w0 l → tmps_live w1 l.
Proof.
  intros Hi Hk Hown Hl p Hp. destruct (Hl p Hp) as [Hs Hex]. split; [done|].
  rewrite (k_files _ _ _ _ (Hk Hi)); [done|by right|]. intros Hin. by apply (Hown _ Hin).
Qed.

Lemma NoDup_tmps_app w1 l1 l2 :
  NoDup l1 → NoDup l2 → tmps_live w1 l1 → (∀ p, p ∈ l2 → file w1 p = OpenNotExist) → NoDup (l1 ++ l2).
Proof. intros H1 H2 Hl Hn. apply NoDup_app. split; [done|]. split; [|done]. intros p Hp1 Hp2. by apply (Hl p Hp1), Hn. Qed.

Lemma owned_staged path o p : staged_for path o → p ∈ owned o → p = path.
Proof.
  destruct o as [e|]; [|by intros _ ?%elem_of_nil]. cbn. intros [<- _]. destruct (published e); [|by intros ?%elem_of_nil].
  by intros ?%list_elem_of_singleton.
Qed.

Lemma owned_off_staging path hs o : entry_path hs path → staged_for path o → off_staging (owned o).
Proof. intros Hp Hfor p ->%(owned_staged path); [by apply (entry_not_staging hs)|done]. Qed.

(** ** One key *)

Definition entry_for (e : preparedCacheEntry) : Prop :=
  p_hashedKey e = hashKey (p_key e) ∧ staged_for (bodyPath (p_hashedKey e)) (p_body e) ∧
  staged_for (headerPath (p_hashedKey e)) (p_header e).
Definition same_entry (e e' : preparedCacheEntry) : Prop :=
  p_key e' = p_key e ∧ p_hashedKey e' = p_hashedKey e ∧ p_storedAt e' = p_storedAt e.
Definition entry_owned (e : preparedCacheEntry) : list string := owned (p_body e) ++ owned (p_header e).
Definition fresh_entry (e : preparedCacheEntry) : Prop :=
  p_hashedKey e = hashKey (p_key e) ∧ p_body e = None ∧ p_header e = None.

Definition stored_header (integrity : bool) (res : Resource) (e : preparedCacheEntry) : option string :=
  serializeCacheHeader integrity (r_statusCode res) (r_header res) (p_storedAt e) (p_key e)
    (str_len (stored_body res)) (sha256_hex (stored_body res)).

(** Both files of an entry are staged. *)
Definition entry_ready w0 w (integrity : bool) (res : Resource) (e : preparedCacheEntry) : Prop :=
  staged_data w0 w (p_body e) (bodyPath (p_hashedKey e)) (stored_body res) ∧
  (∃ raw, stored_header integrity res e = Some raw ∧ staged_data w0 w (p_header e) (headerPath (p_hashedKey e)) raw ∧
     p_size e = wrap64 (str_len (stored_body res) + str_len raw)) ∧
  (∀ n, expectedBodySize (r_header res) = Some n → str_len (stored_body res) = n) ∧
  NoDup (tmp_of (p_body e) ++ tmp_of (p_header e)).

Lemma with_size_files n a b e : with_size n (with_files a b e) =
  {| p_key := p_key e; p_hashedKey := p_hashedKey e; p_storedAt := p_storedAt e; p_body := a; p_header := b; p_size := n |}.
Proof. done. Qed.

(** The body and the header of an entry, staged one after the other. *)
Lemma both_staged hs h w w2 w3 w4 w5 w6 staged staged2 data raw :
  h ∈ hs → store_inv hs w → keeps hs [] w w2 → keeps hs (owned staged) w2 w3 → keeps hs [] w3 w4 → keeps hs (owned staged2) w4 w5 → keeps hs [] w5 w6 →
  staged_for (bodyPath h) staged → staged_for (headerPath h) staged2 →
  staged_data w2 w3 staged (bodyPath h) data → staged_data w4 w5 staged2 (headerPath h) raw →
  staged_data w w6 staged (bodyPath h) data ∧ staged_data w w6 staged2 (headerPath h) raw ∧ NoDup (tmp_of staged ++ tmp_of staged2).
Proof.
  intros Hin Hi K12 K3 K4 K5 K6 Hs3 Hs5 Hd3 Hd5. pose proof (keeps_trans_nil _ _ _ _ _ K12 K3) as K13.
  assert (keeps hs (owned staged) w w4) as K14 by (rewrite <- (app_nil_r (owned staged)); exact (keeps_trans _ _ [] _ _ _ K13 K4)).
  pose proof (keeps_trans _ _ _ _ _ _ K14 K5) as K15.
  assert (entry_path hs (bodyPath h) ∧ entry_path hs (headerPath h)) as [Hpb Hph] by (by split; exists h; split; auto).
  pose proof (owned_off_staging _ _ _ Hpb Hs3) as Hoff3. pose proof (owned_off_staging _ _ _ Hph Hs5) as Hoff5.
  assert (∀ p, p ∈ owned staged2 → p ≠ bodyPath h) as Hne by (by intros p ->%(owned_staged _ _ _ Hs5)).
  pose proof (k_inv _ _ _ _ (K12 Hi)) as Hi2. pose proof (k_inv _ _ _ _ (K13 Hi)) as Hi3. pose proof (k_inv _ _ _ _ (K14 Hi)) as Hi4.
  pose proof (k_inv _ _ _ _ (K15 Hi)) as Hi5. assert (off_staging []) as Hoff0 by (intros p []%elem_of_nil).
  assert (staged_data w w5 staged (bodyPath h) data) as Hb5.
  { eapply (staged_data_kept hs (owned staged2) _ w4); [done|done| |done|done| |done].
    - eapply (staged_data_kept hs [] _ w3); [done|done| |done|done|apply not_elem_of_nil|done].
      by eapply (staged_data_start hs []).
    - intros Hin'. by apply (Hne _ Hin'). }
  assert (staged_data w w5 staged2 (headerPath h) raw) as Hh5 by (by eapply (staged_data_start hs (owned staged))).
  assert (∀ o path data, staged_data w w5 o path data → staged_for path o → entry_path hs path → staged_data w w6 o path data) as Hlast.
  { intros o path d Hd Hf Hp. by eapply (staged_data_kept hs []); [exact Hi5|exact K6|exact Hd|..|apply not_elem_of_nil|]. }
  split; [by apply Hlast|]. split; [by apply Hlast|].
  destruct (staged_tmps _ _ _ _ _ Hd3 Hs3) as (N1 & L1 & _), (staged_tmps _ _ _ _ _ Hd5 Hs5) as (N2 & _ & New2).
  by apply (NoDup_tmps_app w4); [|..|eapply (tmps_live_kept hs []); [exact Hi3|exact K4|..]|].
Qed.

Lemma prepareResourceForKey_kept env budgeted hs res e w e' err w' :
  prepareResourceForKey env budgeted res e (expectedBodySize (r_header res)) w = ((e', err), w') →
  fresh_entry e → p_hashedKey e ∈ hs →
  keeps hs (entry_owned e') w w' ∧ same_entry e e' ∧ entry_for e' ∧
  (err = None → store_inv hs w → entry_ready w w' (integrity_on (w_cache w)) res e').
Proof.
  unfold prepareResourceForKey. intros E (Hhash & Hb & Hh) Hin.
  assert (same_entry e e ∧ entry_for e ∧ entry_owned e = []) as (Hsame0 & Hfor0 & Hown0).
  { unfold entry_for, entry_owned. by rewrite Hb, Hh. }
  apply ST_bind_inv in E as (failed & w1 & E1 & E). pose proof (keeps_ask hs _ _ _ _ E1) as K1.
  assert (w_cache w1 = w_cache w) as Hw1 by (by injection E1 as _ <-).
  destruct failed; [injection E as <- <- <-; by rewrite Hown0|].
  apply ST_bind_inv in E as (c & w1' & [= <- <-] & E). rewrite Hw1 in E. set (integrity := integrity_on (w_cache w)) in *.
  destruct (serializeCacheHeader integrity _ _ _ _ (default 0 _) _) as [early_data|] eqn:Eser; [|injection E as <- <- <-; by rewrite Hown0].
  apply ST_bind_inv in E as (early & w2 & E2 & E).
  assert (keeps hs [] w1 w2) as K2.
  { destruct (expectedBodySize (r_header res)) as [n|]; [exact (keeps_reserve hs _ _ _ _ _ E2)|injection E2 as _ <-; apply keeps_refl]. }
  pose proof (keeps_trans_nil _ _ _ _ _ K1 K2) as K12. clear K1 K2 E1 E2.
  destruct early as [ee|]; [injection E as <- <- <-; by rewrite Hown0|].
  change (match expectedBodySize (r_header res) with Some n => str_take n (r_body res) | None => r_body res end) with (stored_body res) in E.
  apply ST_bind_inv in E as ([[staged written] err1] & w3 & E3 & E). unfold stageBodyContext in E3. rewrite <- Hhash in E3.
  destruct (stageWriteContext_kept _ _ hs _ _ _ _ _ _ _ _ E3) as (K3 & Hs3 & Hok3).
  change (bodyPrefix +:+ formatPrefix +:+ p_hashedKey e)%string with (bodyPath (p_hashedKey e)) in *.
  pose proof (keeps_trans_nil _ _ _ _ _ K12 K3) as K13. rewrite Hh in E. rewrite with_size_files in E.
  assert (∀ sz, same_entry e {| p_key := p_key e; p_hashedKey := p_hashedKey e; p_storedAt := p_storedAt e;
      p_body := staged; p_header := None; p_size := sz |} ∧ entry_for {| p_key := p_key e; p_hashedKey := p_hashedKey e; p_storedAt := p_storedAt e;
      p_body := staged; p_header := None; p_size := sz |} ∧ entry_owned {| p_key := p_key e; p_hashedKey := p_hashedKey e; p_storedAt := p_storedAt e;
      p_body := staged; p_header := None; p_size := sz |} = owned staged) as Hmid.
  { intros sz. unfold same_entry, entry_for, entry_owned. cbn. by rewrite app_nil_r. }
  assert (∀ sz er, keeps hs (owned staged) w w3 → err = Some er → e' = {| p_key := p_key e; p_hashedKey := p_hashedKey e;
      p_storedAt := p_storedAt e; p_body := staged; p_header := None; p_size := sz |} → keeps hs (owned staged) w w' →
    keeps hs (entry_owned e') w w' ∧ same_entry e e' ∧ entry_for e' ∧
    (err = None → store_inv hs w → entry_ready w w' integrity res e')) as Hstop.
  { intros sz er _ -> -> Hk. destruct (Hmid sz) as (? & ? & ->). done. }
  destruct err1 as [e1|]; [injection E as <- <- <-; by eapply Hstop|].
  destruct (Hok3 eq_refl) as [-> Hd3].
  destruct (match expectedBodySize (r_header res) with Some n => negb (str_len (stored_body res) =? n) | None => false end) eqn:Eshort;
    [injection E as <- <- <-; by eapply Hstop|].
  destruct (serializeCacheHeader integrity _ _ _ _ (str_len _) _) as [raw|] eqn:Eraw; [|injection E as <- <- <-; by eapply Hstop].
  apply ST_bind_inv in E as (late & w4 & E4 & E). pose proof (keeps_reserve hs _ _ _ _ _ E4) as K4.
  assert (keeps hs (owned staged) w w4) as K14.
  { rewrite <- (app_nil_r (owned staged)). exact (keeps_trans _ _ [] _ _ _ K13 K4). }
  destruct late as [el|]; [injection E as <- <- <-; by eapply Hstop|].
  apply ST_bind_inv in E as ([[staged2 headerBytes] err2] & w5 & E5 & E). unfold stageSerializedHeaderContext in E5. rewrite <- Hhash in E5.
  destruct (stageWriteContext_kept _ _ hs _ _ _ _ _ _ _ _ E5) as (K5 & Hs5 & Hok5).
  change (headerPrefix +:+ formatPrefix +:+ p_hashedKey e)%string with (headerPath (p_hashedKey e)) in *.
  pose proof (keeps_trans _ _ _ _ _ _ K14 K5) as K15. cbn [p_body] in E. rewrite with_size_files in E. cbn [p_key p_hashedKey p_storedAt] in E.
  destruct err2 as [e2|]; [by injection E as <- <- <-|]. destruct (Hok5 eq_refl) as [-> Hd5].
  apply ST_bind_inv in E as (ended & w6 & E6 & E). pose proof (keeps_ask hs _ _ _ _ E6) as K6.
  injection E as <- <- <-. split; [unfold entry_owned; cbn; rewrite <- (app_nil_r (_ ++ _)); exact (keeps_trans _ _ [] _ _ _ K15 K6)|].
  split; [done|]. split; [done|]. intros _ Hi.
  destruct (both_staged hs _ w w2 w3 w4 w5 w6 _ _ _ _ Hin Hi K12 K3 K4 K5 K6 Hs3 Hs5 Hd3 Hd5) as (Hb6 & Hh6 & Hnd).
  split; [exact Hb6|]. split; [by exists raw|]. split; [intros n Hn; rewrite Hn in Eshort; by unbool|exact Hnd].
Qed.

(** ** All keys *)

Definition all_owned (es : list preparedCacheEntry) : list string := es ≫= entry_owned.
Definition all_tmps (es : list preparedCacheEntry) : list string := es ≫= λ e, tmp_of (p_body e) ++ tmp_of (p_header e).

Lemma entry_owned_paths e p : entry_for e → p ∈ entry_owned e → p = bodyPath (p_hashedKey e) ∨ p = headerPath (p_hashedKey e).
Proof.
  intros (_ & Hb & Hh). unfold entry_owned. rewrite elem_of_app.
  intros [Hp|Hp]; [left; by apply (owned_staged _ _ _ Hb)|right; by apply (owned_staged _ _ _ Hh)].
Qed.

Lemma all_owned_paths es p : Forall entry_for es → p ∈ all_owned es → entry_path (p_hashedKey <$> es) p.
Proof.
  intros Hes (e & Hp & He)%list_elem_of_bind. rewrite Forall_forall in Hes. exists (p_hashedKey e).
  split; [by apply list_elem_of_fmap_2|]. by apply entry_owned_paths; [apply Hes|].
Qed.

Lemma entry_path_hash hs h p : p = bodyPath h ∨ p = headerPath h → entry_path hs p → h ∈ hs.
Proof. intros [->| ->] (h' & Hh & [Heq|Heq]); [by apply bodyPath_inj in Heq as ->|done|done|by apply headerPath_inj in Heq as ->]. Qed.

Lemma entry_path_mono hs hs' p : hs ⊆ hs' → entry_path hs p → entry_path hs' p.
Proof. intros Hsub (h & Hh & Hp). exists h. split; [by apply Hsub|done]. Qed.

Lemma off_staging_entries hs own : (∀ p, p ∈ own → entry_path hs p) → off_staging own.
Proof. intros Ho p Hp. by apply (entry_not_staging hs), Ho. Qed.

Lemma entry_ready_kept hs own w0 w1 w2 integrity res e :
  store_inv hs w1 → keeps hs own w1 w2 → entry_ready w0 w1 integrity res e → entry_for e → p_hashedKey e ∈ hs →
  bodyPath (p_hashedKey e) ∉ own → headerPath (p_hashedKey e) ∉ own → off_staging own → entry_ready w0 w2 integrity res e.
Proof.
  intros Hi Hk (Hb & (raw & Hraw & Hh & Hsz) & Hlen & Hnd) (_ & Fb & Fh) Hin Nb Nh Hoff.
  assert (entry_path hs (bodyPath (p_hashedKey e)) ∧ entry_path hs (headerPath (p_hashedKey e))) as [Pb Ph].
  { by split; exists (p_hashedKey e); split; auto. }
  split; [by eapply staged_data_kept|]. split; [|done]. exists raw. split; [done|]. split; [by eapply staged_data_kept|done].
Qed.

Lemma entry_ready_start hs own w0 w1 w2 integrity res e :
  store_inv hs w0 → keeps hs own w0 w1 → off_staging own → entry_for e → entry_ready w1 w2 integrity res e →
  entry_ready w0 w2 integrity res e.
Proof.
  intros Hi Hk Hoff (_ & Fb & Fh) (Hb & (raw & Hraw & Hh & Hsz) & Hlen & Hnd).
  split; [by eapply staged_data_start|]. split; [|done]. exists raw. split; [done|]. split; [by eapply staged_data_start|done].
Qed.

Lemma entry_ready_tmps w0 w integrity res e :
  entry_ready w0 w integrity res e → entry_for e →
  let l := tmp_of (p_body e) ++ tmp_of (p_header e) in NoDup l ∧ tmps_live w l ∧ ∀ p, p ∈ l → file w0 p = OpenNotExist.
Proof.
  intros (Hb & (raw & _ & Hh & _) & _ & Hnd) (_ & Fb & Fh).
  destruct (staged_tmps _ _ _ _ _ Hb Fb) as (_ & L1 & N1), (staged_tmps _ _ _ _ _ Hh Fh) as (_ & L2 & N2).
  split; [done|]. split; intros p [Hp|Hp]%elem_of_app; auto.
Qed.

Lemma prepare_entries_kept env budgeted hs res es w es' err w' :
  prepare_entries env budgeted res (expectedBodySize (r_header res)) es w = ((es', err), w') →
  Forall fresh_entry es → (∀ e, e ∈ es → p_hashedKey e ∈ hs) → NoDup (p_hashedKey <$> es) →
  keeps hs (all_owned es') w w' ∧ Forall2 same_entry es es' ∧ Forall entry_for es' ∧
  (err = None → store_inv hs w →
     Forall (entry_ready w w' (integrity_on (w_cache w)) res) es' ∧ NoDup (all_tmps es') ∧
     ∀ p, p ∈ all_tmps es' → file w p = OpenNotExist).
Proof.
  revert w es' err w'. induction es as [|e es IH]; intros w es' err w' E Hfresh Hhs Hnd; cbn [prepare_entries] in E.
  { injection E as <- <- <-. split; [apply keeps_refl|]. split; [done|]. split; [done|]. intros _ _. split; [done|].
    split; [apply NoDup_nil_2|]. by intros p ?%elem_of_nil. }
  inversion_clear Hfresh as [|? ? Hf Hfs]. apply NoDup_cons in Hnd as [Hnot Hnd].
  apply ST_bind_inv in E as ([e' err1] & w1 & E1 & E).
  destruct (prepareResourceForKey_kept _ _ hs _ _ _ _ _ _ E1 Hf) as (K1 & Hsame & Hfor & Hready); [apply Hhs; by left|].
  assert (Forall entry_for es ∧ Forall2 same_entry es es ∧ all_owned es = []) as (Hfor_es & Hsame_es & Hown_es).
  { clear -Hfs. induction Hfs as [|x l (Hx & Hxb & Hxh) _ (IH1 & IH2 & IH3)]; [done|].
    unfold all_owned in *. rewrite bind_cons, IH3. unfold entry_owned, entry_for. rewrite Hxb, Hxh.
    split; [by constructor; [split; [|rewrite Hxb, Hxh]|]|]. by split; [constructor|]. }
  destruct err1 as [e1|].
  { injection E as <- <- <-. split; [|by split_and!; [constructor..|]]. unfold all_owned in *. rewrite bind_cons, Hown_es.
    by rewrite app_nil_r. }
  apply ST_bind_inv in E as ([es2 err2] & w2 & E2 & E). injection E as <- <- <-. cbn [fst snd].
  destruct (IH _ _ _ _ E2 Hfs (λ x Hx, Hhs x (list_elem_of_further _ _ _ Hx)) Hnd) as (K2 & Hsame2 & Hfor2 & Hready2).
  split; [unfold all_owned; rewrite bind_cons; by eapply keeps_trans|]. split; [by constructor|]. split; [by constructor|].
  intros -> Hi. specialize (Hready eq_refl Hi). pose proof (k_inv _ _ _ _ (K1 Hi)) as Hi1.
  destruct (Hready2 eq_refl Hi1) as (Hall & Hnd2 & Hnew2).
  assert (integrity_on (w_cache w1) = integrity_on (w_cache w)) as Hcfg.
  { unfold integrity_on. by rewrite (k_config _ _ _ _ (K1 Hi)). }
  rewrite Hcfg in Hall.
  assert (p_hashedKey <$> es2 = p_hashedKey <$> es) as Hhash.
  { clear -Hsame2. induction Hsame2 as [|x y l k (_ & Hxy & _) _ IH]; [done|]. by rewrite !fmap_cons, IH, Hxy. }
  assert (off_staging (entry_owned e')) as Hoff1.
  { intros p Hp Hs. destruct (entry_owned_paths _ _ Hfor Hp) as [->| ->];
      [by apply (body_not_staging (p_hashedKey e')) in Hs|by apply (header_not_staging (p_hashedKey e')) in Hs]. }
  assert (∀ p, p ∈ all_owned es2 → entry_path (p_hashedKey <$> es) p) as Hown2.
  { intros p Hp. rewrite <- Hhash. by apply all_owned_paths. }
  pose proof (off_staging_entries _ _ Hown2) as Hoff2. destruct Hsame as (Hk & Hh & Ht).
  assert (∀ p, p = bodyPath (p_hashedKey e') ∨ p = headerPath (p_hashedKey e') → p ∉ all_owned es2) as Hdisj.
  { intros p Hp Hin. apply Hnot. rewrite <- Hh. by eapply entry_path_hash, Hown2. }
  destruct (entry_ready_tmps _ _ _ _ _ Hready Hfor) as (N1 & L1 & New1).
  split; [|split].
  - constructor.
    + eapply (entry_ready_kept hs); [exact Hi1|exact K2|done|done| |by apply Hdisj; left|by apply Hdisj; right|done].
      rewrite Hh. apply Hhs. by left.
    + rewrite Forall_forall in Hall, Hfor2 |- *. intros x Hx. eapply (entry_ready_start hs); eauto.
  - unfold all_tmps. rewrite bind_cons. by apply (NoDup_tmps_app w1).
  - intros p. unfold all_tmps. rewrite bind_cons, elem_of_app. intros [Hp|Hp]; [by apply New1|].
    pose proof (Hnew2 p Hp) as Hn1. destruct (decide (file w p = OpenNotExist)) as [|Hex]; [done|].
    assert (staging_path p) as Hs.
    { apply list_elem_of_bind in Hp as (x & Hp & Hx). rewrite Forall_forall in Hall, Hfor2.
      by apply (entry_ready_tmps _ _ _ _ _ (Hall x Hx) (Hfor2 x Hx)). }
    rewrite <- (k_files _ _ _ _ (K1 Hi) p) in Hex; [done|by right|]. intros Hin. by apply (Hoff1 p).
Qed.
End Frames.
