(* ===== verification/Transaction.v ===== *)
(** * Publication and rollback of a store ([cache.go])

    [commitStagedLocked], [discardPreparedStore] and the whole of
    [StoreContext]: a store publishes all its files or leaves all its keys as
    they were or without files. *)

From S2P Require Import Prelude GoStrings GoTime GoQuote GoHttp CacheControl Config Vfs CacheState Resource Ledger Admission Markers Generations StoredHeader Store Staged.

Section Frames.
Context `{V : VFS, O : !OsFiles V, J : MarkerJSON, D : HttpDate, R : RecordText}.
Context `{VL : !VFSLaws V, OL : !OsFilesLaws V O}.
Implicit Types (w : world) (c : cache) (hs own : list string).

(** ** Publication *)

Lemma commitStagedLocked_kept hs paths l w l' err w' :
  commitStagedLocked l w = ((l', err), w') → Forall2 staged_for paths l → 
  keeps hs ((l' ≫= owned) ++ (l ≫= tmp_of)) w w' ∧ Forall2 staged_for paths l' ∧ (l' ≫= tmp_of) ⊆ (l ≫= tmp_of) ∧
  (l ≫= owned) ⊆ (l' ≫= owned).
Proof.
  intros E Hfor. revert w l' err w' E. induction Hfor as [|path o paths l Ho Hl IH]; intros w l' err w' E; cbn [commitStagedLocked] in E.
  { injection E as <- <- <-. split; [apply keeps_refl|done]. }
  destruct o as [e|].
  2: { apply ST_bind_inv in E as ([l2 err2] & w2 & E2 & E). injection E as <- <- <-. cbn [fst].
       destruct (IH _ _ _ _ E2) as (K & F & T & Ow). rewrite !bind_cons. split; [exact K|]. split; [by constructor|done]. }
  destruct (nonempty (tmpPath e)) eqn:Etmp; cbn [negb] in E.
  2: { apply ST_bind_inv in E as ([l2 err2] & w2 & E2 & E). injection E as <- <- <-. cbn [fst].
       destruct (IH _ _ _ _ E2) as (K & F & T & Ow). rewrite !bind_cons. split; [|split; [by constructor|]].
       - eapply keeps_weaken; [|exact K]. set_solver.
       - set_solver. }
  apply ST_bind_inv in E as (renamed & w1 & E1 & E).
  destruct (os_rename (tmpPath e) (target e) (c_fs (w_cache w))) as [ok f1] eqn:Er.
  apply (keeps_fs hs (if ok then [tmpPath e; target e] else [])) in E1 as (K1 & -> & _); rewrite ?Er.
  2: { intros p _ Hp. cbn. destruct ok.
       - rewrite !not_elem_of_cons in Hp. destruct Hp as (Hp1 & Hp2 & _). exact (os_rename_other _ _ _ _ _ Er Hp1 Hp2).
       - exact (os_rename_failed _ _ _ _ p Er). }
  rewrite Er in E. cbn [fst] in E. destruct ok.
  - apply ST_bind_inv in E as ([] & w2 & E2 & E). pose proof (keeps_leases hs _ _ _ _ E2) as K2.
    apply ST_bind_inv in E as ([l2 err2] & w3 & E3 & E). injection E as <- <- <-. cbn [fst].
    destruct (IH _ _ _ _ E3) as (K & F & T & Ow).
    pose proof (keeps_trans _ _ _ _ _ _ K1 (keeps_trans_nil _ _ _ _ _ K2 K)) as K13. rewrite !bind_cons.
    assert (tmp_of (Some e) = [tmpPath e]) as -> by (unfold tmp_of; by rewrite Etmp).
    cbn [owned tmp_of published target tmpPath nonempty]. split; [|split; [|split]].
    + eapply keeps_weaken; [|exact K13]. set_solver.
    + constructor; [|done]. by destruct Ho.
    + set_solver.
    + destruct (published e); set_solver.
  - injection E as <- <- <-. split; [|split; [by constructor|done]].
    eapply keeps_weaken; [apply list_subseteq_nil|exact K1].
Qed.

Lemma Forall2_in_r {A B} (P : A → B → Prop) l k y : Forall2 P l k → y ∈ k → ∃ x, x ∈ l ∧ P x y.
Proof.
  induction 1 as [|x0 y0 l k Hxy _ IH]; [by intros ?%elem_of_nil|]. intros [->|Hy]%elem_of_cons.
  - exists x0. split; [by left|done].
  - destruct (IH Hy) as (x & Hx & HP). exists x. split; [by right|done].
Qed.

Lemma Forall2_in_mono {A B} (P Q : A → B → Prop) l k :
  Forall2 P l k → (∀ x y, x ∈ l → y ∈ k → P x y → Q x y) → Forall2 Q l k.
Proof.
  induction 1 as [|x y l k Hxy _ IH]; intros Hmono; constructor.
  - apply Hmono; [by left|by left|done].
  - apply IH. intros. apply Hmono; [by right|by right|done].
Qed.

Lemma staged_data_loc hs own w0 w1 w2 o path data :
  store_inv hs w1 → keeps hs own w1 w2 → staged_data w0 w1 o path data → staged_for path o → entry_path hs path →
  (∀ e, o = Some e → loc e ∉ own) → staged_data w0 w2 o path data.
Proof.
  intros Hi Hk (e & -> & Ht & Hf & Hpub) [_ Hst] Hpath Hno. exists e. split; [done|]. split; [done|]. split; [|done].
  rewrite <- Hf. apply (k_files _ _ _ _ (Hk Hi)); [|by apply Hno]. unfold relevant, loc in *.
  destruct (nonempty (tmpPath e)); [right; split; [by apply Hst|by rewrite Hf]|left; by rewrite Ht].
Qed.

Lemma loc_elsewhere hs path path' o e' tmps :
  entry_path hs path → path' ≠ path → entry_path hs path' → staged_for path' o → o = Some e' → tmp_of o ## tmps →
  (∀ t, t ∈ tmps → staging_path t) → loc e' ∉ tmps ++ [path].
Proof.
  intros Hp Hne Hp' Ho -> Hdis Hst. unfold loc, tmp_of in *. destruct Ho as [Ht Hst'].
  rewrite elem_of_app, list_elem_of_singleton. destruct (nonempty (tmpPath e')).
  - intros [Hin|Heq].
    + apply (Hdis (tmpPath e')); [by apply list_elem_of_singleton|done].
    + apply (entry_not_staging hs path Hp). rewrite <- Heq. by apply Hst'.
  - rewrite Ht. intros [Hin|Heq]; [|done]. by apply (entry_not_staging hs path' Hp'), Hst.
Qed.

(** A publication that succeeds puts every staged file in its place. *)
Lemma commitStagedLocked_done hs w0 pds l w l' w' :
  commitStagedLocked l w = ((l', None), w') →
  Forall2 (λ pd o, staged_for pd.1 o ∧ staged_data w0 w o pd.1 pd.2) pds l →
  store_inv hs w → (∀ pd, pd ∈ pds → entry_path hs pd.1) → NoDup pds.*1 → NoDup (l ≫= tmp_of) →
  ∀ pd, pd ∈ pds → file w' pd.1 = Opened pd.2.
Proof.
  intros E Hl. revert w l l' w' E Hl.
  induction pds as [|[path data] pds IH]; intros w l l' w' E Hl Hi Hpaths Hnd Htmps pd Hpd; [by apply elem_of_nil in Hpd|].
  inversion Hl as [|? o ? l0 [Ho Hd] Hl0]; subst. clear Hl. cbn [fst snd] in *. rewrite fmap_cons in Hnd. apply NoDup_cons in Hnd as [Hnot Hnd].
  rewrite bind_cons in Htmps. apply NoDup_app in Htmps as (_ & Hdis & Htmps).
  assert (entry_path hs path) as Hpath by (apply (Hpaths (path, data)); by left).
  assert (Forall2 staged_for pds.*1 l0) as Hfor0.
  { clear -Hl0. induction Hl0 as [|pd o pds l [Ho _] _ IH]; constructor; auto. }
  assert (∃ w1 l1, commitStagedLocked l0 w1 = ((l1, None), w') ∧ file w1 path = Opened data ∧ keeps hs (tmp_of o ++ [path]) w w1)
    as (w1 & l1 & E1 & Hf1 & K1).
  { destruct Hd as (e & -> & Ht & Hf & Hpub). unfold loc, tmp_of in *. cbn [commitStagedLocked] in E.
    destruct (nonempty (tmpPath e)); cbn [negb] in E.
    - apply ST_bind_inv in E as (renamed & w1 & E1 & E).
      destruct (os_rename (tmpPath e) (target e) (c_fs (w_cache w))) as [ok f1] eqn:Er.
      apply (keeps_fs hs ([tmpPath e] ++ [path])) in E1 as (K1 & -> & Hf1); rewrite ?Er in *; cbn [fst snd] in *.
      2: { unfold on_fs, on_cache in E1. rewrite Er in E1. injection E1 as <- _. intros p _ Hp.
           rewrite elem_of_app, !list_elem_of_singleton in Hp. destruct ok; [|by injection E].
           apply (os_rename_other _ _ _ _ _ Er); [tauto|rewrite Ht; tauto]. }
      destruct ok; [|by injection E].
      apply ST_bind_inv in E as ([] & w2 & E2 & E). pose proof (keeps_leases hs _ _ _ _ E2) as K2.
      apply ST_bind_inv in E as ([l2 err2] & w3 & E3 & [= <- <- <-]).
      exists w2, l2. split; [done|]. split; [|rewrite <- (app_nil_r (_ ++ _)); by eapply keeps_trans].
      injection E2 as <-. rewrite <- Ht. transitivity (file w1 (target e)); [done|]. rewrite Hf1, (os_rename_done _ _ _ _ Er). exact Hf.
    - apply ST_bind_inv in E as ([l2 err2] & w3 & E3 & [= <- <- <-]). exists w, l2. split; [done|]. rewrite <- Ht.
      split; [done|apply keeps_refl]. }
  pose proof (k_inv _ _ _ _ (K1 Hi)) as Hi1.
  apply elem_of_cons in Hpd as [->|Hpd].
  - cbn [fst snd]. rewrite <- Hf1. destruct (commitStagedLocked_kept hs _ _ _ _ _ _ E1 Hfor0) as (K & Hfor1 & _ & _).
    apply (k_files _ _ _ _ (K Hi1)); [by left|]. intros [(o1 & Hp & Ho1)%list_elem_of_bind|(o1 & Hp & Ho1)%list_elem_of_bind]%elem_of_app.
    + apply (Forall2_in_r _ _ _ _ Hfor1) in Ho1 as (path1 & Hin & Hf). apply (owned_staged _ _ _ Hf) in Hp as ->. done.
    + apply (Forall2_in_r _ _ _ _ Hfor0) in Ho1 as (path1 & Hin & Hf). apply (entry_not_staging _ _ Hpath).
      destruct o1 as [e1|]; [|by apply elem_of_nil in Hp]. unfold tmp_of in Hp. destruct Hf as [_ Hst].
      destruct (nonempty (tmpPath e1)); [|by apply elem_of_nil in Hp]. apply list_elem_of_singleton in Hp as ->. by apply Hst.
  - apply (IH w1 l0 l1 w'); [done| |done|intros x Hx; apply Hpaths; by right|done|done|done].
    assert (∀ t, t ∈ tmp_of o → staging_path t) as Hst.
    { intros t Ht. destruct o as [e|]; [|by apply elem_of_nil in Ht]. unfold tmp_of in Ht. destruct Ho as [_ Hst].
      destruct (nonempty (tmpPath e)); [|by apply elem_of_nil in Ht]. apply list_elem_of_singleton in Ht as ->. by apply Hst. }
    apply (Forall2_in_mono _ _ _ _ Hl0). intros [path1 data1] o1 Hin Ho1 [Hf Hd1]. split; [done|]. cbn [fst snd] in *.
    assert (entry_path hs path1) as Hpath1 by (apply (Hpaths (path1, data1)); by right).
    eapply (staged_data_loc hs); [exact Hi|exact K1|done..|]. intros e1 He1. 
    eapply (loc_elsewhere hs path path1); [done| |done|done|done| |done].
    + intros ->. apply Hnot, list_elem_of_fmap. by exists (path, data1).
    + intros t Ht1 Ht. apply (Hdis t Ht). apply list_elem_of_bind. by exists o1.
Qed.

(** ** Rollback *)

Lemma abandon_all_kept hs es w pub es' w' :
  abandon_all es w = ((pub, es'), w') → Forall entry_for es →
  keeps hs (all_tmps es) w w' ∧ pub = anyPublished (staged_files es) ∧ Forall2 same_entry es es' ∧ p_size <$> es' = p_size <$> es.
Proof.
  revert w pub es' w'. induction es as [|e es IH]; intros w pub es' w' E Hes; cbn [abandon_all] in E.
  { injection E as <- <- <-. split; [apply keeps_refl|done]. }
  inversion_clear Hes as [|? ? (Hh & Fb & Fh) Hes'].
  apply ST_bind_inv in E as (body & w1 & E1 & E). destruct (abandon_one_kept hs _ _ _ _ _ E1 Fb) as (K1 & _ & _ & _).
  apply ST_bind_inv in E as (header & w2 & E2 & E). destruct (abandon_one_kept hs _ _ _ _ _ E2 Fh) as (K2 & _ & _ & _).
  apply ST_bind_inv in E as ([pub3 es3] & w3 & E3 & [= <- <- <-]). destruct (IH _ _ _ _ E3 Hes') as (K3 & -> & Hsame & Hsz).
  split; [|split; [|split; [by constructor|by rewrite !fmap_cons, Hsz]]].
  - unfold all_tmps. rewrite bind_cons. eapply keeps_trans; [|exact K3]. by eapply keeps_trans.
  - cbn [fst]. unfold staged_files, anyPublished. rewrite bind_cons. cbn [app existsb]. by rewrite !orb_false_r, orb_assoc.
Qed.

Definition gone w (h : string) : Prop := file w (bodyPath h) = OpenNotExist ∧ file w (headerPath h) = OpenNotExist.

Lemma remove_files_result h c failed c' :
  remove_files h c = (failed, c') →
  (failed = false → fs_open (c_fs c') (bodyPath h) = OpenNotExist ∧ fs_open (c_fs c') (headerPath h) = OpenNotExist) ∧
  stale c' = stale c.
Proof.
  unfold remove_files. destruct (fs_remove (bodyPath h) _) as [r1 f1] eqn:E1, (fs_remove _ f1) as [r2 f2] eqn:E2.
  intros [= <- <-]. split; [|done]. simpl. intros [H1 H2]%orb_false_iff.
  apply bool_decide_eq_false in H1, H2. split; [|by apply (remove_gone _ _ _ _ E2)].
  rewrite (remove_other _ _ _ _ _ E2); [by apply (remove_gone _ _ _ _ E1)|apply bodyPath_headerPath].
Qed.

Lemma discardUnadmitted_files key h size st now c failed c' :
  ledger_inv c → discardUnadmitted key h size st now c = (failed, c') →
  (failed = false → fs_open (c_fs c') (bodyPath h) = OpenNotExist ∧ fs_open (c_fs c') (headerPath h) = OpenNotExist) ∧
  stale c' = stale c ∧ ∀ p, p ≠ bodyPath h → p ≠ headerPath h → fs_open (c_fs c') p = fs_open (c_fs c) p.
Proof.
  intros Hc E. destruct (remove_files h c) as [failed0 c0] eqn:Er.
  assert (failed = failed0 ∧ c_fs c' = c_fs c0 ∧ stale c' = stale c0) as (-> & Hf & Hs).
  { unfold discardUnadmitted in E. destruct (lruIndex c !! h) as [e|] eqn:El.
    - unfold removeEntry in E. rewrite (li_key _ Hc h e El), Er in E. destruct failed0; cbn [andb] in E.
      + destruct (e_size e <? size); by injection E as <- <-.
      + by injection E as <- <-.
    - rewrite Er in E. destruct failed0; by injection E as <- <-. }
  destruct (remove_files_result _ _ _ _ Er) as [Hgone Hst]. rewrite Hf, Hs. split; [exact Hgone|]. split; [done|].
  intros p Hb Hh. pose proof (remove_files_other h c p Hb Hh) as Ho. by rewrite Er in Ho.
Qed.

Lemma atomicWriteFile_other path s f p :
  p ≠ path → (∀ x, p ≠ (("." +:+ path +:+ ".tmp-") +:+ x)%string) → fs_open (atomicWriteFile path s f).2 p = fs_open f p.
Proof.
  intros Hp Htmp. unfold atomicWriteFile. destruct (os_create_temp _ f) as [[t|] f1] eqn:E1.
  2: { apply (create_temp_other _ _ _ _ p E1). done. }
  destruct (create_temp_name _ _ _ _ E1) as [x Ht]. assert (p ≠ t) as Hpt by (rewrite Ht; apply Htmp).
  assert (fs_open f1 p = fs_open f p) as <- by (apply (create_temp_other _ _ _ _ p E1); congruence).
  destruct (os_write t s f1) as [ok2 f2] eqn:E2. assert (fs_open f2 p = fs_open f1 p) as <- by apply (os_write_other _ _ _ _ _ _ E2 Hpt).
  pose proof (os_sync_same t f2 p) as H3. pose proof (λ f, os_close_same t f p) as H4. pose proof (λ f, os_remove_other t f p Hpt) as H5.
  destruct ok2; cbn [snd]; [|by rewrite H5, H4].
  destruct (os_sync t f2) as [[] f3]; cbn [snd] in *; [|by rewrite H5, H4].
  specialize (H4 f3). destruct (os_close t f3) as [[] f4]; cbn [snd] in *; [|by rewrite H5, H4].
  destruct (os_rename t path f4) as [[] f5] eqn:E5; cbn [snd]; rewrite H5.
  - rewrite (os_rename_other _ _ _ _ _ E5 Hpt Hp). congruence.
  - rewrite (os_rename_failed _ _ _ _ p E5). congruence.
Qed.

Lemma persistStale_files m c hs p : entry_path hs p → fs_open (c_fs (persistStale m c)) p = fs_open (c_fs c) p.
Proof.
  intros (h & _ & Hp). unfold persistStale. destruct (nonempty (diskRoot c)).
  - destruct (encode_map m); [|done]. simpl. apply atomicWriteFile_other; destruct Hp as [->| ->]; done.
  - destruct (encode_snapshot _ m); [|done].
    destruct (fs_write _ _ _) as [r f] eqn:E. assert (fs_open f p = fs_open (c_fs c) p) as Hf.
    { apply (write_other _ _ _ _ _ _ E). destruct Hp as [->| ->]; done. }
    by destruct r.
Qed.

(** A key left by a failed removal: kept in the report and marked stale. *)
Definition marked env (start : nat) w (key : string) : Prop :=
  ∃ m i, stale (w_cache w) !! key = Some m ∧ (start ≤ i)%nat ∧ clock env i ≤ m.

Definition discarded env (start : nat) (left : list string) w (e : preparedCacheEntry) : Prop :=
  gone w (p_hashedKey e) ∨ (p_key e ∈ left ∧ marked env start w (p_key e)).

(** Discarding one entry, and what it leaves alone. *)
Definition discard_one env (entry : preparedCacheEntry) : ST bool :=
  now ← ask (clock env);
  failed ← on_cache (discardUnadmitted (p_key entry) (p_hashedKey entry) (p_size entry) (p_storedAt entry) now);
  _ ← (if failed : bool then mark_residual env (p_key entry) else mret ());
  mret failed.

Lemma mark_residual_spec env key w w' :
  mark_residual env key w = ((), w') → ledger_inv (w_cache w) → (∀ i, 0 < clock env i) →
  ledger_inv (w_cache w') ∧ marked env (w_tick w) w' key ∧ w_tick w' = S (w_tick w) ∧
  (∀ hs p, entry_path hs p → file w' p = file w p) ∧
  ∀ k, k ≠ key → stale (w_cache w') !! k = stale (w_cache w) !! k.
Proof.
  unfold mark_residual, residual_marker. intros (now & w1 & [= <- <-] & [= <-])%ST_bind_inv Hl Hclock. cbn [w_cache w_tick].
  set (m := if Before _ _ then _ else _). split; [|split; [|split; [done|split]]].
  - destruct (set_markers_frame m (w_cache w)) as (g & f & ->). by apply (ledger_inv_ext (w_cache w)).
  - unfold marked. cbn [w_cache]. rewrite set_markers_stale. unfold m. specialize (Hclock (w_tick w)).
    destruct (Before _ _) eqn:Eb.
    + exists (clock env (w_tick w)), (w_tick w). rewrite lookup_insert_eq. split; [done|]. split; [lia|]. lia.
    + apply Before_false in Eb. destruct (stale (w_cache w) !! key) as [t|] eqn:Es; simpl in Eb; [|unfold zero_time in Eb; lia].
      exists t, (w_tick w). split; [done|]. split; [lia|done].
  - intros hs p Hp. unfold file. cbn [w_cache]. unfold set_markers. by rewrite (persistStale_files _ _ hs).
  - intros k Hk. rewrite set_markers_stale. unfold m. destruct (Before _ _); [|done]. by rewrite lookup_insert_ne.
Qed.

Lemma discard_one_spec env e w failed w' :
  discard_one env e w = (failed, w') → ledger_inv (w_cache w) → (∀ i, 0 < clock env i) →
  ledger_inv (w_cache w') ∧ (w_tick w ≤ w_tick w')%nat ∧
  (if failed then marked env (w_tick w) w' (p_key e) else gone w' (p_hashedKey e)) ∧
  (∀ h p, h ≠ p_hashedKey e → p = bodyPath h ∨ p = headerPath h → file w' p = file w p) ∧
  (∀ k, k ≠ p_key e → stale (w_cache w') !! k = stale (w_cache w) !! k).
Proof.
  unfold discard_one. intros (now & w1 & [= <- <-] & E)%ST_bind_inv Hl Hclock.
  apply ST_bind_inv in E as (failed1 & w2 & E2 & E). unfold on_cache in E2. cbn [w_cache] in E2.
  destruct (discardUnadmitted _ _ _ _ _ (w_cache w)) as [failed2 c2] eqn:Ed. injection E2 as <- <-.
  destruct (discardUnadmitted_files _ _ _ _ _ _ _ _ Hl Ed) as (Hgone & Hst & Hother).
  pose proof (discardUnadmitted_inv (p_key e) (p_hashedKey e) (p_size e) (p_storedAt e) (clock env (w_tick w)) (w_cache w) Hl) as Hl2.
  rewrite Ed in Hl2. cbn [snd] in Hl2.
  assert (∀ h p, h ≠ p_hashedKey e → p = bodyPath h ∨ p = headerPath h → fs_open (c_fs c2) p = file w p) as Hkeep.
  { intros h p Hh [->| ->]; apply Hother; try done; [by intros ->%bodyPath_inj|by intros ->%headerPath_inj]. }
  apply ST_bind_inv in E as ([] & w3 & E3 & [= <- <-]). destruct failed2.
  - destruct (mark_residual_spec env _ _ _ E3 Hl2 Hclock) as (Hl3 & Hm & Ht & Hf & Hs). cbn [w_tick w_cache] in *.
    split; [done|]. split; [lia|]. split.
    { destruct Hm as (m & i & ? & ? & ?). exists m, i. split; [done|]. split; [lia|done]. }
    split; [|intros k Hk; by rewrite Hs, Hst].
    intros h p Hh Hp. rewrite (Hf [h]); [by eapply Hkeep|]. exists h. split; [by left|done].
  - injection E3 as <-. cbn [w_tick w_cache]. split; [done|]. split; [lia|]. split; [by apply Hgone|].
    split; [intros h p Hh Hp; by eapply Hkeep|]. intros k _. by rewrite Hst.
Qed.

Lemma discard_all_spec env es w left w' :
  discard_all env es w = (left, w') → ledger_inv (w_cache w) → (∀ i, 0 < clock env i) →
  NoDup (p_hashedKey <$> es) → Forall (λ e, p_hashedKey e = hashKey (p_key e)) es →
  ledger_inv (w_cache w') ∧ (w_tick w ≤ w_tick w')%nat ∧ (∀ e, e ∈ es → discarded env (w_tick w) left w' e) ∧
  (∀ h p, h ∉ p_hashedKey <$> es → p = bodyPath h ∨ p = headerPath h → file w' p = file w p) ∧
  (∀ k, k ∉ p_key <$> es → stale (w_cache w') !! k = stale (w_cache w) !! k).
Proof.
  revert w left w'. induction es as [|e es IH]; intros w left w' E Hl Hclock Hnd Hhash.
  { injection E as <- <-. split; [done|]. split; [done|]. split; [by intros e ?%elem_of_nil|done]. }
  rewrite fmap_cons in Hnd. apply NoDup_cons in Hnd as [Hnot Hnd]. inversion_clear Hhash as [|? ? Hh Hhs].
  assert (∃ failed rest w1, discard_one env e w = (failed, w1) ∧ discard_all env es w1 = (rest, w') ∧
    left = if failed : bool then p_key e :: rest else rest) as (failed & rest & w1 & E1 & E2 & ->).
  { cbn [discard_all] in E. apply ST_bind_inv in E as (now & w1 & E1 & E).
    apply ST_bind_inv in E as (failed & w2 & E2 & E). apply ST_bind_inv in E as ([] & w3 & E3 & E).
    apply ST_bind_inv in E as (rest & w4 & E4 & [= <- <-]). exists failed, rest, w3. split; [|done].
    unfold discard_one, mbind, ST_bind. by rewrite E1, E2, E3. }
  destruct (discard_one_spec env _ _ _ _ E1 Hl Hclock) as (Hl1 & T1 & Hd1 & F1 & S1).
  destruct (IH _ _ _ E2 Hl1 Hclock Hnd Hhs) as (Hl2 & T2 & Hd2 & F2 & S2).
  assert (p_key e ∉ p_key <$> es) as Hkey.
  { intros (x & Hx & Hin)%list_elem_of_fmap. apply Hnot, list_elem_of_fmap. exists x. split; [|done].
    rewrite Forall_forall in Hhs. by rewrite Hh, Hx, (Hhs x Hin). }
  split; [done|]. split; [lia|]. split; [|split].
  - intros x [->|Hx]%elem_of_cons.
    + unfold discarded. destruct failed.
      * right. split; [by left|]. destruct Hd1 as (m & i & Hm & ? & ?). exists m, i. split; [by rewrite S2|done].
      * left. destruct Hd1 as [G1 G2]. split; rewrite (F2 (p_hashedKey e)); auto.
    + destruct (Hd2 x Hx) as [?|[Hin (m & i & ? & ? & ?)]]; [by left|right]. split; [destruct failed; [by right|done]|].
      exists m, i. split; [done|]. split; [lia|done].
  - intros h p Hh' Hp. rewrite fmap_cons, not_elem_of_cons in Hh'. rewrite (F2 h p), (F1 h p); tauto.
  - intros k Hk. rewrite fmap_cons, not_elem_of_cons in Hk. rewrite S2, S1; tauto.
Qed.

(** What a failed transaction leaves: every entry as it was, or none. *)
Definition rolled_back env (es : list preparedCacheEntry) w w' (left : list string) : Prop :=
  (∀ p, entry_path (p_hashedKey <$> es) p → file w' p = file w p) ∨
  (∀ e, e ∈ es → discarded env (w_tick w) left w' e).

Lemma discardPreparedStore_spec env err es w0 w r w' hs own :
  discardPreparedStore env err es w = (r, w') → Forall entry_for es → NoDup (p_hashedKey <$> es) →
  (∀ i, 0 < clock env i) → store_inv hs w0 → keeps hs own w0 w → (∀ h, h ∈ p_hashedKey <$> es → h ∈ hs) →
  (∀ p, p ∈ own → entry_path hs p → p ∈ all_owned es) →
  ∃ left, r = Some (err, left) ∧ ledger_inv (w_cache w') ∧ rolled_back env es w0 w' left.
Proof.
  intros E Hfor Hnd Hclock Hi K Hhs Hown. unfold discardPreparedStore in E.
  apply ST_bind_inv in E as ([pub es2] & w1 & E1 & E). destruct (abandon_all_kept hs _ _ _ _ _ E1 Hfor) as (K1 & -> & Hsame & _).
  pose proof (k_inv _ _ _ _ (K Hi)) as Hi1. pose proof (k_inv _ _ _ _ (K1 Hi1)) as Hi2.
  destruct (anyPublished (staged_files es)) eqn:Epub.
  - apply ST_bind_inv in E as (left & w2 & E2 & [= <- <-]). exists left. split; [done|].
    assert (p_hashedKey <$> es2 = p_hashedKey <$> es ∧ Forall (λ e, p_hashedKey e = hashKey (p_key e)) es2 ∧
      ∀ e, e ∈ es → ∃ e2, e2 ∈ es2 ∧ same_entry e e2) as (Hh2 & Hk2 & Hin2).
    { clear -Hsame Hfor. revert Hfor. induction Hsame as [|x y l k (Hk & Hh & Ht) _ IH]; intros Hfor.
      - split; [done|]. split; [done|]. by intros e ?%elem_of_nil.
      - inversion_clear Hfor as [|? ? (Hx & _) Hf]. destruct (IH Hf) as (E & F & G). split; [by rewrite !fmap_cons, Hh, E|].
        split; [constructor; [by rewrite Hk, Hh|done]|]. intros e [->|He]%elem_of_cons; [exists y; by split; [left|]|].
        destruct (G e He) as (e2 & ? & ?). exists e2. by split; [right|]. }
    rewrite <- Hh2 in Hnd. destruct (discard_all_spec env _ _ _ _ E2 (si_ledger _ _ Hi2) Hclock Hnd Hk2) as (Hl & _ & Hd & _ & _).
    split; [done|]. right. intros e He. destruct (Hin2 e He) as (e2 & He2 & Hk & Hh & _). unfold discarded in *.
    rewrite <- Hk, <- Hh. destruct (Hd e2 He2) as [?|[? (m & i & ? & ? & ?)]]; [by left|right]. split; [done|]. exists m, i.
    split; [done|]. split; [|done]. pose proof (k_tick _ _ _ _ (K Hi)). pose proof (k_tick _ _ _ _ (K1 Hi1)). lia.
  - injection E as <- <-. exists []. split; [done|]. split; [apply Hi2|]. left. intros p Hp.
    pose proof (entry_path_mono _ hs p Hhs Hp) as Hp'.
    assert (all_owned es = []) as Hnone.
    { clear -Epub. unfold anyPublished, staged_files, all_owned in *. induction es as [|e es IH]; [done|].
      rewrite bind_cons in Epub. rewrite bind_cons. cbn [app existsb] in Epub. rewrite !orb_false_iff in Epub. destruct Epub as (Hb & Hh & Hr).
      rewrite IH by done. unfold entry_owned, owned. destruct (p_body e) as [b|], (p_header e) as [h|]; rewrite ?Hb, ?Hh; done. }
    rewrite (k_files _ _ _ _ (K1 Hi1)); [apply (k_files _ _ _ _ (K Hi)); [by left|]|by left|].
    + intros Hin. specialize (Hown p Hin Hp'). rewrite Hnone in Hown. by apply elem_of_nil in Hown.
    + intros (e & Hin & He)%list_elem_of_bind. apply (entry_not_staging _ _ Hp'). rewrite Forall_forall in Hfor.
      destruct (Hfor e He) as (_ & Fb & Fh). unfold tmp_of in Hin.
      apply elem_of_app in Hin as [Hin|Hin]; [destruct (p_body e) as [b|]|destruct (p_header e) as [b|]]; try by apply elem_of_nil in Hin.
      all: cbn in Fb, Fh; destruct (nonempty (tmpPath b)); [|by apply elem_of_nil in Hin].
      all: apply list_elem_of_singleton in Hin as ->; [by apply Fb || by apply Fh].
Qed.

(** ** The transaction *)

Definition entry_paths (es : list preparedCacheEntry) : list string :=
  es ≫= λ e, [bodyPath (p_hashedKey e); headerPath (p_hashedKey e)].

Lemma staged_files_owned es : staged_files es ≫= owned = all_owned es.
Proof.
  unfold staged_files, all_owned. induction es as [|e es IH]; [done|]. rewrite !bind_cons. cbn [app].
  rewrite !bind_cons, IH. unfold entry_owned. by rewrite app_assoc.
Qed.

Lemma staged_files_tmps es : staged_files es ≫= tmp_of = all_tmps es.
Proof.
  unfold staged_files, all_tmps. induction es as [|e es IH]; [done|]. rewrite !bind_cons. cbn [app].
  by rewrite !bind_cons, IH, app_assoc.
Qed.

Lemma staged_files_for es : Forall entry_for es → Forall2 staged_for (entry_paths es) (staged_files es).
Proof.
  unfold entry_paths, staged_files. induction 1 as [|e es (_ & Hb & Hh) _ IH]; [constructor|].
  rewrite !bind_cons. cbn [app]. by repeat constructor.
Qed.

Lemma restage_spec es l :
  Forall entry_for es → Forall2 staged_for (entry_paths es) l →
  Forall entry_for (restage es l) ∧ Forall2 same_entry es (restage es l) ∧ staged_files (restage es l) = l ∧
  p_size <$> restage es l = p_size <$> es.
Proof.
  intros Hes. revert l. induction Hes as [|e es (Hk & _ & _) _ IH]; intros l Hl.
  { apply Forall2_nil_inv_l in Hl as ->. done. }
  unfold entry_paths in Hl. rewrite bind_cons in Hl. cbn [app] in Hl. inversion Hl as [|? b ? l1 Hb Hl1]; subst. inversion Hl1 as [|? h ? l2 Hh Hl2]; subst.
  destruct (IH l2 Hl2) as (F & S & E & Z). cbn [restage]. split; [by constructor|]. split; [by constructor|].
  split; [unfold staged_files in *; rewrite bind_cons, E; done|]. by rewrite !fmap_cons, Z.
Qed.

Lemma entry_paths_NoDup es : NoDup (p_hashedKey <$> es) → NoDup (entry_paths es).
Proof.
  unfold entry_paths. induction es as [|e es IH]; [intros _; apply NoDup_nil_2|]. rewrite fmap_cons, bind_cons. cbn [app].
  intros [Hnot Hnd]%NoDup_cons.
  assert (∀ p, p ∈ (es ≫= λ e, [bodyPath (p_hashedKey e); headerPath (p_hashedKey e)]) →
    entry_path (p_hashedKey <$> es) p) as Hin.
  { intros p (x & Hp & Hx)%list_elem_of_bind. exists (p_hashedKey x). split; [by apply list_elem_of_fmap_2|].
    rewrite !elem_of_cons in Hp. destruct Hp as [?|[?|?%elem_of_nil]]; auto. done. }
  constructor; [|constructor; [|by apply IH]].
  - intros [?|Hp%Hin]%elem_of_cons; [done|]. apply Hnot. eapply entry_path_hash, Hp. by left.
  - intros Hp%Hin. apply Hnot. eapply entry_path_hash, Hp. by right.
Qed.

Lemma same_entries_hashes es es' : Forall2 same_entry es es' → p_hashedKey <$> es' = p_hashedKey <$> es.
Proof. induction 1 as [|x y l k (_ & Hxy & _) _ IH]; [done|]. by rewrite !fmap_cons, IH, Hxy. Qed.

Lemma rolled_back_same env es es' w w' left : Forall2 same_entry es es' → rolled_back env es' w w' left → rolled_back env es w w' left.
Proof.
  intros Hs [Hf|Hd]; [left|right].
  - by rewrite (same_entries_hashes _ _ Hs) in Hf.
  - assert (Forall2 (λ e' e, same_entry e e') es' es) as Hs' by (by apply Forall2_flip).
    intros e He. destruct (Forall2_in_r _ _ _ _ Hs' He) as (e' & He' & Hk & Hh & _).
    unfold discarded in *. rewrite <- Hk, <- Hh. by apply Hd.
Qed.

Lemma Forall2_same_trans es1 es2 es3 : Forall2 same_entry es1 es2 → Forall2 same_entry es2 es3 → Forall2 same_entry es1 es3.
Proof.
  intros H12. revert es3. induction H12 as [|x y l k (? & ? & ?) _ IH]; intros es3 H23; inversion H23 as [|? z ? k' (? & ? & ?)]; subst; constructor; auto.
  unfold same_entry. by split_and!; congruence.
Qed.

(** The state a transaction starts from. *)
Record transaction_start env hs (es : list preparedCacheEntry) w : Prop := {
  ts_inv : store_inv hs w;
  ts_fresh : Forall fresh_entry es;
  ts_hashes : ∀ h, h ∈ p_hashedKey <$> es → h ∈ hs;
  ts_nodup : NoDup (p_hashedKey <$> es);
  ts_clock : ∀ i, 0 < clock env i;
}.

Lemma prepareStoreEntries_kept env budgeted hs res es w es' err w' :
  prepareStoreEntries env budgeted res es w = ((es', err), w') → transaction_start env hs es w →
  keeps hs (all_owned es') w w' ∧ Forall2 same_entry es es' ∧ Forall entry_for es' ∧
  (err = None → Forall (entry_ready w w' (integrity_on (w_cache w)) res) es' ∧ NoDup (all_tmps es')).
Proof.
  intros E [Hi Hfresh Hhs Hnd _]. unfold prepareStoreEntries in E. apply ST_bind_inv in E as ([es1 err1] & w1 & E1 & E).
  destruct (prepare_entries_kept env budgeted hs res _ _ _ _ _ E1 Hfresh) as (K1 & S1 & F1 & R1); [|done|].
  { intros e He. by apply Hhs, list_elem_of_fmap_2. }
  destruct err1 as [e1|]; [by injection E as <- <- <-|]. apply ST_bind_inv in E as (ended & w2 & E2 & [= <- <- <-]).
  pose proof (keeps_ask hs _ _ _ _ E2) as K2. pose proof (k_inv _ _ _ _ (K1 Hi)) as Hi1.
  split; [rewrite <- (app_nil_r (all_owned _)); by eapply keeps_trans|]. split; [done|]. split; [done|]. intros _.
  destruct (R1 eq_refl Hi) as (Hr & Hn & _). split; [|done]. rewrite Forall_forall in Hr, F1 |- *. intros e He.
  pose proof (F1 e He) as Hf. assert (p_hashedKey e ∈ hs) as Hin.
  { apply Hhs. rewrite <- (same_entries_hashes _ _ S1). by apply list_elem_of_fmap_2. }
  eapply (entry_ready_kept hs [] _ w1); [done|done|by apply Hr|done|done|apply not_elem_of_nil|apply not_elem_of_nil|].
  intros p []%elem_of_nil.
Qed.

Lemma store_transaction_failed env budgeted hs res es w err left w' :
  store_transaction env budgeted res es w = (Some (err, left), w') → transaction_start env hs es w →
  ledger_inv (w_cache w') ∧ rolled_back env es w w' left.
Proof.
  intros E Hts. pose proof Hts as [Hi Hfresh Hhs Hnd Hclock]. unfold store_transaction in E.
  apply ST_bind_inv in E as ([es1 err1] & w1 & E1 & E).
  destruct (prepareStoreEntries_kept env budgeted hs res _ _ _ _ _ E1 Hts) as (K1 & S1 & F1 & _).
  pose proof (same_entries_hashes _ _ S1) as Hh1.
  assert (∀ er own es2 w2, Forall2 same_entry es1 es2 → Forall entry_for es2 → keeps hs own w w2 →
    (∀ p, p ∈ own → entry_path hs p → p ∈ all_owned es2) →
    discardPreparedStore env er es2 w2 = (Some (err, left), w') → ledger_inv (w_cache w') ∧ rolled_back env es w w' left) as Hdiscard.
  { intros er own es2 w2 S2 F2 K2 Hown Ed. pose proof (Forall2_same_trans _ _ _ S1 S2) as S12. pose proof (same_entries_hashes _ _ S12) as Hh2.
    destruct (discardPreparedStore_spec env _ _ w _ _ _ hs own Ed F2) as (l & [= <- <-] & Hl & Hr); [by rewrite Hh2|done|done|done|by rewrite Hh2|done|].
    split; [done|]. by eapply rolled_back_same. }
  assert (Forall2 same_entry es1 es1) as Srefl by (clear; induction es1; by constructor).
  destruct err1 as [e1|]; [by eapply Hdiscard|].
  apply ST_bind_inv in E as (ended & w2 & E2 & E). pose proof (keeps_ask hs _ _ _ _ E2) as K2.
  assert (keeps hs (all_owned es1) w w2) as K12 by (rewrite <- (app_nil_r (all_owned _)); by eapply keeps_trans).
  destruct ended; [by eapply Hdiscard|].
  apply ST_bind_inv in E as ([l' err3] & w3 & E3 & E). destruct err3 as [e3|].
  2: { by apply ST_bind_inv in E as ([] & w4 & _ & [= ]). }
  destruct (commitStagedLocked_kept hs _ _ _ _ _ _ E3 (staged_files_for _ F1)) as (K3 & F3 & _ & Hsub).
  destruct (restage_spec _ _ F1 F3) as (Fr & Sr & Er & _).
  eapply (Hdiscard e3 _ (restage es1 l') w3 Sr Fr (keeps_trans _ _ _ _ _ _ K12 K3)); [|exact E].
  intros p Hp Hpath. rewrite <- staged_files_owned, Er. rewrite staged_files_owned in Hsub.
  rewrite !elem_of_app in Hp. destruct Hp as [Hp|[Hp|Hp]]; [by apply Hsub|done|].
  apply list_elem_of_bind in Hp as (o & Hp & Ho). destruct (entry_not_staging _ _ Hpath).
  apply (Forall2_in_r _ _ _ _ (staged_files_for _ F1)) in Ho as (path & _ & Hf).
  destruct o as [e|]; [|by apply elem_of_nil in Hp]. unfold tmp_of in Hp. destruct Hf as [_ Hst].
  destruct (nonempty (tmpPath e)); [|by apply elem_of_nil in Hp]. apply list_elem_of_singleton in Hp as ->. by apply Hst.
Qed.

(** The files and the record of a stored entry. *)
Definition entry_stored (integrity : bool) (res : Resource) w (e : preparedCacheEntry) : Prop :=
  ∃ raw, stored_header integrity res e = Some raw ∧
    file w (bodyPath (p_hashedKey e)) = Opened (stored_body res) ∧ file w (headerPath (p_hashedKey e)) = Opened raw ∧
    p_size e = wrap64 (str_len (stored_body res) + str_len raw) ∧
    ∀ n, expectedBodySize (r_header res) = Some n → str_len (stored_body res) = n.

Definition tracked w (e : preparedCacheEntry) : Prop :=
  ∃ en, lruIndex (w_cache w) !! p_hashedKey e = Some en ∧ e_size en = p_size e ∧ e_storedAt en = p_storedAt e ∧
        is_Some (e_generation en).

Lemma track_one_spec env e w w' :
  track_one env e w = ((), w') → p_storedAt e ≠ zero_time →
  (∀ p, file w' p = file w p) ∧ tracked w' e ∧ (stale (w_cache w') = stale (w_cache w) ∧ config (w_cache w') = config (w_cache w)) ∧
  ∀ h, h ≠ p_hashedKey e → lruIndex (w_cache w') !! h = lruIndex (w_cache w) !! h.
Proof.
  unfold track_one. intros (now & w1 & [= <- <-] & [= <-])%ST_bind_inv Hz. unfold file, tracked. cbn [w_cache].
  unfold trackEntry. cbv zeta. unfold IsZero. rewrite (proj2 (Z.eqb_neq _ 0) Hz).
  destruct (lruIndex _ !! p_hashedKey e) as [en|] eqn:El; simpl in El |- *;
    (split; [done|]; split; [eexists; rewrite lookup_insert_eq; split; [done|]; by eauto|]; split; [by split|];
     intros h Hh; by rewrite lookup_insert_ne).
Qed.

Lemma track_one_inv env e w w' : track_one env e w = ((), w') → ledger_inv (w_cache w) → 0 ≤ p_size e → ledger_inv (w_cache w').
Proof. unfold track_one. intros (now & w1 & [= <- <-] & [= <-])%ST_bind_inv Hl Hs. cbn [w_cache]. by apply trackEntry_inv. Qed.

Lemma track_all_inv env es w w' :
  for_each (track_one env) es w = ((), w') → ledger_inv (w_cache w) → Forall (λ e, 0 ≤ p_size e) es → ledger_inv (w_cache w').
Proof.
  intros E Hl Hs. revert w E Hl. induction Hs as [|e es He _ IH]; intros w E Hl; cbn [for_each] in E; [by injection E as <-|].
  apply ST_bind_inv in E as ([] & w1 & E1 & E). apply (IH w1 E). by eapply track_one_inv.
Qed.

Lemma track_all_spec env es w w' :
  for_each (track_one env) es w = ((), w') → Forall (λ e, p_storedAt e ≠ zero_time) es → NoDup (p_hashedKey <$> es) →
  (∀ p, file w' p = file w p) ∧ (∀ e, e ∈ es → tracked w' e) ∧ (stale (w_cache w') = stale (w_cache w) ∧ config (w_cache w') = config (w_cache w)) ∧
  ∀ h, h ∉ p_hashedKey <$> es → lruIndex (w_cache w') !! h = lruIndex (w_cache w) !! h.
Proof.
  intros E Hz. revert w E. induction Hz as [|e es Hz Hzs IH]; intros w E Hnd; cbn [for_each] in E.
  { injection E as <-. split; [done|]. split; [by intros e ?%elem_of_nil|done]. }
  rewrite fmap_cons in Hnd. apply NoDup_cons in Hnd as [Hnot Hnd].
  apply ST_bind_inv in E as ([] & w1 & E1 & E). destruct (track_one_spec _ _ _ _ E1 Hz) as (F1 & T1 & [S1 C1] & L1).
  destruct (IH _ E Hnd) as (F & T & [S C] & L). split; [intros p; by rewrite F, F1|]. split; [|split; [by rewrite S, C|]].
  - intros x [->|Hx]%elem_of_cons; [|by apply T]. destruct T1 as (en & Hen & ?). exists en. by rewrite L.
  - intros h Hh. rewrite fmap_cons, not_elem_of_cons in Hh. rewrite L, L1; tauto.
Qed.

Lemma release_all_spec es w w' :
  for_each (λ e, set_cache (releaseReservation (p_hashedKey e))) es w = ((), w') →
  (∀ p, file w' p = file w p) ∧ (stale (w_cache w') = stale (w_cache w) ∧ config (w_cache w') = config (w_cache w)) ∧ lruIndex (w_cache w') = lruIndex (w_cache w) ∧
  (ledger_inv (w_cache w) → ledger_inv (w_cache w')).
Proof.
  revert w. induction es as [|e es IH]; intros w E; cbn [for_each] in E; [by injection E as <-|].
  apply ST_bind_inv in E as ([] & w1 & [= <-] & E). destruct (IH _ E) as (F & [S C] & L & I).
  split; [intros p; by rewrite F|]. split; [by rewrite S, C|]. split; [by rewrite L|]. intros Hl. apply I. by apply releaseReservation_inv.
Qed.

Lemma begin_all_spec env keys w es w' :
  mapM (begin_entry env) keys w = (es, w') → ledger_inv (w_cache w) → NoDup (hashKey <$> keys) →
  (∀ k, k ∈ keys → active (w_cache w) (hashKey k) = false) →
  p_key <$> es = keys ∧ Forall fresh_entry es ∧ store_inv (hashKey <$> keys) w' ∧ (∀ p, file w' p = file w p) ∧
  config (w_cache w') = config (w_cache w) ∧ stale (w_cache w') = stale (w_cache w) ∧ (w_tick w ≤ w_tick w')%nat ∧
  Forall (λ e, ∃ i, (w_tick w ≤ i)%nat ∧ p_storedAt e = clock env i) es ∧
  (∀ h, h ∉ hashKey <$> keys → reservations (w_cache w') !! h = reservations (w_cache w) !! h).
Proof.
  revert w es w'. induction keys as [|k keys IH]; intros w es w' E Hl Hnd Hact; cbn [mapM] in E.
  { injection E as <- <-. split; [done|]. split; [done|]. split; [|done]. split; [done|]. by intros h ?%elem_of_nil. }
  rewrite fmap_cons in Hnd. apply NoDup_cons in Hnd as [Hnot Hnd].
  apply ST_bind_inv in E as (e & w1 & E1 & E). apply ST_bind_inv in E as (es1 & w2 & E2 & [= <- <-]).
  assert (e = {| p_key := k; p_hashedKey := hashKey k; p_storedAt := clock env (w_tick w); p_body := None; p_header := None; p_size := 0 |} ∧
    w1 = {| w_cache := beginReservation (hashKey k) (w_cache w); w_tick := S (w_tick w); w_leases := w_leases w |}) as [-> ->].
  { unfold begin_entry in E1. apply ST_bind_inv in E1 as (now & wa & [= <- <-] & E1).
    apply ST_bind_inv in E1 as ([] & wb & [= <-] & [= <- <-]). done. }
  destruct (IH _ _ _ E2) as (Hk & Hf & [Hl2 Ha2] & Hfile & Hc & Hs & Ht & Hst & Hres); cbn [w_cache w_tick] in *.
  - apply beginReservation_inv; [done|]. apply Hact. by left.
  - done.
  - intros k' Hk'. assert (hashKey k' ≠ hashKey k) as Hne.
    { intros Heq. apply Hnot. rewrite <- Heq. by apply list_elem_of_fmap_2. }
    unfold active, beginReservation. cbn [reservations set_reservations]. rewrite lookup_insert_ne by done. apply Hact. by right.
  - split; [by rewrite fmap_cons, Hk|]. split; [by constructor|]. split; [|split; [by intros p; rewrite Hfile|split; [done|split; [done|split; [lia|split]]]]].
    + split; [done|]. rewrite fmap_cons. intros h [->|Hh]%elem_of_cons; [|by apply Ha2].
      rewrite (Hres _ Hnot). unfold beginReservation. cbn [reservations set_reservations]. rewrite lookup_insert_eq. by eauto.
    + constructor; [exists (w_tick w); split; [lia|done]|]. apply (Forall_impl _ _ _ Hst).
      intros x (i & Hi & ?). exists i. split; [lia|done].
    + intros h Hh. rewrite fmap_cons, not_elem_of_cons in Hh. rewrite Hres by tauto. unfold beginReservation.
      cbn [reservations set_reservations]. rewrite lookup_insert_ne; [done|]. destruct Hh as [Hh _]. by intros Heq; apply Hh.
Qed.

Lemma unique_keys_spec keys seen :
  NoDup (hashKey <$> unique_keys keys seen) ∧ (∀ k, k ∈ unique_keys keys seen → k ∈ keys ∧ hashKey k ∉ seen) ∧
  ∀ k, k ∈ keys → hashKey k ∈ seen ∨ ∃ k', k' ∈ unique_keys keys seen ∧ hashKey k' = hashKey k.
Proof.
  revert seen. induction keys as [|k keys IH]; intros seen; cbn [unique_keys].
  { split; [apply NoDup_nil_2|]. split; by intros k ?%elem_of_nil. }
  destruct (decide (hashKey k ∈ seen)) as [Hin|Hnin].
  - destruct (IH seen) as (N & I & C). split; [done|]. split; [intros k' Hk'; destruct (I k' Hk'); by split; [right|]|].
    intros k' [->|Hk']%elem_of_cons; [by left|by apply C].
  - destruct (IH (hashKey k :: seen)) as (N & I & C). split; [|split].
    + rewrite fmap_cons. apply NoDup_cons. split; [|done]. intros (k' & Heq & Hk')%list_elem_of_fmap.
      destruct (I k' Hk') as [_ Hno]. apply Hno. rewrite <- Heq. by left.
    + intros k' [->|Hk']%elem_of_cons; [by split; [left|]|]. destruct (I k' Hk') as [? Hno]. split; [by right|].
      rewrite not_elem_of_cons in Hno. tauto.
    + intros k' [->|Hk']%elem_of_cons; [right; exists k; by split; [left|]|].
      destruct (C k' Hk') as [[Heq|Hs]%elem_of_cons|(x & Hx & Hxe)]; [right; exists k; by split; [left|]|by left|].
      right. exists x. by split; [right|].
Qed.

Lemma ready_files_staged w0 w integrity res es :
  Forall (entry_ready w0 w integrity res) es → Forall entry_for es →
  ∃ pds, Forall2 (λ pd o, staged_for pd.1 o ∧ staged_data w0 w o pd.1 pd.2) pds (staged_files es) ∧ pds.*1 = entry_paths es ∧
    ∀ e, e ∈ es → ∃ raw, stored_header integrity res e = Some raw ∧
      (bodyPath (p_hashedKey e), stored_body res) ∈ pds ∧ (headerPath (p_hashedKey e), raw) ∈ pds ∧
      p_size e = wrap64 (str_len (stored_body res) + str_len raw) ∧
      ∀ n, expectedBodySize (r_header res) = Some n → str_len (stored_body res) = n.
Proof.
  intros Hr Hf. induction Hr as [|e es (Hb & (raw & Hraw & Hh & Hsz) & Hlen & _) _ IH].
  { exists []. split; [constructor|]. split; [done|]. by intros e ?%elem_of_nil. }
  inversion_clear Hf as [|? ? (_ & Fb & Fh) Hf']. destruct (IH Hf') as (pds & Hpds & Hp & Hin).
  exists ((bodyPath (p_hashedKey e), stored_body res) :: (headerPath (p_hashedKey e), raw) :: pds).
  unfold staged_files, entry_paths in *. rewrite !bind_cons, !fmap_cons, Hp. cbn [app fst].
  split; [by repeat constructor|]. split; [done|]. intros e0 [->|Hx]%elem_of_cons.
  - exists raw. split; [done|]. split; [by left|]. by split; [right; left|].
  - destruct (Hin e0 Hx) as (r & ? & ? & ? & ?). exists r. split; [done|]. split; [by right; right|]. by split; [right; right|].
Qed.

Lemma store_transaction_done env budgeted hs res es w w' :
  store_transaction env budgeted res es w = (None, w') → transaction_start env hs es w → Forall (λ e, p_storedAt e ≠ zero_time) es →
  (stale (w_cache w') = stale (w_cache w) ∧ config (w_cache w') = config (w_cache w)) ∧ ∃ es', Forall2 same_entry es es' ∧
    (∀ e, e ∈ es' → entry_stored (integrity_on (w_cache w)) res w' e ∧ tracked w' e) ∧
    (Forall (λ e, 0 ≤ p_size e) es' → ledger_inv (w_cache w')).
Proof.
  intros E Hts Hz. pose proof Hts as [Hi Hfresh Hhs Hnd Hclock]. unfold store_transaction in E.
  apply ST_bind_inv in E as ([es1 err1] & w1 & E1 & E).
  destruct (prepareStoreEntries_kept env budgeted hs res _ _ _ _ _ E1 Hts) as (K1 & S1 & F1 & R1).
  assert (∀ e es2 w2, discardPreparedStore env e es2 w2 = (None, w') → False) as Hno.
  { intros e es2 w2 Ed. unfold discardPreparedStore in Ed. apply ST_bind_inv in Ed as ([[] es3] & w3 & _ & Ed); [|by injection Ed].
    by apply ST_bind_inv in Ed as (left & w4 & _ & [= ]). }
  destruct err1 as [e1|]; [by apply Hno in E|]. destruct (R1 eq_refl) as [Hready Htmps].
  apply ST_bind_inv in E as (ended & w2 & E2 & E). pose proof (keeps_ask hs _ _ _ _ E2) as K2.
  destruct ended; [by apply Hno in E|]. pose proof (k_inv _ _ _ _ (K1 Hi)) as Hi1. pose proof (k_inv _ _ _ _ (K2 Hi1)) as Hi2.
  apply ST_bind_inv in E as ([l' err3] & w3 & E3 & E). destruct err3 as [e3|]; [by apply Hno in E|].
  apply ST_bind_inv in E as ([] & w4 & E4 & [= <-]).
  pose proof (same_entries_hashes _ _ S1) as Hh1.
  destruct (ready_files_staged _ _ _ _ _ Hready F1) as (pds & Hpds & Hpaths & Hin).
  destruct (commitStagedLocked_kept hs _ _ _ _ _ _ E3 (staged_files_for _ F1)) as (K3 & F3 & _ & _).
  destruct (restage_spec _ _ F1 F3) as (Fr & Sr & _ & Zr). pose proof (same_entries_hashes _ _ Sr) as Hhr.
  assert (∀ pd, pd ∈ pds → file w3 pd.1 = Opened pd.2) as Hdone.
  { apply (commitStagedLocked_done hs w pds (staged_files es1) w2 l'); [done| |done| |by rewrite Hpaths; apply entry_paths_NoDup; rewrite Hh1|by rewrite staged_files_tmps].
    - injection E2 as _ <-. exact Hpds.
    - intros pd Hpd. apply (entry_path_mono (p_hashedKey <$> es1)); [rewrite Hh1; exact Hhs|].
      assert (pd.1 ∈ entry_paths es1) as Hp by (rewrite <- Hpaths; by apply list_elem_of_fmap_2).
      apply list_elem_of_bind in Hp as (x1 & Hp & Hx). exists (p_hashedKey x1). split; [by apply list_elem_of_fmap_2|].
      rewrite !elem_of_cons in Hp. destruct Hp as [?|[?|?%elem_of_nil]]; auto. done. }
  pose proof (Forall2_same_trans _ _ _ S1 Sr) as S13.
  assert (Forall (λ e, p_storedAt e ≠ zero_time) (restage es1 l')) as Hz3.
  { clear -S13 Hz. revert Hz. induction S13 as [|x y l k (_ & _ & Ht) _ IH]; intros Hz; [done|].
    inversion_clear Hz as [|? ? Hx Hl]. constructor; [by rewrite Ht|by apply IH]. }
  destruct (track_all_spec _ _ _ _ E4 Hz3) as (F4 & T4 & [S4 C4] & _); [by rewrite Hhr, Hh1|].
  split.
  { rewrite S4, C4, (k_stale _ _ _ _ (K3 Hi2)), (k_config _ _ _ _ (K3 Hi2)), (k_stale _ _ _ _ (K2 Hi1)), (k_config _ _ _ _ (K2 Hi1)).
    by rewrite (k_stale _ _ _ _ (K1 Hi)), (k_config _ _ _ _ (K1 Hi)). }
  exists (restage es1 l'). split; [done|]. split.
  2: { apply (track_all_inv _ _ _ _ E4). apply (si_ledger hs). exact (k_inv _ _ _ _ (K3 Hi2)). }
  intros e He. split; [|by apply T4].
  assert (∃ e1, e1 ∈ es1 ∧ same_entry e1 e ∧ p_size e = p_size e1) as (e1 & He1 & (Hk & Hh & Ht) & Hs).
  { clear -Sr Zr He. revert Zr He. induction Sr as [|x y l k Hxy _ IH]; intros Zr He; [by apply elem_of_nil in He|].
    rewrite !fmap_cons in Zr. injection Zr as Zy Zr. apply elem_of_cons in He as [->|He]; [exists x; by split; [left|]|].
    destruct (IH Zr He) as (e1 & ? & ?). exists e1. by split; [right|]. }
  destruct (Hin e1 He1) as (raw & Hraw & Hb & Hhd & Hsz & Hlen). exists raw.
  split; [unfold stored_header in *; by rewrite Hk, Ht|]. rewrite !F4, Hh, Hs. split; [exact (Hdone _ Hb)|]. by split; [exact (Hdone _ Hhd)|].
Qed.

(** The steps of a store before its transaction. *)
Lemma StoreContext_begins env budgeted res keys w r w' :
  StoreContext env budgeted res keys w = (r, w') → ledger_inv (w_cache w) →
  (∀ k, k ∈ keys → active (w_cache w) (hashKey k) = false) → (∀ i, 0 < clock env i) →
  (w_cache w' = w_cache w ∧ (r = None → keys = [] ∨ responseSuperseded res (lockStoreKeys keys) (w_cache w) = true)) ∨
  ∃ es w1 w2, p_key <$> es = lockStoreKeys keys ∧ transaction_start env (hashKey <$> lockStoreKeys keys) es w1 ∧
    (∀ p, file w1 p = file w p) ∧ stale (w_cache w1) = stale (w_cache w) ∧ config (w_cache w1) = config (w_cache w) ∧
    (w_tick w ≤ w_tick w1)%nat ∧ Forall (λ e, ∃ i, (w_tick w ≤ i)%nat ∧ p_storedAt e = clock env i) es ∧
    store_transaction env budgeted res es w1 = (r, w2) ∧
    (∀ p, file w' p = file w2 p) ∧ (stale (w_cache w') = stale (w_cache w2) ∧ config (w_cache w') = config (w_cache w2)) ∧ lruIndex (w_cache w') = lruIndex (w_cache w2) ∧
    (ledger_inv (w_cache w2) → ledger_inv (w_cache w')).
Proof.
  intros E Hl Hact Hclock. unfold StoreContext in E.
  apply ST_bind_inv in E as (ended & w1 & E1 & E). assert (w_cache w1 = w_cache w ∧ (w_tick w ≤ w_tick w1)%nat) as [Hc1 T1] by (injection E1 as _ <-; simpl; auto).
  destruct ended; [injection E as <- <-; left; by split|].
  destruct keys as [|k0 keys0] eqn:Ek; [injection E as <- <-; left; split; [done|by left]|]. rewrite <- Ek in *. clear Ek k0 keys0.
  apply ST_bind_inv in E as (ended & w2 & E2 & E). assert (w_cache w2 = w_cache w1 ∧ (w_tick w1 ≤ w_tick w2)%nat) as [Hc2 T2] by (injection E2 as _ <-; simpl; auto).
  destruct ended; [injection E as <- <-; left; split; [congruence|done]|].
  apply ST_bind_inv in E as (c & w2' & [= <- <-] & E). rewrite Hc2, Hc1 in E.
  destruct (responseSuperseded res (lockStoreKeys keys) (w_cache w)) eqn:Es; [injection E as <- <-; left; split; [congruence|by right]|].
  right. apply ST_bind_inv in E as (es & w3 & E3 & E). apply ST_bind_inv in E as (r1 & w4 & E4 & E).
  apply ST_bind_inv in E as ([] & w5 & E5 & [= <- <-]).
  destruct (unique_keys_spec keys []) as (Hnd & Hin & _). fold (lockStoreKeys keys) in *.
  destruct (begin_all_spec _ _ _ _ _ E3) as (Hk & Hf & Hinv & Hfile & Hcfg & Hst & Ht & Hat & _); [by rewrite Hc2, Hc1|done| |].
  { intros k Hk. rewrite Hc2, Hc1. by apply Hact, Hin. }
  destruct (release_all_spec _ _ _ E5) as (F5 & S5 & L5 & I5).
  assert (p_hashedKey <$> es = hashKey <$> lockStoreKeys keys) as Hhash.
  { rewrite <- Hk. clear -Hf. induction Hf as [|e es (Hh & _) _ IH]; [done|]. by rewrite !fmap_cons, IH, Hh. }
  exists es, w3, w4. split; [done|]. split.
  { split; [done|done|by rewrite Hhash|by rewrite Hhash|done]. }
  split; [intros p; rewrite Hfile; unfold file; by rewrite Hc2, Hc1|].
  split; [by rewrite Hst, Hc2, Hc1|]. split; [by rewrite Hcfg, Hc2, Hc1|]. split; [lia|].
  split; [apply (Forall_impl _ _ _ Hat); intros x (i & Hi & ?); exists i; split; [lia|done]|]. done.
Qed.
(** ** Entries of other keys *)

(** An entry of another key stays, or is evicted; settings stay. *)
Definition evicts hs w w' : Prop :=
  config (w_cache w') = config (w_cache w) ∧
  ∀ h p, h ∉ hs → p = bodyPath h ∨ p = headerPath h → file w' p = file w p ∨ file w' p = OpenNotExist.

Lemma evicts_same hs w w' : config (w_cache w') = config (w_cache w) → (∀ p, file w' p = file w p) → evicts hs w w'.
Proof. intros Hc Hf. split; [done|]. intros h p _ _. left. apply Hf. Qed.

Lemma evicts_trans hs w1 w2 w3 : evicts hs w1 w2 → evicts hs w2 w3 → evicts hs w1 w3.
Proof.
  intros [C1 H1] [C2 H2]. split; [congruence|]. intros h p Hh Hp. destruct (H2 h p Hh Hp) as [->|?]; [by apply (H1 h p)|by right].
Qed.

Lemma keeps_evicts hs own w w' :
  keeps hs own w w' → store_inv hs w → (∀ p, p ∈ own → entry_path hs p ∨ staging_path p) → evicts hs w w'.
Proof.
  intros Hk Hi Hown. split; [apply (k_config _ _ _ _ (Hk Hi))|]. intros h p Hh Hp. apply (k_foreign _ _ _ _ (Hk Hi)); [by exists h|]. intros Hin. destruct (Hown p Hin) as [Hpath|Hst].
  - by apply Hh, (entry_path_hash hs h p).
  - revert Hst. apply any_not_staging. by exists h.
Qed.

Lemma all_owned_own hs es : Forall entry_for es → (∀ h, h ∈ p_hashedKey <$> es → h ∈ hs) → ∀ p, p ∈ all_owned es → entry_path hs p ∨ staging_path p.
Proof. intros Hf Hhs p Hp. left. apply (entry_path_mono (p_hashedKey <$> es)); [exact Hhs|]. by apply all_owned_paths. Qed.

Lemma tmps_staging paths l p : Forall2 staged_for paths l → p ∈ l ≫= tmp_of → staging_path p.
Proof.
  intros Hl (o & Hp & Ho)%list_elem_of_bind. apply (Forall2_in_r _ _ _ _ Hl) in Ho as (path & _ & Hf).
  destruct o as [e|]; [|by apply elem_of_nil in Hp]. unfold tmp_of in Hp. destruct Hf as [_ Hst].
  destruct (nonempty (tmpPath e)); [|by apply elem_of_nil in Hp]. apply list_elem_of_singleton in Hp as ->. by apply Hst.
Qed.

Lemma discard_all_config env es w left w' :
  discard_all env es w = (left, w') → ledger_inv (w_cache w) → config (w_cache w') = config (w_cache w).
Proof.
  revert w left w'. induction es as [|e es IH]; intros w left w' E Hl; [by injection E as _ <-|]. cbn [discard_all] in E.
  apply ST_bind_inv in E as (now & w1 & [= <- <-] & E). apply ST_bind_inv in E as (failed & w2 & E2 & E). unfold on_cache in E2. cbn [w_cache] in E2.
  destruct (discardUnadmitted _ _ _ _ _ (w_cache w)) as [failed2 c2] eqn:Ed. injection E2 as <- <-.
  pose proof (discardUnadmitted_inv (p_key e) (p_hashedKey e) (p_size e) (p_storedAt e) (clock env (w_tick w)) (w_cache w) Hl) as Hl2.
  rewrite Ed in Hl2. destruct (discard_frame _ _ _ _ _ _ _ _ Hl Ed) as (Hcfg & _).
  apply ST_bind_inv in E as ([] & w3 & E3 & E). apply ST_bind_inv in E as (rest & w4 & E4 & [= _ <-]).
  assert (config (w_cache w3) = config c2 ∧ ledger_inv (w_cache w3)) as [Hc3 Hl3].
  { destruct failed2; [|by injection E3 as <-]. apply ST_bind_inv in E3 as (now & w5 & [= <- <-] & [= <-]). cbn [w_cache].
    destruct (residual_frame (p_key e) (clock env (S (w_tick w))) c2) as (m & g & f & E).
    cbn [snd] in Hl2. split; [by rewrite E|rewrite E; by apply (ledger_inv_ext c2)]. }
  rewrite (IH _ _ _ E4 Hl3). congruence.
Qed.

Lemma discard_evicts env err es w r w' hs :
  discardPreparedStore env err es w = (r, w') → Forall entry_for es → NoDup (p_hashedKey <$> es) →
  (∀ i, 0 < clock env i) → store_inv hs w → (∀ h, h ∈ p_hashedKey <$> es → h ∈ hs) → evicts hs w w'.
Proof.
  intros E Hfor Hnd Hclock Hi Hhs. unfold discardPreparedStore in E.
  apply ST_bind_inv in E as ([pub es2] & w1 & E1 & E). destruct (abandon_all_kept hs _ _ _ _ _ E1 Hfor) as (K1 & _ & Hsame & _).
  assert (evicts hs w w1) as X1.
  { apply (keeps_evicts _ _ _ _ K1 Hi). intros p Hp. right. rewrite <- staged_files_tmps in Hp. by apply (tmps_staging _ _ _ (staged_files_for _ Hfor)). }
  destruct pub; [|by injection E as _ <-]. apply ST_bind_inv in E as (left & w2 & E2 & [= _ <-]).
  pose proof (same_entries_hashes _ _ Hsame) as Hh2.
  assert (Forall (λ e, p_hashedKey e = hashKey (p_key e)) es2) as Hk2.
  { clear -Hsame Hfor. revert Hfor. induction Hsame as [|x y l k (Hk & Hh & _) _ IH]; intros Hfor; [done|].
    inversion_clear Hfor as [|? ? (Hx & _) Hf]. constructor; [by rewrite Hk, Hh|by apply IH]. }
  rewrite <- Hh2 in Hnd. destruct (discard_all_spec env _ _ _ _ E2 (si_ledger _ _ (k_inv _ _ _ _ (K1 Hi))) Hclock Hnd Hk2) as (_ & _ & _ & F2 & _).
  apply (evicts_trans _ _ _ _ X1). split; [by apply (discard_all_config env _ _ _ _ E2), (si_ledger hs), (k_inv _ _ _ _ (K1 Hi))|].
  intros h p Hh Hp. left. apply (F2 h p); [|done]. rewrite Hh2. by intros Hin%Hhs.
Qed.

Lemma track_all_files env es w w' : for_each (track_one env) es w = ((), w') → ∀ p, file w' p = file w p.
Proof.
  revert w. induction es as [|e es IH]; intros w E p; cbn [for_each] in E; [by injection E as <-|].
  apply ST_bind_inv in E as ([] & w1 & E1 & E). rewrite (IH _ E). unfold track_one in E1.
  apply ST_bind_inv in E1 as (now & w2 & [= <- <-] & [= <-]). unfold file. cbn [w_cache]. unfold trackEntry. cbv zeta.
  by repeat case_match.
Qed.

Lemma track_all_config env es w w' : for_each (track_one env) es w = ((), w') → config (w_cache w') = config (w_cache w).
Proof.
  revert w. induction es as [|e es IH]; intros w E; cbn [for_each] in E; [by injection E as <-|].
  apply ST_bind_inv in E as ([] & w1 & E1 & E). rewrite (IH _ E). unfold track_one in E1.
  apply ST_bind_inv in E1 as (now & w2 & [= <- <-] & [= <-]). cbn [w_cache]. unfold trackEntry. cbv zeta. by repeat case_match.
Qed.

Lemma transaction_evicts env budgeted hs res es w r w' :
  store_transaction env budgeted res es w = (r, w') → transaction_start env hs es w → evicts hs w w'.
Proof.
  intros E Hts. pose proof Hts as [Hi Hfresh Hhs Hnd Hclock]. unfold store_transaction in E.
  apply ST_bind_inv in E as ([es1 err1] & w1 & E1 & E).
  destruct (prepareStoreEntries_kept env budgeted hs res _ _ _ _ _ E1 Hts) as (K1 & S1 & F1 & _).
  pose proof (same_entries_hashes _ _ S1) as Hh1. pose proof (k_inv _ _ _ _ (K1 Hi)) as Hi1.
  assert (∀ h, h ∈ p_hashedKey <$> es1 → h ∈ hs) as Hhs1 by (by rewrite Hh1). assert (NoDup (p_hashedKey <$> es1)) as Hnd1 by by rewrite Hh1.
  apply (evicts_trans _ _ w1); [by apply (keeps_evicts _ _ _ _ K1 Hi), all_owned_own|].
  destruct err1 as [e1|]; [by eapply discard_evicts|].
  apply ST_bind_inv in E as (ended & w2 & E2 & E). pose proof (keeps_ask hs _ _ _ _ E2) as K2. pose proof (k_inv _ _ _ _ (K2 Hi1)) as Hi2.
  apply (evicts_trans _ _ w2); [apply (keeps_evicts _ _ _ _ K2 Hi1); by intros p ?%elem_of_nil|].
  destruct ended; [by eapply discard_evicts|].
  apply ST_bind_inv in E as ([l' err3] & w3 & E3 & E).
  destruct (commitStagedLocked_kept hs _ _ _ _ _ _ E3 (staged_files_for _ F1)) as (K3 & F3 & _ & Hsub).
  destruct (restage_spec _ _ F1 F3) as (Fr & Sr & Er & _). pose proof (same_entries_hashes _ _ Sr) as Hhr. pose proof (k_inv _ _ _ _ (K3 Hi2)) as Hi3.
  apply (evicts_trans _ _ w3).
  { apply (keeps_evicts _ _ _ _ K3 Hi2). intros p [Hp|Hp]%elem_of_app; [|right; by apply (tmps_staging _ _ _ (staged_files_for _ F1))].
    rewrite <- Er, staged_files_owned in Hp. apply (all_owned_own hs (restage es1 l')); [done|by rewrite Hhr|done]. }
  destruct err3 as [e3|]; [eapply discard_evicts; [exact E|done|by rewrite Hhr|done|done|by rewrite Hhr]|].
  apply ST_bind_inv in E as ([] & w4 & E4 & [= _ <-]). apply evicts_same; [|by eapply track_all_files].
  by eapply track_all_config.
Qed.

Lemma StoreContext_evicts env budgeted res keys w r w' :
  StoreContext env budgeted res keys w = (r, w') → ledger_inv (w_cache w) →
  (∀ k, k ∈ keys → active (w_cache w) (hashKey k) = false) → (∀ i, 0 < clock env i) →
  evicts (hashKey <$> lockStoreKeys keys) w w'.
Proof.
  intros E Hl Hact Hclock.
  destruct (StoreContext_begins _ _ _ _ _ _ _ E Hl Hact Hclock) as [[Hc _]|(es & w1 & w2 & _ & Hts & Hf1 & _ & Hcfg & _ & _ & Etr & Hf2 & [_ Hc2] & _)].
  { apply evicts_same; [by rewrite Hc|]. intros p. unfold file. by rewrite Hc. }
  destruct (transaction_evicts _ _ _ _ _ _ _ _ Etr Hts) as [C X]. split; [congruence|].
  intros h p Hh Hp. rewrite Hf2. destruct (X h p Hh Hp) as [->|?]; [left; apply Hf1|by right].
Qed.
End Frames.

(** No entry reaches 2^63 bytes. *)
Definition fits `{D : HttpDate, R : RecordText} (env : Env) (res : Resource) (integrity : bool) (keys : list string) : Prop :=
  ∀ i k raw, k ∈ keys → serializeCacheHeader integrity (r_statusCode res) (r_header res) (clock env i) k
    (str_len (stored_body res)) (sha256_hex (stored_body res)) = Some raw → str_len (stored_body res) + str_len raw ≤ max_int64.

(** A successful store publishes each key's body and header, written at one
    instant of the store, with the exact length and digest of the body, and
    the ledger carries the size and instant of what is on the disk. *)
Lemma StoreContext_publishes `{V : VFS, O : !OsFiles V, J : MarkerJSON, D : HttpDate, R : RecordText,
    VL : !VFSLaws V, OL : !OsFilesLaws V O} env budgeted res keys w w' :
  StoreContext env budgeted res keys w = (None, w') → ledger_inv (w_cache w) →
  (∀ k, k ∈ keys → active (w_cache w) (hashKey k) = false) → (∀ i, 0 < clock env i) →
  keys ≠ [] → responseSuperseded res (lockStoreKeys keys) (w_cache w) = false →
  (fits env res (integrity_on (w_cache w)) (lockStoreKeys keys) → ledger_inv (w_cache w')) ∧
  (stale (w_cache w') = stale (w_cache w) ∧ config (w_cache w') = config (w_cache w)) ∧ (∀ n, expectedBodySize (r_header res) = Some n → str_len (stored_body res) = n) ∧
  ∀ k, k ∈ lockStoreKeys keys → ∃ i raw, (w_tick w ≤ i)%nat ∧
    serializeCacheHeader (integrity_on (w_cache w)) (r_statusCode res) (r_header res) (clock env i) k
      (str_len (stored_body res)) (sha256_hex (stored_body res)) = Some raw ∧
    file w' (bodyPath (hashKey k)) = Opened (stored_body res) ∧ file w' (headerPath (hashKey k)) = Opened raw ∧
    ∃ en, lruIndex (w_cache w') !! hashKey k = Some en ∧
      e_size en = wrap64 (str_len (stored_body res) + str_len raw) ∧ e_storedAt en = clock env i.
Proof.
  intros E Hl Hact Hclock Hne Hsup.
  destruct (StoreContext_begins _ _ _ _ _ _ _ E Hl Hact Hclock) as [[_ Hc]|(es & w1 & w2 & Hk & Hts & Hf1 & Hst1 & Hcfg & Ht & Hat & Etr & Hf2 & [Hs2 Hc2] & Hl2 & Hl2')].
  { destruct (Hc eq_refl) as [|Hs]; [done|]. by rewrite Hs in Hsup. }
  assert (Forall (λ e, p_storedAt e ≠ zero_time) es) as Hz.
  { apply (Forall_impl _ _ _ Hat). intros e (i & _ & Hi). rewrite Hi. specialize (Hclock i). unfold zero_time. lia. }
  destruct (store_transaction_done _ _ _ _ _ _ _ Etr Hts Hz) as ([Hs3 Hc3] & es' & Hsame & Hst & Hinv).
  assert (∀ k, k ∈ lockStoreKeys keys → ∃ e, e ∈ es' ∧ p_key e = k ∧ p_hashedKey e = hashKey k ∧ ∃ i, (w_tick w ≤ i)%nat ∧ p_storedAt e = clock env i) as Hall.
  { intros k Hin. rewrite <- Hk in Hin. apply list_elem_of_fmap in Hin as (e & -> & He).
    assert (Forall2 (λ e' e, same_entry e e') es' es) as Hs' by (by apply Forall2_flip).
    destruct (Forall2_in_r _ _ _ _ Hs' He) as (e' & He' & Hke & Hhe & Hte). exists e'. split; [done|]. split; [done|].
    pose proof (ts_fresh _ _ _ _ Hts) as Hfr. rewrite Forall_forall in Hfr, Hat. destruct (Hfr e He) as [Hh _]. split; [congruence|].
    destruct (Hat e He) as (i & ? & ?). exists i. split; [done|congruence]. }
  split.
  { intros Hfit. apply Hl2', Hinv. apply Forall_forall. intros e He. destruct (Hst e He) as [(raw & Hraw & _ & _ & Hsz & _) _].
    assert ((∃ i, p_storedAt e = clock env i) ∧ p_key e ∈ lockStoreKeys keys) as [[i Hi] Hin].
    { assert (Forall2 (λ e' e, same_entry e' e) es es') as Hs' by done. destruct (Forall2_in_r _ _ _ _ Hs' He) as (e0 & He0 & Hk0 & _ & Ht0).
      rewrite Forall_forall in Hat. destruct (Hat e0 He0) as (i & _ & Hi). split; [exists i; congruence|].
      rewrite <- Hk, Hk0. by apply list_elem_of_fmap_2. }
    unfold stored_header, integrity_on in Hraw. rewrite Hi, Hcfg in Hraw. specialize (Hfit _ _ _ Hin Hraw). rewrite Hsz.
    rewrite wrap64_id; unfold int64, min_int64, str_len in *; lia. }
  split; [by rewrite Hs2, Hc2, Hs3, Hc3|].
  split.
  - destruct (lockStoreKeys keys) as [|k0 ks] eqn:Eks.
    + destruct keys as [|k keys]; [done|]. by unfold lockStoreKeys in Eks; cbn [unique_keys] in Eks; rewrite decide_False in Eks by apply not_elem_of_nil.
    + destruct (Hall k0 ltac:(by left)) as (e & He & _). by destruct (Hst e He) as [(raw & _ & _ & _ & _ & Hlen) _].
  - intros k Hin. destruct (Hall k Hin) as (e & He & Hke & Hhe & i & Hi & Hti).
    destruct (Hst e He) as [(raw & Hraw & Hb & Hh & Hsz & _) (en & Hen & Hsize & Hstored & _)].
    exists i, raw. split; [done|]. unfold stored_header in Hraw. rewrite Hke, Hti in Hraw. unfold integrity_on in *. rewrite Hcfg in Hraw.
    split; [done|]. rewrite <- Hhe, !Hf2, Hl2. split; [done|]. split; [done|]. exists en. split; [done|]. split; congruence.
Qed.

(** What a failed store leaves of a key: its files as they were, no file, or a
    marker with an instant of the store. *)
Definition same_entry_files `{V : VFS} (w w' : world) (k : string) : Prop :=
  file w' (bodyPath (hashKey k)) = file w (bodyPath (hashKey k)) ∧ file w' (headerPath (hashKey k)) = file w (headerPath (hashKey k)).
Definition no_entry_files `{V : VFS} (w : world) (k : string) : Prop :=
  file w (bodyPath (hashKey k)) = OpenNotExist ∧ file w (headerPath (hashKey k)) = OpenNotExist.
Definition marked_since `{V : VFS} (env : Env) (w w' : world) (k : string) : Prop :=
  ∃ m i, StaleAt k (w_cache w') = Some m ∧ (w_tick w ≤ i)%nat ∧ clock env i ≤ m.

(** What a store that fails leaves. *)
Lemma StoreContext_failed `{V : VFS, O : !OsFiles V, J : MarkerJSON, D : HttpDate, R : RecordText,
    VL : !VFSLaws V, OL : !OsFilesLaws V O} env budgeted res keys w err left w' :
  StoreContext env budgeted res keys w = (Some (err, left), w') → ledger_inv (w_cache w) →
  (∀ k, k ∈ keys → active (w_cache w) (hashKey k) = false) → (∀ i, 0 < clock env i) →
  ledger_inv (w_cache w') ∧
  ((∀ k, k ∈ keys → same_entry_files w w' k) ∨
   (∀ k, k ∈ lockStoreKeys keys → no_entry_files w' k ∨ k ∈ left ∧ marked_since env w w' k)).
Proof.
  intros E Hl Hact Hclock.
  destruct (StoreContext_begins _ _ _ _ _ _ _ E Hl Hact Hclock) as [[Hc _]|(es & w1 & w2 & Hk & Hts & Hf1 & _ & _ & Ht & _ & Etr & Hf2 & [Hs2 _] & _ & Hi2)].
  { rewrite Hc. split; [done|]. left. intros k _. unfold same_entry_files, file. by rewrite Hc. }
  destruct (store_transaction_failed _ _ _ _ _ _ _ _ _ Etr Hts) as [Hl2 Hr]. split; [by apply Hi2|].
  assert (p_hashedKey <$> es = hashKey <$> lockStoreKeys keys ∧ Forall (λ e, p_hashedKey e = hashKey (p_key e)) es) as [Hhash Hfor].
  { pose proof (ts_fresh _ _ _ _ Hts) as Hf. rewrite <- Hk. clear -Hf.
    induction Hf as [|e es (Hh & _) _ [IH1 IH2]]; [done|]. by split; [rewrite !fmap_cons, IH1, Hh|constructor]. }
  destruct Hr as [Hsame|Hd]; [left|right].
  - intros k Hin. destruct (unique_keys_spec keys []) as (_ & _ & Hc).
    assert (hashKey k ∈ p_hashedKey <$> es) as Hh.
    { rewrite Hhash. destruct (Hc k Hin) as [?%elem_of_nil|(k' & Hk' & <-)]; [done|]. by apply list_elem_of_fmap_2. }
    unfold same_entry_files. rewrite !Hf2, !Hsame, !Hf1; [done|exists (hashKey k); auto..].
  - intros k Hin. rewrite <- Hk in Hin. apply list_elem_of_fmap in Hin as (e & -> & He). rewrite Forall_forall in Hfor.
    unfold no_entry_files, marked_since. rewrite <- (Hfor e He), !Hf2. destruct (Hd e He) as [?|[? (m & i & ? & ? & ?)]]; [by left|right]. split; [done|].
    exists m, i. unfold StaleAt. rewrite Hs2. split; [done|]. split; [lia|done].
Qed.

(** ** Theorems *)

(** C10: a failed store is all or nothing.  Whatever fails, at whatever point,
    in either way of writing files: the files of every key are as they were,
    or every key has lost its files; a file that could not be removed belongs
    to a key that has a marker no older than some instant the store read from
    its clock. *)
Theorem failed_store_is_rolled_back `{V : VFS, O : !OsFiles V, J : MarkerJSON, D : HttpDate, R : RecordText,
    VL : !VFSLaws V, OL : !OsFilesLaws V O} env budgeted res keys w err left w' :
  StoreContext env budgeted res keys w = (Some (err, left), w') → ledger_inv (w_cache w) →
  (∀ k, k ∈ keys → active (w_cache w) (hashKey k) = false) → (∀ i, 0 < clock env i) →
  ledger_inv (w_cache w') ∧
  ((∀ k, k ∈ keys → same_entry_files w w' k) ∨
   (∀ k, k ∈ lockStoreKeys keys → no_entry_files w' k ∨ k ∈ left ∧ marked_since env w w' k)).
Proof. apply StoreContext_failed. Qed.

(** ** Witnesses *)

#[local] Existing Instance stamp_date.
#[local] Existing Instance mem_fs.
#[local] Existing Instance mem_os.
#[local] Existing Instance binary_json.
#[local] Existing Instance hex_records.

(** Nothing fails, and the clock counts a while from the example instant. *)
Definition calm_env : Env := {|
  clock i := example_now + Z.min (Z.of_nat i) 1000 * second; cancelled _ := false; dir_fails _ := false; lease_fails _ := false;
  seek_fails _ := false; copy_stops _ := None; short_count _ := O;
  retain_fails _ := false |}.

Lemma calm_clock i : 0 < clock calm_env i.
Proof. cbn. unfold example_now, second. lia. Qed.

Definition sample_response : Resource :=
  NewResourceBytes 200 "hello" (<["Cache-Control" := ["max-age=60"%string]]> (<["Content-Length" := ["5"%string]]> ∅)).

Definition key_x : string := "GET:/x".

(** An old entry under [key_x], on a file system that refuses to write its
    header. *)
Definition old_files : mem_state :=
  {| files := <[bodyPath (hashKey key_x) := "old"%string]> (<[headerPath (hashKey key_x) := "old header"%string]> ∅);
     unremovable := ∅; unwritable := {[ headerPath (hashKey key_x) ]}; torn := ∅ |}.

Definition old_world : world :=
  {| w_cache := @new_cache mem_fs old_files DefaultCacheConfig EmptyString; w_tick := 0; w_leases := 0 |}.
Definition disk_world : world :=
  {| w_cache := @new_cache mem_fs mem_empty DefaultCacheConfig "/cache"; w_tick := 0; w_leases := 0 |}.

Lemma new_ledger f cfg root : ledger_inv (@new_cache mem_fs f cfg root).
Proof.
  split; cbn [new_cache lruList lruIndex totalSize reservations reservedSize nextGeneration]; try done.
  - apply NoDup_nil_2.
  - intros h. rewrite elem_of_nil, lookup_empty. split; [done|by intros [? ?]].
Qed.

Lemma calm_free f cfg root k : active (@new_cache mem_fs f cfg root) k = false.
Proof. reflexivity. Qed.

Definition failed_run := StoreContext calm_env false sample_response [key_x] old_world.
Definition done_run := StoreContext calm_env false sample_response [key_x] disk_world.

Lemma failed_store_is_rolled_back_witness :
  failed_run.1 = Some (ErrOpen, []) ∧ file failed_run.2 (bodyPath (hashKey key_x)) = OpenNotExist.
Proof.
  assert (failed_run.1 = Some (ErrOpen, [])) as Hr by (vm_compute; reflexivity). split; [exact Hr|].
  pose proof (surjective_pairing failed_run) as E. rewrite Hr in E.
  destruct (failed_store_is_rolled_back (VL := mem_fs_laws) (OL := mem_os_laws) calm_env false sample_response [key_x] old_world
    ErrOpen [] failed_run.2 E (new_ledger _ _ _) (λ k _, calm_free _ _ _ (hashKey k)) calm_clock) as [_ [Hsame|Hgone]].
  - destruct (Hsame key_x ltac:(by left)) as [Hb _]. exfalso. vm_compute in Hb. discriminate Hb.
  - destruct (Hgone key_x ltac:(by left)) as [[Hb _]|[Hin _]]; [exact Hb|by apply elem_of_nil in Hin].
Defined.
