(* ===== verification/Retrieve.v ===== *)
(** * Retrieving a stored response ([cache.go], [integrity.go])

    [Retrieve], [RetrieveForRecheck] and [Header]: the two files of an entry
    are read and verified, and an entry whose digests do not match is
    discarded and reported missing.  An error is a value of [read_error]. *)

From S2P Require Import Prelude GoStrings GoTime GoQuote GoHttp CacheControl Config Vfs CacheState Resource Ledger Admission Markers Generations StoredHeader Store Staged Transaction.

(** [ErrNotFoundInCache], a file that cannot be opened, read or identified,
    [corruptEntryError] with its fingerprint, a record that does not parse. *)
Inductive read_error := NotFound | OpenError | Corrupt (fingerprint : string) | Malformed.

#[export] Instance read_error_eq_dec : EqDecision read_error.
Proof. solve_decision. Defined.

(** What [readHeaderProvenance] gives. *)
Record header_read := {
  hr_status : Z;
  hr_header : Header;
  hr_storedAt : Time;
  hr_meta : option integrityRecord;
  hr_proof : headerProvenance;
}.

Section Retrieve.
Context `{V : VFS, O : !OsFiles V, J : MarkerJSON, D : HttpDate, R : RecordText}.
Implicit Types c : cache.

(** [headerFileInfo], on a cache that has a root on a disk: [None] is an
    error, [Some None] that there is nothing to identify. *)
Definition headerFileInfo (path : string) (c : cache) : option (option Z) :=
  if nonempty (diskRoot c) then Some <$> fs_identity (c_fs c) path else Some None.

Definition readHeaderProvenance (path key : string) (checkKey : bool) (c : cache) : read_error + header_read :=
  match fs_open (c_fs c) path with
  | OpenNotExist => inl NotFound
  | OpenFailed => inl OpenError
  | Opened raw =>
      if negb (HasSuffix raw headerRecordTerminator) then inl NotFound
      else match decodeIntegrityRecord raw key (integrity_on c) checkKey with
           | inl fingerprint => inl (Corrupt fingerprint)
           | inr meta =>
               match readStoredHeaders raw with
               | None => inl (match meta with Some m => Corrupt (ir_fingerprint m) | None => Malformed end)
               | Some (status, h, storedAt) =>
                   match headerFileInfo path c with
                   | None => inl OpenError
                   | Some info =>
                       inr {| hr_status := status; hr_header := h; hr_storedAt := storedAt; hr_meta := meta;
                              hr_proof := {| pv_fingerprint := sha256_hex raw; pv_fileInfo := info |} |}
                   end
               end
           end
  end.

(** [readHeaderRecordWithKeyCheck], [readHeaderRecord] *)
Definition readHeaderRecordWithKeyCheck (path key : string) (checkKey : bool) (c : cache) : read_error + header_read :=
  readHeaderProvenance path key checkKey c.
Definition readHeaderRecord (path key : string) (c : cache) : read_error + header_read :=
  readHeaderRecordWithKeyCheck path key true c.

(** [verifyStoredBody] *)
Definition verifyStoredBody (body : string) (meta : integrityRecord) : bool :=
  (str_len body =? ir_Size meta) && (sha256_hex body =?s ir_BodySHA256 meta).

(** [cache.header] *)
Definition header (key : string) (c : cache) : read_error + (Z * Header) :=
  let hashed := hashKey key in
  match readHeaderRecord (headerPath hashed) key c with
  | inl e => inl e
  | inr h =>
      match hr_meta h with
      | None => inr (hr_status h, hr_header h)
      | Some meta =>
          match fs_open (c_fs c) (bodyPath hashed) with
          | OpenNotExist => inl (Corrupt (ir_fingerprint meta))
          | OpenFailed => inl OpenError
          | Opened body => if verifyStoredBody body meta then inr (hr_status h, hr_header h) else inl (Corrupt (ir_fingerprint meta))
          end
      end
  end.

(** [discardCorrupt]: only the generation that was observed. *)
Definition discardCorrupt (key fingerprint : string) (now : Time) (c : cache) : cache :=
  let hashed := hashKey key in
  match fs_open (c_fs c) (headerPath hashed) with
  | Opened raw =>
      if sha256_hex raw =?s fingerprint then
        let size := match fs_open (c_fs c) (bodyPath hashed) with Opened body => str_len raw + str_len body | _ => str_len raw end in
        (discardUnadmitted key hashed size zero_time now c).2
      else c
  | _ => c
  end.

(** [integrityResult] *)
Definition integrityResult {A} (key : string) (record : bool) (now : Time) (r : read_error + A) (c : cache) : (read_error + A) * cache :=
  match r with
  | inl (Corrupt fingerprint) =>
      let c := discardCorrupt key fingerprint now c in
      (inl NotFound, if record then recordMiss c else c)
  | _ => (r, c)
  end.

(** [cache.Header] *)
Definition Header_ (key : string) (now : Time) (c : cache) : (read_error + (Z * Header)) * cache :=
  integrityResult key true now (header key c) c.

Definition retrieved (key : string) (body : string) (h : header_read) (generation : option nat) (persistedAt : Time) : Resource :=
  {| r_body := body; r_RequestTime := zero_time; r_ResponseTime := zero_time; r_header := hr_header h;
     r_statusCode := hr_status h; r_cc := None; r_stale := false; r_storedAt := persistedAt; r_storedKey := key;
     r_storageGeneration := generation; r_storageRecord := Some (hr_proof h); r_handlerStoredAt := zero_time |}.

(** [cache.retrieve] *)
Definition retrieve (key : string) (record : bool) (now : Time) (c : cache) : (read_error + Resource) * cache :=
  let hashedKey := hashKey key in
  let storedGeneration := entryGeneration hashedKey c in
  let miss c := (inl NotFound, if record then recordMiss c else c) in
  match fs_open (c_fs c) (bodyPath hashedKey) with
  | OpenNotExist => miss c
  | OpenFailed => (inl OpenError, c)
  | Opened body =>
      match readHeaderProvenance (headerPath hashedKey) key true c with
      | inl NotFound => miss c
      | inl e => (inl e, c)
      | inr h =>
          if match hr_meta h with Some meta => negb (verifyStoredBody body meta) | None => false end
          then (inl (match hr_meta h with Some meta => Corrupt (ir_fingerprint meta) | None => Malformed end), c)
          else
            let persistedAt := if IsZero (hr_storedAt h) then entryStoredAt hashedKey c else hr_storedAt h in
            let res := mark_retrieved key (retrieved key body h storedGeneration persistedAt) c in
            let c := touchEntry hashedKey now c in
            (inr res, if record then recordHit c else c)
      end
  end.

(** [retrieveRecorded] *)
Definition retrieveRecorded (key : string) (record : bool) (now : Time) (c : cache) : (read_error + Resource) * cache :=
  let '(r, c) := retrieve key record now c in integrityResult key record now r c.

Definition Retrieve (key : string) (now : Time) (c : cache) : (read_error + Resource) * cache := retrieveRecorded key true now c.
Definition RetrieveForRecheck (key : string) (now : Time) (c : cache) : (read_error + Resource) * cache := retrieveRecorded key false now c.
End Retrieve.

Section Facts.
Context `{V : VFS, O : !OsFiles V, J : MarkerJSON, D : HttpDate, R : RecordText}.
Implicit Types c : cache.

Lemma mark_retrieved_fields key res c :
  let res' := mark_retrieved key res c in
  r_body res' = r_body res ∧ r_statusCode res' = r_statusCode res ∧ r_header res' = r_header res ∧
  r_storedAt res' = r_storedAt res ∧ r_storedKey res' = r_storedKey res.
Proof. cbv zeta. unfold mark_retrieved. destruct (StaleAt key c); [|done]. by destruct (negb _). Qed.

(** What the record of a readable header file proves of its generation. *)
Definition proof_of (path raw : string) c : headerProvenance :=
  {| pv_fingerprint := sha256_hex raw; pv_fileInfo := if nonempty (diskRoot c) then fs_identity (c_fs c) path else None |}.

(** A header file that is complete and parses. *)
Lemma readHeaderProvenance_opened `{VL : !VFSLaws V} path key checkKey c raw meta status h at_ :
  fs_open (c_fs c) path = Opened raw → HasSuffix raw headerRecordTerminator = true →
  decodeIntegrityRecord raw key (integrity_on c) checkKey = inr meta → readStoredHeaders raw = Some (status, h, at_) →
  readHeaderProvenance path key checkKey c =
    inr {| hr_status := status; hr_header := h; hr_storedAt := at_; hr_meta := meta; hr_proof := proof_of path raw c |}.
Proof.
  intros Hf Ht Hd Hr. unfold readHeaderProvenance, headerFileInfo, proof_of. rewrite Hf, Ht, Hd, Hr. cbn [negb].
  destruct (identity_opened _ _ _ Hf) as [i ->]. by destruct (nonempty (diskRoot c)).
Qed.

(** Both files of an entry, as a store writes them. *)
Record entry_on_disk c (key body : string) (status : Z) (h : Header) (at_ : Time) : Prop := {
  od_body : fs_open (c_fs c) (bodyPath (hashKey key)) = Opened body;
  od_header : ∃ raw, fs_open (c_fs c) (headerPath (hashKey key)) = Opened raw ∧
    serializeCacheHeader (integrity_on c) status h at_ key (str_len body) (sha256_hex body) = Some raw;
}.

Lemma entry_on_disk_reads `{VL : !VFSLaws V, L : !RecordTextLaws R} key body status h at_ c :
  entry_on_disk c key body status h at_ → 0 ≤ status ≤ max_int64 → plain_header h → 0 < at_ < max_http_time →
  str_len body ≤ max_int64 →
  ∃ raw meta, fs_open (c_fs c) (headerPath (hashKey key)) = Opened raw ∧
    readHeaderProvenance (headerPath (hashKey key)) key true c =
      inr {| hr_status := status; hr_header := written_fields h; hr_storedAt := at_; hr_meta := meta;
           hr_proof := proof_of (headerPath (hashKey key)) raw c |} ∧
    match meta with
    | Some m => integrity_on c = true ∧ plain_record m ∧ ir_Size m = str_len body ∧ ir_BodySHA256 m = sha256_hex body ∧
                ir_KeySHA256 m = sha256_hex key
    | None => integrity_on c = false
    end.
Proof.
  intros [Hb (raw & Hh & Hraw)] Hs Hp Ht Hlen.
  assert (0 ≤ str_len body ≤ max_int64) as Hsz by (unfold str_len in *; lia).
  destruct (serializeCacheHeader_lines _ _ _ _ _ _ _ _ (proj1 Hs) Hraw) as (lines & _ & Hne & Hlines).
  assert (HasSuffix raw headerRecordTerminator = true) as Hend by (rewrite Hlines; by apply print_lines_complete).
  exists raw. revert Hraw. unfold serializeCacheHeader. destruct (integrity_on c) eqn:Eint; cbn [negb].
  - set (meta := {| ir_StoredAt := at_ |}). intros Hraw.
    assert (plain_record meta) as Hm.
    { split; [simpl; lia|]. split; [done|]. split; [apply sha256_digest|]. split; [by left|apply sha256_digest]. }
    eexists. split; [done|]. split.
    { apply readHeaderProvenance_opened; [done|done|rewrite Eint|by apply (integrity_record_back status h meta)].
      by apply (integrity_record_decodes status h meta raw key true true); simpl; done || lia. }
    split; [done|]. split; [|done]. apply (plain_with_digest _ meta); [apply recordDigest_valid|done].
  - intros [= <-]. exists None. split; [done|]. split; [|done].
    apply readHeaderProvenance_opened; [done|done|by rewrite Eint|]. apply stored_record_back; done || lia.
Qed.

Lemma retrieve_stored `{VL : !VFSLaws V, L : !RecordTextLaws R} key body status h at_ record now c :
  entry_on_disk c key body status h at_ → 0 ≤ status ≤ max_int64 → plain_header h → 0 < at_ < max_http_time →
  str_len body ≤ max_int64 →
  ∃ res, (retrieveRecorded key record now c).1 = inr res ∧ r_body res = body ∧ r_statusCode res = status ∧
    r_header res = written_fields h ∧ r_storedAt res = at_ ∧ r_storedKey res = key ∧
    (r_stale res = true ↔ ∃ m, StaleAt key c = Some m ∧ at_ ≤ m).
Proof.
  intros Hdisk Hs Hp Ht Hlen. destruct (entry_on_disk_reads _ _ _ _ _ _ Hdisk Hs Hp Ht Hlen) as (raw & meta & Hh & Hread & Hmeta).
  unfold retrieveRecorded, retrieve. rewrite (od_body _ _ _ _ _ _ Hdisk), Hread. cbn [hr_meta hr_storedAt].
  replace (match meta with Some m => negb (verifyStoredBody body m) | None => false end) with false.
  2: { destruct meta as [m|]; [|done]. destruct Hmeta as (_ & _ & Hsz & Hd & _). unfold verifyStoredBody.
       by rewrite Hsz, Hd, Z.eqb_refl, String.eqb_refl. }
  assert (IsZero at_ = false) as -> by (unfold IsZero; apply Z.eqb_neq; lia).
  set (res0 := retrieved _ _ _ _ _). destruct (mark_retrieved_fields key res0 c) as (E1 & E2 & E3 & E4 & E5).
  eexists. split; [reflexivity|]. rewrite E1, E2, E3, E4, E5. split_and!; try done.
  unfold mark_retrieved. destruct (StaleAt key c) as [m|]; [|split; [done|by intros (m & [= ] & _)]].
  rewrite StoredAfter_stored by (simpl; lia). simpl. destruct (Z.ltb_spec m at_); simpl.
  - split; [done|]. intros (m' & [= <-] & ?). lia.
  - split; [|done]. intros _. by exists m.
Qed.

(** The two ways a header file is no record of the entry. *)
Lemma retrieve_torn key record now c body raw :
  fs_open (c_fs c) (bodyPath (hashKey key)) = Opened body → fs_open (c_fs c) (headerPath (hashKey key)) = Opened raw →
  HasSuffix raw headerRecordTerminator = false →
  retrieveRecorded key record now c = (inl NotFound, if record then recordMiss c else c).
Proof.
  intros Hb Hh Ht. unfold retrieveRecorded, retrieve, readHeaderProvenance. rewrite Hb, Hh, Ht. done.
Qed.
End Facts.

(** ** Theorems *)

(** C11: what is stored is what is retrieved.  After a successful store that
    no marker superseded, of a response whose header a header file can carry
    ([plain_header]), each key gives back the status, the body up to its
    declared [Content-Length], the fields that have a line and the instant of
    the store, in either format; and it is stale exactly when the key has a
    marker that is not older than the store. *)
Theorem store_then_retrieve `{V : VFS, O : !OsFiles V, J : MarkerJSON, D : HttpDate, R : RecordText,
    VL : !VFSLaws V, OL : !OsFilesLaws V O, RL : !RecordTextLaws R} env budgeted res keys w w' now :
  StoreContext env budgeted res keys w = (None, w') → ledger_inv (w_cache w) →
  (∀ k, k ∈ keys → active (w_cache w) (hashKey k) = false) → (∀ i, 0 < clock env i < max_http_time) →
  keys ≠ [] → responseSuperseded res (lockStoreKeys keys) (w_cache w) = false →
  0 ≤ r_statusCode res ≤ max_int64 → plain_header (r_header res) → str_len (stored_body res) ≤ max_int64 →
  ∀ k, k ∈ lockStoreKeys keys → ∃ i res', (Retrieve k now (w_cache w')).1 = inr res' ∧
    r_body res' = stored_body res ∧ r_statusCode res' = r_statusCode res ∧ r_header res' = written_fields (r_header res) ∧
    r_storedAt res' = clock env i ∧ (w_tick w ≤ i)%nat ∧
    (r_stale res' = true ↔ ∃ m, StaleAt k (w_cache w') = Some m ∧ clock env i ≤ m).
Proof.
  intros E Hl Hact Hclock Hne Hsup Hs Hp Hlen k Hk.
  destruct (StoreContext_publishes _ _ _ _ _ _ E Hl Hact (λ i, proj1 (Hclock i)) Hne Hsup) as (_ & [_ Hcfg] & _ & Hall).
  destruct (Hall k Hk) as (i & raw & Hi & Hraw & Hb & Hh & _).
  destruct (retrieve_stored k (stored_body res) (r_statusCode res) (r_header res) (clock env i) true now (w_cache w'))
    as (res' & Hr & H1 & H2 & H3 & H4 & _ & H6); try done.
  - split; [exact Hb|]. exists raw. split; [exact Hh|]. unfold integrity_on in *. by rewrite Hcfg.
  - exists i, res'. by split_and!.
Qed.

(** A header write cut short never surfaces.  Whatever a broken write
    leaves of a header record, a lookup of its key reports a miss, or that the
    file cannot be read, unless all of the record was written. *)
Theorem torn_header_is_a_miss `{V : VFS, O : !OsFiles V, J : MarkerJSON, D : HttpDate, R : RecordText,
    VL : !VFSLaws V, RL : !RecordTextLaws R} integrity status h at_ key size digest raw c f' body now :
  0 ≤ status → serializeCacheHeader integrity status h at_ key size digest = Some raw →
  fs_write (headerPath (hashKey key)) raw (c_fs c) = (WriteBroken, f') → fs_open (c_fs c) (bodyPath (hashKey key)) = Opened body →
  let c' := set_fs f' c in
  fs_open f' (headerPath (hashKey key)) = Opened raw ∨ (Retrieve key now c').1 = inl OpenError ∨
  Retrieve key now c' = (inl NotFound, recordMiss c').
Proof.
  intros Hs Hraw Hw Hb c'.
  destruct (serializeCacheHeader_lines _ _ _ _ _ _ _ _ Hs Hraw) as (lines & Hl & Hne & Hlines).
  assert (fs_open (c_fs c') (bodyPath (hashKey key)) = Opened body) as Hb'.
  { cbn. rewrite <- Hb. apply (write_other _ _ _ _ _ _ Hw). apply bodyPath_headerPath. }
  destruct (write_broken _ _ _ _ Hw) as [Hf|(s1 & s2 & Hcut & Hf)].
  - right. left. unfold Retrieve, retrieveRecorded, retrieve, readHeaderProvenance. rewrite Hb'.
    replace (fs_open (c_fs c') (headerPath (hashKey key))) with OpenFailed by done. done.
  - destruct s2 as [|ch s2]; [left; by rewrite Hf, Hcut, str_app_nil_r|]. right. right.
    apply (retrieve_torn key true now c' body s1); [done|done|]. by apply (print_lines_cut lines s1 (String ch s2)); [|rewrite <- Hlines|].
Qed.

(** What a record that passes its check is worth. *)
Definition record_verified `{R : RecordText} (raw key : string) (meta : integrityRecord) : Prop :=
  ir_KeySHA256 meta = sha256_hex key ∧
  ∃ line record, cut_crlf raw = Some (line, record) ∧ ir_HeaderSHA256 meta = recordDigest meta record.

Lemma decodeIntegrity_sound `{R : RecordText, RL : !RecordTextLaws R} raw key meta :
  decodeIntegrityRecord raw key true true = inr meta →
  ∃ m, meta = Some m ∧ record_verified raw key m ∧ ir_fingerprint m = sha256_hex raw.
Proof.
  unfold decodeIntegrityRecord. destruct (HasPrefix raw integrityPreamble); cbn [negb]; [|done].
  destruct (cut_crlf raw) as [[line record]|] eqn:Ecut; [|done]. destruct (base64_decode _) as [encoded|]; [|done].
  destruct (json_unmarshal encoded) as [m|]; [|done]. destruct (IsZero _ || _ || _ || _ || _); [done|].
  destruct ((true && _) || _) eqn:E2; [done|].
  intros [= <-]. apply orb_false_iff in E2 as [Hk Hh]. cbn [andb] in Hk. unbool.
  eexists. split; [done|]. split; [|done]. split; [done|]. exists line, record. split; [done|].
  rewrite (recordDigest_fields (with_fingerprint _ m) m) by done. done.
Qed.

Lemma decodeIntegrity_fingerprint `{R : RecordText} raw key required checkKey fp :
  decodeIntegrityRecord raw key required checkKey = inl fp → sha256_hex raw = fp.
Proof.
  unfold decodeIntegrityRecord. cbv zeta. intros H. repeat (case_match; try congruence).
Qed.

Section Integrity.
Context `{V : VFS, O : !OsFiles V, J : MarkerJSON, D : HttpDate, R : RecordText, VL : !VFSLaws V, RL : !RecordTextLaws R}.
Implicit Types c : cache.

(** What digests can tell of an entry: its record decodes, parses and is that of
    the body.  An entry that is there and complete but is not sound is corrupt. *)
Definition sound_entry (key body raw : string) : Prop :=
  ∃ meta parsed, decodeIntegrityRecord raw key true true = inr (Some meta) ∧ readStoredHeaders raw = Some parsed ∧ verifyStoredBody body meta = true.

Definition complete_entry (key body raw : string) c : Prop :=
  fs_open (c_fs c) (bodyPath (hashKey key)) = Opened body ∧ fs_open (c_fs c) (headerPath (hashKey key)) = Opened raw ∧
  HasSuffix raw headerRecordTerminator = true.

Definition corrupt_entry (key : string) c : Prop := ∃ body raw, complete_entry key body raw c ∧ ¬ sound_entry key body raw.

Lemma discardCorrupt_files key fp now c :
  ledger_inv c →
  (∀ h p, h ≠ hashKey key → p = bodyPath h ∨ p = headerPath h → fs_open (c_fs (discardCorrupt key fp now c)) p = fs_open (c_fs c) p) ∧
  (∀ raw, (remove_files (hashKey key) c).1 = false → fs_open (c_fs c) (headerPath (hashKey key)) = Opened raw → sha256_hex raw = fp →
     fs_open (c_fs (discardCorrupt key fp now c)) (bodyPath (hashKey key)) = OpenNotExist ∧
     fs_open (c_fs (discardCorrupt key fp now c)) (headerPath (hashKey key)) = OpenNotExist).
Proof.
  intros Hc. unfold discardCorrupt. destruct (fs_open (c_fs c) (headerPath (hashKey key))) as [raw| |]; try done.
  destruct (sha256_hex raw =?s fp) eqn:Efp.
  2: { split; [done|]. intros raw' _ [= <-] Heq. apply String.eqb_neq in Efp. done. }
  cbv zeta. set (size := match fs_open (c_fs c) (bodyPath (hashKey key)) with Opened _ => _ | _ => _ end).
  destruct (discardUnadmitted key (hashKey key) size zero_time now c) as [failed c'] eqn:E.
  destruct (discardUnadmitted_files _ _ _ _ _ _ _ _ Hc E) as (Hgone & _ & Hother). split.
  - intros h p Hne [->| ->]; apply Hother; try done; [by intros ->%bodyPath_inj|by intros ->%headerPath_inj].
  - intros raw' Hrem _ _. apply Hgone. unfold discardUnadmitted in E. destruct (lruIndex c !! hashKey key) as [e|] eqn:El.
    + unfold removeEntry in E. rewrite (li_key _ Hc _ e El) in E. destruct (remove_files (hashKey key) c) as [b c1]. cbn in Hrem. subst b.
      by injection E as <- _.
    + destruct (remove_files (hashKey key) c) as [b c1]. cbn in Hrem. subst b. by injection E as <- _.
Qed.

(** The outcomes of [retrieve] when digests are required. *)
Lemma retrieve_verified key record now c :
  integrity_on c = true →
  match (retrieve key record now c).1 with
  | inr res => ¬ corrupt_entry key c ∧ ∃ raw meta, fs_open (c_fs c) (bodyPath (hashKey key)) = Opened (r_body res) ∧
      fs_open (c_fs c) (headerPath (hashKey key)) = Opened raw ∧ record_verified raw key meta ∧
      ir_Size meta = str_len (r_body res) ∧ ir_BodySHA256 meta = sha256_hex (r_body res)
  | inl NotFound => ¬ corrupt_entry key c
  | inl OpenError => ¬ corrupt_entry key c ∧
      (fs_open (c_fs c) (bodyPath (hashKey key)) = OpenFailed ∨ fs_open (c_fs c) (headerPath (hashKey key)) = OpenFailed)
  | inl (Corrupt fp) => corrupt_entry key c ∧ (retrieve key record now c).2 = c ∧
      ∃ raw, fs_open (c_fs c) (headerPath (hashKey key)) = Opened raw ∧ sha256_hex raw = fp
  | inl Malformed => False
  end ∧ c_fs (retrieve key record now c).2 = c_fs c ∧ (ledger_inv c → ledger_inv (retrieve key record now c).2).
Proof.
  intros Hint. unfold retrieve, readHeaderProvenance. rewrite Hint.
  assert (∀ c', c_fs (if record then recordMiss c' else c') = c_fs c' ∧
    (ledger_inv c' → ledger_inv (if record then recordMiss c' else c'))) as Hmiss.
  { intros c'. destruct record; [|done]. split; [done|]. intros Hl. by apply (ledger_inv_ext c'). }
  destruct (fs_open (c_fs c) (bodyPath (hashKey key))) as [body| |] eqn:Eb.
  2: { split; [|apply Hmiss]. cbn. intros (b & r & (Hb & _) & _). congruence. }
  2: { split; [|done]. cbn. split; [|by left]. intros (b & r & (Hb & _) & _). congruence. }
  destruct (fs_open (c_fs c) (headerPath (hashKey key))) as [raw| |] eqn:Eh.
  2: { split; [|apply Hmiss]. cbn. intros (b & r & (_ & Hr & _) & _). congruence. }
  2: { split; [|done]. cbn. split; [|by right]. intros (b & r & (_ & Hr & _) & _). congruence. }
  destruct (HasSuffix raw headerRecordTerminator) eqn:Esuf; cbn [negb].
  2: { split; [|apply Hmiss]. cbn. intros (b & r & (_ & Hr & Hs) & _). congruence. }
  assert (¬ sound_entry key body raw → corrupt_entry key c) as Hcor by (intros Hno; by exists body, raw).
  assert (sound_entry key body raw → ¬ corrupt_entry key c) as Hsound.
  { intros Hs (b & r & (Hb & Hr & _) & Hno). assert (b = body ∧ r = raw) as [-> ->] by (split; congruence). done. }
  destruct (decodeIntegrityRecord raw key true true) as [fp|meta] eqn:Ed.
  { split; [|done]. cbn [fst]. split; [apply Hcor; intros (m & p & Hd & _); congruence|]. split; [done|]. exists raw. split; [done|].
    by apply decodeIntegrity_fingerprint in Ed. }
  destruct (decodeIntegrity_sound _ _ _ Ed) as (m & -> & Hver & Hfp).
  destruct (readStoredHeaders raw) as [[[status h] at_]|] eqn:Ep.
  2: { split; [|done]. cbn [fst]. split; [apply Hcor; intros (m' & p & _ & Hp & _); congruence|]. split; [done|]. by exists raw. }
  unfold headerFileInfo. destruct (identity_opened _ _ _ Eh) as [i Ei]. rewrite Ei.
  replace (if nonempty (diskRoot c) then Some <$> Some i else Some None) with (Some (if nonempty (diskRoot c) then Some i else None))
    by (by destruct (nonempty (diskRoot c))). cbn [hr_meta].
  destruct (verifyStoredBody body m) eqn:Ev; cbn [negb].
  2: { split; [|done]. cbn [fst]. split; [apply Hcor; intros (m' & p & Hd & _ & Hv); congruence|]. split; [done|]. by exists raw. }
  assert (sound_entry key body raw) as Hs by (by exists m, (status, h, at_)). unfold verifyStoredBody in Ev. unbool. split.
  - cbn [fst]. split; [by apply Hsound|]. pose proof (λ k r c, proj1 (mark_retrieved_fields k r c)) as Hbody. cbv zeta in Hbody. rewrite !Hbody.
    by exists raw, m.
  - cbn [snd]. assert (c_fs (touchEntry (hashKey key) now c) = c_fs c) as Htouch.
    { unfold touchEntry. by destruct (lruIndex c !! hashKey key). }
    destruct record; cbn; (split; [done|]); intros Hl.
    + by apply (ledger_inv_ext (touchEntry (hashKey key) now c)); [apply touchEntry_inv|..].
    + by apply touchEntry_inv.
Qed.

(** A sound entry is given. *)
Lemma retrieve_sound key record now c body raw :
  integrity_on c = true → complete_entry key body raw c → sound_entry key body raw →
  ∃ res, (retrieve key record now c).1 = inr res.
Proof.
  intros Hint (Hb & Hh & Hsuf) (meta & [[status h] at_] & Hd & Hp & Hv).
  unfold retrieve, readHeaderProvenance, headerFileInfo. rewrite Hint, Hb, Hh, Hsuf, Hd, Hp. cbn [negb].
  destruct (identity_opened _ _ _ Hh) as [i ->]. destruct (nonempty (diskRoot c)); cbn [fmap option_fmap option_map hr_meta]; rewrite Hv; cbn; eauto.
Qed.
End Integrity.

(** C18: with digests required, a lookup gives a verified response or no
    response.  What it gives is the body on the disk, of the recorded length
    and digest, under a record whose own digest and key match; an entry with
    such a record and body is given.  A corrupt entry (both files there, the
    header complete, the record or the body not what the digests say) is
    reported missing, never as an error, and its two files are removed when
    the file system lets them be.  Every other lookup leaves all files as they
    are, and no lookup changes the files of another key; an error is reported
    only when a file of the entry cannot be opened. *)
Theorem only_verified_responses `{V : VFS, O : !OsFiles V, J : MarkerJSON, D : HttpDate, R : RecordText,
    VL : !VFSLaws V, RL : !RecordTextLaws R} key record now c r c' :
  retrieveRecorded key record now c = (r, c') → integrity_on c = true → ledger_inv c →
  match r with
  | inr res => ∃ raw meta, fs_open (c_fs c) (bodyPath (hashKey key)) = Opened (r_body res) ∧
      fs_open (c_fs c) (headerPath (hashKey key)) = Opened raw ∧ record_verified raw key meta ∧
      ir_Size meta = str_len (r_body res) ∧ ir_BodySHA256 meta = sha256_hex (r_body res)
  | inl OpenError => fs_open (c_fs c) (bodyPath (hashKey key)) = OpenFailed ∨ fs_open (c_fs c) (headerPath (hashKey key)) = OpenFailed
  | inl e => e = NotFound
  end ∧
  (∀ body raw, complete_entry key body raw c → sound_entry key body raw → ∃ res, r = inr res) ∧
  (corrupt_entry key c → r = inl NotFound ∧
     ((remove_files (hashKey key) c).1 = false →
        fs_open (c_fs c') (bodyPath (hashKey key)) = OpenNotExist ∧ fs_open (c_fs c') (headerPath (hashKey key)) = OpenNotExist)) ∧
  (¬ corrupt_entry key c → c_fs c' = c_fs c) ∧
  (∀ h p, h ≠ hashKey key → p = bodyPath h ∨ p = headerPath h → fs_open (c_fs c') p = fs_open (c_fs c) p).
Proof.
  unfold retrieveRecorded. intros E Hint Hl. destruct (retrieve_verified key record now c Hint) as (Hr & Hfs & _).
  pose proof (retrieve_sound key record now c) as Hsound.
  destruct (retrieve key record now c) as [r1 c1]. cbn [fst snd] in *.
  destruct r1 as [[| |fp|]|res]; cbn [integrityResult] in E; try done.
  - injection E as <- <-. rewrite Hfs. split_and!; try done. intros body raw Hc Hs. by destruct (Hsound body raw Hint Hc Hs).
  - injection E as <- <-. rewrite Hfs. destruct Hr as [Hno Hop]. split_and!; try done. intros body raw Hc Hs. by destruct (Hsound body raw Hint Hc Hs).
  - destruct Hr as (Hcor & -> & raw & Hraw & Hfp). destruct (discardCorrupt_files key fp now c Hl) as [Hother Hgone].
    assert (∀ c2, c_fs (if record then recordMiss c2 else c2) = c_fs c2) as Hrec by (by destruct record).
    injection E as <- <-. rewrite Hrec. split_and!; try done.
    + intros body raw' Hc Hs. by destruct (Hsound body raw' Hint Hc Hs).
    + intros _. split; [done|]. intros Hok. by apply (Hgone raw).
  - injection E as <- <-. rewrite Hfs. destruct Hr as [Hno Hver]. split_and!; try done. intros body raw _ _. by exists res.
Qed.

(** ** Witnesses *)

#[local] Existing Instance stamp_date.
#[local] Existing Instance mem_fs.
#[local] Existing Instance mem_os.
#[local] Existing Instance binary_json.
#[local] Existing Instance hex_records.

Lemma plain_header_fields (fs : list (string * list string)) :
  Forall (λ f, ValidHeaderFieldName f.1 = true ∧ CanonicalHeaderKey f.1 = f.1 ∧ Forall (λ v, plain_value v = true) f.2) fs →
  plain_header (list_to_map fs).
Proof.
  intros Hfs k vs Hk _. apply elem_of_list_to_map_2 in Hk. rewrite Forall_forall in Hfs. exact (Hfs _ Hk).
Qed.

Lemma sample_fields_plain : plain_header (r_header sample_response).
Proof.
  apply (plain_header_fields [("Cache-Control", ["max-age=60"]); ("Content-Length", ["5"])]%string). by repeat constructor.
Qed.

Lemma calm_clock_bounds i : 0 < clock calm_env i < max_http_time.
Proof. cbn. unfold example_now, second, max_http_time, second. lia. Qed.

Lemma store_then_retrieve_witness :
  ∃ res', (Retrieve key_x (example_now + minute) (w_cache done_run.2)).1 = inr res' ∧ r_body res' = "hello"%string ∧ r_statusCode res' = 200.
Proof.
  assert (done_run.1 = None) as Hr by (vm_compute; reflexivity).
  pose proof (surjective_pairing done_run) as E. rewrite Hr in E. unfold done_run in E at 1.
  assert (key_x ∈ lockStoreKeys [key_x]) as Hin by (vm_compute; left).
  destruct (store_then_retrieve (VL := mem_fs_laws) (OL := mem_os_laws) (RL := hex_records_laws) calm_env false sample_response [key_x]
    disk_world done_run.2 (example_now + minute) E (new_ledger _ _ _) (λ k _, calm_free _ _ _ (hashKey k)) calm_clock_bounds ltac:(done)
    ltac:(vm_compute; reflexivity) ltac:(vm_compute; split; discriminate) sample_fields_plain ltac:(vm_compute; discriminate) key_x Hin)
    as (i & res' & Hget & Hb & Hs & _).
  exists res'. split; [exact Hget|]. split; [|exact Hs]. rewrite Hb. vm_compute. reflexivity.
Defined.

(** A header write that breaks: the file is left empty. *)
Definition torn_files : mem_state :=
  {| files := <[bodyPath (hashKey key_x) := "hello"%string]> ∅; unremovable := ∅; unwritable := ∅; torn := {[ headerPath (hashKey key_x) ]} |}.
Definition torn_cache : cache := @new_cache mem_fs torn_files DefaultCacheConfig EmptyString.
Definition sample_record : string := serializeStoredHeader 200 (r_header sample_response) example_now.

Lemma torn_header_is_a_miss_witness :
  let f' := (fs_write (headerPath (hashKey key_x)) sample_record torn_files).2 in
  (Retrieve key_x example_now (set_fs f' torn_cache)).1 = inl NotFound.
Proof.
  intros f'.
  destruct (torn_header_is_a_miss (VL := mem_fs_laws) (RL := hex_records_laws) false 200 (r_header sample_response) example_now key_x 5
    (sha256_hex "hello") sample_record torn_cache f' "hello" example_now ltac:(done) ltac:(reflexivity)
    ltac:(vm_compute; reflexivity) ltac:(vm_compute; reflexivity)) as [Hall|[Herr|Hmiss]].
  - exfalso. vm_compute in Hall. discriminate Hall.
  - exfalso. vm_compute in Herr. discriminate Herr.
  - rewrite Hmiss. reflexivity.
Defined.

(** A body changed on the disk, under a record with digests. *)
Definition checked_config : CacheConfig :=
  {| Integrity := IntegritySHA256; DisableStagingSweep := false; MaxSize := 0; TTL := 0; CleanupInterval := 0; StaleMapTTL := 1 |}.
Definition tampered_files : mem_state :=
  {| files := <[bodyPath (hashKey key_x) := "jello"%string]>
       (<[headerPath (hashKey key_x) := default EmptyString (serializeCacheHeader true 200 (r_header sample_response) example_now key_x 5 (sha256_hex "hello"))]> ∅);
     unremovable := ∅; unwritable := ∅; torn := ∅ |}.
Definition tampered_cache : cache := @new_cache mem_fs tampered_files checked_config EmptyString.

Lemma only_verified_responses_witness :
  let '(r, c') := retrieveRecorded key_x true example_now tampered_cache in
  r = inl NotFound ∧ fs_open (c_fs c') (bodyPath (hashKey key_x)) = OpenNotExist ∧ integrity_on tampered_cache = true.
Proof.
  pose proof (surjective_pairing (retrieveRecorded key_x true example_now tampered_cache)) as E.
  assert (corrupt_entry key_x tampered_cache) as Hcor.
  { eexists _, _. split; [split; [vm_compute; reflexivity|split; vm_compute; reflexivity]|]. intros (meta & parsed & Hd & Hp & Hv).
    vm_compute in Hd. injection Hd as <-. vm_compute in Hv. discriminate Hv. }
  destruct (only_verified_responses (VL := mem_fs_laws) (RL := hex_records_laws) key_x true example_now tampered_cache _ _ E
    ltac:(reflexivity) (new_ledger _ _ _)) as (_ & _ & Hdiscard & _).
  destruct (Hdiscard Hcor) as [Hr Hgone]. rewrite E. split; [exact Hr|]. split; [|reflexivity].
  exact (proj1 (Hgone ltac:(vm_compute; reflexivity))).
Defined.

(** Two URLs with the same 64-bit hash share an entry: without digests nothing
    compares the key, and each gets what was stored for the other. *)
Definition key_1 : string := "GET:/?q=a3af71a699d65eb6".
Definition key_2 : string := "GET:/?q=482a6c419bfec781".

Example hash_collision_shares_entry :
  let w := (StoreContext calm_env false sample_response [key_1] disk_world).2 in
  hashKey key_1 = hashKey key_2 ∧ key_1 ≠ key_2 ∧
  match (Retrieve key_2 example_now (w_cache w)).1 with inr res => r_body res = "hello"%string | inl _ => False end.
Proof. intros w. split; [vm_compute; reflexivity|]. split; [discriminate|]. vm_compute. reflexivity. Qed.
