(* ===== verification/Startup.v ===== *)
(** * Opening a cache ([cache.go])

    The constructors: the sweep of the staging directory, the scan of the
    entries already on the file system, and the restoration of the
    invalidation markers.  [ReadDir] and [Stat] of the virtual file system are
    the operations of the class [VfsDirs].  The cleanup goroutine that a
    constructor starts is in [Lifecycle]. *)

From S2P Require Import Prelude GoStrings GoTime GoQuote GoHttp CacheControl Config Vfs CacheState Resource Ledger Admission Markers Generations StoredHeader Store Staged Transaction Retrieve.

(** What the scan reads of an [os.FileInfo]. *)
Record file_info := { fi_name : string; fi_size : Z; fi_modTime : Time; fi_dir : bool }.

Inductive readdir_result := Entries (l : list file_info) | NoDirectory | DirFailed.

(** Directories end in a slash. *)
Class VfsDirs (V : VFS) := {
  fs_readdir : string → fs_state → readdir_result;
  fs_stat : string → fs_state → option file_info;
}.

(** A name of a directory entry. *)
Definition plain_name (n : string) : bool := nonempty n && str_forall (λ b, negb (Ascii.eqb b "/")) n.

Class VfsDirsLaws (V : VFS) (F : VfsDirs V) : Prop := {
  readdir_names : ∀ d f l, fs_readdir d f = Entries l → NoDup (fi_name <$> l);
  readdir_file : ∀ d f l i, fs_readdir d f = Entries l → i ∈ l → fi_dir i = false → fs_open f (d +:+ fi_name i) ≠ OpenNotExist;
  readdir_opened : ∀ d f l n s, fs_readdir d f = Entries l → plain_name n = true → fs_open f (d +:+ n) = Opened s →
    ∃ i, i ∈ l ∧ fi_name i = n ∧ fi_dir i = false ∧ fi_size i = str_len s;
  readdir_none : ∀ d f n s, fs_readdir d f = NoDirectory → fs_open f (d +:+ n) ≠ Opened s;
  readdir_size : ∀ d f l i, fs_readdir d f = Entries l → i ∈ l → 0 ≤ fi_size i;
  stat_opened : ∀ p f s, fs_open f p = Opened s → ∃ i, fs_stat p f = Some i ∧ fi_size i = str_len s;
  stat_missing : ∀ p f, fs_open f p = OpenNotExist → fs_stat p f = None;
  stat_size : ∀ p f i, fs_stat p f = Some i → 0 ≤ fi_size i;
}.

Section Startup.
Context `{V : VFS, O : !OsFiles V, F : !VfsDirs V, J : MarkerJSON, D : HttpDate, R : RecordText}.
Implicit Types c : cache.

Definition stagingDir : string := (stagingPrefix +:+ formatPrefix)%string.
Definition bodyDir : string := (bodyPrefix +:+ formatPrefix)%string.

(** [sweepStaging]; a staging file that cannot be removed is left. *)
Definition sweepStaging (c : cache) : cache :=
  if negb (nonempty (diskRoot c)) || DisableStagingSweep (config c) then c
  else match fs_readdir stagingDir (c_fs c) with
       | Entries files =>
           set_fs (foldl (λ f i, if fi_dir i then f else (fs_remove (stagingDir +:+ fi_name i)%string f).2) (c_fs c) files) c
       | _ => c
       end.

(** The callback of [scanExistingCache]: the size and the instant of an entry,
    and the entry, pushed to the back of the list. *)
Definition scan_measure (info : file_info) (c : cache) : Z * Time :=
  let hashedKey := fi_name info in
  match fs_stat (headerPath hashedKey) (c_fs c) with
  | None => (fi_size info, fi_modTime info)
  | Some headerInfo =>
      (wrap64 (fi_size info + fi_size headerInfo),
       match readHeaderRecordWithKeyCheck (headerPath hashedKey) hashedKey false c with
       | inr h => if IsZero (hr_storedAt h) then fi_modTime headerInfo else hr_storedAt h
       | inl _ => fi_modTime headerInfo
       end)
  end.
Definition scan_file (c : cache) (info : file_info) : cache :=
  let hashedKey := fi_name info in
  let '(size, storedAt) := scan_measure info c in
  let entry := {| e_key := hashedKey; e_hashedKey := hashedKey; e_size := size; e_storedAt := storedAt;
                  e_accessedAt := storedAt; e_generation := Some (nextGeneration c) |} in
  set_lru (lruList c ++ [hashedKey]) (<[hashedKey := entry]> (lruIndex c)) (totalSize c + size) (S (nextGeneration c)) c.

(** [scanDirectory]: the callback on each file; true is an error. *)
Definition scanDirectory (dir : string) (callback : cache → file_info → cache) (c : cache) : bool * cache :=
  match fs_readdir dir (c_fs c) with
  | NoDirectory => (false, c)
  | DirFailed => (true, c)
  | Entries files => (false, foldl (λ c info, if fi_dir info then c else callback c info) c files)
  end.

Definition scanExistingCache (c : cache) : bool * cache := scanDirectory bodyDir scan_file c.

(** [newVFSCacheWithConfig]; [now] is the clock of [restoreStale]. *)
Definition newVFSCacheWithConfig (fs : fs_state) (cfg : option CacheConfig) (root : string) (now : Time) : cache :=
  let c := new_cache fs (Validate (default DefaultCacheConfig cfg)) root in
  let c := sweepStaging c in
  let c := (scanExistingCache c).2 in
  loadStale now c.

Definition NewVFSCacheWithConfig (fs : fs_state) (cfg : option CacheConfig) (now : Time) : cache :=
  newVFSCacheWithConfig fs cfg EmptyString now.
Definition NewVFSCache (fs : fs_state) (now : Time) : cache := NewVFSCacheWithConfig fs None now.
End Startup.

Section Facts.
Context `{V : VFS, O : !OsFiles V, F : !VfsDirs V, J : MarkerJSON, D : HttpDate, R : RecordText,
  VL : !VFSLaws V, OL : !OsFilesLaws V O, FL : !VfsDirsLaws V F}.
Implicit Types c : cache.

(** No two files together reach 2^63 bytes. *)
Definition small_files (f : fs_state) : Prop :=
  (∀ d l i, fs_readdir d f = Entries l → i ∈ l → fi_size i < 2 ^ 62) ∧ (∀ p i, fs_stat p f = Some i → fi_size i < 2 ^ 62).

(** ** The sweep of the staging directory *)

Lemma remove_all_other files f p :
  ¬ staging_path p →
  fs_open (foldl (λ f i, if fi_dir i then f else (fs_remove (stagingDir +:+ fi_name i)%string f).2) f files) p = fs_open f p.
Proof.
  intros Hp. revert f. induction files as [|i files IH]; intros f; [done|]. cbn [foldl]. rewrite IH. destruct (fi_dir i); [done|].
  destruct (fs_remove _ f) as [r g] eqn:E. cbn [snd]. apply (remove_other _ _ _ _ _ E). intros ->. apply Hp.
  exists (formatPrefix +:+ fi_name i)%string. by unfold stagingDir; rewrite str_app_assoc.
Qed.

Lemma sweepStaging_frame c :
  ∃ f, sweepStaging c = set_fs f c ∧ ∀ p, ¬ staging_path p → fs_open f p = fs_open (c_fs c) p.
Proof.
  unfold sweepStaging. destruct (_ || _); [exists (c_fs c); by destruct c|].
  destruct (fs_readdir stagingDir (c_fs c)) as [files| |]; [|exists (c_fs c); by destruct c..].
  eexists. split; [done|]. intros p Hp. by apply remove_all_other.
Qed.

(** ** The scan *)

Lemma scan_measure_size info c dir l :
  fs_readdir dir (c_fs c) = Entries l → info ∈ l → small_files (c_fs c) → 0 ≤ (scan_measure info c).1.
Proof.
  intros Hd Hi [Hb Hs]. pose proof (readdir_size _ _ _ _ Hd Hi). pose proof (Hb _ _ _ Hd Hi). unfold scan_measure.
  destruct (fs_stat _ _) as [hi|] eqn:E; [|done]. pose proof (stat_size _ _ _ E). pose proof (Hs _ _ E). cbn [fst].
  rewrite wrap64_id by (unfold int64, min_int64, max_int64; lia). lia.
Qed.

Lemma scan_file_inv info c : ledger_inv c → fi_name info ∉ lruList c → 0 ≤ (scan_measure info c).1 → ledger_inv (scan_file c info).
Proof.
  intros Hc Hnew Hs. unfold scan_file. destruct (scan_measure info c) as [size at_]. cbn [fst] in Hs. cbv zeta.
  apply ledger_inv_insert; simpl; auto.
  - apply NoDup_app. split; [apply Hc|]. split; [|apply NoDup_singleton]. intros x Hx ->%list_elem_of_singleton. done.
  - intros x. rewrite elem_of_app, list_elem_of_singleton. tauto.
  - unfold entry_size. rewrite (li_index _ Hc) in Hnew. destruct (lruIndex c !! fi_name info); [by destruct Hnew|lia].
  - intros g [= <-]. split; [lia|]. intros h' e' _ He' Hg. pose proof (li_fresh _ Hc h' e' _ He' Hg). lia.
Qed.

Definition scan_files (l : list file_info) c : cache := foldl (λ c info, if fi_dir info then c else scan_file c info) c l.

(** The scan changes the ledger only. *)
Lemma scan_files_frame l c : ∃ lru idx total next, scan_files l c = set_lru lru idx total next c.
Proof.
  revert c. induction l as [|i l IH]; intros c.
  { exists (lruList c), (lruIndex c), (totalSize c), (nextGeneration c). by destruct c. }
  cbn. destruct (fi_dir i); [apply IH|]. destruct (IH (scan_file c i)) as (lru & idx & total & next & E). unfold scan_files in E. rewrite E.
  unfold scan_file. destruct (scan_measure i c). by exists lru, idx, total, next.
Qed.

Lemma scan_measure_ext i c1 c2 : c_fs c1 = c_fs c2 → config c1 = config c2 → diskRoot c1 = diskRoot c2 → scan_measure i c1 = scan_measure i c2.
Proof.
  intros Hf Hc Hr. unfold scan_measure, readHeaderRecordWithKeyCheck, readHeaderProvenance, headerFileInfo, integrity_on. by rewrite Hf, Hc, Hr.
Qed.

(** What the scan records of a file. *)
Definition scanned c (i : file_info) (e : cacheEntry) : Prop := (e_size e, e_storedAt e) = scan_measure i c.

Lemma scan_files_spec l c :
  ledger_inv c → NoDup (fi_name <$> l) → (∀ i, i ∈ l → fi_name i ∉ lruList c) → (∀ i, i ∈ l → 0 ≤ (scan_measure i c).1) →
  let c' := scan_files l c in
  ledger_inv c' ∧
  (∀ h e, lruIndex c' !! h = Some e → lruIndex c !! h = Some e ∨ ∃ i, i ∈ l ∧ fi_dir i = false ∧ fi_name i = h ∧ scanned c i e) ∧
  (∀ i, i ∈ l → fi_dir i = false → ∃ e, lruIndex c' !! fi_name i = Some e ∧ scanned c i e) ∧
  (∀ h, h ∉ fi_name <$> l → lruIndex c' !! h = lruIndex c !! h).
Proof.
  revert c. induction l as [|i l IH]; intros c Hc Hnd Hnew Hsz; cbv zeta.
  { split; [done|]. split; [by left|]. split; [by intros i ?%elem_of_nil|done]. }
  rewrite fmap_cons in Hnd. apply NoDup_cons in Hnd as [Hi Hnd]. cbn. destruct (fi_dir i) eqn:Ei.
  - destruct (IH c Hc Hnd) as (H1 & H2 & H3 & H4); [by intros; apply Hnew; right|by intros; apply Hsz; right|].
    split; [done|]. split; [|split].
    + intros h e He. destruct (H2 h e He) as [?|(j & ? & ?)]; [by left|right]. exists j. split; [by right|done].
    + intros j [->|Hj]%elem_of_cons; [congruence|by apply H3].
    + intros h [_ Hh]%not_elem_of_cons. by apply H4.
  - assert (lruList (scan_file c i) = lruList c ++ [fi_name i]) as Hl by (unfold scan_file; by destruct (scan_measure i c)).
    assert (∀ j, scan_measure j (scan_file c i) = scan_measure j c) as Hm.
    { intros j. apply scan_measure_ext; unfold scan_file; by destruct (scan_measure i c). }
    assert (∃ e, lruIndex (scan_file c i) = <[fi_name i := e]> (lruIndex c) ∧ scanned c i e) as (e0 & Hidx & He0).
    { unfold scan_file, scanned. destruct (scan_measure i c). eexists. split; [reflexivity|done]. }
    destruct (IH (scan_file c i)) as (H1 & H2 & H3 & H4); [|done|..].
    { apply scan_file_inv; [done|apply Hnew; by left|apply Hsz; by left]. }
    { intros j Hj. rewrite Hl, not_elem_of_app, list_elem_of_singleton. split; [apply Hnew; by right|]. intros Heq. apply Hi. rewrite <- Heq.
      by apply list_elem_of_fmap_2. }
    { intros j Hj. rewrite Hm. apply Hsz. by right. }
    split; [done|]. split; [|split].
    + intros h e He. destruct (H2 h e He) as [Hold|(j & Hj & Hd & Hn & Hs)].
      * rewrite Hidx in Hold. apply lookup_insert_Some in Hold as [[<- <-]|[_ Hold]]; [|by left]. right. exists i. by repeat split; [left|..].
      * right. exists j. unfold scanned in *. rewrite Hm in Hs. by repeat split; [right|..].
    + intros j [->|Hj]%elem_of_cons Hd.
      * exists e0. by rewrite H4, Hidx, lookup_insert_eq.
      * destruct (H3 j Hj Hd) as (e & He & Hs). exists e. unfold scanned in *. by rewrite Hm in Hs.
    + intros h [Hne Hh]%not_elem_of_cons. rewrite H4, Hidx by done. by rewrite lookup_insert_ne.
Qed.

(** ** The markers *)

(** What the files hold of the markers. *)
Definition saved_markers (f : fs_state) (root : string) : gmap string Time :=
  let legacy := match fs_open f staleMapPath with Opened s => default ∅ (decode_map s) | _ => ∅ end in
  if nonempty root then legacy else match best_slot f with Some (_, m) => m | None => legacy end.

Lemma restore_from_frame m now c :
  (∃ st g f, restore_from m now c = set_stale_map st g (set_fs f c)) ∧
  (∀ hs p, entry_path hs p → fs_open (c_fs (restore_from m now c)) p = fs_open (c_fs c) p) ∧
  stale (restore_from m now c) = stale c ∪ (recover_marker now <$> m).
Proof.
  unfold restore_from, restoreStale, persistRestoredStale. destruct (existsb _ _).
  - set (c1 := set_stale_map _ _ _). split; [|split].
    + destruct (persistStale_frame (stale c1) c1) as (g & f & ->). by eexists _, _, f.
    + intros hs p Hp. by rewrite (persistStale_files _ _ hs).
    + by rewrite persistStale_stale.
  - split; [|done]. by exists (stale c ∪ (recover_marker now <$> m)), (staleGeneration c), (c_fs c); destruct c.
Qed.

Lemma loadStale_spec now c :
  (∃ st g f, loadStale now c = set_stale_map st g (set_fs f c)) ∧
  (∀ hs p, entry_path hs p → fs_open (c_fs (loadStale now c)) p = fs_open (c_fs c) p) ∧
  stale (loadStale now c) = stale c ∪ (recover_marker now <$> saved_markers (c_fs c) (diskRoot c)).
Proof.
  assert (∀ g, (∃ st g' f, set_stale_map (stale c) g c = set_stale_map st g' (set_fs f c)) ∧
    (∀ hs p, entry_path hs p → fs_open (c_fs c) p = fs_open (c_fs c) p) ∧ stale c = stale c ∪ (recover_marker now <$> ∅)) as Hid.
  { intros g. split; [|split; [done|by rewrite fmap_empty, (right_id_L ∅ (∪))]]. by exists (stale c), g, (c_fs c); destruct c. }
  assert (set_stale_map (stale c) (staleGeneration c) c = c) as Hc by by destruct c.
  pose proof (Hid (staleGeneration c)) as Hsame. rewrite Hc in Hsame.
  assert (let legacy := match fs_open (c_fs c) staleMapPath with
      | Opened s => match decode_map s with Some m => restore_from m now c | None => c end | _ => c end in
    (∃ st g f, legacy = set_stale_map st g (set_fs f c)) ∧
    (∀ hs p, entry_path hs p → fs_open (c_fs legacy) p = fs_open (c_fs c) p) ∧
    stale legacy = stale c ∪ (recover_marker now <$> match fs_open (c_fs c) staleMapPath with Opened s => default ∅ (decode_map s) | _ => ∅ end))
    as Hlegacy.
  { cbv zeta. destruct (fs_open (c_fs c) staleMapPath) as [s| |]; [|exact Hsame..].
    destruct (decode_map s) as [m|]; [apply restore_from_frame|exact Hsame]. }
  unfold loadStale, saved_markers. destruct (nonempty (diskRoot c)); [exact Hlegacy|].
  destruct (best_slot (c_fs c)) as [[g m]|]; [|exact Hlegacy].
  destruct (restore_from_frame m now (set_stale_map (stale c) g c)) as ((st & g' & f & E) & Hf & Hs).
  split; [by exists st, g', f; rewrite E|done].
Qed.

(** ** A new cache *)

Definition opened (f : fs_state) (cfg : option CacheConfig) (root : string) : cache :=
  sweepStaging (new_cache f (Validate (default DefaultCacheConfig cfg)) root).

(** The directories can be read. *)
Definition scan_succeeds (f : fs_state) (cfg : option CacheConfig) (root : string) : Prop :=
  (scanExistingCache (opened f cfg root)).1 = false ∧ small_files (c_fs (opened f cfg root)).

Lemma empty_ledger f cfg root : ledger_inv (new_cache f cfg root).
Proof.
  split; cbn [new_cache lruList lruIndex totalSize reservations reservedSize nextGeneration]; try done.
  - apply NoDup_nil_2.
  - intros h. rewrite elem_of_nil, lookup_empty. split; [done|by intros [? ?]].
Qed.

Lemma markers_not_staging f g root :
  (∀ p, ¬ staging_path p → fs_open f p = fs_open g p) → saved_markers f root = saved_markers g root.
Proof.
  intros Hf. unfold saved_markers, best_slot, readSlot. by rewrite !Hf by (intros [x Hx]; discriminate Hx).
Qed.

Lemma new_cache_spec f cfg root now :
  scan_succeeds f cfg root →
  let c := newVFSCacheWithConfig f cfg root now in
  ledger_inv c ∧ config c = Validate (default DefaultCacheConfig cfg) ∧ diskRoot c = root ∧ reservations c = ∅ ∧
  (∀ hs p, entry_path hs p → fs_open (c_fs c) p = fs_open f p) ∧
  (∀ k, StaleAt k c = recover_marker now <$> saved_markers f root !! k) ∧
  (∀ h, is_Some (lruIndex c !! h) → fs_open f (bodyPath h) ≠ OpenNotExist) ∧
  (∀ h body, plain_name h = true → fs_open f (bodyPath h) = Opened body →
     ∃ i e, lruIndex c !! h = Some e ∧ scanned (opened f cfg root) i e ∧ fi_name i = h ∧ fi_size i = str_len body).
Proof.
  intros [Hok Hsmall]. cbv zeta. unfold newVFSCacheWithConfig. fold (opened f cfg root).
  destruct (sweepStaging_frame (new_cache f (Validate (default DefaultCacheConfig cfg)) root)) as (f1 & E1 & Hf1).
  fold (opened f cfg root) in E1. cbn [new_cache c_fs] in Hf1. set (c1 := opened f cfg root) in *.
  assert (ledger_inv c1) as Hl1 by (rewrite E1; by apply (ledger_inv_ext _ _ (empty_ledger f (Validate (default DefaultCacheConfig cfg)) root))).
  assert (c_fs c1 = f1) as Hfs1 by by rewrite E1. assert (lruIndex c1 = ∅ ∧ lruList c1 = [] ∧ stale c1 = ∅) as (Hi1 & Hll1 & Hs1) by by rewrite E1.
  assert (∀ hs p, entry_path hs p → fs_open f1 p = fs_open f p) as Hentry by (intros hs p Hp; by apply Hf1, (entry_not_staging hs)).
  assert (∃ l, (∀ i, i ∈ l → fi_dir i = false → fs_open f1 (bodyPath (fi_name i)) ≠ OpenNotExist) ∧
    (∀ h body, plain_name h = true → fs_open f1 (bodyPath h) = Opened body → ∃ i, i ∈ l ∧ fi_name i = h ∧ fi_dir i = false ∧ fi_size i = str_len body) ∧
    NoDup (fi_name <$> l) ∧ (∀ i, i ∈ l → 0 ≤ (scan_measure i c1).1) ∧ (scanExistingCache c1).2 = scan_files l c1) as (l & Hex & Hall & Hnd & Hsz & E2).
  { unfold scanExistingCache, scanDirectory in Hok |- *. rewrite Hfs1 in Hok, Hsmall |- *. destruct (fs_readdir bodyDir f1) as [l| |] eqn:Ed; [| |done].
    - exists l. split; [intros i Hi Hd; exact (readdir_file _ _ _ _ Ed Hi Hd)|]. split; [intros h body Hh Hb; exact (readdir_opened _ _ _ _ _ Ed Hh Hb)|].
      split; [exact (readdir_names _ _ _ Ed)|]. split; [|done]. rewrite <- Hfs1 in Ed, Hsmall. intros i Hi. by apply (scan_measure_size i c1 bodyDir l).
    - exists []. split; [by intros i ?%elem_of_nil|]. split; [|split; [constructor|split; [by intros i ?%elem_of_nil|done]]].
      intros h body _ Hb. by apply (readdir_none _ _ h body) in Ed. }
  destruct (scan_files_spec l c1 Hl1 Hnd) as (Hl2 & Hidx & Hins & _); [by rewrite Hll1; intros i _ ?%elem_of_nil|done|].
  destruct (scan_files_frame l c1) as (lru & idx & total & next & E3). rewrite <- E2 in Hl2, Hidx, Hins, E3. set (c2 := (scanExistingCache c1).2) in *.
  assert (c_fs c2 = f1 ∧ config c2 = config c1 ∧ diskRoot c2 = root ∧ reservations c2 = ∅ ∧ stale c2 = ∅) as (Hfs2 & Hc2 & Hr2 & Hv2 & Hs2) by by rewrite E3, E1.
  destruct (loadStale_spec now c2) as ((st & g & f3 & E4) & Hf4 & Hs4).
  split; [rewrite E4; by apply (ledger_inv_ext c2)|]. split; [rewrite E4, E3, E1; done|]. split; [by rewrite E4|]. split; [by rewrite E4|].
  split; [intros hs p Hp; by rewrite (Hf4 hs p Hp), Hfs2, (Hentry hs p Hp)|].
  split; [intros k; unfold StaleAt; by rewrite Hs4, Hs2, (left_id_L ∅ (∪)), lookup_fmap, Hfs2, Hr2, (markers_not_staging f1 f)|].
  assert (∀ h, fs_open f1 (bodyPath h) = fs_open f (bodyPath h)) as Hbody by (intros h; apply (Hentry [h]); exists h; split; [by left|by left]).
  assert (lruIndex (loadStale now c2) = lruIndex c2) as -> by by rewrite E4. split.
  - intros h [e He]. destruct (Hidx h e He) as [Hold|(i & Hi & Hd & <- & _)]; [by rewrite Hi1, lookup_empty in Hold|]. rewrite <- Hbody. by apply Hex.
  - intros h body Hh Hb. rewrite <- Hbody in Hb. destruct (Hall h body Hh Hb) as (i & Hi & Hn & Hd & Hsize).
    destruct (Hins i Hi Hd) as (e & He & Hs). exists i, e. by rewrite <- Hn.
Qed.

(** The header of an entry, read without its key. *)
Lemma scanned_header `{L : !RecordTextLaws R} other c key body status h at_ raw :
  fs_open (c_fs c) (headerPath (hashKey key)) = Opened raw →
  serializeCacheHeader (integrity_on c) status h at_ key (str_len body) (sha256_hex body) = Some raw →
  0 ≤ status ≤ max_int64 → plain_header h → 0 < at_ < max_http_time → str_len body ≤ max_int64 →
  ∃ hr, readHeaderRecordWithKeyCheck (headerPath (hashKey key)) other false c = inr hr ∧ hr_storedAt hr = at_.
Proof.
  intros Hh Hraw Hs Hp Ht Hlen. assert (0 ≤ str_len body ≤ max_int64) as Hsz by (unfold str_len in *; lia).
  destruct (serializeCacheHeader_lines _ _ _ _ _ _ _ _ (proj1 Hs) Hraw) as (lines & _ & Hne & Hlines).
  assert (HasSuffix raw headerRecordTerminator = true) as Hend by (rewrite Hlines; by apply print_lines_complete).
  revert Hraw. unfold serializeCacheHeader, readHeaderRecordWithKeyCheck. destruct (integrity_on c) eqn:Eint; cbn [negb].
  - set (meta := {| ir_StoredAt := at_ |}). intros Hraw.
    assert (plain_record meta) as Hm.
    { split; [simpl; lia|]. split; [done|]. split; [apply sha256_digest|]. split; [by left|apply sha256_digest]. }
    eexists. split; [apply readHeaderProvenance_opened; [done|done| |by apply (integrity_record_back status h meta)]|reflexivity].
    rewrite Eint. by apply (integrity_record_decodes status h meta raw other true false); simpl; done || lia.
  - intros [= <-].
    eexists. split; [apply readHeaderProvenance_opened; [done|done|by rewrite Eint|apply stored_record_back; done || lia]|reflexivity].
Qed.

(** What the scan records of an entry that a store wrote. *)
Lemma scanned_stored `{L : !RecordTextLaws R} f cfg root key body status h at_ raw i e :
  fs_open f (bodyPath (hashKey key)) = Opened body → fs_open f (headerPath (hashKey key)) = Opened raw →
  serializeCacheHeader (match Integrity cfg with IntegrityDisabled => false | IntegritySHA256 => true end) status h at_ key
    (str_len body) (sha256_hex body) = Some raw →
  0 ≤ status ≤ max_int64 → plain_header h → 0 < at_ < max_http_time → str_len body ≤ max_int64 →
  scanned (opened f (Some cfg) root) i e → fi_name i = hashKey key → fi_size i = str_len body →
  e_size e = wrap64 (str_len body + str_len raw) ∧ e_storedAt e = at_.
Proof.
  intros Hb Hh Hraw Hs Hp Ht Hlen Hscan Hn Hsize.
  destruct (sweepStaging_frame (new_cache f (Validate cfg) root)) as (f1 & E1 & Hf1). cbn [new_cache c_fs] in Hf1.
  assert (opened f (Some cfg) root = set_fs f1 (new_cache f (Validate cfg) root)) as E by exact E1.
  unfold scanned in Hscan. rewrite E in Hscan. clear E E1. set (c1 := set_fs f1 _) in *.
  assert (∀ p, any_entry p → fs_open (c_fs c1) p = fs_open f p) as Hsame by (intros p Hpath; by apply Hf1, any_not_staging).
  assert (integrity_on c1 = match Integrity cfg with IntegrityDisabled => false | IntegritySHA256 => true end) as Hint by done.
  assert (fs_open (c_fs c1) (headerPath (hashKey key)) = Opened raw) as Hh1 by (rewrite Hsame; [done|exists (hashKey key); by right]).
  unfold scan_measure in Hscan. rewrite Hn in Hscan.
  destruct (stat_opened _ _ _ Hh1) as (hi & Hstat & Hhi). rewrite Hstat, Hsize, Hhi in Hscan.
  destruct (scanned_header (hashKey key) c1 key body status h at_ raw Hh1) as (hr & Hread & Hat); try done.
  rewrite Hread, Hat in Hscan. assert (IsZero at_ = false) as Hz by (unfold IsZero; apply Z.eqb_neq; lia). rewrite Hz in Hscan.
  by injection Hscan as -> ->.
Qed.
End Facts.

Lemma hashKey_plain key : plain_name (hashKey key) = true.
Proof.
  unfold plain_name. apply andb_true_iff. split; [done|]. apply hex_fixed_forall. intros d Hd.
  assert (d = 0 ∨ d = 1 ∨ d = 2 ∨ d = 3 ∨ d = 4 ∨ d = 5 ∨ d = 6 ∨ d = 7 ∨ d = 8 ∨ d = 9 ∨ d = 10 ∨ d = 11 ∨ d = 12 ∨ d = 13 ∨ d = 14 ∨ d = 15)
    as Hcases by lia.
  repeat (destruct Hcases as [->|Hcases]; [done|]). by subst d.
Qed.

(** ** Theorems *)

(** C12: what was stored survives a restart.  A cache opened on the files that a
    successful store left (no marker superseded it, and its header is one a
    header file can carry), in the same integrity mode, has an exact ledger; a
    lookup of each key gives the status, the body, the fields and the instant
    of the store; the entry has the size and the instant it had before; and it
    is stale exactly when the files hold a marker of the key that is not older
    than the store, an invalidation that was interrupted counting as one at
    the restart. *)
Theorem responses_survive_restart `{V : VFS, O : !OsFiles V, F : !VfsDirs V, J : MarkerJSON, D : HttpDate, R : RecordText,
    VL : !VFSLaws V, OL : !OsFilesLaws V O, FL : !VfsDirsLaws V F, RL : !RecordTextLaws R} env budgeted res keys w w' cfg restart now :
  StoreContext env budgeted res keys w = (None, w') → ledger_inv (w_cache w) →
  (∀ k, k ∈ keys → active (w_cache w) (hashKey k) = false) → (∀ i, 0 < clock env i < max_http_time) →
  keys ≠ [] → responseSuperseded res (lockStoreKeys keys) (w_cache w) = false →
  0 ≤ r_statusCode res ≤ max_int64 → plain_header (r_header res) → str_len (stored_body res) ≤ max_int64 →
  let f := c_fs (w_cache w') in let root := diskRoot (w_cache w') in
  Integrity cfg = Integrity (config (w_cache w)) → scan_succeeds f (Some cfg) root →
  let c := newVFSCacheWithConfig f (Some cfg) root restart in
  ledger_inv c ∧ ∀ k, k ∈ lockStoreKeys keys → ∃ i res' e e', (Retrieve k now c).1 = inr res' ∧
    r_body res' = stored_body res ∧ r_statusCode res' = r_statusCode res ∧ r_header res' = written_fields (r_header res) ∧
    r_storedAt res' = clock env i ∧ (w_tick w ≤ i)%nat ∧
    (r_stale res' = true ↔ ∃ m, saved_markers f root !! k = Some m ∧ clock env i ≤ recover_marker restart m) ∧
    lruIndex (w_cache w') !! hashKey k = Some e ∧ lruIndex c !! hashKey k = Some e' ∧
    e_size e' = e_size e ∧ e_storedAt e' = e_storedAt e.
Proof.
  intros E Hl Hact Hclock Hne Hsup Hs Hp Hlen f root Hint Hscan c.
  destruct (StoreContext_publishes _ _ _ _ _ _ E Hl Hact (λ i, proj1 (Hclock i)) Hne Hsup) as (_ & [_ Hcfg] & _ & Hall).
  destruct (new_cache_spec f (Some cfg) root restart Hscan) as (Hlc & Hcc & _ & _ & Hfiles & Hmarks & _ & Hentries). fold c in Hlc, Hcc, Hfiles, Hmarks, Hentries.
  split; [exact Hlc|]. intros k Hk. destruct (Hall k Hk) as (i & raw & Hi & Hraw & Hb & Hh & en & Hen & Hsize & Hat). unfold file in Hb, Hh. fold f in Hb, Hh.
  assert (integrity_on c = integrity_on (w_cache w)) as Hon by (unfold integrity_on; rewrite Hcc; cbn; by rewrite Hint).
  assert (∀ p, p = bodyPath (hashKey k) ∨ p = headerPath (hashKey k) → fs_open (c_fs c) p = fs_open f p) as Hsame.
  { intros p Hpath. apply (Hfiles [hashKey k]). exists (hashKey k). split; [by left|done]. }
  destruct (retrieve_stored k (stored_body res) (r_statusCode res) (r_header res) (clock env i) true now c)
    as (res' & Hr & H1 & H2 & H3 & H4 & _ & H6); try done.
  { split; [rewrite Hsame; [done|by left]|]. exists raw. split; [rewrite Hsame; [done|by right]|by rewrite Hon]. }
  destruct (Hentries (hashKey k) _ (hashKey_plain k) Hb) as (info & e' & He' & Hsc & Hn & Hsz).
  destruct (scanned_stored f cfg root k (stored_body res) (r_statusCode res) (r_header res) (clock env i) raw info e') as [Hs' Ha'];
    try done; [unfold integrity_on in Hraw; by rewrite Hint|].
  exists i, res', en, e'. do 6 (split; [done|]). split.
  - rewrite H6, Hmarks. destruct (saved_markers f root !! k) as [m|]; cbn.
    + split; [intros (? & [= <-] & ?); by exists m|intros (? & [= <-] & ?); eauto].
    + by split; intros (? & [=] & _).
  - split; [done|]. split; [done|]. split; congruence.
Qed.

(** ** Directories of the concrete file system *)

Lemma str_prefix_inj d a b : (d +:+ a)%string = (d +:+ b)%string → a = b.
Proof. induction d as [|c d IH]; [by rewrite !str_app_nil_l|]. rewrite !str_app_cons. by intros [= ?%IH]. Qed.

Fixpoint strip_prefix (d p : string) : option string :=
  match d, p with
  | EmptyString, p => Some p
  | String a d, String b p => if Ascii.eqb a b then strip_prefix d p else None
  | _, _ => None
  end.

Lemma strip_prefix_spec d p n : strip_prefix d p = Some n ↔ p = (d +:+ n)%string.
Proof.
  revert p. induction d as [|a d IH]; intros p; cbn [strip_prefix]; [rewrite str_app_nil_l; naive_solver|].
  destruct p as [|b p]; [by rewrite str_app_cons; split|]. rewrite str_app_cons. destruct (Ascii.eqb_spec a b) as [->|Hne].
  - rewrite IH. split; [by intros ->|by intros [= ->]].
  - split; [done|]. by intros [= -> _].
Qed.

(** The entries of [d], dated at the example instant. *)
Definition mem_info (n s : string) : file_info := {| fi_name := n; fi_size := str_len s; fi_modTime := example_now; fi_dir := false |}.
Definition mem_entry (d : string) (p : string * string) : option file_info :=
  n ← strip_prefix d p.1; if plain_name n then Some (mem_info n p.2) else None.
Definition mem_dirs : VfsDirs mem_fs :=
  @Build_VfsDirs mem_fs (λ d (f : mem_state), Entries (omap (mem_entry d) (map_to_list (files f))))
    (λ p (f : mem_state), mem_info p <$> files f !! p).

Lemma mem_entry_spec d p s i : mem_entry d (p, s) = Some i ↔ ∃ n, p = (d +:+ n)%string ∧ plain_name n = true ∧ i = mem_info n s.
Proof.
  unfold mem_entry. cbn [fst snd]. destruct (strip_prefix d p) as [n|] eqn:E; cbn.
  - apply strip_prefix_spec in E as ->. destruct (plain_name n) eqn:En; split.
    + intros [= <-]. by exists n.
    + intros (n' & Heq%str_prefix_inj & _ & ->). by subst.
    + done.
    + intros (n' & Heq%str_prefix_inj & ? & _). congruence.
  - split; [done|]. intros (n & Hp%strip_prefix_spec & _). congruence.
Qed.

Lemma mem_listed d (f : mem_state) l i :
  @fs_readdir mem_fs mem_dirs d f = Entries l → i ∈ l ↔ ∃ n s, files f !! (d +:+ n)%string = Some s ∧ plain_name n = true ∧ i = mem_info n s.
Proof.
  intros [= <-]. rewrite list_elem_of_omap. split.
  - intros ([p s] & Hin%elem_of_map_to_list & (n & -> & Hn & ->)%mem_entry_spec). by exists n, s.
  - intros (n & s & Hin & Hn & ->). exists ((d +:+ n)%string, s). rewrite elem_of_map_to_list, mem_entry_spec. split; [done|by exists n].
Qed.

Lemma omap_names d (l : list (string * string)) : NoDup l.*1 → NoDup (fi_name <$> omap (mem_entry d) l).
Proof.
  induction l as [|[p s] l IH]; [constructor|]. rewrite fmap_cons. intros [Hp Hl]%NoDup_cons. cbn [omap list_omap].
  destruct (mem_entry d (p, s)) as [i|] eqn:E; [|by apply IH]. rewrite fmap_cons. apply NoDup_cons. split; [|by apply IH].
  apply mem_entry_spec in E as (n & -> & _ & ->). cbn. intros (j & Hj & Hin)%list_elem_of_fmap. apply list_elem_of_omap in Hin as ([q t] & Hq & Hj').
  apply mem_entry_spec in Hj' as (m & -> & _ & ->). cbn in Hj. subst m. apply Hp. apply list_elem_of_fmap. by exists ((d +:+ n)%string, t).
Qed.

Lemma mem_dirs_laws : VfsDirsLaws mem_fs mem_dirs.
Proof.
  split.
  - intros d f l [= <-]. apply omap_names, NoDup_fst_map_to_list.
  - intros d f l i Hd Hi _. apply (mem_listed d f l i Hd) in Hi as (n & s & Hs & _ & ->). cbn. by rewrite Hs.
  - intros d f l n s Hd Hn Ho. exists (mem_info n s). split; [|done]. apply (mem_listed d f l _ Hd). exists n, s. split; [|done].
    revert Ho. cbn. destruct (files f !! _); [by intros [= ->]|done].
  - done.
  - intros d f l i Hd Hi. apply (mem_listed d f l i Hd) in Hi as (n & s & _ & _ & ->). cbn. unfold str_len. lia.
  - intros p f s Ho. exists (mem_info p s). revert Ho. cbn. destruct (files f !! p); [by intros [= ->]|done].
  - intros p f Ho. revert Ho. cbn. by destruct (files f !! p).
  - intros p f i Hi. revert Hi. cbn. destruct (files f !! p); [|done]. intros [= <-]. cbn. unfold str_len. lia.
Qed.

Lemma mem_small (f : mem_state) : map_Forall (λ _ s, str_len s < 2 ^ 62) (files f) → @small_files mem_fs mem_dirs f.
Proof.
  intros Hf. split.
  - intros d l i Hd Hi. apply (mem_listed d f l i Hd) in Hi as (n & s & Hs & _ & ->). exact (Hf _ _ Hs).
  - intros p i. cbn. destruct (files f !! p) as [s|] eqn:E; [|done]. intros [= <-]. exact (Hf _ _ E).
Qed.

(** ** Witnesses *)

#[local] Existing Instance stamp_date.
#[local] Existing Instance mem_fs.
#[local] Existing Instance mem_os.
#[local] Existing Instance mem_dirs.
#[local] Existing Instance binary_json.
#[local] Existing Instance hex_records.

(** The cache of [done_run], opened again. *)
Definition reopened : cache := newVFSCacheWithConfig (c_fs (w_cache done_run.2)) (Some DefaultCacheConfig) "/cache" (example_now + hour).

Lemma responses_survive_restart_witness :
  ∃ res', (Retrieve key_x (example_now + hour) reopened).1 = inr res' ∧ r_body res' = "hello"%string ∧ r_stale res' = false.
Proof.
  assert (done_run.1 = None) as Hr by (vm_compute; reflexivity).
  pose proof (surjective_pairing done_run) as E. rewrite Hr in E. unfold done_run in E at 1.
  assert (key_x ∈ lockStoreKeys [key_x]) as Hin by (vm_compute; left).
  assert (scan_succeeds (c_fs (w_cache done_run.2)) (Some DefaultCacheConfig) (diskRoot (w_cache done_run.2))) as Hscan.
  { split; [vm_compute; reflexivity|]. apply mem_small. apply (bool_decide_unpack _). vm_compute. exact I. }
  destruct (responses_survive_restart (VL := mem_fs_laws) (OL := mem_os_laws) (FL := mem_dirs_laws) (RL := hex_records_laws) calm_env false
    sample_response [key_x] disk_world done_run.2 DefaultCacheConfig (example_now + hour) (example_now + hour) E (new_ledger _ _ _)
    (λ k _, calm_free _ _ _ (hashKey k)) calm_clock_bounds ltac:(done) ltac:(vm_compute; reflexivity) ltac:(vm_compute; split; discriminate)
    sample_fields_plain ltac:(vm_compute; discriminate) ltac:(reflexivity) Hscan) as [_ Hall].
  destruct (Hall key_x Hin) as (i & res' & e & e' & Hget & Hb & _ & _ & _ & _ & Hst & _).
  exists res'. split; [exact Hget|]. split; [rewrite Hb; vm_compute; reflexivity|]. apply not_true_is_false. intros (m & Hm & _)%Hst.
  vm_compute in Hm. discriminate Hm.
Defined.

(** The scan pushes entries in the order of the directory: the last one listed
    is the first victim of an eviction, however recent it is. *)
Definition dated (name : string) (at_ : Time) : file_info := {| fi_name := name; fi_size := 1; fi_modTime := at_; fi_dir := false |}.

Example scan_order_ignores_age :
  let c := scan_files [dated "old" example_now; dated "new" (example_now + hour)] (new_cache mem_empty DefaultCacheConfig EmptyString) in
  rev (lruList c) = ["new"; "old"]%string ∧
  e_storedAt <$> lruIndex c !! "new"%string = Some (example_now + hour) ∧ e_storedAt <$> lruIndex c !! "old"%string = Some example_now.
Proof. vm_compute. split; [reflexivity|]. by split. Qed.
