(* ===== verification/Freshen.v ===== *)
(** * Refreshing a stored response ([cache.go], [cache_provenance.go])

    [Freshen] replaces the header of a stored entry after a validation, in the
    monad of the store.  The writer lock of the key is held throughout.  A
    resource on a disk keeps its header file open, so the identity of the file
    tells a replacement of the same contents apart. *)

From S2P Require Import Prelude GoStrings GoTime GoQuote GoHttp CacheControl Config Vfs CacheState Resource Ledger Admission Markers Generations Validator StoredHeader Store Staged Transaction Retrieve.

Inductive freshen_error :=
  | FreshenSuperseded (keys : list string)
  | FreshenUnreadable (e : read_error)
  | FreshenReplaced
  | FreshenUnsized
  | FreshenUnserialized
  | FreshenRefused (e : store_error)
  | FreshenUncommitted (e : store_error) (discard_failed : bool)
  | FreshenUnidentified (e : read_error)
  | FreshenUnretained.

Definition with_record (record : option headerProvenance) (at_ : Time) (r : Resource) : Resource :=
  {| r_body := r_body r; r_RequestTime := r_RequestTime r; r_ResponseTime := r_ResponseTime r;
     r_header := r_header r; r_statusCode := r_statusCode r; r_cc := r_cc r; r_stale := r_stale r;
     r_storedAt := at_; r_storedKey := r_storedKey r; r_storageGeneration := r_storageGeneration r;
     r_storageRecord := record; r_handlerStoredAt := r_handlerStoredAt r |}.

Definition with_generation (g : option nat) (r : Resource) : Resource :=
  {| r_body := r_body r; r_RequestTime := r_RequestTime r; r_ResponseTime := r_ResponseTime r;
     r_header := r_header r; r_statusCode := r_statusCode r; r_cc := r_cc r; r_stale := r_stale r;
     r_storedAt := r_storedAt r; r_storedKey := r_storedKey r; r_storageGeneration := g;
     r_storageRecord := r_storageRecord r; r_handlerStoredAt := r_handlerStoredAt r |}.

(** [context.Background()]: never cancelled. *)
Definition background (env : Env) : Env :=
  {| clock := clock env; cancelled := λ _, false; dir_fails := dir_fails env; lease_fails := lease_fails env;
     seek_fails := seek_fails env; copy_stops := copy_stops env; short_count := short_count env; retain_fails := retain_fails env |}.

Section Freshen.
Context `{V : VFS, O : !OsFiles V, J : MarkerJSON, D : HttpDate, R : RecordText}.
Context (env : Env) (budgeted : bool).
Implicit Types c : cache.

(** [os.SameFile] of two files that are both identified. *)
Definition other_file (previous proof : option Z) : bool :=
  match previous, proof with Some i, Some j => negb (i =? j) | _, _ => false end.

(** [resourceWasReplaced] *)
Definition resourceWasReplaced (res : Resource) (hashedKey : string) (storedAt : Time) (proof : headerProvenance) (c : cache) : bool :=
  (match r_storageGeneration res with Some g => negb (bool_decide (entryGeneration hashedKey c = Some g)) | None => false end) ||
  (negb (IsZero (r_storedAt res)) && negb (storedAt =? r_storedAt res)) ||
  match r_storageRecord res with
  | Some previous =>
      negb (pv_fingerprint previous =?s pv_fingerprint proof) || other_file (pv_fileInfo previous) (pv_fileInfo proof)
  | None => false
  end.

(** The failure of [commitFreshenedHeader]. *)
Definition abandon_freshened (key hashedKey : string) (newSize : Z) (freshenedAt : Time) (header : option stagedEntry) (e : store_error)
    : ST (option (store_error * bool)) :=
  header ← abandon_one header;
  if anyPublished [header] then
    now ← ask (clock env);
    failed ← on_cache (discardUnadmitted key hashedKey newSize freshenedAt now);
    mret (Some (e, failed))
  else mret (Some (e, false)).

(** [commitFreshenedHeader] *)
Definition commitFreshenedHeader (key hashedKey headerData : string) (newSize : Z) (freshenedAt : Time)
    : ST (option (store_error * bool)) :=
  '(header, _, err) ← stageSerializedHeaderContext (background env) budgeted key headerData;
  '(header, err) ← (match err with
                    | None => '(files, err) ← commitStagedLocked [header]; mret (default None (head files), err)
                    | Some e => mret (header, Some e)
                    end);
  match err with
  | Some e => abandon_freshened key hashedKey newSize freshenedAt header e
  | None =>
      now ← ask (clock env);
      _ ← set_cache (trackEntry key hashedKey newSize freshenedAt now);
      mret None
  end.

(** [advanceResourceProvenance]; [failed] when [replaceHeader] is an error. *)
Definition advanceResourceProvenance (failed : bool) (res : Resource) (key raw : string) (at_ : Time) (c : cache) : freshen_error + Resource :=
  match r_storageRecord res with
  | None => inr res
  | Some _ =>
      if nonempty (diskRoot c) then
        match readHeaderProvenance (headerPath (hashKey key)) key true c with
        | inl e => inl (FreshenUnidentified e)
        | inr h => if failed then inl FreshenUnretained else inr (with_record (Some (hr_proof h)) at_ res)
        end
      else inr (with_record (Some {| pv_fingerprint := sha256_hex raw; pv_fileInfo := None |}) at_ res)
  end.

(** What [freshenResourceForKey] decides before it writes: no entry to
    refresh, a mismatch, or the header to write and the size of the entry. *)
Inductive freshen_plan := PlanNothing | PlanMismatch | PlanWrite (headerData : string) (newSize : Z) | PlanFail (e : freshen_error).

Definition plan_freshen (res : Resource) (key : string) (freshenedAt : Time) (c : cache) : freshen_plan :=
  let hashedKey := hashKey key in
  match readHeaderProvenance (headerPath hashedKey) key true c with
  | inl NotFound => if IsZero (r_storedAt res) then PlanNothing else PlanFail (FreshenUnreadable NotFound)
  | inl e => PlanFail (FreshenUnreadable e)
  | inr h =>
      let storedAt := if IsZero (hr_storedAt h) then entryStoredAt hashedKey c else hr_storedAt h in
      if resourceWasReplaced res hashedKey storedAt (hr_proof h) c then PlanFail FreshenReplaced
      else if negb (hr_status h =? r_statusCode res) || negb (headersEqual (hr_header h) (r_header res)) then PlanMismatch
      else match fs_open (c_fs c) (bodyPath hashedKey) with
           | Opened body =>
               match (match hr_meta h with
                      | Some meta => serializeIntegrityHeader (hr_status h) (r_header res) (with_stored_at freshenedAt meta)
                      | None => Some (serializeStoredHeader (hr_status h) (r_header res) freshenedAt)
                      end) with
               | None => PlanFail FreshenUnserialized
               | Some headerData => PlanWrite headerData (wrap64 (str_len body + str_len headerData))
               end
           | _ => PlanFail FreshenUnsized
           end
  end.

(** The part of [freshenResourceForKey] that holds the reservation: whether
    the entry does not match, and the resource after it. *)
Definition freshen_reserved (res : Resource) (key : string) : ST (freshen_error + (bool * Resource)) :=
  freshenedAt ← ask (clock env);
  c ← get_cache;
  match plan_freshen res key freshenedAt c with
  | PlanNothing => mret (inr (false, res))
  | PlanMismatch => mret (inr (true, res))
  | PlanFail e => mret (inl e)
  | PlanWrite headerData newSize =>
      refused ← reserve (hashKey key) newSize;
      match refused with
      | Some e => mret (inl (FreshenRefused e))
      | None =>
          err ← commitFreshenedHeader key (hashKey key) headerData newSize freshenedAt;
          match err with
          | Some (e, discard_failed) => mret (inl (FreshenUncommitted e discard_failed))
          | None =>
              c ← get_cache;
              let res := match r_storageGeneration res with
                         | Some _ => with_generation (entryGeneration (hashKey key) c) res
                         | None => res
                         end in
              failed ← ask (retain_fails env);
              mret match advanceResourceProvenance failed res key headerData freshenedAt c with
                   | inl e => inl e
                   | inr res => inr (false, res)
                   end
          end
      end
  end.

(** [freshenResourceForKey] *)
Definition freshenResourceForKey (res : Resource) (key : string) : ST (freshen_error + (bool * Resource)) :=
  _ ← set_cache (beginReservation (hashKey key));
  r ← freshen_reserved res key;
  _ ← set_cache (releaseReservation (hashKey key));
  mret r.

(** The loop of [Freshen]: the keys that do not match. *)
Fixpoint freshen_keys (res : Resource) (keys : list string) : ST (freshen_error + (list string * Resource)) :=
  match keys with
  | [] => mret (inr ([], res))
  | key :: keys =>
      if nonempty (r_storedKey res) && negb (key =?s r_storedKey res) then freshen_keys res keys
      else
        r ← freshenResourceForKey res key;
        match r with
        | inl e => mret (inl e)
        | inr (mismatch, res) =>
            r ← freshen_keys res keys;
            mret match r with
                 | inl e => inl e
                 | inr (invalidate, res) => inr (if mismatch : bool then key :: invalidate else invalidate, res)
                 end
        end
  end.

(** [Freshen] *)
Definition Freshen (res : Resource) (keys : list string) : ST (freshen_error + Resource) :=
  c ← get_cache;
  if responseSuperseded res keys c then mret (inl (FreshenSuperseded keys))
  else
    r ← freshen_keys res keys;
    match r with
    | inl e => mret (inl e)
    | inr (invalidate, res) =>
        _ ← set_cache (Invalidate_barrier invalidate);
        now ← ask (clock env);
        _ ← set_cache (Invalidate_final invalidate now);
        mret (inr res)
    end.
End Freshen.

Section Facts.
Context `{V : VFS, O : !OsFiles V, J : MarkerJSON, D : HttpDate, R : RecordText}.
Context `{VL : !VFSLaws V, OL : !OsFilesLaws V O}.
Implicit Types (w : world) (c : cache).

(** The cache apart from its ledger and files. *)
Definition same_settings w w' : Prop :=
  config (w_cache w') = config (w_cache w) ∧ diskRoot (w_cache w') = diskRoot (w_cache w) ∧
  stale (w_cache w') = stale (w_cache w).

Lemma same_settings_trans w1 w2 w3 : same_settings w1 w2 → same_settings w2 w3 → same_settings w1 w3.
Proof. intros (? & ? & ?) (? & ? & ?). unfold same_settings. by split_and!; etrans. Qed.

Lemma kept_settings hs own w w' : kept hs own w w' → same_settings w w'.
Proof. intros []. by split_and!. Qed.

(** The commit of a refreshed header: the body stays, the header is the new
    one. *)
Lemma commitFreshenedHeader_done env budgeted key data size at_ w w' :
  commitFreshenedHeader env budgeted key (hashKey key) data size at_ w = (None, w') → store_inv [hashKey key] w → at_ ≠ zero_time →
  file w' (bodyPath (hashKey key)) = file w (bodyPath (hashKey key)) ∧
  file w' (headerPath (hashKey key)) = Opened data ∧ same_settings w w' ∧
  ∃ en, lruIndex (w_cache w') !! hashKey key = Some en ∧ e_size en = size ∧ e_storedAt en = at_.
Proof.
  set (h := hashKey key). intros E Hi Hz. unfold commitFreshenedHeader in E.
  apply ST_bind_inv in E as ([[o n] err] & w1 & E1 & E). unfold stageSerializedHeaderContext in E1. fold h in E1.
  destruct (stageWriteContext_kept _ _ [h] _ _ _ _ _ _ _ _ E1) as (K1 & F1 & D1).
  change (headerPrefix +:+ formatPrefix +:+ h)%string with (headerPath h) in *.
  assert (∀ e o w1, abandon_freshened env key h size at_ o e w1 = (None, w') → False) as Hno.
  { intros e o2 w2 Ea. apply ST_bind_inv in Ea as (hd & w3 & _ & Ea). destruct (anyPublished [hd]); [|by injection Ea].
    apply ST_bind_inv in Ea as (now & w4 & _ & Ea). by apply ST_bind_inv in Ea as (failed & w5 & _ & [= ]). }
  apply ST_bind_inv in E as ([o2 err2] & w2 & E2 & E). destruct err2 as [e2|]; [by apply Hno in E|].
  destruct err as [e|]; [by injection E2|]. apply ST_bind_inv in E2 as ([files err3] & w3 & E3 & E2). injection E2 as _ -> <-.
  destruct (D1 eq_refl) as [_ Hd]. pose proof (K1 Hi) as Kept1. pose proof (k_inv _ _ _ _ Kept1) as Hi1.
  assert (entry_path [h] (headerPath h)) as Hph by (exists h; split; [by left|auto]).
  assert (entry_path [h] (bodyPath h)) as Hpb by (exists h; split; [by left|auto]).
  destruct (commitStagedLocked_kept [h] [headerPath h] _ _ _ _ _ E3 ltac:(by repeat constructor)) as (K3 & F3 & _ & _).
  pose proof (K3 Hi1) as Kept3.
  assert (file w3 (headerPath h) = Opened data) as Hnew.
  { apply (commitStagedLocked_done [h] w [(headerPath h, data)] [o] w1 files w3 E3 ltac:(by repeat constructor) Hi1 ltac:(by intros pd ->%list_elem_of_singleton)
      (NoDup_singleton _) ltac:(rewrite bind_cons, app_nil_r; apply (staged_tmps _ _ _ _ _ Hd F1)) (headerPath h, data) ltac:(by left)). }
  assert (file w3 (bodyPath h) = file w (bodyPath h)) as Hbody.
  { assert (∀ l, Forall2 staged_for [headerPath h] l → bodyPath h ∉ (l ≫= owned) ++ ([o] ≫= tmp_of)) as Hnot.
    { intros l Hl Hin. apply elem_of_app in Hin as [(x & Hp & Hx)%list_elem_of_bind|(x & Hp & Hx)%list_elem_of_bind].
      - apply (Forall2_in_r _ _ _ _ Hl) in Hx as (path & ->%list_elem_of_singleton & Hf). by apply (owned_staged _ _ _ Hf) in Hp.
      - apply list_elem_of_singleton in Hx as ->. apply (entry_not_staging _ _ Hpb). by apply (staged_tmps _ _ _ _ _ Hd F1). }
    rewrite (k_files _ _ _ _ Kept3); [|by left|by apply Hnot].
    apply (k_files _ _ _ _ Kept1); [by left|]. intros Hin. by apply (owned_staged _ _ _ F1) in Hin. }
  assert (same_settings w w3) as Hsame by (eapply same_settings_trans; by eapply kept_settings).
  apply ST_bind_inv in E as (now & w4 & [= <- <-] & E). apply ST_bind_inv in E as ([] & w5 & [= <-] & [= <-]).
  unfold file, same_settings in *. cbn [w_cache]. unfold trackEntry, IsZero. rewrite (proj2 (Z.eqb_neq at_ 0) Hz). cbv zeta.
  destruct (lruIndex (releaseReservationLocked h (w_cache w3)) !! h) as [en|]; cbn [lruIndex set_lru c_fs config diskRoot stale releaseReservationLocked set_reservations];
    (split; [exact Hbody|]; split; [exact Hnew|]; split; [exact Hsame|]; eexists; rewrite lookup_insert_eq; split; [done|]; by split).
Qed.
End Facts.

(** ** Theorems *)

Section Theorems.
Context `{V : VFS, O : !OsFiles V, J : MarkerJSON, D : HttpDate, R : RecordText}.
Context `{VL : !VFSLaws V, OL : !OsFilesLaws V O, RL : !RecordTextLaws R}.
Implicit Types (w : world) (c : cache).

(** The record [previous] is still that of the entry: the same bytes and, on a
    disk, in the same file. *)
Definition still_there (previous : headerProvenance) (key : string) c : Prop :=
  ∃ raw, fs_open (c_fs c) (headerPath (hashKey key)) = Opened raw ∧ sha256_hex raw = pv_fingerprint previous ∧
    ∀ i, pv_fileInfo previous = Some i → diskRoot c ≠ EmptyString → fs_identity (c_fs c) (headerPath (hashKey key)) = Some i.

Lemma not_replaced previous key raw c :
  fs_open (c_fs c) (headerPath (hashKey key)) = Opened raw →
  negb (pv_fingerprint previous =?s sha256_hex raw) ||
    other_file (pv_fileInfo previous) (pv_fileInfo (proof_of (headerPath (hashKey key)) raw c)) = false →
  still_there previous key c.
Proof.
  intros Hh [Hf Ho]%orb_false_iff. exists raw. split; [done|]. apply negb_false_iff, String.eqb_eq in Hf. split; [done|].
  intros i Hi Hne. destruct (identity_opened _ _ _ Hh) as [j Hj]. revert Ho. unfold proof_of. rewrite Hi. cbn [pv_fileInfo].
  replace (nonempty (diskRoot c)) with true by (unfold nonempty; by destruct (diskRoot c)). rewrite Hj. cbn.
  intros Ho%negb_false_iff%Z.eqb_eq. congruence.
Qed.

Lemma plan_write_record res key at_ c data size body status h at0 :
  plan_freshen res key at_ c = PlanWrite data size → entry_on_disk c key body status h at0 →
  0 ≤ status ≤ max_int64 → plain_header h → 0 < at0 < max_http_time → 0 < at_ < max_http_time → str_len body ≤ max_int64 →
  r_statusCode res = status ∧ size = wrap64 (str_len body + str_len data) ∧
  serializeCacheHeader (integrity_on c) status (r_header res) at_ key (str_len body) (sha256_hex body) = Some data ∧
  (∀ previous, r_storageRecord res = Some previous → still_there previous key c).
Proof.
  intros Hplan Hdisk Hs Hp Ht Hat Hlen. destruct (entry_on_disk_reads _ _ _ _ _ _ Hdisk Hs Hp Ht Hlen) as (raw & meta & Hh & Hread & Hmeta).
  unfold plan_freshen in Hplan. rewrite Hread in Hplan. cbn [hr_storedAt hr_proof hr_status hr_header hr_meta] in Hplan.
  destruct (resourceWasReplaced _ _ _ _ _) eqn:Erep; [done|]. destruct (_ || _) eqn:Emis; [done|].
  rewrite (od_body _ _ _ _ _ _ Hdisk) in Hplan. apply orb_false_iff in Emis as [Est _]. apply negb_false_iff, Z.eqb_eq in Est.
  unfold resourceWasReplaced in Erep. apply orb_false_iff in Erep as [_ Erec].
  assert (∀ previous, r_storageRecord res = Some previous → still_there previous key c) as Hprev.
  { intros previous Hpr. rewrite Hpr in Erec. by apply (not_replaced previous key raw). }
  destruct meta as [m|].
  - destruct Hmeta as (Hint & Hm & Hsz & Hd & Hk). destruct (serializeIntegrityHeader _ _ _) as [data'|] eqn:Eser; [|done].
    injection Hplan as <- <-. split; [done|]. split; [done|]. split; [|done].
    rewrite Hint. unfold serializeCacheHeader. cbn [negb]. rewrite <- Eser. unfold serializeIntegrityHeader.
    set (m2 := with_stored_at at_ m). set (m1 := {| ir_StoredAt := at_; ir_Size := str_len body |}).
    rewrite (recordDigest_fields m1 m2) by (unfold m1, m2; cbn; congruence). set (d := recordDigest m2 _).
    rewrite <- (json_exported (with_header_digest d m1) EmptyString), <- (json_exported (with_header_digest d m2) EmptyString).
    assert (with_fingerprint EmptyString (with_header_digest d m1) = with_fingerprint EmptyString (with_header_digest d m2)) as ->; [|done].
    unfold with_fingerprint, with_header_digest, m1, m2, with_stored_at. cbn. by rewrite Hsz, Hd, Hk.
  - injection Hplan as <- <-. rewrite Hmeta. split; [done|]. split; [done|]. by split; [rewrite Est|].
Qed.

(** The header is committed: the resource may yet fail to take it over. *)
Definition committed (r : freshen_error + (bool * Resource)) : Prop :=
  match r with inr (false, _) | inl (FreshenUnidentified _) | inl FreshenUnretained => True | _ => False end.

#[export] Instance committed_dec r : Decision (committed r).
Proof. refine (match r with inr (false, _) | inl (FreshenUnidentified _) | inl FreshenUnretained => left I | _ => right _ end); by intros []. Defined.

Lemma plan_fails_before res key at_ c e : plan_freshen res key at_ c = PlanFail e → ¬ committed (inl e).
Proof.
  unfold plan_freshen. cbv zeta. intros Hp. repeat (case_match; try discriminate Hp); injection Hp as <-; by intros [].
Qed.

(** What a refresh that has written leaves on the disk. *)
Lemma freshen_written env budgeted res key w r w' body status h at0 :
  freshenResourceForKey env budgeted res key w = (r, w') → committed r →
  ledger_inv (w_cache w) → active (w_cache w) (hashKey key) = false → (∀ i, 0 < clock env i < max_http_time) →
  entry_on_disk (w_cache w) key body status h at0 →
  0 ≤ status ≤ max_int64 → plain_header h → plain_header (r_header res) → 0 < at0 < max_http_time → str_len body ≤ max_int64 →
  (∀ previous, r_storageRecord res = Some previous → still_there previous key (w_cache w)) ∧
  ∃ i, (w_tick w ≤ i)%nat ∧ entry_on_disk (w_cache w') key body status (r_header res) (clock env i).
Proof.
  intros E Hr Hl Hact Hclock Hdisk Hs Hp Hp2 Ht Hlen. unfold freshenResourceForKey in E.
  apply ST_bind_inv in E as ([] & w1 & [= <-] & E). apply ST_bind_inv in E as (r1 & w2 & E2 & E).
  apply ST_bind_inv in E as ([] & w3 & [= <-] & [= -> <-]). cbn [w_cache] in *.
  set (c1 := beginReservation (hashKey key) (w_cache w)) in *.
  assert (store_inv [hashKey key] {| w_cache := c1; w_tick := w_tick w; w_leases := w_leases w |}) as Hi1.
  { split; [by apply beginReservation_inv|]. intros x ->%list_elem_of_singleton. cbn. rewrite lookup_insert_eq. by eauto. }
  assert (entry_on_disk c1 key body status h at0) as Hdisk1 by (destruct Hdisk as [Hb (raw & ? & ?)]; split; [done|by exists raw]).
  unfold freshen_reserved in E2. apply ST_bind_inv in E2 as (at_ & w4 & [= <- <-] & E2).
  apply ST_bind_inv in E2 as (c & w4' & [= <- <-] & E2). cbn [w_cache w_tick] in E2. specialize (Hclock (w_tick w)) as Hat.
  destruct (plan_freshen res key (clock env (w_tick w)) c1) as [| |data size|e] eqn:Eplan; [|by injection E2 as <- _| |].
  3: { apply plan_fails_before in Eplan. by injection E2 as <- _. }
  { destruct (entry_on_disk_reads _ _ _ _ _ _ Hdisk1 Hs Hp Ht Hlen) as (raw & meta & Hh & Hread & _).
    unfold plan_freshen in Eplan. rewrite Hread in Eplan. repeat case_match; discriminate. }
  destruct (plan_write_record _ _ _ _ _ _ _ _ _ _ Eplan Hdisk1 Hs Hp Ht Hat Hlen) as (Hst & -> & Hser & Hprev). split; [exact Hprev|].
  apply ST_bind_inv in E2 as (refused & w5 & E5 & E2). destruct refused as [e|]; [by injection E2 as <- _|].
  pose proof (keeps_reserve [hashKey key] _ _ _ _ _ E5) as K5.
  assert (store_inv [hashKey key] {| w_cache := c1; w_tick := S (w_tick w); w_leases := w_leases w |}) as Hi4 by (by destruct Hi1).
  pose proof (K5 Hi4) as Kept5. apply ST_bind_inv in E2 as (err & w6 & E6 & E2). destruct err as [[e b]|]; [by injection E2 as <- _|].
  assert (w_cache w6 = w_cache w2) as <-.
  { apply ST_bind_inv in E2 as (c6 & w6' & [= <- <-] & E2). apply ST_bind_inv in E2 as (f & w7 & [= _ <-] & E2). by injection E2 as _ <-. }
  destruct (commitFreshenedHeader_done _ _ _ _ _ _ _ _ E6 (k_inv _ _ _ _ Kept5)) as (Hb6 & Hh6 & Hset & _); [unfold zero_time; lia|].
  pose proof (same_settings_trans _ _ _ (kept_settings _ _ _ _ Kept5) Hset) as (Hcfg & _ & _). cbn [w_cache] in Hcfg.
  assert (file w5 (bodyPath (hashKey key)) = Opened body) as Hb5.
  { rewrite (k_files _ _ _ _ Kept5); [exact (od_body _ _ _ _ _ _ Hdisk1)| |by apply not_elem_of_nil].
    left. exists (hashKey key). split; [by left|by left]. }
  exists (w_tick w). split; [done|]. split; [transitivity (file w6 (bodyPath (hashKey key))); [done|by rewrite Hb6]|].
  exists data. split; [exact Hh6|]. unfold integrity_on in *. cbn [config releaseReservation releaseReservationLocked set_reservations]. by rewrite Hcfg.
Qed.

(** C22: a refresh changes the header of the generation it validated and
    nothing else.  When it has written, the record on the disk was the one the
    resource was read with, in the same file, and afterwards a lookup gives the same body, still
    matching its digest, with the refreshed fields and the instant of the
    refresh.  Both headers are ones a header file can carry. *)
Theorem refresh_then_retrieve env budgeted res key w res' w' body status h at0 now :
  freshenResourceForKey env budgeted res key w = (inr (false, res'), w') →
  ledger_inv (w_cache w) → active (w_cache w) (hashKey key) = false → (∀ i, 0 < clock env i < max_http_time) →
  entry_on_disk (w_cache w) key body status h at0 →
  0 ≤ status ≤ max_int64 → plain_header h → plain_header (r_header res) → 0 < at0 < max_http_time → str_len body ≤ max_int64 →
  (∀ previous, r_storageRecord res = Some previous → still_there previous key (w_cache w)) ∧
  ∃ i res2, (w_tick w ≤ i)%nat ∧ (Retrieve key now (w_cache w')).1 = inr res2 ∧ r_body res2 = body ∧ r_statusCode res2 = status ∧
    r_header res2 = written_fields (r_header res) ∧ r_storedAt res2 = clock env i.
Proof.
  intros E Hl Hact Hclock Hdisk Hs Hp Hp2 Ht Hlen.
  destruct (freshen_written _ _ _ _ _ _ _ _ _ _ _ E I Hl Hact Hclock Hdisk Hs Hp Hp2 Ht Hlen) as (Hprev & i & Hi & Hdisk').
  split; [exact Hprev|]. destruct (retrieve_stored key body status (r_header res) (clock env i) true now (w_cache w'))
    as (res2 & Hr & H1 & H2 & H3 & H4 & _); try done.
  by exists i, res2; split_and!.
Qed.
End Theorems.

#[local] Existing Instance mem_fs.
#[local] Existing Instance mem_os.
#[local] Existing Instance stamp_date.
#[local] Existing Instance binary_json.
#[local] Existing Instance hex_records.

(** The entry of [sample_response], stored at [example_now], and a refresh that
    adds an [Age]. *)
Definition stored_files : mem_state :=
  {| files := <[bodyPath (hashKey key_x) := "hello"%string]> (<[headerPath (hashKey key_x) := sample_record]> ∅);
     unremovable := ∅; unwritable := ∅; torn := ∅ |}.
Definition stored_world : world :=
  {| w_cache := @new_cache mem_fs stored_files DefaultCacheConfig "/srv/cache"; w_tick := 0; w_leases := 0 |}.
Definition refreshed_response : Resource :=
  with_record (Some (proof_of (headerPath (hashKey key_x)) sample_record (w_cache stored_world))) example_now (set_header (<["Age" := ["7"%string]]> (r_header sample_response)) None sample_response).
Definition refresh_run := freshenResourceForKey calm_env false refreshed_response key_x stored_world.

(** The resource after [refresh_run]. *)
Definition refreshed_result : Resource := match refresh_run.1 with inr (_, r) => r | inl _ => refreshed_response end.

Lemma refresh_then_retrieve_witness :
  ∃ res2, (Retrieve key_x (example_now + minute) (w_cache refresh_run.2)).1 = inr res2 ∧ r_body res2 = "hello"%string ∧
    r_header res2 = written_fields (r_header refreshed_response).
Proof.
  assert (0 <= 200 <= max_int64) as Hs by done.
  assert (refresh_run.1 = inr (false, refreshed_result)) as Hr by (vm_compute; reflexivity).
  pose proof (surjective_pairing refresh_run) as E. rewrite Hr in E. unfold refresh_run in E at 1.
  assert (entry_on_disk (w_cache stored_world) key_x "hello" 200 (r_header sample_response) example_now) as Hdisk.
  { split; [vm_compute; reflexivity|]. exists sample_record. split; vm_compute; reflexivity. }
  assert (plain_header (r_header refreshed_response)) as Hplain.
  { apply (plain_header_fields [("Age", ["7"]); ("Cache-Control", ["max-age=60"]); ("Content-Length", ["5"])]%string). by repeat constructor. }
  assert (ledger_inv (w_cache stored_world)) as Hl by apply new_ledger.
  assert (active (w_cache stored_world) (hashKey key_x) = false) as Ha by apply calm_free.
  assert (0 < example_now < max_http_time) as Ht by (split; vm_compute; reflexivity).
  assert (str_len "hello" <= max_int64) as Hb by (vm_compute; discriminate).
  pose proof (refresh_then_retrieve (VL := mem_fs_laws) (OL := mem_os_laws) (RL := hex_records_laws) calm_env false refreshed_response key_x
    stored_world refreshed_result refresh_run.2 "hello" 200 (r_header sample_response) example_now (example_now + minute) E Hl Ha) as P1.
  pose proof (P1 calm_clock_bounds Hdisk) as P2.
  pose proof (P2 Hs sample_fields_plain Hplain Ht Hb) as P3.
  destruct P3 as [_ (i & res2 & _ & Hget & Hb2 & _ & Hh & _)].
  exists res2. split; [exact Hget|]. split; [exact Hb2|exact Hh].
Defined.
