(* ===== verification/CacheInterface.v ===== *)
(** * The interface between the handler and a cache ([cache.go])

    [type Cache interface] with the optional interfaces the handler looks for
    ([ContextStore], [cacheRechecker], [staleAtChecker],
    [staleSnapshotChecker]), as a class over the state of the cache, and what
    the handler relies on, as laws: a cache invents nothing, and it remembers
    what it has stored.  The theorems about the whole system are proved from
    the laws; [DiskCache] proves them of the cache of the repository. *)

From S2P Require Import Prelude GoStrings GoTime GoHttp Resource.

(** What a retrieval returns: a resource, [ErrNotFoundInCache], another error. *)
Inductive lookup_answer := Gives (res : Resource) | Missing | Failing.

(** An operation that has to wait for a lock is [None].  [O] is what the
    surroundings answer during an operation: instants, failures. *)
Class Cache (C O : Type) := {
  (* [Retrieve] records the hit or the miss, [RetrieveForRecheck] does not *)
  cache_Retrieve : O → bool → string → C → lookup_answer * C;
  (* [StoreContext]: on an error, the keys it could not put right *)
  cache_Store : O → Resource → list string → C → option (option (list string) * C);
  (* [Freshen]: [true] is success *)
  cache_Freshen : O → Resource → list string → C → option (bool * C);
  cache_Invalidate : O → list string → C → C;
  cache_StaleAt : string → C → option Time;
  cache_StaleSnapshot : list string → C → gmap string Time;
  (* what the cache does by itself: cleanups, purges, a restart *)
  cache_upkeep : C → C → Prop;
}.

(** The promise.  [slot] is what a cache tells keys apart by.  [holds P c]: a
    status and a body that a retrieval from [c] can give under a slot satisfy
    [P] there. *)
Class CacheLaws (C O : Type) `{Cache C O} := {
  slot : string → string;
  (* the surroundings are those the cache is made for *)
  plausible : O → Prop;
  storable : O → C → Resource → list string → Prop;
  refreshable : Resource → Prop;
  holds : (string → Z → string → Prop) → C → Prop;
  holds_mono : ∀ (P Q : string → Z → string → Prop) c, (∀ h st b, P h st b → Q h st b) → holds P c → holds Q c;
  Retrieve_holds : ∀ P o record key c answer c', cache_Retrieve o record key c = (answer, c') → holds P c →
    holds P c' ∧ match answer with Gives res => P (slot key) (r_statusCode res) (r_body res) | _ => True end;
  Store_holds : ∀ P o res keys c c', cache_Store o res keys c = Some (None, c') → plausible o → storable o c res keys →
    (∀ k, k ∈ keys → P (slot k) (r_statusCode res) (stored_body res)) → holds P c → holds P c';
  Store_failed_holds : ∀ P o res keys c left c', cache_Store o res keys c = Some (Some left, c') → plausible o →
    (∀ k, k ∈ left → ∀ st b, P (slot k) st b) → holds P c → holds P c';
  Freshen_holds : ∀ P o res keys c c', cache_Freshen o res keys c = Some (true, c') → plausible o → refreshable res →
    holds P c → holds P c';
  Freshen_failed_holds : ∀ P o res keys c c', cache_Freshen o res keys c = Some (false, c') → plausible o → refreshable res →
    (∀ k, k ∈ keys → ∀ st b, P (slot k) st b) → holds P c → holds P c';
  Invalidate_holds : ∀ P o keys c, holds P c → holds P (cache_Invalidate o keys c);
  upkeep_holds : ∀ P c c', cache_upkeep c c' → holds P c → holds P c';
  (* a successful store of keys without a marker is found under the first key *)
  Store_found : ∀ P o res key keys c c', cache_Store o res (key :: keys) c = Some (None, c') → plausible o →
    storable o c res (key :: keys) → holds P c → (∀ k, k ∈ key :: keys → cache_StaleAt k c = None) →
    (∀ k, cache_StaleAt k c' = cache_StaleAt k c) ∧
    ∀ o' record, ∃ res' c2, cache_Retrieve o' record key c' = (Gives res', c2) ∧ r_statusCode res' = r_statusCode res ∧
      r_body res' = stored_body res ∧ r_header res' = written_fields (r_header res) ∧ r_stale res' = false ∧
      (∀ k, cache_StaleAt k c2 = cache_StaleAt k c');
}.
