(* ===== verification/Contract.v ===== *)
(** * The cache as a map that forgets ([cache.go])

    The contract of the disk cache towards the handler, and the refinement: a
    cache remembers, per hash of a key, the last response stored under it, and
    may forget it.  The abstract state is that map, and the hashes whose files
    a failed store or refresh could not put right.  The steps of [contract_step]
    are the operations of the cache, in any order and with any failure of what
    is below it; [cache_refines_map] shows that what a lookup finds is
    what the abstract map holds. *)

From S2P Require Import Prelude GoStrings GoTime GoQuote GoHttp CacheControl Config Vfs CacheState Resource Ledger Admission Markers Generations StoredHeader Store Staged Transaction Retrieve Startup Freshen.

(** ** The abstract cache *)

Record stored_response := { s_key : string; s_status : Z; s_header : Header; s_body : string }.

Record forgetful := { last_stored : gmap string stored_response; unsure : gset string }.
Definition nothing_stored : forgetful := {| last_stored := ∅; unsure := ∅ |}.

Definition response_of (res : Resource) (key : string) : stored_response :=
  {| s_key := key; s_status := r_statusCode res; s_header := r_header res; s_body := stored_body res |}.

(** A store remembers its response under each of its keys. *)
Definition remember (res : Resource) (keys : list string) (A : forgetful) : forgetful :=
  {| last_stored := foldl (λ m k, <[hashKey k := response_of res k]> m) (last_stored A) keys;
     unsure := unsure A ∖ list_to_set (hashKey <$> keys) |}.

(** A refresh replaces the fields of what is remembered. *)
Definition refreshed (key : string) (h : Header) (A : forgetful) : forgetful :=
  {| last_stored := alter (λ x, {| s_key := s_key x; s_status := s_status x; s_header := h; s_body := s_body x |}) (hashKey key) (last_stored A);
     unsure := unsure A |}.

Definition doubt (keys : list string) (A : forgetful) : forgetful :=
  {| last_stored := last_stored A; unsure := unsure A ∪ list_to_set (hashKey <$> keys) |}.

(** A refresh that fails changes nothing, unless it fails after the header was
    written, or cannot remove what it wrote. *)
Definition refresh_failed (key : string) (h : Header) (e : freshen_error) (A : forgetful) : forgetful :=
  match e with
  | FreshenUnidentified _ | FreshenUnretained => refreshed key h A
  | FreshenUncommitted _ true => doubt [key] A
  | _ => A
  end.

(** What a lookup may answer: an error or a miss at any time, otherwise what
    is remembered. *)
Definition allowed {E} (A : forgetful) (key : string) (answer : E + Resource) : Prop :=
  match answer with
  | inl _ => True
  | inr res =>
      hashKey key ∈ unsure A ∨
      ∃ x, last_stored A !! hashKey key = Some x ∧ r_body res = s_body x ∧ r_statusCode res = s_status x ∧ r_header res = written_fields (s_header x)
  end.

(** ** The operations *)

Section Steps.
Context `{V : VFS, O : !OsFiles V, F : !VfsDirs V, J : MarkerJSON, D : HttpDate, R : RecordText}.
Implicit Types c : cache.

(** Nobody else holds the keys. *)
Definition idle (w : world) (keys : list string) : Prop := ∀ k, k ∈ keys → active (w_cache w) (hashKey k) = false.

(** A response a response writer can have produced. *)
Definition storable_response (env : Env) (w : world) (res : Resource) (keys : list string) : Prop :=
  0 ≤ r_statusCode res ≤ max_int64 ∧ plain_header (r_header res) ∧ str_len (stored_body res) ≤ max_int64 ∧
  fits env res (integrity_on (w_cache w)) (lockStoreKeys keys).

Definition with_cache (c : cache) (w : world) : world := {| w_cache := c; w_tick := w_tick w; w_leases := w_leases w |}.

(** What neither stores nor refreshes. *)
Inductive maintenance : cache → cache → Prop :=
  | do_lookup key record now c : maintenance c (retrieveRecorded key record now c).2
  | do_header key now c : maintenance c (Header_ key now c).2
  | do_barrier keys c : maintenance c (Invalidate_barrier keys c)
  | do_final keys now c : maintenance c (Invalidate_final keys now c)
  | do_cleanup start c : maintenance c (Cleanup start c).2
  | do_purge c : maintenance c (Purge c).2.

Inductive contract_step (env : Env) : forgetful * world → forgetful * world → Prop :=
  | step_store A w budgeted res keys w' :
      StoreContext env budgeted res keys w = (None, w') → idle w keys → storable_response env w res keys →
      contract_step env (A, w)
        (if responseSuperseded res (lockStoreKeys keys) (w_cache w) then A else remember res (lockStoreKeys keys) A, w')
  | step_store_failed A w budgeted res keys err left w' :
      StoreContext env budgeted res keys w = (Some (err, left), w') → idle w keys →
      contract_step env (A, w) (doubt left A, w')
  | step_refresh A w budgeted res key res' w' :
      freshenResourceForKey env budgeted res key w = (inr (false, res'), w') → idle w [key] → plain_header (r_header res) →
      contract_step env (A, w) (refreshed key (r_header res) A, w')
  | step_refresh_failed A w budgeted res key e w' :
      freshenResourceForKey env budgeted res key w = (inl e, w') → idle w [key] → plain_header (r_header res) →
      contract_step env (A, w) (refresh_failed key (r_header res) e A, w')
  | step_refresh_mismatch A w budgeted res key res' w' :
      freshenResourceForKey env budgeted res key w = (inr (true, res'), w') → idle w [key] →
      contract_step env (A, w) (A, w')
  | step_maintenance A w c :
      maintenance (w_cache w) c → contract_step env (A, w) (A, with_cache c w)
  | step_restart A w cfg restart :
      let f := c_fs (w_cache w) in let root := diskRoot (w_cache w) in
      Integrity cfg = Integrity (config (w_cache w)) → scan_succeeds f (Some cfg) root →
      contract_step env (A, w) (A, with_cache (newVFSCacheWithConfig f (Some cfg) root restart) w).

(** A new cache on files that hold no entry. *)
Definition empty_world (w : world) : Prop := ledger_inv (w_cache w) ∧ ∀ p, any_entry p → file w p = OpenNotExist.

(** ** What the files stand for *)

(** The files of a hash are those of what is remembered under it. *)
Record stands_for (w : world) (h body raw : string) (x : stored_response) : Prop := {
  sf_body : s_body x = body;
  sf_key : hashKey (s_key x) = h;
  sf_status : 0 ≤ s_status x ≤ max_int64;
  sf_header : plain_header (s_header x);
  sf_length : str_len body ≤ max_int64;
  sf_record : ∃ at_, 0 < at_ < max_http_time ∧
    serializeCacheHeader (integrity_on (w_cache w)) (s_status x) (s_header x) at_ (s_key x) (str_len body) (sha256_hex body) = Some raw;
}.

Definition represents (A : forgetful) (w : world) : Prop :=
  ∀ h body raw, h ∉ unsure A → file w (bodyPath h) = Opened body → file w (headerPath h) = Opened raw →
    ∃ x, last_stored A !! h = Some x ∧ stands_for w h body raw x.

Definition contract_inv (s : forgetful * world) : Prop := ledger_inv (w_cache s.2) ∧ represents s.1 s.2.
End Steps.

Section Facts.
Context `{V : VFS, O : !OsFiles V, F : !VfsDirs V, J : MarkerJSON, D : HttpDate, R : RecordText,
  VL : !VFSLaws V, OL : !OsFilesLaws V O, FL : !VfsDirsLaws V F, RL : !RecordTextLaws R}.
Implicit Types c : cache.

(** ** Lookups *)

Lemma record_reads integrity status h at_ key size digest raw :
  serializeCacheHeader integrity status h at_ key size digest = Some raw → 0 ≤ status ≤ max_int64 → plain_header h →
  0 < at_ < max_http_time → 0 ≤ size ≤ max_int64 → validDigest digest = true →
  readStoredHeaders raw = Some (status, written_fields h, at_).
Proof.
  intros Hraw Hs Hp Ht Hsz Hd. revert Hraw. unfold serializeCacheHeader. destruct integrity; cbn [negb].
  - set (meta := {| ir_StoredAt := at_ |}). intros Hraw. apply (integrity_record_back status h meta raw); [done..| |done].
    split; [simpl; lia|]. split; [done|]. split; [done|]. split; [by left|apply sha256_digest].
  - intros [= <-]. apply stored_record_back; done || lia.
Qed.

(** What a lookup that succeeds has read. *)
Lemma retrieve_read key record now c res :
  (retrieveRecorded key record now c).1 = inr res →
  ∃ raw status h at_, fs_open (c_fs c) (bodyPath (hashKey key)) = Opened (r_body res) ∧
    fs_open (c_fs c) (headerPath (hashKey key)) = Opened raw ∧ readStoredHeaders raw = Some (status, h, at_) ∧
    r_statusCode res = status ∧ r_header res = h.
Proof.
  unfold retrieveRecorded, retrieve. cbv zeta. intros E.
  destruct (fs_open (c_fs c) (bodyPath (hashKey key))) as [body| |] eqn:Eb; [|discriminate E..].
  destruct (readHeaderProvenance (headerPath (hashKey key)) key true c) as [[| |fp|]|h] eqn:Eh; try discriminate E.
  assert (∃ raw, fs_open (c_fs c) (headerPath (hashKey key)) = Opened raw ∧ readStoredHeaders raw = Some (hr_status h, hr_header h, hr_storedAt h)) as (raw & Hraw & Hread).
  { unfold readHeaderProvenance in Eh. destruct (fs_open (c_fs c) (headerPath (hashKey key))) as [raw| |]; try discriminate Eh. exists raw. split; [done|].
    destruct (negb _); [discriminate Eh|]. destruct (decodeIntegrityRecord _ _ _ _) as [fp|meta]; [discriminate Eh|].
    destruct (readStoredHeaders raw) as [[[st hd] at0]|]; [|by destruct meta]. destruct (headerFileInfo _ c); [by injection Eh as <-|done]. }
  exists raw, (hr_status h), (hr_header h), (hr_storedAt h).
  match type of E with context [if ?b then _ else _] => destruct b end; [by destruct (hr_meta h)|]. cbn [integrityResult fst] in E.
  assert (∀ r, mark_retrieved key r c = res → r_body res = r_body r ∧ r_statusCode res = r_statusCode r ∧ r_header res = r_header r) as Hmark.
  { intros r <-. pose proof (mark_retrieved_fields key r c) as Hm. cbv zeta in Hm. tauto. }
  injection E as E. apply Hmark in E as (-> & -> & ->). by split_and!.
Qed.

Lemma lookup_allowed A w key record now :
  represents A w → allowed A key (retrieveRecorded key record now (w_cache w)).1.
Proof.
  intros HA. destruct (retrieveRecorded key record now (w_cache w)).1 as [e|res] eqn:E; [exact I|].
  destruct (retrieve_read _ _ _ _ _ E) as (raw & status & h & at_ & Hb & Hh & Hread & Hst & Hhd). unfold allowed.
  destruct (decide (hashKey key ∈ unsure A)) as [|Hsure]; [by left|right].
  destruct (HA _ _ _ Hsure Hb Hh) as (x & Hx & [<- _ Hs Hp Hlen (at' & Hat & Hser)]). exists x. split; [done|]. split; [done|].
  rewrite (record_reads _ _ _ _ _ _ _ _ Hser Hs Hp Hat) in Hread; [|unfold str_len in *; lia|apply sha256_digest].
  injection Hread as H1 H2 H3. split; congruence.
Qed.

(** ** Steps that lose files at most *)

Definition loses (w w' : world) : Prop :=
  config (w_cache w') = config (w_cache w) ∧ ∀ p, any_entry p → file w' p = file w p ∨ file w' p = OpenNotExist.

Lemma stands_config w w' h body raw x :
  Integrity (config (w_cache w')) = Integrity (config (w_cache w)) → stands_for w h body raw x → stands_for w' h body raw x.
Proof. intros Hc []. split; try done. unfold integrity_on. by rewrite Hc. Qed.

Lemma loses_represents A w w' : loses w w' → represents A w → represents A w'.
Proof.
  intros [Hc Hf] HA h body raw Hsure Hb Hh.
  destruct (Hf (bodyPath h)) as [Eb|Eb]; [by exists h; left| |congruence]. destruct (Hf (headerPath h)) as [Eh|Eh]; [by exists h; right| |congruence].
  rewrite Eb in Hb. rewrite Eh in Hh. destruct (HA h body raw Hsure Hb Hh) as (x & Hx & Hs). exists x. split; [done|].
  apply (stands_config w); [by rewrite Hc|done].
Qed.

Lemma removals_loses P c c' :
  removals P c c' → ledger_inv c → ledger_inv c' ∧ config c' = config c ∧
  ∀ p, fs_open (c_fs c') p = fs_open (c_fs c) p ∨ fs_open (c_fs c') p = OpenNotExist.
Proof.
  intros Hr Hc. destruct (removals_spec _ _ _ Hr Hc) as (Hl & Hcfg & _). split; [done|]. split; [done|]. intros p. by apply (removals_shrink P).
Qed.

Lemma set_markers_files m c p : any_entry p → fs_open (c_fs (set_markers m c)) p = fs_open (c_fs c) p.
Proof. intros [h Hp]. unfold set_markers. rewrite (persistStale_files _ _ [h]); [done|]. exists h. split; [by left|done]. Qed.

Lemma set_markers_keeps m c :
  ledger_inv c → ledger_inv (set_markers m c) ∧ config (set_markers m c) = config c.
Proof. intros Hl. destruct (set_markers_frame m c) as (g & f & ->). split; [by apply (ledger_inv_ext c)|done]. Qed.

(** A cache that lost files at most, with an exact ledger. *)
Definition worn c c' : Prop :=
  ledger_inv c' ∧ config c' = config c ∧ ∀ p, any_entry p → fs_open (c_fs c') p = fs_open (c_fs c) p ∨ fs_open (c_fs c') p = OpenNotExist.

Lemma worn_ext c c1 c2 :
  worn c c1 → (ledger_inv c1 → ledger_inv c2) → config c2 = config c1 → c_fs c2 = c_fs c1 → worn c c2.
Proof. intros (Hl & Hc & Hf) H1 H2 H3. split; [by apply H1|]. rewrite H2, H3. done. Qed.

Lemma worn_refl c : ledger_inv c → worn c c.
Proof. intros Hl. split; [done|]. split; [done|by left]. Qed.

Lemma worn_trans c1 c2 c3 : worn c1 c2 → worn c2 c3 → worn c1 c3.
Proof.
  intros (_ & C1 & F1) (L2 & C2 & F2). split; [done|]. split; [congruence|]. intros p Hp. destruct (F2 p Hp) as [->|?]; [by apply F1|by right].
Qed.

Lemma removals_worn P c c' : removals P c c' → ledger_inv c → worn c c'.
Proof. intros Hr Hl. destruct (removals_loses P c c' Hr Hl) as (? & ? & Hf). split; [done|]. split; [done|]. intros p _. apply Hf. Qed.

Lemma set_markers_worn m c : ledger_inv c → worn c (set_markers m c).
Proof.
  intros Hl. destruct (set_markers_keeps m c Hl) as [? ?]. split; [done|]. split; [done|]. intros p Hp. left. by apply set_markers_files.
Qed.

Lemma discard_worn key h size st now c : ledger_inv c → worn c (discardUnadmitted key h size st now c).2.
Proof.
  intros Hl. destruct (discardUnadmitted key h size st now c) as [failed c'] eqn:E.
  pose proof (discardUnadmitted_inv key h size st now c Hl) as Hl'. rewrite E in Hl'.
  destruct (discard_frame _ _ _ _ _ _ _ _ Hl E) as (Hcfg & _). split; [done|]. split; [done|]. intros p _. cbn [snd].
  assert (c_fs c' = c_fs (remove_files h c).2) as ->; [|apply remove_files_shrinks].
  unfold discardUnadmitted in E. destruct (lruIndex c !! h) as [e|] eqn:El.
  - pose proof (removeEntry_fs e c) as Hfs. rewrite (li_key _ Hl h e El) in Hfs. rewrite <- Hfs. destruct (removeEntry e c) as [b c1].
    destruct (b && _); by injection E as _ <-.
  - destruct (remove_files h c) as [b c1]. destruct b; by injection E as _ <-.
Qed.

Lemma recordMiss_worn record c c1 : worn c c1 → worn c (if record : bool then recordMiss c1 else c1).
Proof. intros Hw. destruct record; [|done]. apply (worn_ext c c1 (recordMiss c1) Hw); [|done|done]. intros Hl. by apply (ledger_inv_ext c1). Qed.

Lemma retrieve_worn key record now c : ledger_inv c → worn c (retrieve key record now c).2.
Proof.
  intros Hl. unfold retrieve. cbv zeta. destruct (fs_open (c_fs c) _) as [body| |]; [|by apply recordMiss_worn, worn_refl|by apply worn_refl].
  destruct (readHeaderProvenance _ _ _ _) as [[| | |]|h]; [by apply recordMiss_worn, worn_refl|by apply worn_refl..|].
  match goal with |- context [if ?b then _ else _] => destruct b end; [by apply worn_refl|]. cbn [snd].
  assert (worn c (touchEntry (hashKey key) now c)) as Ht.
  { apply (worn_ext c c _ (worn_refl c Hl)); [by apply touchEntry_inv|unfold touchEntry; by destruct (lruIndex c !! hashKey key)..]. }
  destruct record; [|done]. apply (worn_ext c _ (recordHit (touchEntry (hashKey key) now c)) Ht); [|done|done]. intros Hl'. by apply (ledger_inv_ext (touchEntry (hashKey key) now c)).
Qed.

Lemma discardCorrupt_worn key fp now c : ledger_inv c → worn c (discardCorrupt key fp now c).
Proof.
  intros Hl. unfold discardCorrupt. destruct (fs_open _ _) as [raw| |]; [|by apply worn_refl..]. destruct (_ =?s _); [|by apply worn_refl].
  by apply discard_worn.
Qed.

Lemma integrityResult_worn {A} key record now (r : read_error + A) c0 c :
  worn c0 c → worn c0 (integrityResult key record now r c).2.
Proof.
  intros Hw. unfold integrityResult. destruct r as [[| |fp|]|a]; [done|done| |done|done]. cbn [snd]. apply recordMiss_worn.
  apply (worn_trans c0 c); [done|]. by apply discardCorrupt_worn, Hw.
Qed.

Lemma sweep_stale_worn now c : ledger_inv c → worn c (cleanupStaleMap now c).2.
Proof.
  intros Hl. unfold cleanupStaleMap. cbv zeta. destruct (_ <=? 0); [by apply worn_refl|].
  set (kept := filter _ (stale c)). fold (set_markers kept c). destruct (0 <? _); [by apply set_markers_worn|].
  apply (worn_ext c c _ (worn_refl c Hl)); [|done|done]. intros _. by apply (ledger_inv_ext c).
Qed.

Lemma Cleanup_worn start c : ledger_inv c → worn c (Cleanup start c).2.
Proof.
  intros Hl. assert (worn c (cleanupExpired start c).2) as Hw.
  { unfold cleanupExpired. destruct (0 <? TTL (config c)).
    - assert (worn c (cleanupTTLExpired start c).2) as Ht.
      { unfold cleanupTTLExpired. eapply removals_worn; [|done]. apply ttl_loop_removals, Hl. }
      destruct (cleanupTTLExpired start c) as [[[n b] complete] c1]. cbn [snd] in Ht. destruct complete; [|done].
      pose proof (sweep_stale_worn start c1 (proj1 Ht)) as Hs. destruct (cleanupStaleMap start c1) as [k c2]. by apply (worn_trans c c1).
    - pose proof (sweep_stale_worn start c Hl) as Hs. by destruct (cleanupStaleMap start c) as [k c2]. }
  unfold Cleanup. destruct (cleanupExpired start c) as [[[n b] k] c1]. cbn [snd] in Hw. destruct (0 <? MaxSize (config c1)); [|done].
  assert (worn c1 (enforceMaxSize c1).2) as He.
  { unfold enforceMaxSize. repeat case_match; try (apply worn_refl; apply Hw). eapply removals_worn; [|apply Hw]. apply max_size_loop_removals, Hw. }
  destruct (enforceMaxSize c1) as [[m f] c2]. by apply (worn_trans c c1).
Qed.

Lemma maintenance_worn c c' : ledger_inv c → maintenance c c' → worn c c'.
Proof.
  intros Hl Hm. destruct Hm as [key record now c|key now c|keys c|keys now c|start c|c].
  - unfold retrieveRecorded. pose proof (retrieve_worn key record now c Hl) as Hw. destruct (retrieve key record now c) as [r c1].
    by apply integrityResult_worn.
  - unfold Header_. by apply integrityResult_worn, worn_refl.
  - unfold Invalidate_barrier. destruct keys; [by apply worn_refl|by apply set_markers_worn].
  - unfold Invalidate_final. destruct keys; [by apply worn_refl|by apply set_markers_worn].
  - by apply Cleanup_worn.
  - unfold Purge. pose proof (removals_worn _ _ _ (purge_loop_removals (lruList c) false c Hl) Hl) as Hw.
    destruct (purge_loop (lruList c) false c) as [b c1]. cbn [snd] in Hw. destruct b; cbn [snd]; [done|].
    apply (worn_trans c c1); [done|]. by apply set_markers_worn, Hw.
Qed.

(** ** Refreshes *)

Lemma owned_path path o p : staged_for path o → p ∈ owned o → p = path.
Proof. apply owned_staged. Qed.

Lemma tmp_path path o p : staged_for path o → p ∈ tmp_of o → staging_path p.
Proof. intros Hf Hp. apply (tmps_staging [path] [o]); [by repeat constructor|]. by rewrite bind_cons, app_nil_r. Qed.

Lemma staged_evicts h own w w' :
  keeps [h] own w w' → store_inv [h] w → (∀ p, p ∈ own → p = headerPath h ∨ staging_path p) → evicts [h] w w' ∧ store_inv [h] w'.
Proof.
  intros K Hi Hown. split; [|apply (k_inv _ _ _ _ (K Hi))]. apply (keeps_evicts _ own); [done|done|].
  intros p Hp. destruct (Hown p Hp) as [->|?]; [left|by right]. exists h. split; [by left|by right].
Qed.

(** Discarding the key itself. *)
Lemma discard_key_evicts key h size st now w out :
  discardUnadmitted key h size st now (w_cache w) = out → ledger_inv (w_cache w) →
  evicts [h] w (with_cache out.2 w) ∧ ledger_inv out.2.
Proof.
  intros <- Hl. split; [|by apply discardUnadmitted_inv]. destruct (discardUnadmitted key h size st now (w_cache w)) as [failed c] eqn:E. cbn [snd].
  destruct (discard_frame _ _ _ _ _ _ _ _ Hl E) as (Hcfg & _). destruct (discardUnadmitted_files _ _ _ _ _ _ _ _ Hl E) as (_ & _ & Hother).
  split; [done|]. intros h' p Hh Hp. left. unfold file. cbn. rewrite list_elem_of_singleton in Hh.
  destruct Hp as [->| ->]; apply Hother; try done; [by intros ?%bodyPath_inj|by intros ?%headerPath_inj].
Qed.

Lemma abandon_freshened_evicts env key size at_ o e w r w' :
  let h := hashKey key in
  abandon_freshened env key h size at_ o e w = (r, w') → store_inv [h] w → staged_for (headerPath h) o →
  (∃ x, r = Some x) ∧ evicts [h] w w' ∧ ledger_inv (w_cache w').
Proof.
  intros h E Hi Hf. unfold abandon_freshened in E. apply ST_bind_inv in E as (o1 & w1 & E1 & E).
  destruct (abandon_one_kept [h] _ _ _ _ _ E1 Hf) as (K1 & _).
  destruct (staged_evicts h _ _ _ K1 Hi) as [X1 Hi1]; [intros p Hp; right; by apply (tmp_path _ _ _ Hf)|].
  destruct (anyPublished [o1]); [|injection E as <- <-; split; [by eexists|by split; [|apply Hi1]]].
  apply ST_bind_inv in E as (now & w2 & [= <- <-] & E). apply ST_bind_inv in E as (failed & w3 & E3 & [= <- <-]). split; [by eexists|].
  unfold on_cache in E3. cbn [w_cache] in E3.
  destruct (discard_key_evicts key h size at_ (clock env (w_tick w1)) w1 _ eq_refl (si_ledger _ _ Hi1)) as [[C X] L].
  destruct (discardUnadmitted key h size at_ _ (w_cache w1)) as [f c] eqn:Ed. injection E3 as <- <-. cbn [snd] in C, X, L. split; [|done].
  apply (evicts_trans _ _ w1); [done|]. split; [done|]. exact X.
Qed.

Lemma commitFreshenedHeader_evicts env budgeted key data size at_ w r w' :
  let h := hashKey key in
  commitFreshenedHeader env budgeted key h data size at_ w = (r, w') → store_inv [h] w → 0 ≤ size →
  evicts [h] w w' ∧ ledger_inv (w_cache w').
Proof.
  intros h E Hi Hs. unfold commitFreshenedHeader in E. apply ST_bind_inv in E as ([[o n] err] & w1 & E1 & E).
  unfold stageSerializedHeaderContext in E1. destruct (stageWriteContext_kept _ _ [h] _ _ _ _ _ _ _ _ E1) as (K1 & F1 & _).
  change (headerPrefix +:+ formatPrefix +:+ h)%string with (headerPath h) in *.
  destruct (staged_evicts h _ _ _ K1 Hi) as [X1 Hi1]; [intros p Hp; left; by apply (owned_path _ _ _ F1)|].
  apply ST_bind_inv in E as ([o2 err2] & w2 & E2 & E).
  assert (evicts [h] w1 w2 ∧ store_inv [h] w2 ∧ staged_for (headerPath h) o2) as (X2 & Hi2 & F2).
  { destruct err as [e|]; [injection E2 as <- <- <-; split; [by apply evicts_same|by split]|].
    apply ST_bind_inv in E2 as ([files err3] & w3 & E3 & E2). injection E2 as <- <- <-.
    destruct (commitStagedLocked_kept [h] [headerPath h] _ _ _ _ _ E3 ltac:(by repeat constructor)) as (K3 & F3 & _).
    destruct (staged_evicts h _ _ _ K3 Hi1) as [X3 Hi3].
    { intros p [Hp|Hp]%elem_of_app.
      - left. apply list_elem_of_bind in Hp as (x & Hp & Hx). apply (Forall2_in_r _ _ _ _ F3) in Hx as (path & ->%list_elem_of_singleton & Hf). by apply (owned_path _ _ _ Hf).
      - right. rewrite bind_cons, app_nil_r in Hp. by apply (tmp_path _ _ _ F1). }
    split; [done|]. split; [done|]. inversion F3 as [|? x ? ? Hx]. by subst. }
  pose proof (evicts_trans _ _ _ _ X1 X2) as X12. destruct err2 as [e|].
  - destruct (abandon_freshened_evicts _ _ _ _ _ _ _ _ _ E Hi2 F2) as (_ & X3 & L3). split; [by apply (evicts_trans _ _ w2)|done].
  - apply ST_bind_inv in E as (now & w3 & [= <- <-] & E). apply ST_bind_inv in E as ([] & w4 & [= <-] & [= <- <-]). cbn [w_cache]. split.
    + apply (evicts_trans _ _ w2); [done|]. apply evicts_same; cbn [w_cache]; unfold file, trackEntry; cbn [w_cache]; cbv zeta.
      * by destruct (lruIndex _ !! h).
      * intros p. by destruct (lruIndex _ !! h).
    + by apply trackEntry_inv; [apply Hi2|].
Qed.

(** A refresh that fails and removes what it wrote leaves the files of its key
    as they were, or no header. *)
Definition undone w w' (h : string) : Prop :=
  file w' (bodyPath h) = file w (bodyPath h) ∧ file w' (headerPath h) = file w (headerPath h) ∨ file w' (headerPath h) = OpenNotExist.

Lemma kept_same h own w w' :
  kept [h] own w w' → (∀ p, p ∈ own → staging_path p) → file w' (bodyPath h) = file w (bodyPath h) ∧ file w' (headerPath h) = file w (headerPath h).
Proof.
  intros K Hown. assert (∀ p, p = bodyPath h ∨ p = headerPath h → file w' p = file w p) as Hs; [|by split; apply Hs; auto].
  intros p Hp. assert (entry_path [h] p) as He by (exists h; split; [by left|done]).
  apply (k_files _ _ _ _ K); [by left|]. intros Hin%Hown. by apply (entry_not_staging _ _ He).
Qed.

Lemma anyPublished_owned o : anyPublished [o] = false → owned o = [].
Proof. destruct o as [e|]; [|done]. cbn. rewrite orb_false_r. by intros ->. Qed.

Lemma commitFreshenedHeader_undone env budgeted key data size at_ w e w' :
  let h := hashKey key in
  commitFreshenedHeader env budgeted key h data size at_ w = (Some (e, false), w') → store_inv [h] w → undone w w' h.
Proof.
  intros h E Hi. unfold commitFreshenedHeader in E. apply ST_bind_inv in E as ([[o n] err] & w1 & E1 & E).
  unfold stageSerializedHeaderContext in E1. destruct (stageWriteContext_kept _ _ [h] _ _ _ _ _ _ _ _ E1) as (K1 & F1 & _).
  change (headerPrefix +:+ formatPrefix +:+ h)%string with (headerPath h) in *.
  apply ST_bind_inv in E as ([o2 err2] & w2 & E2 & E).
  assert (keeps [h] (owned o2 ++ tmp_of o) w w2 ∧ staged_for (headerPath h) o2) as (K2 & F2).
  { destruct err as [e1|]; [injection E2 as <- <- <-; split; [eapply keeps_weaken; [|exact K1]; set_solver|done]|].
    apply ST_bind_inv in E2 as ([files err3] & w3 & E3 & E2). injection E2 as <- <- <-.
    destruct (commitStagedLocked_kept [h] [headerPath h] _ _ _ _ _ E3 ltac:(by repeat constructor)) as (K3 & F3 & _ & Ow).
    inversion F3 as [|? x ? rest Hx Hrest]; subst. inversion Hrest; subst. split; [|exact Hx]. rewrite !bind_cons in K3, Ow. cbn [mbind list_bind] in K3, Ow. rewrite !app_nil_r in K3, Ow.
    eapply keeps_weaken; [|exact (keeps_trans _ _ _ _ _ _ K1 K3)]. set_solver. }
  destruct err2 as [e2|]; [|apply ST_bind_inv in E as (now & w3 & _ & E); by apply ST_bind_inv in E as ([] & w4 & _ & [= ])].
  pose proof (K2 Hi) as Kept2. unfold abandon_freshened in E. apply ST_bind_inv in E as (o3 & w3 & E3 & E).
  destruct (abandon_one_kept [h] _ _ _ _ _ E3 F2) as (K3 & Hown & _ & _). pose proof (K3 (k_inv _ _ _ _ Kept2)) as Kept3.
  destruct (anyPublished [o3]) eqn:Epub.
  - apply ST_bind_inv in E as (now & w4 & [= <- <-] & E). apply ST_bind_inv in E as (failed & w5 & E5 & [= -> -> <-]).
    unfold on_cache in E5. cbn [w_cache] in E5. destruct (discardUnadmitted _ _ _ _ _ _) as [f c] eqn:Ed. injection E5 as -> <-.
    right. by apply (discardUnadmitted_files _ _ _ _ _ _ _ _ (si_ledger _ _ (k_inv _ _ _ _ Kept3)) Ed).
  - injection E as _ <-. left. apply anyPublished_owned in Epub. rewrite Hown in Epub. rewrite Epub in Kept2. cbn [app] in Kept2.
    destruct (kept_same h _ _ _ Kept3) as [-> ->]; [intros p; by apply (tmp_path _ _ _ F2)|].
    apply (kept_same h _ _ _ Kept2). intros p. by apply (tmp_path _ _ _ F1).
Qed.

Lemma reserve_nonneg h size w w' : reserve h size w = (None, w') → 0 ≤ size.
Proof.
  intros (err & w1 & E & Ea)%ST_bind_inv. unfold on_cache in E. destruct (Z.ltb_spec size 0) as [Hs|]; [|done]. exfalso.
  unfold reserveEntry, evictForAdmissionLocked in E. rewrite (proj2 (Z.ltb_lt size 0) Hs) in E. injection E as <- <-. discriminate Ea.
Qed.

(** Any refresh leaves the other keys alone. *)
Lemma refresh_evicts env budgeted res key w r w' :
  freshenResourceForKey env budgeted res key w = (r, w') → ledger_inv (w_cache w) → active (w_cache w) (hashKey key) = false →
  evicts [hashKey key] w w' ∧ ledger_inv (w_cache w') ∧
  (match plan_freshen res key (clock env (w_tick w)) (beginReservation (hashKey key) (w_cache w)) with
   | PlanWrite _ _ => ∀ res', r ≠ inr (true, res') | _ => ∀ p, file w' p = file w p end).
Proof.
  intros E Hl Hact. unfold freshenResourceForKey in E.
  apply ST_bind_inv in E as ([] & w1 & [= <-] & E). apply ST_bind_inv in E as (r1 & w2 & E2 & E).
  apply ST_bind_inv in E as ([] & w3 & [= <-] & [= <- <-]). cbn [w_cache] in *.
  set (h := hashKey key) in *. set (c1 := beginReservation h (w_cache w)) in *.
  assert (ledger_inv c1) as Hl1 by (by apply beginReservation_inv).
  assert (evicts [h] (with_cache c1 w) w2 ∧ ledger_inv (w_cache w2) ∧
    match plan_freshen res key (clock env (w_tick w)) c1 with PlanWrite _ _ => ∀ res', r1 ≠ inr (true, res') | _ => ∀ p, file w2 p = file w p end) as ((C & X) & L & P).
  { unfold freshen_reserved in E2. apply ST_bind_inv in E2 as (at_ & w4 & [= <- <-] & E2).
    apply ST_bind_inv in E2 as (c & w4' & [= <- <-] & E2). cbn [w_cache w_tick] in E2.
    destruct (plan_freshen res key (clock env (w_tick w)) c1) as [| |data size|e] eqn:Eplan; try (injection E2 as _ <-; split; [by apply evicts_same|by split]).
    apply ST_bind_inv in E2 as (refused & w5 & E5 & E2). cbn [w_cache w_tick w_leases] in E5.
    assert (store_inv [h] {| w_cache := c1; w_tick := S (w_tick w); w_leases := w_leases w |}) as Hi4.
    { split; [done|]. intros x ->%list_elem_of_singleton. cbn. rewrite lookup_insert_eq. by eauto. }
    pose proof (keeps_reserve [h] _ _ _ _ _ E5) as K5. pose proof (k_inv _ _ _ _ (K5 Hi4)) as Hi5.
    assert (evicts [h] (with_cache c1 w) w5) as X5 by (apply (keeps_evicts _ [] _ _ K5 Hi4); by intros p ?%elem_of_nil).
    destruct refused as [e|]; [injection E2 as <- <-; split; [done|by split; [apply Hi5|]]|].
    apply ST_bind_inv in E2 as (err & w6 & E6 & E2).
    assert (w_cache w6 = w_cache w2) as E62.
    { destruct err as [[e b]|]; [by injection E2 as _ <-|]. apply ST_bind_inv in E2 as (c6 & w6' & [= <- <-] & E2).
      apply ST_bind_inv in E2 as (f & w7 & [= _ <-] & E2). by injection E2 as _ <-. }
    destruct (commitFreshenedHeader_evicts _ _ _ _ _ _ _ _ _ E6 Hi5) as [[C6 X6] L6]; [by apply (reserve_nonneg h size _ _ E5)|].
    rewrite <- E62. split; [|split; [done|]].
    2: { intros res'. destruct err as [[e b]|]; [injection E2 as <- _; discriminate|]. apply ST_bind_inv in E2 as (c6 & w6' & [= <- <-] & E2).
         apply ST_bind_inv in E2 as (f & w7 & _ & E2). injection E2 as <- _. by destruct (advanceResourceProvenance _ _ _ _ _ _). }
    apply (evicts_trans _ _ w5); [done|]. split; [congruence|]. unfold file. by rewrite <- E62. }
  split; [|split; [by apply releaseReservation_inv|]].
  - split; [exact C|]. exact X.
  - destruct (plan_freshen _ _ _ _); try done; exact P.
Qed.

(** ** Every step keeps the correspondence *)

Lemma evicts_stands A w w' hs h body raw :
  evicts hs w w' → represents A w → h ∉ hs → h ∉ unsure A → file w' (bodyPath h) = Opened body → file w' (headerPath h) = Opened raw →
  ∃ x, last_stored A !! h = Some x ∧ stands_for w' h body raw x.
Proof.
  intros [C X] HA Hh Hsure Hb Hr. destruct (X h (bodyPath h) Hh ltac:(by left)) as [Eb|Eb]; [|congruence].
  destruct (X h (headerPath h) Hh ltac:(by right)) as [Er|Er]; [|congruence]. rewrite Eb in Hb. rewrite Er in Hr.
  destruct (HA h body raw Hsure Hb Hr) as (x & Hx & Hs). exists x. split; [done|]. apply (stands_config w); [by rewrite C|done].
Qed.

Lemma remember_other res keys A h : h ∉ hashKey <$> keys → last_stored (remember res keys A) !! h = last_stored A !! h.
Proof.
  unfold remember. cbn [last_stored]. generalize (last_stored A). induction keys as [|k keys IH]; intros m Hh; [done|]. rewrite fmap_cons, not_elem_of_cons in Hh.
  cbn [foldl]. rewrite IH by tauto. rewrite lookup_insert_ne; [done|]. intros Heq. by destruct Hh.
Qed.

Lemma remember_stored res keys A k :
  NoDup (hashKey <$> keys) → k ∈ keys → last_stored (remember res keys A) !! hashKey k = Some (response_of res k).
Proof.
  unfold remember. cbn [last_stored]. generalize (last_stored A). induction keys as [|k0 keys IH]; intros m Hnd Hk; [by apply elem_of_nil in Hk|].
  rewrite fmap_cons in Hnd. apply NoDup_cons in Hnd as [Hnot Hnd]. cbn [foldl]. apply elem_of_cons in Hk as [->|Hk]; [|by apply IH].
  pose proof (remember_other res keys {| last_stored := <[hashKey k0 := response_of res k0]> m; unsure := ∅ |} (hashKey k0) Hnot) as Ho.
  unfold remember in Ho. cbn [last_stored] in Ho. by rewrite Ho, lookup_insert_eq.
Qed.

Lemma same_cache_represents A w w' : w_cache w' = w_cache w → contract_inv (A, w) → contract_inv (A, w').
Proof.
  intros Hc [Hl HA]. cbn [fst snd] in *. split; cbn [fst snd]; [by rewrite Hc|]. apply (loses_represents A w); [|done]. split; [by rewrite Hc|].
  intros p _. left. unfold file. by rewrite Hc.
Qed.

Lemma store_ignored env budgeted res keys w w' :
  StoreContext env budgeted res keys w = (None, w') → keys = [] ∨ responseSuperseded res (lockStoreKeys keys) (w_cache w) = true →
  w_cache w' = w_cache w.
Proof.
  intros E Hc. unfold StoreContext in E. apply ST_bind_inv in E as (ended & w1 & [= <- <-] & E). destruct (cancelled env _); [by injection E|].
  destruct keys as [|k0 keys0] eqn:Ek; [by injection E as <-|]. destruct Hc as [|Hc]; [done|].
  apply ST_bind_inv in E as (ended & w2 & [= <- <-] & E). destruct (cancelled env _); [by injection E|].
  apply ST_bind_inv in E as (c & w2' & [= <- <-] & E). cbn [w_cache] in E. rewrite Hc in E. by injection E as <-.
Qed.

Lemma store_step A w budgeted res keys w' env :
  (∀ i, 0 < clock env i < max_http_time) → contract_inv (A, w) →
  StoreContext env budgeted res keys w = (None, w') → idle w keys → storable_response env w res keys →
  contract_inv (if responseSuperseded res (lockStoreKeys keys) (w_cache w) then A else remember res (lockStoreKeys keys) A, w').
Proof.
  intros Hclock Hinv E Hidle (Hs & Hp & Hlen & Hfit). pose proof Hinv as [Hl HA]. cbn [fst snd] in *. assert (∀ i, 0 < clock env i) as Hpos by (intros i; apply Hclock).
  destruct (responseSuperseded res (lockStoreKeys keys) (w_cache w)) eqn:Esup.
  { apply (same_cache_represents A w); [|done]. eapply store_ignored; [exact E|by right]. }
  destruct (decide (keys = [])) as [->|Hne].
  { assert (remember res (lockStoreKeys []) A = A) as ->. { unfold remember, lockStoreKeys. cbn. rewrite difference_empty_L. by destruct A. }
    apply (same_cache_represents A w); [|done]. eapply store_ignored; [exact E|by left]. }
  destruct (StoreContext_publishes _ _ _ _ _ _ E Hl Hidle Hpos Hne Esup) as (Hl' & [_ Hcfg] & _ & Hall).
  pose proof (StoreContext_evicts _ _ _ _ _ _ _ E Hl Hidle Hpos) as X. destruct (unique_keys_spec keys []) as (Hnd & _ & _). fold (lockStoreKeys keys) in Hnd.
  split; cbn [fst snd]; [by apply Hl'|]. intros h body raw Hsure Hb Hr.
  destruct (decide (h ∈ hashKey <$> lockStoreKeys keys)) as [Hin|Hout].
  - apply list_elem_of_fmap in Hin as (k & -> & Hk). destruct (Hall k Hk) as (i & raw' & _ & Hraw & Hb' & Hr' & _).
    exists (response_of res k). split; [by apply remember_stored|].
    assert (body = stored_body res ∧ raw = raw') as [-> ->] by (split; congruence). split; try done.
    exists (clock env i). split; [done|]. cbn. unfold integrity_on in *. by rewrite Hcfg.
  - rewrite remember_other by done. apply (evicts_stands A w w' (hashKey <$> lockStoreKeys keys)); try done.
    intros Hu. apply Hsure. unfold remember. cbn [unsure]. apply elem_of_difference. split; [done|]. by rewrite elem_of_list_to_set.
Qed.

Lemma store_failed_step A w budgeted res keys err left w' env :
  (∀ i, 0 < clock env i) → contract_inv (A, w) →
  StoreContext env budgeted res keys w = (Some (err, left), w') → idle w keys → contract_inv (doubt left A, w').
Proof.
  intros Hclock [Hl HA] E Hidle. cbn [fst snd] in *.
  destruct (StoreContext_failed _ _ _ _ _ _ _ _ E Hl Hidle Hclock) as [Hl' Hr]. pose proof (StoreContext_evicts _ _ _ _ _ _ _ E Hl Hidle Hclock) as X.
  destruct (unique_keys_spec keys []) as (_ & Hsub & _). fold (lockStoreKeys keys) in Hsub.
  split; cbn [fst snd]; [done|]. intros h body raw Hsure Hb Hh. unfold doubt in Hsure. cbn [unsure] in Hsure. rewrite elem_of_union, elem_of_list_to_set in Hsure.
  destruct (decide (h ∈ hashKey <$> lockStoreKeys keys)) as [Hin|Hout]; [|by apply (evicts_stands A w w' (hashKey <$> lockStoreKeys keys)); tauto].
  apply list_elem_of_fmap in Hin as (k & -> & Hk). cbn [doubt last_stored]. destruct Hr as [Hsame|Hgone].
  - destruct (Hsame k (proj1 (Hsub k Hk))) as [Eb Eh]. rewrite Eb in Hb. rewrite Eh in Hh. destruct (HA (hashKey k) body raw ltac:(tauto) Hb Hh) as (x & Hx & Hst).
    exists x. split; [done|]. apply (stands_config w); [by rewrite (proj1 X)|done].
  - destruct (Hgone k Hk) as [[Eb _]|[Hleft _]]; [congruence|]. destruct Hsure. right. by apply list_elem_of_fmap_2.
Qed.

Lemma serialize_key integrity status h at_ k1 k2 size digest :
  (integrity = true → sha256_hex k1 = sha256_hex k2) →
  serializeCacheHeader integrity status h at_ k1 size digest = serializeCacheHeader integrity status h at_ k2 size digest.
Proof. intros Hk. unfold serializeCacheHeader. destruct integrity; [|done]. by rewrite Hk. Qed.

Lemma decode_unchecked raw key other m :
  decodeIntegrityRecord raw key true true = inr (Some m) → decodeIntegrityRecord raw other true false = inr (Some m).
Proof.
  unfold decodeIntegrityRecord. destruct (negb (HasPrefix _ _)); [done|]. destruct (cut_crlf raw) as [[line record]|]; [|done].
  destruct (base64_decode _) as [encoded|]; [|done]. destruct (json_unmarshal encoded) as [meta|]; [|done].
  destruct (_ || _ || _ || _ || _); [done|]. cbn [andb orb]. destruct (negb (ir_KeySHA256 meta =?s _)); [done|]. done.
Qed.

(** What the plan of a refresh found where the files stand for a response. *)
Lemma plan_found w res key at_ body raw x :
  stands_for w (hashKey key) body raw x → file w (bodyPath (hashKey key)) = Opened body → file w (headerPath (hashKey key)) = Opened raw →
  plan_freshen res key at_ (beginReservation (hashKey key) (w_cache w)) ≠ PlanNothing ∧
  (∀ data size, plan_freshen res key at_ (beginReservation (hashKey key) (w_cache w)) = PlanWrite data size →
     ∃ at0, 0 < at0 < max_http_time ∧ entry_on_disk (w_cache w) key body (s_status x) (s_header x) at0 ∧
       (integrity_on (w_cache w) = true → sha256_hex (s_key x) = sha256_hex key)).
Proof.
  intros [Hbody Hkey Hs Hp Hlen (at0 & Hat & Hser)] Hb Hh. set (c1 := beginReservation _ _).
  destruct (serializeCacheHeader_lines _ _ _ _ _ _ _ _ (proj1 Hs) Hser) as (lines & _ & Hne & Hlines).
  assert (HasSuffix raw headerRecordTerminator = true) as Hend by (rewrite Hlines; by apply print_lines_complete).
  assert (fs_open (c_fs c1) (headerPath (hashKey key)) = Opened raw) as Hh1 by exact Hh.
  assert (∀ e, readHeaderProvenance (headerPath (hashKey key)) key true c1 = inl e → e ≠ NotFound) as Hnf.
  { intros e Hread ->. unfold readHeaderProvenance in Hread. rewrite Hh1, Hend in Hread. cbn [negb] in Hread.
    destruct (decodeIntegrityRecord _ _ _ _) as [fp|meta]; [done|]. destruct (readStoredHeaders raw) as [[[? ?] ?]|]; [|by destruct meta].
    by destruct (headerFileInfo _ c1). }
  split.
  - unfold plan_freshen. destruct (readHeaderProvenance _ _ _ _) as [e|hr] eqn:Eread; [|by repeat case_match].
    specialize (Hnf e eq_refl). by destruct e.
  - intros data size Hplan. exists at0. split; [done|].
    assert (integrity_on (w_cache w) = true → sha256_hex (s_key x) = sha256_hex key) as Hsame.
    { intros Hint. unfold plan_freshen in Hplan. destruct (readHeaderProvenance _ _ _ _) as [e|hr] eqn:Eread; [by destruct e; repeat case_match|].
      unfold readHeaderProvenance in Eread. rewrite Hh1, Hend in Eread. cbn [negb] in Eread. assert (integrity_on c1 = true) as Hint1 by exact Hint. rewrite Hint1 in Eread.
      destruct (decodeIntegrityRecord raw key true true) as [fp|meta] eqn:Edec; [done|].
      destruct (decodeIntegrity_sound _ _ _ Edec) as (m & -> & [Hk _] & _). rewrite <- Hk. rewrite Hint in Hser.
      apply (decode_unchecked _ _ key) in Edec. unfold serializeCacheHeader in Hser. cbn [negb] in Hser.
      match type of Hser with serializeIntegrityHeader _ _ ?m2 = _ => set (meta := m2) in Hser end.
      assert (plain_record meta) as Hm.
      { split; [simpl; lia|]. split; [simpl; unfold str_len in *; lia|]. split; [apply sha256_digest|]. split; [by left|apply sha256_digest]. }
      rewrite (integrity_record_decodes _ _ meta raw key true false Hm (proj1 Hat) ltac:(done) Hser) in Edec. injection Edec as <-. done. }
    split; [|exact Hsame]. split; [exact Hb|]. exists raw. split; [exact Hh|]. rewrite <- (serialize_key _ _ _ _ (s_key x)); done.
Qed.

Lemma refreshed_other key h A h' : h' ≠ hashKey key → last_stored (refreshed key h A) !! h' = last_stored A !! h'.
Proof. intros Hne. unfold refreshed. cbn. by rewrite lookup_alter_ne. Qed.

Lemma refreshed_key key h A :
  last_stored (refreshed key h A) !! hashKey key =
    (λ x, {| s_key := s_key x; s_status := s_status x; s_header := h; s_body := s_body x |}) <$> last_stored A !! hashKey key.
Proof. apply lookup_alter_eq. Qed.

(** The plan that goes with a result, and what a plan to write has read. *)
Lemma plan_of_result env budgeted res key w r w' :
  freshenResourceForKey env budgeted res key w = (r, w') →
  match plan_freshen res key (clock env (w_tick w)) (beginReservation (hashKey key) (w_cache w)) with
  | PlanNothing => r = inr (false, res) | PlanMismatch => r = inr (true, res) | PlanFail e => r = inl e | PlanWrite _ _ => True
  end.
Proof.
  intros E. unfold freshenResourceForKey in E. apply ST_bind_inv in E as ([] & w1 & [= <-] & E). apply ST_bind_inv in E as (r1 & w2 & E2 & E).
  apply ST_bind_inv in E as ([] & w3 & _ & [= <- <-]). cbn [w_cache] in *. unfold freshen_reserved in E2.
  apply ST_bind_inv in E2 as (at_ & w4 & [= <- <-] & E2). apply ST_bind_inv in E2 as (c & w4' & [= <- <-] & E2). cbn [w_cache w_tick] in E2.
  destruct (plan_freshen _ _ _ _); [by injection E2 as <- _|by injection E2 as <- _|done|by injection E2 as <- _].
Qed.

Lemma plan_write_files w res key at_ data size :
  plan_freshen res key at_ (beginReservation (hashKey key) (w_cache w)) = PlanWrite data size →
  ∃ body raw, file w (bodyPath (hashKey key)) = Opened body ∧ file w (headerPath (hashKey key)) = Opened raw.
Proof.
  unfold plan_freshen, readHeaderProvenance. cbn [c_fs beginReservation set_reservations]. unfold file. intros Hplan.
  destruct (fs_open (c_fs (w_cache w)) (headerPath (hashKey key))) as [raw| |]; [|by destruct (IsZero (r_storedAt res))|done].
  destruct (fs_open (c_fs (w_cache w)) (bodyPath (hashKey key))) as [body| |]; [by exists body, raw|exfalso; revert Hplan; by repeat case_match|exfalso; revert Hplan; by repeat case_match].
Qed.

Lemma refresh_committed A w budgeted res key r w' env :
  (∀ i, 0 < clock env i < max_http_time) → contract_inv (A, w) →
  freshenResourceForKey env budgeted res key w = (r, w') → committed r → idle w [key] → plain_header (r_header res) →
  contract_inv (refreshed key (r_header res) A, w').
Proof.
  intros Hclock [Hl HA] E Hr Hidle Hp. cbn [fst snd] in *. assert (active (w_cache w) (hashKey key) = false) as Hact by (apply Hidle; by left).
  destruct (refresh_evicts _ _ _ _ _ _ _ E Hl Hact) as (X & Hl' & Hplan). split; cbn [fst snd]; [done|]. intros h body raw Hsure Hb Hh. cbn [refreshed unsure] in Hsure.
  destruct (decide (h = hashKey key)) as [->|Hne].
  2: { rewrite refreshed_other by done. apply (evicts_stands A w w' [hashKey key]); try done. by rewrite list_elem_of_singleton. }
  pose proof (plan_of_result _ _ _ _ _ _ _ E) as Hres.
  destruct (plan_freshen res key (clock env (w_tick w)) (beginReservation (hashKey key) (w_cache w))) as [| |data size|e] eqn:Eplan.
  - rewrite !Hplan in *. destruct (HA _ _ _ Hsure Hb Hh) as (x & Hx & Hst).
    destruct (plan_found w res key (clock env (w_tick w)) body raw x Hst Hb Hh) as [Hno _]. by destruct Hno.
  - by subst r.
  - assert (∃ body0 raw0, file w (bodyPath (hashKey key)) = Opened body0 ∧ file w (headerPath (hashKey key)) = Opened raw0) as (body0 & raw0 & Hb0 & Hh0)
      by (by eapply plan_write_files).
    destruct (HA _ _ _ Hsure Hb0 Hh0) as (x & Hx & Hst).
    destruct (plan_found w res key (clock env (w_tick w)) body0 raw0 x Hst Hb0 Hh0) as [_ Hwrite].
    destruct (Hwrite data size Eplan) as (at0 & Hat & Hdisk & Hsha). destruct Hst as [Hbody Hkey Hs Hph Hlen _].
    destruct (freshen_written _ _ _ _ _ _ _ _ _ _ _ E Hr Hl Hact Hclock Hdisk Hs Hph Hp Hat Hlen) as (_ & i & _ & [Hb' (raw' & Hh' & Hser)]).
    assert (body = body0 ∧ raw = raw') as [-> ->] by (unfold file in Hb, Hh; split; congruence).
    eexists. split; [rewrite refreshed_key, Hx; reflexivity|]. split; try done. exists (clock env i). split; [done|]. cbn.
    rewrite (serialize_key _ _ _ _ _ key); [done|]. intros Hint. apply Hsha. unfold integrity_on in *. by rewrite <- (proj1 X).
  - subst r. by apply plan_fails_before in Eplan.
Qed.

(** A refresh that fails before its header is committed. *)
Lemma refresh_undone env budgeted res key e w w' :
  freshenResourceForKey env budgeted res key w = (inl e, w') → ¬ committed (inl e) → (∀ x, e ≠ FreshenUncommitted x true) →
  ledger_inv (w_cache w) → active (w_cache w) (hashKey key) = false → undone w w' (hashKey key).
Proof.
  intros E Hc Hd Hl Hact. unfold freshenResourceForKey in E. apply ST_bind_inv in E as ([] & w1 & [= <-] & E).
  apply ST_bind_inv in E as (r1 & w2 & E2 & E). apply ST_bind_inv in E as ([] & w3 & [= <-] & [= -> <-]). cbn [w_cache] in *.
  set (c1 := beginReservation (hashKey key) (w_cache w)) in *.
  assert (store_inv [hashKey key] {| w_cache := c1; w_tick := S (w_tick w); w_leases := w_leases w |}) as Hi.
  { split; [by apply beginReservation_inv|]. intros x ->%list_elem_of_singleton. cbn. rewrite lookup_insert_eq. by eauto. }
  change (undone w w2 (hashKey key)). unfold freshen_reserved in E2.
  apply ST_bind_inv in E2 as (at_ & w4 & [= <- <-] & E2). apply ST_bind_inv in E2 as (c & w4' & [= <- <-] & E2). cbn [w_cache w_tick] in E2.
  destruct (plan_freshen _ _ _ _) as [| |data size|e']; [by injection E2|by injection E2| |injection E2 as _ <-; by left].
  apply ST_bind_inv in E2 as (refused & w5 & E5 & E2). pose proof (keeps_reserve [hashKey key] _ _ _ _ _ E5 Hi) as K5.
  destruct (kept_same _ _ _ _ K5) as [Eb Eh]; [by intros p ?%elem_of_nil|].
  destruct refused as [e5|]; [injection E2 as _ <-; left; by split|].
  apply ST_bind_inv in E2 as (err & w6 & E6 & E2). destruct err as [[e6 d]|].
  - injection E2 as <- <-. destruct d; [by destruct (Hd e6)|].
    destruct (commitFreshenedHeader_undone _ _ _ _ _ _ _ _ _ E6 (k_inv _ _ _ _ K5)) as [[Eb6 Eh6]|Hgone]; [left|by right].
    rewrite Eb6, Eh6. by split.
  - apply ST_bind_inv in E2 as (c6 & w7 & _ & E2). apply ST_bind_inv in E2 as (f & w8 & _ & E2). injection E2 as E2 _.
    exfalso. revert Hc E2. unfold advanceResourceProvenance. intros Hc E2. repeat case_match; simplify_eq; exact (Hc I).
Qed.

Lemma refresh_failed_step A w budgeted res key e w' env :
  (∀ i, 0 < clock env i < max_http_time) → contract_inv (A, w) → freshenResourceForKey env budgeted res key w = (inl e, w') →
  idle w [key] → plain_header (r_header res) → contract_inv (refresh_failed key (r_header res) e A, w').
Proof.
  intros Hclock [Hl HA] E Hidle Hp. cbn [fst snd] in *. destruct (refresh_evicts _ _ _ _ _ _ _ E Hl (Hidle key ltac:(by left))) as (X & Hl' & _).
  assert (∀ h A', h ≠ hashKey key → last_stored A' !! h = last_stored A !! h → h ∉ unsure A → ∀ body raw, file w' (bodyPath h) = Opened body →
    file w' (headerPath h) = Opened raw → ∃ x, last_stored A' !! h = Some x ∧ stands_for w' h body raw x) as Hother.
  { intros h A' Hne -> Hsure body raw Hb Hh. apply (evicts_stands A w w' [hashKey key]); try done. by rewrite list_elem_of_singleton. }
  destruct (decide (committed (inl e))) as [Hc|Hc].
  - assert (refresh_failed key (r_header res) e A = refreshed key (r_header res) A) as -> by by destruct e.
    by eapply (refresh_committed A w budgeted res key).
  - split; cbn [fst snd]; [done|]. intros h body raw Hsure Hb Hh.
    assert ((∃ x, e = FreshenUncommitted x true) ∨ refresh_failed key (r_header res) e A = A ∧ ∀ x, e ≠ FreshenUncommitted x true) as [[x ->]|[EA Hd]].
    { destruct e as [| | | | | |x d| |]; try (by right). by destruct d; [left; eexists|right]. }
    + cbn in Hsure. apply Hother; set_solver.
    + rewrite EA in *. destruct (decide (h = hashKey key)) as [->|Hne]; [|by apply Hother].
      destruct (refresh_undone _ _ _ _ _ _ _ E Hc Hd Hl (Hidle key ltac:(by left))) as [[Eb Eh]|Hgone]; [|congruence]. rewrite Eb in Hb. rewrite Eh in Hh.
      destruct (HA _ _ _ Hsure Hb Hh) as (x & Hx & Hs). exists x. split; [done|]. apply (stands_config w); [by rewrite (proj1 X)|done].
Qed.

Lemma refresh_mismatch_step A w budgeted res key res' w' env :
  contract_inv (A, w) → freshenResourceForKey env budgeted res key w = (inr (true, res'), w') → idle w [key] → contract_inv (A, w').
Proof.
  intros [Hl HA] E Hidle. cbn [fst snd] in *. destruct (refresh_evicts _ _ _ _ _ _ _ E Hl (Hidle key ltac:(by left))) as ((Hc & _) & Hl' & Hplan).
  split; cbn [fst snd]; [done|]. apply (loses_represents A w); [|done]. split; [done|]. intros p _. left.
  destruct (plan_freshen _ _ _ _); try apply Hplan. by destruct (Hplan res').
Qed.

Lemma maintenance_step A w c : contract_inv (A, w) → maintenance (w_cache w) c → contract_inv (A, with_cache c w).
Proof.
  intros [Hl HA] Hm. cbn [fst snd] in *. destruct (maintenance_worn _ _ Hl Hm) as (Hl' & Hc & Hf). split; cbn [fst snd]; [done|].
  apply (loses_represents A w); [|done]. split; [done|]. exact Hf.
Qed.

Lemma restart_step A w cfg restart :
  let f := c_fs (w_cache w) in let root := diskRoot (w_cache w) in
  contract_inv (A, w) → Integrity cfg = Integrity (config (w_cache w)) → scan_succeeds f (Some cfg) root →
  contract_inv (A, with_cache (newVFSCacheWithConfig f (Some cfg) root restart) w).
Proof.
  intros f root [Hl HA] Hint Hscan. cbn [fst snd] in *.
  destruct (new_cache_spec f (Some cfg) root restart Hscan) as (Hl' & Hcfg & _ & _ & Hfiles & _). split; cbn [fst snd]; [done|].
  intros h body raw Hsure Hb Hh. unfold file in Hb, Hh. cbn [with_cache w_cache] in Hb, Hh.
  rewrite (Hfiles [h]) in Hb by (exists h; split; [by left|by left]). rewrite (Hfiles [h]) in Hh by (exists h; split; [by left|by right]).
  destruct (HA h body raw Hsure Hb Hh) as (x & Hx & Hs). exists x. split; [done|]. apply (stands_config w); [|done]. cbn [with_cache w_cache].
  rewrite Hcfg. exact Hint.
Qed.

Lemma contract_inv_step env s s' : (∀ i, 0 < clock env i < max_http_time) → contract_inv s → contract_step env s s' → contract_inv s'.
Proof.
  intros Hclock Hinv Hstep. destruct Hstep.
  - by eapply store_step.
  - eapply store_failed_step; [|done..]. intros i. apply Hclock.
  - by eapply (refresh_committed _ _ _ _ _ _ _ _ Hclock Hinv).
  - by eapply refresh_failed_step.
  - by eapply refresh_mismatch_step.
  - by apply maintenance_step.
  - by apply restart_step.
Qed.

Lemma contract_inv_reachable env w s :
  (∀ i, 0 < clock env i < max_http_time) → empty_world w → rtc (contract_step env) (nothing_stored, w) s → contract_inv s.
Proof.
  intros Hclock [Hl Hempty] Hr. assert (contract_inv (nothing_stored, w)) as Hinit.
  { split; cbn [fst snd]; [done|]. intros h body raw _ Hb _. rewrite Hempty in Hb; [done|]. exists h. by left. }
  revert Hinit. induction Hr; [done|]. eauto using contract_inv_step.
Qed.
End Facts.

(** ** Theorems *)

(** C7: the disk cache refines a map that may forget.  Whatever stores,
    refreshes, lookups, invalidations, cleanups, purges and restarts ran, one
    after the other, and whatever failed under them, a lookup that finds a
    response gives the status, the body (cut at its declared [Content-Length])
    and the fields of the last response stored under the hash of the key, with
    the fields of its last refresh.  A failed store or refresh changes nothing
    of this (a refresh that fails only after it committed its header counts as
    done); the only exception are the hashes whose store or refresh reported
    files it could not remove.  The headers stored and refreshed are ones a
    header file can carry ([plain_header]), the sizes are those the integers of
    the code can count ([fits]). *)
Theorem cache_refines_map `{V : VFS, O : !OsFiles V, F : !VfsDirs V, J : MarkerJSON, D : HttpDate, R : RecordText,
    VL : !VFSLaws V, OL : !OsFilesLaws V O, FL : !VfsDirsLaws V F, RL : !RecordTextLaws R} env w A w' key record now :
  (∀ i, 0 < clock env i < max_http_time) → empty_world w → rtc (contract_step env) (nothing_stored, w) (A, w') →
  allowed A key (retrieveRecorded key record now (w_cache w')).1.
Proof. intros Hclock Hempty Hr. apply lookup_allowed. by apply (contract_inv_reachable env w (A, w')). Qed.

(** ** Witness *)

#[local] Existing Instance stamp_date.
#[local] Existing Instance mem_fs.
#[local] Existing Instance mem_os.
#[local] Existing Instance mem_dirs.
#[local] Existing Instance binary_json.
#[local] Existing Instance hex_records.

Lemma unsure_remember res keys h : h ∈ unsure (remember res keys nothing_stored) → False.
Proof. intros Hu. apply elem_of_difference in Hu as [Hu _]. by apply elem_of_empty in Hu. Qed.

(** Every header the sample can have fits: the clock has 1001 readings. *)
Lemma sample_fits : fits calm_env sample_response false [key_x].
Proof.
  intros i k raw _ Hraw. unfold serializeCacheHeader in Hraw. cbn [negb] in Hraw. injection Hraw as <-.
  assert (Forall (λ n, str_len (stored_body sample_response) +
    str_len (serializeStoredHeader 200 (r_header sample_response) (example_now + Z.of_nat n * second)) ≤ max_int64) (seq 0 1001)) as Hall.
  { apply (bool_decide_unpack _). vm_compute. exact I. }
  rewrite Forall_forall in Hall. cbn [clock calm_env].
  specialize (Hall (Z.to_nat (Z.min (Z.of_nat i) 1000))). rewrite Z2Nat.id in Hall by lia. apply Hall. apply elem_of_seq. lia.
Qed.

Definition restarted_world : world := with_cache reopened done_run.2.

Lemma cache_refines_map_witness :
  ∃ res, (retrieveRecorded key_x true (example_now + hour) (w_cache restarted_world)).1 = inr res ∧ r_body res = "hello"%string.
Proof.
  assert (done_run.1 = None) as Hr by (vm_compute; reflexivity).
  pose proof (surjective_pairing done_run) as E. rewrite Hr in E. unfold done_run in E at 1.
  assert (responseSuperseded sample_response (lockStoreKeys [key_x]) (w_cache disk_world) = false) as Hsup by (vm_compute; reflexivity).
  assert (storable_response calm_env disk_world sample_response [key_x]) as Hst.
  { split; [vm_compute; split; discriminate|]. split; [apply sample_fields_plain|]. split; [vm_compute; discriminate|]. apply sample_fits. }
  assert (scan_succeeds (c_fs (w_cache done_run.2)) (Some DefaultCacheConfig) (diskRoot (w_cache done_run.2))) as Hscan.
  { split; [vm_compute; reflexivity|]. apply mem_small. apply (bool_decide_unpack _). vm_compute. exact I. }
  assert (empty_world disk_world) as Hempty by (split; [apply new_ledger|intros p _; reflexivity]).
  pose proof (step_store calm_env nothing_stored disk_world false sample_response [key_x] done_run.2 E (λ k _, calm_free _ _ _ (hashKey k)) Hst) as S1.
  rewrite Hsup in S1.
  pose proof (step_restart calm_env (remember sample_response (lockStoreKeys [key_x]) nothing_stored) done_run.2 DefaultCacheConfig (example_now + hour)
    ltac:(reflexivity) Hscan) as S2.
  pose proof (cache_refines_map (VL := mem_fs_laws) (OL := mem_os_laws) (FL := mem_dirs_laws) (RL := hex_records_laws) calm_env disk_world
    (remember sample_response (lockStoreKeys [key_x]) nothing_stored) restarted_world key_x true (example_now + hour) calm_clock_bounds Hempty
    (rtc_l _ _ _ _ S1 (rtc_once _ _ S2))) as Hall.
  destruct (retrieveRecorded key_x true (example_now + hour) (w_cache restarted_world)).1 as [e|res] eqn:Eget.
  { exfalso. vm_compute in Eget. discriminate Eget. }
  exists res. split; [reflexivity|]. destruct Hall as [Hno|(x & Hx & Hb & _)]; [exfalso; exact (unsure_remember _ _ _ Hno)|].
  rewrite (remember_stored sample_response (lockStoreKeys [key_x]) nothing_stored key_x) in Hx; [|by repeat constructor; apply not_elem_of_nil|vm_compute; left].
  injection Hx as <-. exact Hb.
Defined.
