(* ===== verification/DiskCache.v ===== *)
(** * The disk cache behind the interface ([cache.go])

    The operations of the repository's cache as an instance of [Cache], and the
    promise of [CacheLaws], from the refinement of [Contract] and the
    publication of a store.  [Store] and [Freshen] wait until nobody else holds
    their keys. *)

From S2P Require Import Prelude GoStrings GoTime GoQuote GoHttp CacheControl Config Vfs CacheState Resource Ledger Admission Markers Generations StoredHeader Store Staged Transaction Retrieve Startup Freshen CacheInterface Contract.

(** What the surroundings answer: the failures and instants of [Env], and the
    instant of an operation that reads the clock once. *)
Record disk_choice := { dc_env : Env; dc_now : Time }.

Section Disk.
Context `{V : VFS, O : !OsFiles V, F : !VfsDirs V, J : MarkerJSON, D : HttpDate, R : RecordText}.
(** [config.StagingBudget != nil] *)
Context (budgeted : bool).
Implicit Types w : world.

Definition keys_idle (keys : list string) w : bool := forallb (λ k, negb (active (w_cache w) (hashKey k))) keys.

Definition disk_Retrieve (o : disk_choice) (record : bool) (key : string) w : lookup_answer * world :=
  let '(r, c) := retrieveRecorded key record (dc_now o) (w_cache w) in
  (match r with inr res => Gives res | inl NotFound => Missing | inl _ => Failing end, with_cache c w).

Definition disk_Store (o : disk_choice) (res : Resource) (keys : list string) w : option (option (list string) * world) :=
  if keys_idle keys w then let '(r, w) := StoreContext (dc_env o) budgeted res keys w in Some (snd <$> r, w) else None.

Definition disk_Freshen (o : disk_choice) (res : Resource) (keys : list string) w : option (bool * world) :=
  if keys_idle keys w then
    let '(r, w) := Freshen (dc_env o) budgeted res keys w in Some (match r with inr _ => true | inl _ => false end, w)
  else None.

(** [Invalidate], both parts; other operations in between are steps of
    [Generations]. *)
Definition disk_Invalidate (o : disk_choice) (keys : list string) w : world :=
  with_cache (Invalidate_final keys (dc_now o) (Invalidate_barrier keys (w_cache w))) w.

Inductive disk_upkeep : world → world → Prop :=
  | upkeep_maintenance w c : maintenance (w_cache w) c → disk_upkeep w (with_cache c w)
  | upkeep_restart w cfg restart :
      Integrity cfg = Integrity (config (w_cache w)) → scan_succeeds (c_fs (w_cache w)) (Some cfg) (diskRoot (w_cache w)) →
      disk_upkeep w (with_cache (newVFSCacheWithConfig (c_fs (w_cache w)) (Some cfg) (diskRoot (w_cache w)) restart) w).

Definition disk_cache : Cache world disk_choice := {|
  cache_Retrieve := disk_Retrieve; cache_Store := disk_Store; cache_Freshen := disk_Freshen; cache_Invalidate := disk_Invalidate;
  cache_StaleAt key w := StaleAt key (w_cache w); cache_StaleSnapshot keys w := StaleSnapshot keys (w_cache w);
  cache_upkeep := disk_upkeep |}.
End Disk.

(** ** Reservations of other keys *)

Section Spared.
Context `{V : VFS, O : !OsFiles V, J : MarkerJSON, D : HttpDate, R : RecordText}.
Implicit Types (w : world) (c : cache).

Definition spares_cache h c c' : Prop := ∀ x, x ≠ h → reservations c' !! x = reservations c !! x.
Definition spares {A} h (m : ST A) : Prop := ∀ w, spares_cache h (w_cache w) (w_cache (m w).2).

Lemma spares_ret {A} h (a : A) : spares h (mret a).
Proof. by intros w x _. Qed.
Lemma spares_bind {A B} h (m : ST A) (f : A → ST B) : spares h m → (∀ a, spares h (f a)) → spares h (m ≫= f).
Proof.
  intros Hm Hf w x Hx. unfold mbind, ST_bind. specialize (Hm w x Hx). destruct (m w) as [a w1]. cbn in Hm. by rewrite (Hf a w1 x Hx).
Qed.
Lemma spares_ask {A} h (f : nat → A) : spares h (ask f).
Proof. by intros w x _. Qed.
Lemma spares_get h : spares h get_cache.
Proof. by intros w x _. Qed.
Lemma spares_leases h n : spares h (add_leases n).
Proof. by intros w x _. Qed.
Lemma spares_on_fs {A} h (f : fs_state → A * fs_state) : spares h (on_fs f).
Proof. intros w x _. unfold on_fs, on_cache. by destruct (f _). Qed.
Lemma spares_on_cache {A} h (f : cache → A * cache) : (∀ c, spares_cache h c (f c).2) → spares h (on_cache f).
Proof. intros Hf w x Hx. unfold on_cache. specialize (Hf (w_cache w) x Hx). by destruct (f _). Qed.

Lemma removeEntry_reservations e c : reservations (removeEntry e c).2 = reservations c.
Proof. unfold removeEntry, remove_files. repeat case_match; simplify_eq; done. Qed.

Lemma discard_reservations key h residual storedAt now c : reservations (discardUnadmitted key h residual storedAt now c).2 = reservations c.
Proof.
  unfold discardUnadmitted. destruct (lruIndex c !! h) as [e|].
  - pose proof (removeEntry_reservations e c) as Hr. destruct (removeEntry e c) as [b c1]. cbn in Hr. by case_match.
  - unfold remove_files. repeat case_match; simplify_eq; done.
Qed.

Lemma evict_loop_reservations h target l b c : reservations (evict_loop h target l b c).2 = reservations c.
Proof.
  revert b c. induction l as [|x l IH]; intros b c; cbn [evict_loop]; [done|]. destruct (_ <? _); [|done].
  destruct (lruIndex c !! x) as [e|]; [|apply IH]. destruct (_ || _); [apply IH|].
  pose proof (removeEntry_reservations e c) as Hr. destruct (removeEntry e c) as [[] c1]; by rewrite IH.
Qed.

Lemma reserve_spares h size : spares h (reserve h size).
Proof.
  unfold reserve. apply spares_bind; [|intros; apply spares_ret]. apply spares_on_cache. intros c x Hx. unfold reserveEntry.
  assert (reservations (evictForAdmissionLocked h size c).2 = reservations c) as Hev.
  { unfold evictForAdmissionLocked. repeat (case_match; [done|]). pose proof (evict_loop_reservations h (admission_target h size c) (rev (lruList c)) false c) as He.
    destruct (evict_loop _ _ _ _ _) as [b c1]. by case_match. }
  destruct (evictForAdmissionLocked h size c) as [[e|] c1]; cbn in Hev |- *; [by rewrite Hev|]. by rewrite lookup_insert_ne, Hev by done.
Qed.

Lemma trackEntry_spares key h size at_ now c : spares_cache h c (trackEntry key h size at_ now c).
Proof. intros x Hx. unfold trackEntry. cbv zeta. case_match; cbn; by rewrite lookup_delete_ne. Qed.

Lemma set_cache_spares h (f : cache → cache) : (∀ c, spares_cache h c (f c)) → spares h (set_cache f).
Proof. intros Hf. by apply spares_on_cache. Qed.
End Spared.

(** One operation of a sequence after another. *)
Ltac spare :=
  repeat first
    [ apply spares_ret | apply spares_ask | apply spares_get | apply spares_leases | apply spares_on_fs | apply reserve_spares
    | apply set_cache_spares; intros ?; apply trackEntry_spares
    | apply spares_bind; [|intros ?] | progress case_match ].

Section Refresh.
Context `{V : VFS, O : !OsFiles V, J : MarkerJSON, D : HttpDate, R : RecordText}.
Context (env : Env) (budgeted : bool).
Implicit Types (w : world) (c : cache).

Lemma abandon_one_spares h e : spares h (abandon_one e).
Proof. unfold abandon_one, closeStageLease. destruct e as [e|]; spare. Qed.

Lemma stage_spares h prefix hashed data : spares h (stageWriteContext env budgeted prefix hashed data).
Proof. unfold stageWriteContext, vfsWrite, stage_on_disk, closeStageLease. spare; apply abandon_one_spares. Qed.

Lemma commit_spares h entries : spares h (commitStagedLocked entries).
Proof. induction entries as [|[e|] entries IH]; cbn [commitStagedLocked]; unfold closeStageLease; spare; exact IH. Qed.

Lemma freshen_spares res key : spares (hashKey key) (freshenResourceForKey env budgeted res key).
Proof.
  unfold freshenResourceForKey. apply spares_bind; [|intros _; apply spares_bind; [|intros r; apply spares_bind; [|intros _; apply spares_ret]]].
  - apply set_cache_spares. intros c x Hx. unfold beginReservation. cbn. by rewrite lookup_insert_ne.
  - unfold freshen_reserved, commitFreshenedHeader, abandon_freshened, stageSerializedHeaderContext.
    spare; first [apply stage_spares|apply commit_spares|apply abandon_one_spares|
      apply spares_on_cache; intros ? ? _; by rewrite discard_reservations].
  - apply set_cache_spares. intros c x Hx. unfold releaseReservation, releaseReservationLocked. cbn. by rewrite lookup_delete_ne.
Qed.

(** After a refresh the keys that were idle are idle. *)
Lemma freshen_idle res key w h :
  active (w_cache w) h = false → active (w_cache (freshenResourceForKey env budgeted res key w).2) h = false.
Proof.
  intros Hh. destruct (decide (h = hashKey key)) as [->|Hne].
  - unfold freshenResourceForKey, mbind, ST_bind. destruct (set_cache _ w) as [[] w1]. destruct (freshen_reserved _ _ _ _ w1) as [r w2].
    unfold set_cache, on_cache. cbn. unfold active. cbn. rewrite lookup_delete_eq. by apply bool_decide_eq_false; intros [? ?].
  - unfold active in *. by rewrite (freshen_spares res key w h Hne).
Qed.
End Refresh.

(** ** The promise *)

Section Laws.
Context `{V : VFS, O : !OsFiles V, F : !VfsDirs V, J : MarkerJSON, D : HttpDate, R : RecordText,
  VL : !VFSLaws V, OL : !OsFilesLaws V O, FL : !VfsDirsLaws V F, RL : !RecordTextLaws R}.
Context (budgeted : bool).
Implicit Types (w : world) (P : string → Z → string → Prop).

Definition disk_plausible (o : disk_choice) : Prop := ∀ i, 0 < clock (dc_env o) i < max_http_time.
Definition disk_storable (o : disk_choice) w (res : Resource) (keys : list string) : Prop := storable_response (dc_env o) w res keys.
Definition disk_refreshable (res : Resource) : Prop := plain_header (r_header res).

(** What the abstract map allows under each hash. *)
Definition disk_allows P (A : forgetful) : Prop :=
  (∀ h x, last_stored A !! h = Some x → P h (s_status x) (s_body x)) ∧ ∀ h, h ∈ unsure A → ∀ st b, P h st b.
Definition disk_holds P w : Prop := ∃ A, contract_inv (A, w) ∧ disk_allows P A.

Lemma remember_inv res keys A h x :
  last_stored (remember res keys A) !! h = Some x → (∃ k, k ∈ keys ∧ hashKey k = h ∧ x = response_of res k) ∨ last_stored A !! h = Some x.
Proof.
  cbn. generalize (last_stored A). induction keys as [|k keys IH]; intros m; cbn; [by right|].
  intros [(k' & Hin & Hk & ->)|Hm]%IH; [left; exists k'; split; [by right|done]|].
  destruct (decide (hashKey k = h)) as [<-|Hne].
  - rewrite lookup_insert_eq in Hm. injection Hm as <-. left. exists k. by split; [left|].
  - rewrite lookup_insert_ne in Hm by done. by right.
Qed.

Lemma allows_remember P res keys A :
  (∀ k, k ∈ keys → P (hashKey k) (r_statusCode res) (stored_body res)) → disk_allows P A → disk_allows P (remember res (lockStoreKeys keys) A).
Proof.
  intros Hk [Hl Hu]. destruct (unique_keys_spec keys []) as (_ & Hsub & _). fold (lockStoreKeys keys) in Hsub. split.
  - intros h x [(k & Hin & <- & ->)|Hx]%remember_inv; [|by apply Hl]. apply Hk. by apply Hsub.
  - intros h Hh. apply Hu. cbn in Hh. by apply elem_of_difference in Hh as [? _].
Qed.

Lemma allows_refreshed P key hd A : disk_allows P A → disk_allows P (refreshed key hd A).
Proof.
  intros [Hl Hu]. split; [|exact Hu]. intros h x Hx. unfold refreshed, last_stored in Hx. rewrite lookup_alter in Hx. destruct (decide _) as [Heq|_].
  - apply fmap_Some in Hx as (x0 & Hx & ->). rewrite Heq in Hx. by apply Hl in Hx.
  - by apply Hl.
Qed.

Lemma allows_doubt P keys A : (∀ k, k ∈ keys → ∀ st b, P (hashKey k) st b) → disk_allows P A → disk_allows P (doubt keys A).
Proof.
  intros Hk [Hl Hu]. split; [exact Hl|]. intros h Hh. cbn in Hh. apply elem_of_union in Hh as [Hh|Hh]; [by apply Hu|].
  apply elem_of_list_to_set, list_elem_of_fmap in Hh as (k & -> & Hin). by apply Hk.
Qed.

Lemma allows_refresh_failed P key hd e A :
  (∀ st b, P (hashKey key) st b) → disk_allows P A → disk_allows P (refresh_failed key hd e A).
Proof.
  intros HP HA. destruct e as [| | | | | |x []| |]; cbn [refresh_failed]; try done; try by apply allows_refreshed.
  apply allows_doubt; [|done]. by intros k ->%list_elem_of_singleton.
Qed.

Lemma holds_step P env A w A' w' :
  (∀ i, 0 < clock env i < max_http_time) → contract_inv (A, w) → contract_step env (A, w) (A', w') → disk_allows P A' → disk_holds P w'.
Proof. intros Hc Hi Hs Ha. exists A'. split; [|done]. by eapply contract_inv_step. Qed.

Lemma keys_idle_idle keys w : keys_idle keys w = true → idle w keys.
Proof. unfold keys_idle. rewrite forallb_forall. intros H k Hk. apply negb_true_iff, H. by apply list_elem_of_In. Qed.

(** A clock of the right kind, for what does not read it. *)
Definition some_env : Env :=
  {| clock _ := 1; cancelled _ := false; dir_fails _ := false; lease_fails _ := false; seek_fails _ := false;
     copy_stops _ := None; short_count _ := 0%nat; retain_fails _ := false |}.
Lemma some_clock i : 0 < clock some_env i < max_http_time.
Proof. cbn. unfold max_http_time. vm_compute. split; reflexivity. Qed.

Lemma holds_maintenance P w c : disk_holds P w → maintenance (w_cache w) c → disk_holds P (with_cache c w).
Proof.
  intros (A & Hi & Ha) Hm. apply (holds_step P some_env A w A); [apply some_clock|done| |done]. by apply step_maintenance.
Qed.

Lemma disk_Retrieve_holds P o record key w answer w' :
  disk_Retrieve o record key w = (answer, w') → disk_holds P w →
  disk_holds P w' ∧ match answer with Gives res => P (hashKey key) (r_statusCode res) (r_body res) | _ => True end.
Proof.
  unfold disk_Retrieve. pose proof (do_lookup key record (dc_now o) (w_cache w)) as Hm.
  destruct (retrieveRecorded key record (dc_now o) (w_cache w)) as [r c] eqn:E. intros [= <- <-] Hh.
  split; [by apply holds_maintenance|]. destruct Hh as (A & [_ Hrep] & [Hl Hu]). cbn in Hrep.
  pose proof (lookup_allowed A w key record (dc_now o) Hrep) as Ha. rewrite E in Ha. cbn in Ha.
  destruct r as [[]|res]; try done. destruct Ha as [Ha|(x & Hx & -> & -> & _)]; [by apply Hu|by apply Hl].
Qed.

Lemma disk_Store_holds P o res keys w w' :
  disk_Store budgeted o res keys w = Some (None, w') → disk_plausible o → disk_storable o w res keys →
  (∀ k, k ∈ keys → P (hashKey k) (r_statusCode res) (stored_body res)) → disk_holds P w → disk_holds P w'.
Proof.
  unfold disk_Store. destruct (keys_idle keys w) eqn:Ei; [|done]. destruct (StoreContext _ _ _ _ w) as [[[e left]|] w1] eqn:E; [done|].
  intros [= <-] Hp Hs Hk (A & Hi & Ha). eapply (holds_step P (dc_env o) A w); [exact Hp|exact Hi| |].
  - eapply step_store; [exact E|by apply keys_idle_idle|exact Hs].
  - case_match; [done|by apply allows_remember].
Qed.

Lemma disk_Store_failed_holds P o res keys w left w' :
  disk_Store budgeted o res keys w = Some (Some left, w') → disk_plausible o →
  (∀ k, k ∈ left → ∀ st b, P (hashKey k) st b) → disk_holds P w → disk_holds P w'.
Proof.
  unfold disk_Store. destruct (keys_idle keys w) eqn:Ei; [|done]. destruct (StoreContext _ _ _ _ w) as [[[e left']|] w1] eqn:E; [|done].
  intros [= -> <-] Hp Hk (A & Hi & Ha). eapply (holds_step P (dc_env o) A w); [exact Hp|exact Hi| |by apply (allows_doubt P left)].
  eapply step_store_failed; [exact E|by apply keys_idle_idle].
Qed.

Lemma freshen_header env res key w b res' w' :
  freshenResourceForKey env budgeted res key w = (inr (b, res'), w') → r_header res' = r_header res.
Proof.
  unfold freshenResourceForKey. intros ([] & w1 & [= <-] & E)%ST_bind_inv. apply ST_bind_inv in E as (r & w2 & E2 & E).
  apply ST_bind_inv in E as ([] & w3 & _ & [= -> _]). unfold freshen_reserved in E2.
  apply ST_bind_inv in E2 as (at_ & w4 & _ & E2). apply ST_bind_inv in E2 as (c & w5 & _ & E2).
  destruct (plan_freshen _ _ _ _); try (by injection E2 as _ <- _); try done.
  apply ST_bind_inv in E2 as ([e|] & w6 & _ & E2); [done|]. apply ST_bind_inv in E2 as ([[e d]|] & w7 & _ & E2); [done|].
  apply ST_bind_inv in E2 as (c7 & w8 & _ & E2). apply ST_bind_inv in E2 as (f & w9 & _ & E2). injection E2 as E2 _. revert E2. unfold advanceResourceProvenance.
  repeat case_match; intros [= <- <-]; by simplify_eq.
Qed.

(** The loop of [Freshen]. *)
Lemma freshen_keys_holds P env res keys w r w' :
  freshen_keys env budgeted res keys w = (r, w') → (∀ i, 0 < clock env i < max_http_time) → plain_header (r_header res) → idle w keys →
  (match r with inl _ => ∀ k, k ∈ keys → ∀ st b, P (hashKey k) st b | inr _ => True end) → disk_holds P w → disk_holds P w'.
Proof.
  intros E Hclock. revert res w r w' E. induction keys as [|key keys IH]; intros res w r w' E Hp Hidle HP Hh; cbn [freshen_keys] in E.
  { by injection E as _ <-. }
  assert (idle w keys) as Hidle' by (intros k Hk; apply Hidle; by right).
  destruct (nonempty (r_storedKey res) && negb (key =?s r_storedKey res)).
  { apply (IH res w r w' E); try done. destruct r; [intros k Hk; apply HP; by right|done]. }
  apply ST_bind_inv in E as (r1 & w1 & E1 & E).
  assert (idle w [key]) as Hkey by (intros k ->%list_elem_of_singleton; apply Hidle; by left).
  assert (idle w1 keys) as Hidle1.
  { intros k Hk. pose proof (freshen_idle env budgeted res key w (hashKey k) (Hidle' k Hk)) as Hf. by rewrite E1 in Hf. }
  destruct Hh as (A & Hi & Ha). destruct r1 as [e|[mismatch res1]].
  { injection E as <- <-. eapply (holds_step P env A w); [exact Hclock|exact Hi|by eapply step_refresh_failed|].
    apply allows_refresh_failed; [apply HP; by left|done]. }
  assert (disk_holds P w1) as Hh1.
  { destruct mismatch.
    - eapply (holds_step P env A w); [exact Hclock|exact Hi|by eapply step_refresh_mismatch|exact Ha].
    - eapply (holds_step P env A w); [exact Hclock|exact Hi|by eapply step_refresh|by apply (allows_refreshed P key)]. }
  pose proof (freshen_header _ _ _ _ _ _ _ E1) as Hhd.
  apply ST_bind_inv in E as (r2 & w2 & E2 & [= Hr <-]). apply (IH res1 w1 r2 w2 E2); [by rewrite Hhd|done| |done].
  destruct r2 as [e2|]; [|done]. subst r. intros k Hk. apply HP. by right.
Qed.

Lemma disk_Freshen_outcome P o res keys w ok w' :
  disk_Freshen budgeted o res keys w = Some (ok, w') → disk_plausible o → disk_refreshable res →
  (ok = false → ∀ k, k ∈ keys → ∀ st b, P (hashKey k) st b) → disk_holds P w → disk_holds P w'.
Proof.
  unfold disk_Freshen. destruct (keys_idle keys w) eqn:Ei; [|done]. destruct (Freshen _ _ _ _ w) as [r w1] eqn:E.
  intros [= Hok <-] Hp Hr Hk Hh. unfold Freshen in E. apply ST_bind_inv in E as (c & w2 & [= <- <-] & E).
  destruct (responseSuperseded res keys (w_cache w)); [by injection E as _ <-|].
  apply ST_bind_inv in E as (r3 & w3 & E3 & E).
  assert (disk_holds P w3) as H3.
  { apply (freshen_keys_holds P _ _ _ _ _ _ E3 Hp Hr); [by apply keys_idle_idle| |done].
    destruct r3; [|done]. injection E as <- _. by apply Hk. }
  destruct r3 as [e|[invalidate res3]]; [by injection E as _ <-|].
  apply ST_bind_inv in E as ([] & w4 & [= <-] & E). apply ST_bind_inv in E as (now & w5 & [= <- <-] & E).
  apply ST_bind_inv in E as ([] & w6 & [= <-] & [= _ <-]). cbn [w_cache w_tick w_leases].
  pose proof (holds_maintenance P w3 _ H3 (do_barrier invalidate (w_cache w3))) as H4.
  destruct (holds_maintenance P _ _ H4 (do_final invalidate (clock (dc_env o) (w_tick w3)) _)) as (A & Hi & Ha). exists A.
  split; [|done]. eapply same_cache_represents; [|exact Hi]. reflexivity.
Qed.

Lemma disk_Invalidate_holds P o keys w : disk_holds P w → disk_holds P (disk_Invalidate o keys w).
Proof.
  intros H. pose proof (holds_maintenance P w _ H (do_barrier keys (w_cache w))) as H1.
  exact (holds_maintenance P _ _ H1 (do_final keys (dc_now o) _)).
Qed.

Lemma disk_upkeep_holds P w w' : disk_upkeep w w' → disk_holds P w → disk_holds P w'.
Proof.
  intros [w0 c Hm|w0 cfg restart Hint Hscan]; [intros H; by apply holds_maintenance|]. intros (A & Hi & Ha).
  apply (holds_step P some_env A w0 A); [apply some_clock|done| |done]. by apply step_restart.
Qed.
End Laws.

Section Remembers.
Context `{V : VFS, O : !OsFiles V, F : !VfsDirs V, J : MarkerJSON, D : HttpDate, R : RecordText,
  VL : !VFSLaws V, OL : !OsFilesLaws V O, FL : !VfsDirsLaws V F, RL : !RecordTextLaws R}.
Context (budgeted : bool).
Implicit Types (w : world) (c : cache).

Lemma unmarked_not_superseded res keys c : (∀ k, k ∈ keys → StaleAt k c = None) → responseSuperseded res keys c = false.
Proof.
  induction keys as [|k keys IH]; intros Hk; cbn [responseSuperseded]; [done|]. rewrite (Hk k) by by left. apply IH. intros k' Hin. apply Hk. by right.
Qed.

Lemma retrieved_stale key record now c res c' : retrieveRecorded key record now c = (inr res, c') → stale c' = stale c.
Proof.
  assert (∀ h now c, stale (touchEntry h now c) = stale c) as Ht by (intros h n c0; unfold touchEntry; by case_match).
  unfold retrieveRecorded, retrieve. cbv zeta. destruct (fs_open _ _) as [body| |]; [|done..].
  destruct (readHeaderProvenance _ _ _ _) as [[| |fp|]|h]; try done.
  match goal with |- context [if ?b then _ else _] => destruct b end; [by destruct (hr_meta h)|]. cbn [integrityResult]. intros [= _ <-].
  destruct record; [exact (Ht _ _ _)|apply Ht].
Qed.

Lemma first_key_locked key keys : key ∈ lockStoreKeys (key :: keys).
Proof. unfold lockStoreKeys. cbn [unique_keys]. rewrite decide_False by apply not_elem_of_nil. by left. Qed.

Lemma disk_Store_found P o res key keys w w' :
  disk_Store budgeted o res (key :: keys) w = Some (None, w') → disk_plausible o → disk_storable o w res (key :: keys) → disk_holds P w →
  (∀ k, k ∈ key :: keys → StaleAt k (w_cache w) = None) →
  (∀ k, StaleAt k (w_cache w') = StaleAt k (w_cache w)) ∧
  ∀ o' record, ∃ res' w2, disk_Retrieve o' record key w' = (Gives res', w2) ∧ r_statusCode res' = r_statusCode res ∧
    r_body res' = stored_body res ∧ r_header res' = written_fields (r_header res) ∧ r_stale res' = false ∧
    ∀ k, StaleAt k (w_cache w2) = StaleAt k (w_cache w').
Proof.
  unfold disk_Store. destruct (keys_idle (key :: keys) w) eqn:Ei; [|done]. destruct (StoreContext _ _ _ _ w) as [[[e left]|] w1] eqn:E; [done|].
  intros [= <-] Hp (Hs & Hh & Hlen & _) (A & [Hl _] & _) Hunmarked. cbn [fst snd] in Hl.
  destruct (unique_keys_spec (key :: keys) []) as (_ & Hsub & _). fold (lockStoreKeys (key :: keys)) in Hsub.
  assert (responseSuperseded res (lockStoreKeys (key :: keys)) (w_cache w) = false) as Hsup.
  { apply unmarked_not_superseded. intros k Hk. by apply Hunmarked, Hsub. }
  assert (∀ i, 0 < clock (dc_env o) i) as Hpos by (intros i; apply Hp).
  destruct (StoreContext_publishes _ _ _ _ _ _ E Hl (keys_idle_idle _ _ Ei) Hpos ltac:(done) Hsup) as (_ & [Hst Hcfg] & _ & Hfiles).
  assert (∀ k, StaleAt k (w_cache w1) = StaleAt k (w_cache w)) as Hmarks by (intros k; unfold StaleAt; by rewrite Hst).
  split; [exact Hmarks|]. intros o' record.
  destruct (Hfiles key (first_key_locked key keys)) as (i & raw & _ & Hser & Hb & Hraw & _).
  assert (entry_on_disk (w_cache w1) key (stored_body res) (r_statusCode res) (r_header res) (clock (dc_env o) i)) as Hdisk.
  { split; [exact Hb|]. exists raw. split; [exact Hraw|]. unfold integrity_on in *. by rewrite Hcfg. }
  destruct (retrieve_stored key _ _ _ _ record (dc_now o') _ Hdisk Hs Hh (Hp i) Hlen) as (res' & Hr & ? & ? & ? & _ & _ & Hstale).
  unfold disk_Retrieve. destruct (retrieveRecorded key record (dc_now o') (w_cache w1)) as [r c2] eqn:Er. cbn in Hr. subst r.
  exists res', (with_cache c2 w1). split_and!; try done.
  - apply not_true_is_false. intros (m & Hm & _)%Hstale. rewrite Hmarks, Hunmarked in Hm by by left. done.
  - intros k. exact (f_equal (λ m : gmap string Time, m !! k) (retrieved_stale _ _ _ _ _ _ Er)).
Qed.

Definition disk_cache_laws : CacheLaws world disk_choice (H := disk_cache budgeted).
Proof.
  refine {| slot := hashKey; plausible := disk_plausible;
    storable := disk_storable; refreshable := disk_refreshable; holds := disk_holds |}.
  - intros P Q w HPQ (A & Hi & Hl & Hu). exists A. split; [done|]. split; intros; apply HPQ; eauto.
  - intros P o record key w answer w'. apply disk_Retrieve_holds.
  - intros P o res keys w w'. apply disk_Store_holds.
  - intros P o res keys w left w'. apply disk_Store_failed_holds.
  - intros P o res keys w w' E Hp Hr Hh. by apply (disk_Freshen_outcome budgeted P o res keys w true w').
  - intros P o res keys w w' E Hp Hr Hk Hh. by apply (disk_Freshen_outcome budgeted P o res keys w false w').
  - intros P o keys w. apply disk_Invalidate_holds.
  - intros P w w'. apply disk_upkeep_holds.
  - intros P o res key keys w w'. apply disk_Store_found.
Defined.

(** A cache on files that hold no entry invents nothing. *)
Lemma disk_empty P w : empty_world w → disk_holds P w.
Proof.
  intros [Hl Hempty]. exists nothing_stored. split.
  - split; cbn [fst snd]; [done|]. intros h body raw _ Hb _. rewrite Hempty in Hb; [done|]. exists h. by left.
  - split; [intros h x Hx; cbn in Hx; by rewrite lookup_empty in Hx|intros h Hh; by apply elem_of_empty in Hh].
Qed.
End Remembers.
