(* ===== verification/Streamer.v ===== *)
(** * Streaming from the origin ([handler.go])

    The upstream handler is a script of calls on its [http.ResponseWriter]:
    it edits the header map, writes a status, writes bytes and goes on by
    whether the write succeeded.  [responseStreamer] is a writer over another
    writer; [pipeUpstream] and [passUpstreamWithHandler] run the upstream over
    one.  The upstream runs in a goroutine of its own, but it meets the
    handler at two points only: the handler waits for the first status, and,
    when headers are deferred, the upstream waits for the commit; each write
    waits for the reader of the pipe.  What happens between is a sequence, and
    is modelled as one.  A header map the upstream keeps from an earlier call
    is not modelled: an edit goes through [Header] each time. *)

From Stdlib Require Import SpecFloat.
From S2P Require Import Prelude GoStrings GoTime GoQuote GoHttp GoUrl CacheControl Keys Resource Policy Validator Publication Program Lookup Serve Origin Flights.
Import Headers.

(** ** Writers *)

(** [http.ResponseWriter], with the optional pair [DeferStagingHeaders] and
    [FinishStagingHeaders] ([id] for a writer without them).  [w_edit] is a
    change of the map [Header] returns. *)
Class ResponseWriter (W : Type) := {
  w_Header : W → Header;
  w_edit : (Header → Header) → W → W;
  w_WriteHeader : Z → W → W;
  w_Write : string → W → bool * W;
  w_DeferStagingHeaders : W → W;
  w_FinishStagingHeaders : W → W;
}.

(** What [http.ResponseWriter] documents: [Header] is one map; the first
    status is the one sent and a write sends 200 before any status.  A 1xx
    status other than 101 is informational and may come before it. *)
Definition informational (code : Z) : bool := (100 <=? code) && (code <=? 199) && negb (code =? 101).

Class ResponseWriterLaws (W : Type) `{ResponseWriter W} (w_sent : W → bool) := {
  header_edit : ∀ f w, w_Header (w_edit f w) = f (w_Header w);
  edit_edit : ∀ f g w, w_edit f (w_edit g w) = w_edit (λ h, f (g h)) w;
  edit_same : ∀ w, w_edit (λ _, w_Header w) w = w;
  edit_ext : ∀ f g w, f (w_Header w) = g (w_Header w) → w_edit f w = w_edit g w;
  sent_WriteHeader : ∀ code w, w_sent w = true → w_WriteHeader code w = w;
  WriteHeader_sent : ∀ code w, informational code = false → w_sent (w_WriteHeader code w) = true;
  edit_sent : ∀ f w, w_sent (w_edit f w) = w_sent w;
  Write_sent : ∀ b w, w_sent (w_Write b w).2 = true;
  Write_implies_200 : ∀ b w, w_Write b (w_WriteHeader 200 w) = w_Write b w;
  WriteHeader_header : ∀ code w, w_Header (w_WriteHeader code w) = w_Header w;
}.

(** The upstream handler.  [Abort] fails the pipe and returns
    ([CloseWithError] in [deliverValidationExchange]). *)
Inductive script :=
  | Return
  | Abort
  | Edit (f : Header → Header) (u : script)
  | Status (code : Z) (u : script)
  | Body (b : string) (k : bool → script).

(** The upstream handler called with a writer of the server: it sends 200
    when nothing has been sent. *)
Fixpoint serve_upstream {W} `{ResponseWriter W} (u : script) (w : W) : W :=
  match u with
  | Return | Abort => w_WriteHeader 200 w
  | Edit f u => serve_upstream u (w_edit f w)
  | Status code u => serve_upstream u (w_WriteHeader code w)
  | Body b k => let '(ok, w) := w_Write b w in serve_upstream (k ok) w
  end.

(** The writer of the server ([net/http]): the live header map, the
    informational statuses, the status and headers that are sent, and the
    body.  [cl_accepts] tells which writes the connection accepts. *)
Record client := {
  cl_live : Header;
  cl_informational : list Z;
  cl_sent : option (Z * Header);
  cl_body : string;
  cl_accepts : string → string → bool;
}.

Definition new_client (accepts : string → string → bool) : client :=
  {| cl_live := ∅; cl_informational := []; cl_sent := None; cl_body := EmptyString; cl_accepts := accepts |}.

Definition client_edit (f : Header → Header) (c : client) : client :=
  {| cl_live := f (cl_live c); cl_informational := cl_informational c; cl_sent := cl_sent c; cl_body := cl_body c; cl_accepts := cl_accepts c |}.

Definition client_WriteHeader (code : Z) (c : client) : client :=
  match cl_sent c with
  | Some _ => c
  | None =>
      if informational code then
        {| cl_live := cl_live c; cl_informational := cl_informational c ++ [code]; cl_sent := None; cl_body := cl_body c; cl_accepts := cl_accepts c |}
      else
        {| cl_live := cl_live c; cl_informational := cl_informational c; cl_sent := Some (code, cl_live c); cl_body := cl_body c; cl_accepts := cl_accepts c |}
  end.

(** [bodyAllowedForStatus] *)
Definition bodyAllowedForStatus (status : Z) : bool :=
  if (100 <=? status) && (status <=? 199) then false else negb (status =? 204) && negb (status =? 304).

Definition client_push (b : string) (c : client) : client :=
  {| cl_live := cl_live c; cl_informational := cl_informational c; cl_sent := cl_sent c; cl_body := cl_body c +:+ b; cl_accepts := cl_accepts c |}.

Definition client_Write (b : string) (c : client) : bool * client :=
  let c := client_WriteHeader 200 c in
  if bodyAllowedForStatus (default 200 (fst <$> cl_sent c)) && cl_accepts c (cl_body c) b then (true, client_push b c)
  else (false, c).

#[export] Instance client_writer : ResponseWriter client := {
  w_Header := cl_live; w_edit := client_edit; w_WriteHeader := client_WriteHeader; w_Write := client_Write;
  w_DeferStagingHeaders := id; w_FinishStagingHeaders := id }.

Definition client_sent (c : client) : bool := bool_decide (is_Some (cl_sent c)).

#[export] Instance client_laws : ResponseWriterLaws client client_sent.
Proof.
  split; try done.
  - by intros [].
  - intros f g [live ? ? ? ?]; cbn. unfold client_edit; cbn. by intros ->.
  - intros code [? ? [s|] ? ?]; [done|]. unfold client_sent. by intros [? [=]]%bool_decide_eq_true.
  - intros code [? ? [s|] ? ?]; cbn; unfold client_sent, client_WriteHeader; cbn; [done|]. by intros ->.
  - intros b [? ? [s|] ? ?]; cbn; unfold client_Write, client_WriteHeader; cbn; by case_match.
  - intros b [? ? [s|] ? ?]; cbn; by unfold client_Write, client_WriteHeader.
  - intros code [? ? [s|] ? ?]; cbn; unfold client_WriteHeader; cbn; [done|]. by case_match.
Qed.

(** ** [responseStreamer] *)

Definition CacheStagingHeader : string := "X-Cache-Staging".

(** [type responseStreamer struct].  [rw_responseHeader] is present once the
    channel [C] is closed; [rw_piped] is what went through the pipe and
    [rw_broken] tells that its writer was closed with an error. *)
Record streamer (W : Type) := {
  rw_ResponseWriter : W;
  rw_StatusCode : Z;
  rw_deferHeaders : bool;
  rw_bufferedHeader : option Header;
  rw_retainHeader : bool;
  rw_responseHeader : option Header;
  rw_clientHeader : option Header;
  rw_stagingTrailer : bool;
  rw_committed : bool;
  rw_piped : string;
  rw_broken : bool;
}.
Arguments rw_ResponseWriter {W}.
Arguments rw_StatusCode {W}.
Arguments rw_deferHeaders {W}.
Arguments rw_bufferedHeader {W}.
Arguments rw_retainHeader {W}.
Arguments rw_responseHeader {W}.
Arguments rw_clientHeader {W}.
Arguments rw_stagingTrailer {W}.
Arguments rw_committed {W}.
Arguments rw_piped {W}.
Arguments rw_broken {W}.

Section Streamer.
Context {W : Type} `{!ResponseWriter W}.
Implicit Types (rw : streamer W) (w : W).

(** [newResponseStreamer], with the two fields its callers set. *)
Definition newResponseStreamer (defer_ retain : bool) w : streamer W :=
  {| rw_ResponseWriter := w; rw_StatusCode := 0; rw_deferHeaders := defer_; rw_bufferedHeader := None; rw_retainHeader := retain;
     rw_responseHeader := None; rw_clientHeader := None; rw_stagingTrailer := false; rw_committed := false; rw_piped := EmptyString;
     rw_broken := false |}.

Definition rw_with_writer (w : W) rw : streamer W :=
  {| rw_ResponseWriter := w; rw_StatusCode := rw_StatusCode rw; rw_deferHeaders := rw_deferHeaders rw;
     rw_bufferedHeader := rw_bufferedHeader rw; rw_retainHeader := rw_retainHeader rw; rw_responseHeader := rw_responseHeader rw;
     rw_clientHeader := rw_clientHeader rw; rw_stagingTrailer := rw_stagingTrailer rw; rw_committed := rw_committed rw;
     rw_piped := rw_piped rw; rw_broken := rw_broken rw |}.

(** [responseStreamer.Header], read *)
Definition rw_Header rw : Header :=
  if negb (rw_deferHeaders rw) || rw_retainHeader rw || rw_committed rw then w_Header (rw_ResponseWriter rw)
  else default (w_Header (rw_ResponseWriter rw)) (rw_bufferedHeader rw).

(** A change of the map [responseStreamer.Header] returns. *)
Definition rw_edit (f : Header → Header) rw : streamer W :=
  if negb (rw_deferHeaders rw) || rw_retainHeader rw || rw_committed rw then rw_with_writer (w_edit f (rw_ResponseWriter rw)) rw
  else
    {| rw_ResponseWriter := rw_ResponseWriter rw; rw_StatusCode := rw_StatusCode rw; rw_deferHeaders := rw_deferHeaders rw;
       rw_bufferedHeader := Some (f (default (w_Header (rw_ResponseWriter rw)) (rw_bufferedHeader rw)));
       rw_retainHeader := rw_retainHeader rw; rw_responseHeader := rw_responseHeader rw;
       rw_clientHeader := rw_clientHeader rw; rw_stagingTrailer := rw_stagingTrailer rw; rw_committed := rw_committed rw;
       rw_piped := rw_piped rw; rw_broken := rw_broken rw |}.

(** The header [CommitHeaders] leaves in the wrapped map [dst]. *)
Definition commit_header (retain : bool) (header dst : Header) : Header :=
  let dst := filter (λ '(name, _), retain = true ∧ is_Some (header !! name)) dst in
  map_fold (λ name values dst, if retain && bool_decide (dst !! name = Some values) then dst else <[name := values]> dst) dst header.

(** [responseStreamer.CommitHeaders] *)
Definition CommitHeaders rw : streamer W :=
  if rw_committed rw then rw
  else
    let w :=
      if rw_deferHeaders rw then
        let header := match rw_clientHeader rw with Some h => h | None => default ∅ (rw_responseHeader rw) end in
        w_edit (commit_header (rw_retainHeader rw) header) (rw_ResponseWriter rw)
      else rw_ResponseWriter rw in
    {| rw_ResponseWriter := w_WriteHeader (rw_StatusCode rw) w; rw_StatusCode := rw_StatusCode rw; rw_deferHeaders := rw_deferHeaders rw;
       rw_bufferedHeader := rw_bufferedHeader rw; rw_retainHeader := rw_retainHeader rw; rw_responseHeader := rw_responseHeader rw;
       rw_clientHeader := rw_clientHeader rw; rw_stagingTrailer := rw_stagingTrailer rw; rw_committed := true;
       rw_piped := rw_piped rw; rw_broken := rw_broken rw |}.

(** [responseStreamer.WriteHeader], up to its wait for the commit *)
Definition rw_WriteHeader (status : Z) rw : streamer W :=
  match rw_responseHeader rw with
  | Some _ => rw
  | None =>
      let rw :=
        {| rw_ResponseWriter := rw_ResponseWriter rw; rw_StatusCode := status; rw_deferHeaders := rw_deferHeaders rw;
           rw_bufferedHeader := rw_bufferedHeader rw; rw_retainHeader := rw_retainHeader rw;
           rw_responseHeader := Some (rw_Header rw);
           rw_clientHeader := rw_clientHeader rw; rw_stagingTrailer := rw_stagingTrailer rw; rw_committed := rw_committed rw;
           rw_piped := rw_piped rw; rw_broken := rw_broken rw |} in
      if rw_deferHeaders rw then rw else CommitHeaders rw
  end.

(** The pipe's side of [responseStreamer.Write]. *)
Definition rw_pipe (b : string) (broken : bool) rw : streamer W :=
  {| rw_ResponseWriter := rw_ResponseWriter rw; rw_StatusCode := rw_StatusCode rw; rw_deferHeaders := rw_deferHeaders rw;
     rw_bufferedHeader := rw_bufferedHeader rw; rw_retainHeader := rw_retainHeader rw; rw_responseHeader := rw_responseHeader rw;
     rw_clientHeader := rw_clientHeader rw; rw_stagingTrailer := rw_stagingTrailer rw; rw_committed := rw_committed rw;
     rw_piped := rw_piped rw +:+ b; rw_broken := rw_broken rw || broken |}.

(** [responseStreamer.Write], once the headers are committed: the pipe, then
    the client. *)
Definition rw_Write (b : string) rw : bool * streamer W :=
  let rw := rw_pipe b false rw in
  let '(ok, w) := w_Write b (rw_ResponseWriter rw) in
  (ok, rw_with_writer w rw).

(** The upstream goroutine until [WaitHeaders] returns, and what it has left
    to do: [Close] and [Write] send 200 first. *)
Fixpoint WaitHeaders (u : script) rw : streamer W * script :=
  match u with
  | Return => (rw_WriteHeader 200 rw, Return)
  | Abort => (rw_WriteHeader 200 (rw_pipe EmptyString true rw), Return)
  | Edit f u => WaitHeaders u (rw_edit f rw)
  | Status code u => (rw_WriteHeader code rw, u)
  | Body b k => (rw_WriteHeader 200 rw, Body b k)
  end.

(** The rest of the upstream goroutine, after the commit. *)
Fixpoint finish_upstream (u : script) rw : streamer W :=
  match u with
  | Return => rw
  | Abort => rw_pipe EmptyString true rw
  | Edit f u => finish_upstream u (rw_edit f rw)
  | Status code u => finish_upstream u (rw_WriteHeader code rw)
  | Body b k => let '(ok, rw) := rw_Write b rw in finish_upstream (k ok) rw
  end.

(** [responseStreamer.commitStagingHeaders] *)
Definition commitStagingHeaders (req : Request) (status : string) (admitted : bool) rw : streamer W :=
  if negb (rw_deferHeaders rw) then rw
  else
    let header := default ∅ (rw_responseHeader rw) in
    let header := Set_ header CacheHeader (if admitted then status else "SKIP") in
    let trailer := admitted && canConveyStaging req (rw_StatusCode rw) in
    let header :=
      if trailer then
        let header := Add_ header "Trailer" CacheStagingHeader in
        if req_ProtoMajor req =? 1 then
          let header := Del header "Content-Length" in
          if EqualFold (Get header "Transfer-Encoding") "identity" then Del header "Transfer-Encoding" else header
        else header
      else header in
    CommitHeaders
      {| rw_ResponseWriter := rw_ResponseWriter rw; rw_StatusCode := rw_StatusCode rw; rw_deferHeaders := rw_deferHeaders rw;
         rw_bufferedHeader := rw_bufferedHeader rw; rw_retainHeader := rw_retainHeader rw; rw_responseHeader := rw_responseHeader rw;
         rw_clientHeader := Some header; rw_stagingTrailer := trailer; rw_committed := rw_committed rw;
         rw_piped := rw_piped rw; rw_broken := rw_broken rw |}.

(** [responseStreamer.finishStaging] *)
Definition finishStaging (status : string) rw : streamer W :=
  let rw :=
    if rw_deferHeaders rw && negb (rw_retainHeader rw) then
      rw_edit (λ dst, copyValidationTrailers dst (default ∅ (rw_bufferedHeader rw)) (default ∅ (rw_responseHeader rw))) rw
    else rw in
  if rw_stagingTrailer rw then rw_edit (λ h, Set_ h CacheStagingHeader status) rw else rw.

(** [responseStreamer.Resource] *)
Definition rw_Resource rw : Resource :=
  NewResourceBytes (rw_StatusCode rw) (rw_piped rw) (default (rw_Header rw) (rw_responseHeader rw)).
End Streamer.

(** ** The two ways upstream *)

(** What the handler does besides answering, in order.  [Invalidate] carries
    the writer of the client as it is at that moment. *)
Inductive effect (W : Type) :=
  | Invalidate (keys : list string) (seen : W)
  | Freshen (res : Resource) (key : string)
  | Publish (res : Resource) (requested : Time) (keys : list string)
  | Complete.
Arguments Invalidate {W}.
Arguments Freshen {W}.
Arguments Publish {W}.
Arguments Complete {W}.

(** The integers around a float: [math.Ceil], [math.Floor]. *)
Definition float_floor (f : spec_float) : Z :=
  match f with
  | S754_finite s m e =>
      let n := if s then Zneg m else Zpos m in
      if 0 <=? e then n * 2 ^ e else n / 2 ^ (- e)
  | _ => 0
  end.
Definition float_ceil (f : spec_float) : Z :=
  match f with
  | S754_finite s m e =>
      let n := if s then Zneg m else Zpos m in
      if 0 <=? e then n * 2 ^ e else - (- n / 2 ^ (- e))
  | _ => 0
  end.

(** What the temporary file of a response does: it can be created, it takes
    the whole body, it can be rewound. *)
Record staging := { stage_opens : bool; stage_takes : string → bool; stage_rewinds : bool }.

(** The instants [passUpstreamWithHandler] reads: two in [isCacheable], the
    date, the response time, and one in [correctedAge]. *)
Record pass_clock := { at_maxAge : Time; at_heuristic : Time; at_date : Time; at_response : Time; at_age : Time }.

Section Upstream.
Context {W : Type} `{!ResponseWriter W} `{D : HttpDate, U : Unicode, P : UrlParser}.
Context (h : Handler) (requestKey : option (Request → option Key)).
Implicit Types (rw : streamer W) (w : W).

(** [Handler.invalidateResource] *)
Definition invalidateResource (res : Resource) (r : cacheRequest) (seen : W) : list (effect W) :=
  match handler_invalidationKeys requestKey res r with
  | [] => []
  | keys => [Invalidate keys seen]
  end.

(** [Handler.pipeUpstream]; [newResponseStreamer] and [NextReader] do not
    fail. *)
Definition pipeUpstream (r : cacheRequest) (upstream : script) w : W * list (effect W) :=
  let '(rw, rest) := WaitHeaders upstream (newResponseStreamer (isStateChanging r) false w) in
  if isStateChanging r then
    let res := NewResourceBytes (rw_StatusCode rw) EmptyString (default ∅ (rw_responseHeader rw)) in
    let invalidated := if IsNonErrorStatus res then invalidateResource res r (rw_ResponseWriter rw) else [] in
    let rw := CommitHeaders rw in
    (rw_ResponseWriter (finish_upstream rest rw), invalidated)
  else
    let rw := finish_upstream rest rw in
    if req_Method (cr_Request r) <>?s "HEAD" then (rw_ResponseWriter rw, [])
    else
      let res := set_requestTime (cr_Time r) (rw_Resource rw) in
      (rw_ResponseWriter rw, [Freshen res (Key_String (ForMethod (cr_Key r) "GET"))]).

(** [Handler.storeResource]: what the background store does. *)
Definition storeResource (l : lifecycle) (res : Resource) (r : cacheRequest) : list (effect W) :=
  if negb (beginWrite l).1 then [Complete]
  else
    let res := if Shared h then RemovePrivateHeaders res else res in
    let vary := combinedHeaderValues (r_header res) "Vary" in
    let keys := if nonempty vary then [Key_String (cr_Key r); Key_String (Key_Vary (cr_Key r) vary (cr_Request r))]
                else [Key_String (cr_Key r)] in
    [Publish res (cr_Time r) keys; Complete].

(** The [Age] and [Proxy-Date] of a fetched response, set in the stored header
    and in the client's. *)
Definition receipt_fields (n : pass_clock) (header : Header) (startedAt : Time) (hd : Header) : Header :=
  let age := (λ age, Itoa (float_ceil (Seconds age))) <$> correctedAge (at_age n) header startedAt (at_response n) in
  Set_ (match age with Some age => Set_ hd "Age" age | None => hd end) ProxyDateHeader (FormatTime (at_date n)).

(** The body of [Handler.passUpstreamWithHandler], the deferred
    [FinishStagingHeaders] apart; the upstream started at [startedAt]. *)
Definition pass_stream (n : pass_clock) (stage : staging) (l : lifecycle) (r : cacheRequest) (upstream : script)
    (startedAt : Time) w : streamer W * list (effect W) :=
  let budget := hasStagingBudget h in
  let w := if budget then w_DeferStagingHeaders w else w in
  let rw := rw_edit (λ h, Set_ h CacheHeader "MISS") (newResponseStreamer budget budget w) in
  let '(rw, rest) := WaitHeaders upstream rw in
  let header := default ∅ (rw_responseHeader rw) in
  let res := set_requestTime startedAt (NewResourceBytes (rw_StatusCode rw) EmptyString header) in
  let skip rw := finishStaging "SKIP" (rw_edit (λ h, Set_ h CacheHeader "SKIP") rw) in
  if negb (canStageResponse (at_maxAge n) (at_heuristic n) h res r) then
    let rw := commitStagingHeaders (cr_Request r) "SKIP" false rw in
    (skip (finish_upstream rest rw), [Complete])
  else
    let rw := commitStagingHeaders (cr_Request r) "MISS" (stage_opens stage) rw in
    let rw := finish_upstream rest rw in
    if negb (stage_opens stage && negb (rw_broken rw) && stage_takes stage (rw_piped rw) && stage_rewinds stage) then
      (skip rw, [Complete])
    else
      let rw := finishStaging "ADMITTED" rw in
      let rw := rw_edit (receipt_fields n header startedAt) rw in
      let res := set_requestTime startedAt (NewResourceBytes (rw_StatusCode rw) (rw_piped rw) (receipt_fields n header startedAt header)) in
      (rw, storeResource l res r).

(** [Handler.passUpstreamWithHandler] *)
Definition passUpstreamWithHandler (n : pass_clock) (stage : staging) (l : lifecycle) (r : cacheRequest) (upstream : script)
    (startedAt : Time) w : W * list (effect W) :=
  let '(rw, effects) := pass_stream n stage l r upstream startedAt w in
  let finish := if hasStagingBudget h then w_FinishStagingHeaders else id in
  (finish (rw_ResponseWriter rw), effects).

(** [Handler.passUpstream] *)
Definition passUpstream (now : Time) (n : pass_clock) (stage : staging) (l : lifecycle) (r : cacheRequest) (upstream : Request → script) w :
    W * list (effect W) :=
  passUpstreamWithHandler n stage l r (upstream (cr_Request r)) now w.
End Upstream.

(** ** Lemmas *)

(** What remains of an upstream's calls once a status has no effect. *)
Fixpoint no_status (u : script) : script :=
  match u with
  | Return | Abort => u
  | Edit f u => Edit f (no_status u)
  | Status _ u => no_status u
  | Body b k => Body b (λ ok, no_status (k ok))
  end.

(** The upstream as the handler has it: every status after the first is lost,
    were the first an informational one. *)
Fixpoint first_status (u : script) : script :=
  match u with
  | Return | Abort => u
  | Edit f u => Edit f (first_status u)
  | Status code u => Status code (no_status u)
  | Body b k => Body b (λ ok, no_status (k ok))
  end.

(** The bytes an upstream hands to its writer, those of a write that fails
    included. *)
Fixpoint written {W} `{ResponseWriter W} (u : script) (w : W) : string :=
  match u with
  | Return | Abort => EmptyString
  | Edit f u => written u (w_edit f w)
  | Status code u => written u (w_WriteHeader code w)
  | Body b k => let '(ok, w) := w_Write b w in b +:+ written (k ok) w
  end.

(** An origin whose first status is a final one. *)
Fixpoint final_first (u : script) : bool :=
  match u with
  | Return | Abort | Body _ _ => true
  | Edit _ u => final_first u
  | Status code _ => negb (informational code)
  end.

Lemma commit_header_eq retain header dst : commit_header retain header dst = header.
Proof.
  unfold commit_header. set (d0 := filter _ dst).
  assert (∀ k, header !! k = None → d0 !! k = None) as Hd.
  { intros k Hk. apply map_lookup_filter_None. right. intros v _ [_ [? ?]]. congruence. }
  assert (∀ m, m ⊆ header → ∀ k, map_fold (λ name values dst, if retain && bool_decide (dst !! name = Some values) then dst
    else <[name := values]> dst) d0 m !! k = match m !! k with Some v => Some v | None => d0 !! k end) as Hfold.
  { refine (map_fold_weak_ind (λ b m, m ⊆ header → ∀ k, b !! k = match m !! k with Some v => Some v | None => d0 !! k end) _ _ _ _).
    - intros _ k. by rewrite lookup_empty.
    - intros k v m b Hm IH Hsub j. assert (m ⊆ header) as Hm' by (etrans; [by apply insert_subseteq|exact Hsub]).
      destruct (retain && bool_decide (b !! k = Some v)) eqn:E.
      + apply andb_true_iff in E as [_ E%bool_decide_eq_true]. destruct (decide (j = k)) as [->|Hne].
        * by rewrite lookup_insert_eq.
        * rewrite lookup_insert_ne by congruence. by apply IH.
      + destruct (decide (j = k)) as [->|Hne]; [by rewrite !lookup_insert_eq|]. rewrite !lookup_insert_ne by congruence. by apply IH. }
  apply map_eq. intros k. rewrite (Hfold header) by done. destruct (header !! k) eqn:Hk; [done|by apply Hd].
Qed.

Section Laws.
Context `{RW : ResponseWriter W} (sent : W → bool) {L : ResponseWriterLaws W sent}.
Implicit Types (rw : streamer W) (w : W).

(** The upstream sees the map it would see at a writer of its own. *)
Definition ahead rw w : Prop := w_edit (λ _, rw_Header rw) (rw_ResponseWriter rw) = w.

Lemma ahead_new defer_ retain w : ahead (newResponseStreamer defer_ retain w) w.
Proof. unfold ahead, rw_Header. cbn. destruct (_ || _); apply edit_same. Qed.

Lemma ahead_header rw w : ahead rw w → w_Header w = rw_Header rw.
Proof. intros <-. by rewrite header_edit. Qed.

Lemma ahead_edit f rw w : ahead rw w → ahead (rw_edit f rw) (w_edit f w).
Proof.
  unfold ahead, rw_edit. intros <-. destruct (negb _ || _ || _) eqn:E; unfold rw_Header; cbn; rewrite E.
  - rewrite edit_same, edit_edit. apply edit_ext. by rewrite !header_edit || done.
  - by rewrite edit_edit.
Qed.

(** What the handler knows when [WaitHeaders] returns, beside a writer [w1]
    the upstream alone would have: it goes on with [rest] from there. *)
Record waited (defer_ retain : bool) (w w1 : W) (code : Z) (rw : streamer W) : Prop := {
  wt_status : rw_StatusCode rw = code;
  wt_header : rw_responseHeader rw = Some (w_Header w1);
  wt_fields : rw_deferHeaders rw = defer_ ∧ rw_retainHeader rw = retain ∧ rw_clientHeader rw = None ∧ rw_stagingTrailer rw = false ∧
    rw_piped rw = EmptyString;
  wt_commit : rw_committed rw = negb defer_;
  wt_edits : ∃ f, w1 = w_edit f w;
  wt_writer : if defer_ then w_edit (λ _, w_Header w1) (rw_ResponseWriter rw) = w1 ∧ (retain = false → rw_ResponseWriter rw = w)
              else rw_ResponseWriter rw = w_WriteHeader code w1;
}.

Record fresh (defer_ retain : bool) (w0 : W) (rw : streamer W) (w : W) : Prop := {
  fr_header : rw_responseHeader rw = None;
  fr_commit : rw_committed rw = false;
  fr_fields : rw_deferHeaders rw = defer_ ∧ rw_retainHeader rw = retain ∧ rw_clientHeader rw = None ∧ rw_stagingTrailer rw = false ∧
    rw_piped rw = EmptyString;
  fr_ahead : ahead rw w;
  fr_edits : ∃ f, w = w_edit f w0;
  fr_writer : defer_ = true → retain = false → rw_ResponseWriter rw = w0;
}.

Lemma fresh_new defer_ retain w : fresh defer_ retain w (newResponseStreamer defer_ retain w) w.
Proof. split; try done; [apply ahead_new|]. eexists. symmetry. apply edit_same. Qed.

Lemma fresh_edit defer_ retain w0 f rw w : fresh defer_ retain w0 rw w → fresh defer_ retain w0 (rw_edit f rw) (w_edit f w).
Proof.
  intros [Hh Hc (Hd & Hr & Hf) Ha Hs Hw]. split; [..|by apply ahead_edit|destruct Hs as [g ->]; eexists; apply edit_edit|]; unfold rw_edit; destruct (_ || _ || _) eqn:E; cbn; try done; intros -> ->.
  by rewrite Hd, Hr, Hc in E.
Qed.

Lemma fresh_pipe defer_ retain w0 rw w : fresh defer_ retain w0 rw w → fresh defer_ retain w0 (rw_pipe EmptyString true rw) w.
Proof. intros [Hh Hc (Hd & Hr & ? & ? & Hp) Ha Hs Hw]. split; try done. split_and!; try done. cbn. by rewrite Hp. Qed.

Lemma fresh_WriteHeader defer_ retain w0 code rw w :
  fresh defer_ retain w0 rw w → waited defer_ retain w0 w code (rw_WriteHeader code rw).
Proof.
  intros [Hh Hc (Hd & Hr & Hcl & Hst & Hp) Ha Hs Hw]. pose proof (ahead_header _ _ Ha) as Hah. unfold rw_WriteHeader. rewrite Hh, Hd, <- Hah.
  destruct defer_.
  - split; cbn; try done. split; [by rewrite Hah|by apply Hw].
  - unfold CommitHeaders. cbn. rewrite Hc. split; cbn; try done. f_equal. rewrite <- Ha. symmetry.
    unfold rw_Header. rewrite Hd. cbn. apply edit_same.
Qed.

(** A status has no effect after a final one. *)
Lemma serve_no_status u w : sent w = true → serve_upstream (no_status u) w = serve_upstream u w.
Proof.
  revert w. induction u as [| |f u IH|code u IH|b k IH]; cbn [no_status serve_upstream]; intros w Hw; try done.
  - apply IH. by rewrite edit_sent.
  - rewrite sent_WriteHeader by done. by apply IH.
  - pose proof (Write_sent b w) as Hs. destruct (w_Write b w) as [ok w']. by apply IH.
Qed.

Lemma serve_first_status u w : final_first u = true → serve_upstream (first_status u) w = serve_upstream u w.
Proof.
  revert w. induction u as [| |f u IH|code u IH|b k IH]; cbn [first_status serve_upstream final_first]; intros w Hu; try done.
  - by apply IH.
  - apply serve_no_status, WriteHeader_sent. by apply negb_true_iff.
  - pose proof (Write_sent b w) as Hs. destruct (w_Write b w) as [ok w']. by apply serve_no_status.
Qed.

Lemma written_no_status u w : sent w = true → written (no_status u) w = written u w.
Proof.
  revert w. induction u as [| |f u IH|code u IH|b k IH]; cbn [no_status written]; intros w Hw; try done.
  - apply IH. by rewrite edit_sent.
  - rewrite sent_WriteHeader by done. by apply IH.
  - pose proof (Write_sent b w) as Hs. destruct (w_Write b w) as [ok w']. by rewrite IH.
Qed.

Lemma written_first_status u w : final_first u = true → written (first_status u) w = written u w.
Proof.
  revert w. induction u as [| |f u IH|code u IH|b k IH]; cbn [first_status written final_first]; intros w Hu; try done.
  - by apply IH.
  - apply written_no_status, WriteHeader_sent. by apply negb_true_iff.
  - pose proof (Write_sent b w) as Hs. destruct (w_Write b w) as [ok w']. by rewrite written_no_status.
Qed.

Lemma finish_no_status u rw : is_Some (rw_responseHeader rw) → finish_upstream (no_status u) rw = finish_upstream u rw.
Proof.
  revert rw. induction u as [| |f u IH|code u IH|b k IH]; cbn [no_status finish_upstream]; intros rw Hh; try done.
  - apply IH. unfold rw_edit. by case_match.
  - assert (rw_WriteHeader code rw = rw) as -> by (unfold rw_WriteHeader; by destruct Hh as [? ->]). by apply IH.
  - unfold rw_Write. destruct (w_Write _ _) as [ok w]. by apply IH.
Qed.

(** The upstream until its first status. *)
Lemma WaitHeaders_waited defer_ retain w0 u rw w rw' rest :
  WaitHeaders u rw = (rw', rest) → fresh defer_ retain w0 rw w →
  ∃ w1 code, waited defer_ retain w0 w1 code rw' ∧ informational code = negb (final_first u) ∧
    serve_upstream (first_status u) w = serve_upstream (no_status rest) (w_WriteHeader code w1) ∧
    written (first_status u) w = written (no_status rest) (w_WriteHeader code w1).
Proof.
  revert rw w. induction u as [| |f u IH|code u IH|b k _]; cbn [WaitHeaders final_first]; intros rw w E Hf.
  - injection E as <- <-. exists w, 200. split; [by apply fresh_WriteHeader|]. split; [done|]. cbn.
    by rewrite (sent_WriteHeader 200 (w_WriteHeader 200 w)) by by apply WriteHeader_sent.
  - injection E as <- <-. exists w, 200. split; [by apply fresh_WriteHeader, fresh_pipe|]. split; [done|]. cbn.
    by rewrite (sent_WriteHeader 200 (w_WriteHeader 200 w)) by by apply WriteHeader_sent.
  - by destruct (IH _ (w_edit f w) E (fresh_edit _ _ _ _ _ _ Hf)) as (w1 & code & ? & ? & ? & ?); exists w1, code.
  - injection E as <- <-. exists w, code. rewrite negb_involutive. by split; [apply fresh_WriteHeader|].
  - injection E as <- <-. exists w, 200. split; [by apply fresh_WriteHeader|]. split; [done|]. cbn. by rewrite Write_implies_200.
Qed.

Lemma CommitHeaders_committed rw : rw_committed rw = true → CommitHeaders rw = rw.
Proof. unfold CommitHeaders. by intros ->. Qed.

(** The commit: the client is where the upstream alone would have left it. *)
Lemma commit_waited defer_ retain w0 w1 code rw :
  waited defer_ retain w0 w1 code rw → rw_ResponseWriter (CommitHeaders rw) = w_WriteHeader code w1.
Proof.
  intros [Hs Hh (Hd & Hr & Hcl & _) Hc _ Hw]. unfold CommitHeaders. rewrite Hc, Hd, Hcl, Hs, Hh.
  destruct defer_; cbn; [|done]. destruct Hw as [Hw _]. rewrite <- Hw at 2. f_equal. apply edit_ext. apply commit_header_eq.
Qed.

(** Once the headers are committed the streamer hands everything on but a
    status; the server ends the response with the 200 of one that has none. *)
Lemma finish_committed u rw :
  rw_committed rw = true → is_Some (rw_responseHeader rw) →
  w_WriteHeader 200 (rw_ResponseWriter (finish_upstream u rw)) = serve_upstream (no_status u) (rw_ResponseWriter rw) ∧
  rw_piped (finish_upstream u rw) = (rw_piped rw +:+ written (no_status u) (rw_ResponseWriter rw))%string ∧
  (sent (rw_ResponseWriter rw) = true → sent (rw_ResponseWriter (finish_upstream u rw)) = true).
Proof.
  revert rw. induction u as [| |f u IH|code u IH|b k IH]; cbn [finish_upstream no_status serve_upstream written]; intros rw Hc Hh.
  - by rewrite str_app_nil_r.
  - cbn. by rewrite !str_app_nil_r.
  - assert (rw_edit f rw = rw_with_writer (w_edit f (rw_ResponseWriter rw)) rw) as ->
      by (unfold rw_edit; by rewrite Hc, !orb_true_r).
    destruct (IH (rw_with_writer (w_edit f (rw_ResponseWriter rw)) rw) Hc Hh) as (? & ? & Hs). split; [done|]. split; [done|].
    intros ?. apply Hs. cbn. by rewrite edit_sent.
  - assert (rw_WriteHeader code rw = rw) as -> by (unfold rw_WriteHeader; by destruct Hh as [? ->]). by apply IH.
  - unfold rw_Write. cbn [rw_ResponseWriter rw_pipe]. pose proof (Write_sent b (rw_ResponseWriter rw)) as Hw.
    destruct (w_Write b (rw_ResponseWriter rw)) as [ok w].
    destruct (IH ok (rw_with_writer w (rw_pipe b false rw)) Hc Hh) as (H1 & H2 & H3). split; [done|]. split; [|intros _; by apply H3].
    rewrite H2. cbn. by rewrite str_app_assoc.
Qed.
End Laws.

(** What has gone to the client, the live map apart. *)
Definition wire (c : client) : option (Z * Header) * string * list Z := (cl_sent c, cl_body c, cl_informational c).

Section Wire.
Implicit Types (rw : streamer client) (c : client).

Lemma WriteHeader_again code c x : cl_sent c = Some x → w_WriteHeader code c = c.
Proof. intros H. cbn. unfold client_WriteHeader. by rewrite H. Qed.

Lemma Write_again b c status h :
  cl_sent c = Some (status, h) →
  w_Write b c = if bodyAllowedForStatus status && cl_accepts c (cl_body c) b then (true, client_push b c) else (false, c).
Proof. intros H. cbn. unfold client_Write, client_WriteHeader. rewrite H. cbn. by rewrite H. Qed.

Lemma WriteHeader_late code rw : is_Some (rw_responseHeader rw) → rw_WriteHeader code rw = rw.
Proof. unfold rw_WriteHeader. by intros [x ->]. Qed.

Lemma edit_committed f rw : rw_committed rw = true → rw_edit f rw = rw_with_writer (client_edit f (rw_ResponseWriter rw)) rw.
Proof. intros Hc. unfold rw_edit. by rewrite Hc, !orb_true_r. Qed.

Lemma finishStaging_committed status rw :
  rw_committed rw = true →
  ∃ f, finishStaging status rw = rw_with_writer (client_edit f (rw_ResponseWriter rw)) rw.
Proof.
  intros Hc. unfold finishStaging. destruct (rw_deferHeaders rw && negb (rw_retainHeader rw)).
  - rewrite edit_committed by done. cbn. destruct (rw_stagingTrailer rw); [|by eexists].
    rewrite edit_committed by done. cbn. unfold client_edit. cbn. by eexists (λ h, Set_ _ _ _).
  - destruct (rw_stagingTrailer rw); [|exists id; by destruct rw as [[] ? ? ? ? ? ? ? ? ? ?]].
    rewrite edit_committed by done. by eexists.
Qed.

(** The headers a client has been sent are so for good. *)
Lemma serve_sent u c status hd :
  cl_sent c = Some (status, hd) → cl_sent (serve_upstream u c) = Some (status, hd).
Proof.
  revert c. induction u as [| |f u IH|code u IH|b k IH]; cbn [serve_upstream]; intros c H.
  - by rewrite (WriteHeader_again _ _ _ H).
  - by rewrite (WriteHeader_again _ _ _ H).
  - by apply (IH (client_edit f c)).
  - rewrite (WriteHeader_again _ _ _ H). by apply IH.
  - rewrite (Write_again _ _ _ _ H). destruct (_ && _); [by apply (IH true (client_push b c))|by apply IH].
Qed.

(** After the headers the body does not depend on them. *)
Lemma serve_same_wire u c1 c2 status h1 h2 :
  cl_sent c1 = Some (status, h1) → cl_sent c2 = Some (status, h2) → cl_body c1 = cl_body c2 →
  cl_informational c1 = cl_informational c2 → cl_accepts c1 = cl_accepts c2 →
  wire (serve_upstream u c1) = (cl_sent c1, cl_body (serve_upstream u c2), cl_informational (serve_upstream u c2)) ∧
  cl_sent (serve_upstream u c2) = cl_sent c2.
Proof.
  revert c1 c2. induction u as [| |f u IH|code u IH|b k IH]; cbn [serve_upstream]; intros c1 c2 H1 H2 Hb Hi Ha.
  1-2: rewrite !(WriteHeader_again _ _ _ H1), !(WriteHeader_again _ _ _ H2); unfold wire; by rewrite Hb, Hi.
  - by apply (IH (client_edit f c1) (client_edit f c2)).
  - rewrite (WriteHeader_again _ _ _ H1), (WriteHeader_again _ _ _ H2). by apply IH.
  - rewrite (Write_again _ _ _ _ H1), (Write_again _ _ _ _ H2), Hb, Ha. destruct (_ && _); [|by apply IH].
    apply (IH true (client_push b c1) (client_push b c2)); cbn; by rewrite ?Hb.
Qed.

(** What an upstream writes depends on the answers to its writes only. *)
Lemma written_same_wire u c1 c2 status h1 h2 :
  cl_sent c1 = Some (status, h1) → cl_sent c2 = Some (status, h2) → cl_body c1 = cl_body c2 → cl_accepts c1 = cl_accepts c2 →
  written u c1 = written u c2.
Proof.
  revert c1 c2. induction u as [| |f u IH|code u IH|b k IH]; cbn [written]; intros c1 c2 H1 H2 Hb Ha; try done.
  - by apply (IH (client_edit f c1) (client_edit f c2)).
  - rewrite (WriteHeader_again _ _ _ H1), (WriteHeader_again _ _ _ H2). by apply IH.
  - rewrite (Write_again _ _ _ _ H1), (Write_again _ _ _ _ H2), Hb, Ha. destruct (_ && _); f_equal; [|by apply IH].
    apply (IH true (client_push b c1) (client_push b c2)); cbn; by rewrite ?Hb.
Qed.

(** A connection that accepts all the bytes of a status with a body. *)
Lemma written_accepted u c :
  (∀ a b, cl_accepts c a b = true) →
  (∀ status h, cl_sent (serve_upstream u c) = Some (status, h) → bodyAllowedForStatus status = true) →
  cl_body (serve_upstream u c) = (cl_body c +:+ written u c)%string.
Proof.
  assert (∀ code c, cl_body (client_WriteHeader code c) = cl_body c ∧ cl_accepts (client_WriteHeader code c) = cl_accepts c) as Hw.
  { intros code d. unfold client_WriteHeader. destruct (cl_sent d); [done|]. by destruct (informational code). }
  revert c. induction u as [| |f u IH|code u IH|b k IH]; cbn [serve_upstream written w_WriteHeader w_edit client_writer]; intros c Ha Hok.
  - by rewrite str_app_nil_r, (proj1 (Hw 200 c)).
  - by rewrite str_app_nil_r, (proj1 (Hw 200 c)).
  - by apply (IH (client_edit f c)).
  - rewrite IH; [by rewrite (proj1 (Hw code c))|by rewrite (proj2 (Hw code c))|done].
  - revert Hok. cbn [w_Write client_writer]. unfold client_Write. destruct (Hw 200 c) as [Eb Ea]. rewrite Ea, Ha, andb_true_r.
    set (c1 := client_WriteHeader 200 c) in *.
    assert (∃ status hd, cl_sent c1 = Some (status, hd)) as (status & hd & Hs).
    { unfold c1, client_WriteHeader. destruct (cl_sent c) as [[s h]|] eqn:E; [by exists s, h|by exists 200, (cl_live c)]. }
    rewrite Hs. change (default 200 (fst <$> Some (status, hd))) with status. destruct (bodyAllowedForStatus status) eqn:Est; intros Hok.
    + rewrite IH; [cbn; by rewrite Eb, str_app_assoc|cbn; by rewrite Ea|done].
    + pose proof (serve_sent (k false) c1 status hd Hs) as Hsent. rewrite (Hok _ _ Hsent) in Est. done.
Qed.

Lemma finish_keeps u rw :
  rw_committed rw = true → is_Some (rw_responseHeader rw) →
  rw_committed (finish_upstream u rw) = true ∧ rw_responseHeader (finish_upstream u rw) = rw_responseHeader rw ∧
  rw_StatusCode (finish_upstream u rw) = rw_StatusCode rw.
Proof.
  revert rw. induction u as [| |f u IH|code u IH|b k IH]; cbn [finish_upstream]; intros rw Hc Hh; try done.
  - rewrite edit_committed by done. by apply (IH (rw_with_writer (client_edit f (rw_ResponseWriter rw)) rw)).
  - rewrite WriteHeader_late by done. by apply IH.
  - unfold rw_Write. destruct (w_Write _ _) as [ok w]. by apply (IH ok (rw_with_writer w (rw_pipe b false rw))).
Qed.
End Wire.

Section Waited.
Context `{RW : ResponseWriter W} (sent : W → bool) {L : ResponseWriterLaws W sent}.
Implicit Types (rw : streamer W) (w : W).

Lemma CommitHeaders_facts rw :
  rw_committed (CommitHeaders rw) = true ∧ rw_responseHeader (CommitHeaders rw) = rw_responseHeader rw ∧
  rw_StatusCode (CommitHeaders rw) = rw_StatusCode rw ∧ rw_piped (CommitHeaders rw) = rw_piped rw.
Proof. unfold CommitHeaders. by destruct (rw_committed rw) eqn:?. Qed.

(** The whole of the upstream, with a commit in the middle. *)
Lemma finish_waited defer_ retain w w1 code rw rest :
  waited defer_ retain w w1 code rw →
  let w' := rw_ResponseWriter (finish_upstream rest (CommitHeaders rw)) in
  w_WriteHeader 200 w' = serve_upstream (no_status rest) (w_WriteHeader code w1) ∧
  (informational code = false → w_WriteHeader 200 w' = w').
Proof.
  intros Hwait w'. pose proof (commit_waited sent _ _ _ _ _ _ Hwait) as Hw. destruct (CommitHeaders_facts rw) as (Hc & Hh & _).
  destruct (finish_committed sent rest (CommitHeaders rw) Hc) as (H1 & _ & H2); [by rewrite Hh, (wt_header _ _ _ _ _ _ Hwait)|].
  rewrite Hw in H1, H2. split; [exact H1|]. intros Hcode. by apply sent_WriteHeader, H2, WriteHeader_sent.
Qed.
End Waited.

Lemma waited_unsent defer_ retain (c w1 : client) code rw :
  waited defer_ retain c w1 code rw → cl_sent c = None → client_sent w1 = false.
Proof. intros Hwait Hc. destruct (wt_edits _ _ _ _ _ _ Hwait) as [f ->]. unfold client_sent. cbn. by rewrite Hc. Qed.

Lemma client_first code (c : client) :
  client_sent c = false → informational code = false → cl_sent (w_WriteHeader code c) = Some (code, cl_live c).
Proof.
  intros Hc Hcode. cbn. unfold client_WriteHeader. destruct (cl_sent c) eqn:E; [|by rewrite Hcode].
  unfold client_sent in Hc. by rewrite E in Hc.
Qed.

(** The fields a staging budget may change on the way to the client. *)
Definition budget_fields : list string :=
  [CacheHeader; "Trailer"; "Content-Length"; "Transfer-Encoding"]%string.

Lemma Set_other hd name value k : CanonicalHeaderKey name = name → k ≠ name → Set_ hd name value !! k = hd !! k.
Proof. intros Hn Hk. unfold Set_. rewrite Hn. by rewrite lookup_insert_ne. Qed.
Lemma Del_other hd name k : CanonicalHeaderKey name = name → k ≠ name → Del hd name !! k = hd !! k.
Proof. intros Hn Hk. unfold Del. rewrite Hn. by rewrite lookup_delete_ne. Qed.
Lemma Add_other hd name value k : CanonicalHeaderKey name = name → k ≠ name → Add_ hd name value !! k = hd !! k.
Proof. intros Hn Hk. unfold Add_. rewrite Hn. by rewrite lookup_insert_ne. Qed.

(** The commit of a fetched response. *)
Lemma commit_staged budget c w1 code rw req status admitted :
  waited budget budget c w1 code rw → cl_sent c = None → informational code = false →
  let rw' := commitStagingHeaders req status admitted rw in
  rw_committed rw' = true ∧ rw_responseHeader rw' = Some (cl_live w1) ∧ rw_StatusCode rw' = code ∧ rw_piped rw' = EmptyString ∧
  ∃ header, cl_sent (rw_ResponseWriter rw') = Some (code, header) ∧ (budget = false → header = cl_live w1) ∧
    (∀ name, name ∉ budget_fields → header !! name = cl_live w1 !! name) ∧
    cl_body (rw_ResponseWriter rw') = cl_body w1 ∧ cl_informational (rw_ResponseWriter rw') = cl_informational w1 ∧
    cl_accepts (rw_ResponseWriter rw') = cl_accepts w1.
Proof.
  intros [Hs Hh (Hd & Hr & Hcl & _ & Hp) Hc Hsent Hw] Hc0 Hcode. unfold commitStagingHeaders. rewrite Hd.
  assert (cl_sent w1 = None) as Hw1 by (by destruct Hsent as [f ->]).
  destruct budget; cbn [negb].
  - unfold CommitHeaders. cbn [rw_committed rw_responseHeader rw_StatusCode rw_piped rw_ResponseWriter rw_deferHeaders rw_clientHeader rw_retainHeader negb].
    rewrite Hc, Hh, Hs. cbn [negb default from_option]. split_and!; try done. destruct Hw as [Hw _].
    assert (cl_sent (rw_ResponseWriter rw) = None) as Hnone by (rewrite <- Hw1; exact (f_equal cl_sent Hw)).
    cbn. unfold client_WriteHeader. cbn. rewrite Hnone, Hcode. cbn. rewrite commit_header_eq. eexists. split; [done|]. split; [done|].
    split; [|split; [exact (f_equal cl_body Hw)|split; [exact (f_equal cl_informational Hw)|exact (f_equal cl_accepts Hw)]]].
    intros name Hn. assert (name ≠ CacheHeader ∧ name ≠ "Trailer" ∧ name ≠ "Content-Length" ∧ name ≠ "Transfer-Encoding")%string as (? & ? & ? & ?)
      by (unfold budget_fields in Hn; rewrite !elem_of_cons in Hn; tauto).
    repeat case_match; rewrite ?Del_other, ?Add_other, ?Set_other by done; done.
  - split_and!; try done. exists (cl_live w1). rewrite Hw. cbn. unfold client_WriteHeader. by rewrite Hw1, Hcode.
Qed.

Section Pass.
Context `{D : HttpDate, U : Unicode, P : UrlParser} (h : Handler).

(** The streamer when the upstream has finished. *)
Lemma pass_finished r u c rw rest admitted status budget :
  WaitHeaders u (rw_edit (λ h, Set_ h CacheHeader "MISS") (newResponseStreamer budget budget c)) = (rw, rest) →
  final_first u = true → cl_sent c = None →
  let o := serve_upstream u (client_edit (λ h, Set_ h CacheHeader "MISS") c) in
  let rw' := finish_upstream rest (commitStagingHeaders r status admitted rw) in
  ∃ code header header', cl_sent o = Some (code, header) ∧ rw_StatusCode rw = code ∧ rw_responseHeader rw = Some header ∧
    rw_committed rw' = true ∧ rw_StatusCode rw' = code ∧
    wire (rw_ResponseWriter rw') = (Some (code, header'), cl_body o, cl_informational o) ∧
    (budget = false → header' = header) ∧ (∀ name, name ∉ budget_fields → header' !! name = header !! name) ∧
    rw_piped rw' = written u (client_edit (λ h, Set_ h CacheHeader "MISS") c).
Proof.
  intros E Hu Hc o rw'. pose proof (fresh_edit client_sent _ _ _ (λ h, Set_ h CacheHeader "MISS") _ _ (fresh_new client_sent budget budget c)) as Hf.
  destruct (WaitHeaders_waited client_sent _ _ _ _ _ _ _ _ E Hf) as (w1 & code & Hwait & Hcode & Ho & Hwr). rewrite Hu in Hcode. cbn [negb] in Hcode.
  assert (client_sent (w_WriteHeader code w1) = true) as Hsent1 by by apply WriteHeader_sent.
  rewrite (serve_first_status client_sent), (serve_no_status client_sent) in Ho by done.
  rewrite (written_first_status client_sent), (written_no_status client_sent) in Hwr by done.
  destruct (commit_staged _ _ _ _ _ r status admitted Hwait Hc Hcode) as (Hc2 & Hh2 & Hs2 & Hp2 & header' & Hsent2 & Hb0 & Hoff & Hbody & Hinfo & Hacc).
  assert (cl_sent (w_WriteHeader code w1) = Some (code, cl_live w1)) as Hs1.
  { apply client_first; [|done]. by apply (waited_unsent _ _ _ _ _ _ Hwait). }
  destruct (finish_keeps rest (commitStagingHeaders r status admitted rw) Hc2 ltac:(by rewrite Hh2)) as (Hc3 & _ & Hs3).
  assert (rw_ResponseWriter rw' = serve_upstream rest (rw_ResponseWriter (commitStagingHeaders r status admitted rw))) as Hfin.
  { assert (client_sent (rw_ResponseWriter (commitStagingHeaders r status admitted rw)) = true) as Hs by (unfold client_sent; by rewrite Hsent2).
    destruct (finish_committed client_sent rest (commitStagingHeaders r status admitted rw) Hc2 ltac:(by rewrite Hh2)) as (H1 & _ & H3).
    rewrite (sent_WriteHeader (w_sent := client_sent)) in H1 by by apply H3. by rewrite <- (serve_no_status client_sent rest). }
  assert (cl_body (w_WriteHeader code w1) = cl_body w1 ∧ cl_informational (w_WriteHeader code w1) = cl_informational w1 ∧
    cl_accepts (w_WriteHeader code w1) = cl_accepts w1) as (Hb1 & Hi1 & Ha1).
  { destruct (wt_edits _ _ _ _ _ _ Hwait) as [f ->]. cbn. unfold client_WriteHeader. cbn. rewrite Hc, Hcode. by cbn. }
  destruct (serve_same_wire rest (rw_ResponseWriter (commitStagingHeaders r status admitted rw)) (w_WriteHeader code w1) _ _ _ Hsent2 Hs1)
    as [Hwire Hsame]; [by rewrite Hbody|by rewrite Hinfo|by rewrite Hacc|].
  exists code, (cl_live w1), header'. change o with (serve_upstream u (w_edit (λ h, Set_ h CacheHeader "MISS"%string) c)). rewrite Ho, Hfin, Hwire, Hsent2, Hsame. split_and!; try done.
  - by apply wt_status in Hwait.
  - by apply wt_header in Hwait.
  - unfold rw'. by rewrite Hs3.
  - change (client_edit ?f c) with (w_edit f c). unfold rw'. destruct (finish_committed client_sent rest (commitStagingHeaders r status admitted rw) Hc2 ltac:(by rewrite Hh2)) as (_ & -> & _).
    rewrite Hp2, Hwr. cbn [String.append]. rewrite (written_no_status client_sent) by (unfold client_sent; by rewrite Hsent2).
    apply (written_same_wire rest _ _ code _ _ Hsent2 Hs1); congruence.
Qed.

Lemma wire_edits status f (rw : streamer client) :
  rw_committed rw = true → wire (rw_ResponseWriter (finishStaging status (rw_edit f rw))) = wire (rw_ResponseWriter rw).
Proof.
  intros Hc. rewrite edit_committed by done. by destruct (finishStaging_committed status (rw_with_writer (client_edit f (rw_ResponseWriter rw)) rw) Hc) as [g ->].
Qed.

(** What [passUpstreamWithHandler] leaves. *)
Lemma pass_outcome n stage l r u t c c' effects :
  passUpstreamWithHandler h n stage l r u t c = (c', effects) → final_first u = true → cl_sent c = None →
  let o := serve_upstream u (client_edit (λ h, Set_ h CacheHeader "MISS") c) in
  ∃ code header header', cl_sent o = Some (code, header) ∧ wire c' = (Some (code, header'), cl_body o, cl_informational o) ∧
    (hasStagingBudget h = false → header' = header) ∧ (∀ name, name ∉ budget_fields → header' !! name = header !! name) ∧
    (effects = [Complete] ∨ ∃ piped,
      canStageResponse (at_maxAge n) (at_heuristic n) h (set_requestTime t (NewResourceBytes code EmptyString header)) r = true ∧
      stage_opens stage && stage_takes stage piped && stage_rewinds stage = true ∧
      effects = storeResource h l (set_requestTime t (NewResourceBytes code piped (receipt_fields n header t header))) r ∧
      piped = written u (client_edit (λ h, Set_ h CacheHeader "MISS") c)).
Proof.
  intros E Hu Hc o. unfold passUpstreamWithHandler, pass_stream in E. cbn [w_DeferStagingHeaders w_FinishStagingHeaders client_writer] in E.
  replace (if hasStagingBudget h then id c else c) with c in E by by destruct (hasStagingBudget h).
  assert (∀ x : client, (if hasStagingBudget h then id else id) x = x) as Hid by by destruct (hasStagingBudget h).
  destruct (WaitHeaders _ _) as [rw rest] eqn:Ew.
  pose proof (λ admitted status, pass_finished (cr_Request r) u c rw rest admitted status _ Ew Hu Hc) as Hfin. fold o in Hfin.
  destruct (Hfin false "SKIP"%string) as (code & header & header' & Ho & Hst & Hh & Hc1 & _ & Hwire1 & Hs1 & Hf1 & _).
  rewrite Hh, Hst in E. cbn [default from_option] in E. destruct (negb (canStageResponse _ _ _ _ _)) eqn:Ecan; rewrite ?Hid in E.
  - injection E as <- <-. exists code, header, header'. rewrite wire_edits by done. split_and!; try done. by left.
  - apply negb_false_iff in Ecan. clear header' Hc1 Hwire1 Hs1 Hf1.
    destruct (Hfin (stage_opens stage) "MISS"%string) as (code2 & header2 & header' & Ho2 & Hst2 & _ & Hc1 & Hst1 & Hwire1 & Hs1 & Hf1 & Hpiped).
    rewrite Ho in Ho2. injection Ho2 as <- <-. set (rw' := finish_upstream rest _) in *.
    exists code, header, header'. destruct (negb (_ && _)) eqn:Estage; rewrite ?Hid in E.
    + injection E as <- <-. rewrite wire_edits by done. split_and!; try done. by left.
    + apply negb_false_iff in Estage. destruct (finishStaging_committed "ADMITTED" rw' Hc1) as [g Hg]. rewrite Hg in E.
      rewrite edit_committed in E by done. cbn in E. rewrite Hst1 in E. injection E as <- <-. split_and!; try done.
      right. exists (rw_piped rw'). split; [done|]. split; [|by split]. rewrite <- Estage. by destruct (stage_opens stage), (rw_broken rw'), (stage_takes stage _).
Qed.
Lemma can_stage_storeable n1 n3 res r : canStageResponse n1 n3 h res r = true → storeable (r_statusCode res) = true.
Proof.
  unfold canStageResponse, isCacheable, allowsResponseStorage. intros [_ Hc]%andb_true_iff. revert Hc.
  destruct (cacheControl res); [|done]. destruct (storeable (r_statusCode res)); [done|]. by repeat case_match.
Qed.

Lemma receipt_other n header t hd name :
  name ∉ ["Age"; ProxyDateHeader]%string → receipt_fields n header t hd !! name = hd !! name.
Proof.
  intros Hn. assert (name ≠ "Age" ∧ name ≠ ProxyDateHeader)%string as [H1 H2] by (rewrite !elem_of_cons in Hn; tauto).
  unfold receipt_fields. cbv zeta. rewrite Set_other by done. case_match; [by rewrite Set_other|done].
Qed.
End Pass.

Lemma storeable_body status : storeable status = true → bodyAllowedForStatus status = true.
Proof. unfold storeable. repeat case_match; done. Qed.

Lemma foldl_Del_either names hd k : foldl Del hd names !! k = hd !! k ∨ foldl Del hd names !! k = None.
Proof.
  revert hd. induction names as [|name names IH]; intros hd; [by left|]. cbn. destruct (IH (Del hd name)) as [->| ->]; [|by right].
  unfold Del. destruct (decide (CanonicalHeaderKey name = k)) as [->|Hne]; [right; apply lookup_delete_eq|left; by apply lookup_delete_ne].
Qed.

Lemma private_other res k :
  r_header (RemovePrivateHeaders res) !! k = r_header res !! k ∨ r_header (RemovePrivateHeaders res) !! k = None.
Proof. apply foldl_Del_either. Qed.

(** An informational first status is not one that is stored. *)
Lemma informational_not_stored `{D : HttpDate, U : Unicode, P : UrlParser} h n stage l r u t (c c' : client) effects :
  passUpstreamWithHandler h n stage l r u t c = (c', effects) → final_first u = false → effects = [Complete].
Proof.
  intros E Hu. unfold passUpstreamWithHandler, pass_stream in E. cbn [w_DeferStagingHeaders client_writer] in E.
  replace (if hasStagingBudget h then id c else c) with c in E by by destruct (hasStagingBudget h).
  destruct (WaitHeaders _ _) as [rw rest] eqn:Ew.
  pose proof (fresh_edit client_sent _ _ _ (λ h, Set_ h CacheHeader "MISS") _ _ (fresh_new client_sent (hasStagingBudget h) (hasStagingBudget h) c)) as Hf.
  destruct (WaitHeaders_waited client_sent _ _ _ _ _ _ _ _ Ew Hf) as (w1 & code & Hwait & Hcode & _). rewrite Hu in Hcode. cbn [negb] in Hcode.
  pose proof (wt_status _ _ _ _ _ _ Hwait) as Hst. destruct (negb (canStageResponse _ _ _ _ _)) eqn:Ecan; [by injection E|].
  apply negb_false_iff, can_stage_storeable, storeable_body in Ecan. cbn [r_statusCode set_requestTime NewResourceBytes] in Ecan.
  rewrite Hst in Ecan. unfold informational in Hcode. apply andb_true_iff in Hcode as [Hcode _]. unfold bodyAllowedForStatus in Ecan. by rewrite Hcode in Ecan.
Qed.

(** ** Theorems *)

Section Theorems.
Context `{D : HttpDate, U : Unicode, P : UrlParser}.
Context (h : Handler) (requestKey : option (Request → option Key)).

(** C26: [pipeUpstream] is transparent but for the statuses after the first.
    Whatever the method, when the server ends the response the client is where
    the upstream alone would have left it: same status, headers, trailers, body
    and answers to its writes, if the upstream had sent only its first status.
    For an upstream whose first status is a final one that is the upstream as it
    is, and it holds before the server ends the response. *)
Theorem piped_is_transparent `{RW : ResponseWriter W} (sent : W → bool) `{L : !ResponseWriterLaws W sent} r u (w : W) :
  w_WriteHeader 200 (pipeUpstream requestKey r u w).1 = serve_upstream (first_status u) w ∧
  (final_first u = true → (pipeUpstream requestKey r u w).1 = serve_upstream u w).
Proof.
  unfold pipeUpstream. destruct (WaitHeaders _ _) as [rw rest] eqn:E.
  destruct (WaitHeaders_waited sent _ _ _ _ _ _ _ _ E (fresh_new sent _ _ _)) as (w1 & code & Hwait & Hcode & Ho & _).
  destruct (finish_waited sent _ _ _ _ _ _ rest Hwait) as [Hfin Hsame].
  assert (∀ w', w_WriteHeader 200 w' = serve_upstream (no_status rest) (w_WriteHeader code w1) →
    (informational code = false → w_WriteHeader 200 w' = w') →
    w_WriteHeader 200 w' = serve_upstream (first_status u) w ∧ (final_first u = true → w' = serve_upstream u w)) as Hdone.
  { intros w' H1 H2. split; [congruence|]. intros Hu. rewrite <- H2 by (by rewrite Hcode, Hu). rewrite H1, <- Ho. by apply (serve_first_status sent). }
  destruct (isStateChanging r) eqn:Er; cbn [fst]; [by apply Hdone|].
  rewrite CommitHeaders_committed in Hfin, Hsame by (by rewrite (wt_commit _ _ _ _ _ _ Hwait)). destruct (_ <>?s _); by apply Hdone.
Qed.

(** C13: a mutation is invalidated before its client can know of it.  The
    first status decides.  When it is a final one, the client ends with it, and
    if it is a success or a redirection the keys its headers name are
    invalidated, at a moment when the client has been sent nothing; any other
    final status invalidates nothing.  Nor does a mutation that is answered an
    informational status first, whatever final status follows. *)
Theorem mutation_invalidates_first r u (c : client) :
  isStateChanging r = true → cl_sent c = None →
  let '(c', effects) := pipeUpstream requestKey r u c in
  (final_first u = true → ∃ status header, cl_sent c' = Some (status, header) ∧
    let keys := handler_invalidationKeys requestKey (NewResourceBytes status EmptyString header) r in
    effects = (if (200 <=? status) && (status <? 400) && bool_decide (keys ≠ []) then [Invalidate keys c] else [])) ∧
  (final_first u = false → effects = []).
Proof.
  intros Hr Hc. unfold pipeUpstream. rewrite Hr. destruct (WaitHeaders _ _) as [rw rest] eqn:E.
  destruct (WaitHeaders_waited client_sent _ _ _ _ _ _ _ _ E (fresh_new client_sent _ _ _)) as (w1 & code & Hwait & Hcode & _).
  pose proof (wt_status _ _ _ _ _ _ Hwait) as Hst. unfold IsNonErrorStatus. cbn [r_statusCode NewResourceBytes]. split; intros Hu; rewrite Hu in Hcode.
  - cbn [negb] in Hcode. assert (cl_sent (w_WriteHeader code w1) = Some (code, cl_live w1)) as Hs.
    { apply client_first; [|done]. by apply (waited_unsent _ _ _ _ _ _ Hwait). }
    exists code, (cl_live w1). split.
    + destruct (finish_waited client_sent _ _ _ _ _ _ rest Hwait) as [Hfin Hsame]. rewrite Hsame in Hfin by done.
      rewrite Hfin, (serve_no_status client_sent) by by apply WriteHeader_sent. by apply serve_sent.
    + destruct Hwait as [_ -> _ _ _ [_ ->]]; [|done]. rewrite Hst. cbn [default from_option]. unfold invalidateResource.
      destruct (_ && _); [|done]. by destruct (handler_invalidationKeys _ _ _).
  - rewrite Hst. unfold informational in Hcode. cbn [negb] in Hcode. apply andb_true_iff in Hcode as [[_ Hcode%Z.leb_le]%andb_true_iff _].
    destruct (Z.leb_spec 200 code); [lia|done].
Qed.

(** C27: a fetched response whose first status is a final one reaches the
    client as the origin sent it, whether it is stored or not and whatever
    writes its connection accepts: the status, the body and the informational
    statuses of the upstream alone, and its headers.  A staging budget changes
    [X-Cache] and the framing fields, nothing else. *)
Theorem fetched_is_delivered n stage l r u t (c : client) :
  final_first u = true → cl_sent c = None →
  let c' := (passUpstreamWithHandler h n stage l r u t c).1 in
  let o := serve_upstream u (client_edit (λ h, Set_ h CacheHeader "MISS") c) in
  ∃ status header header', cl_sent o = Some (status, header) ∧ cl_sent c' = Some (status, header') ∧
    cl_body c' = cl_body o ∧ cl_informational c' = cl_informational o ∧ (hasStagingBudget h = false → header' = header) ∧
    (∀ name, name ∉ budget_fields → header' !! name = header !! name).
Proof.
  intros Hu Hc c' o. destruct (passUpstreamWithHandler h n stage l r u t c) as [c2 effects] eqn:E.
  destruct (pass_outcome h _ _ _ _ _ _ _ _ _ E Hu Hc) as (code & header & header' & Ho & Hwire & H1 & H2 & _). exists code, header, header'.
  pose proof (f_equal (λ x, x.1.1) Hwire : cl_sent _ = _). pose proof (f_equal (λ x, x.1.2) Hwire : cl_body _ = _).
  by pose proof (f_equal (λ x, x.2) Hwire : cl_informational _ = _).
Qed.

(** C6: what is stored is what the origin sent while it answered the client.
    A response is published at most once, and then it is one the policy allows
    to store: its body is every byte the origin wrote, which is the body the
    client received if its connection accepted every write; its status and
    headers are those the origin sent (receipt fields added; the fields named
    by [private] dropped by a shared cache), under the key of the request. *)
Theorem stored_is_delivered n stage l r u t (c : client) res requested keys :
  let '(c', effects) := passUpstreamWithHandler h n stage l r u t c in
  let c0 := client_edit (λ h, Set_ h CacheHeader "MISS") c in
  let o := serve_upstream u c0 in
  cl_sent c = None → cl_body c = EmptyString → Publish res requested keys ∈ effects →
  ∃ header, cl_sent o = Some (r_statusCode res, header) ∧ storeable (r_statusCode res) = true ∧
    canStageResponse (at_maxAge n) (at_heuristic n) h (set_requestTime t (NewResourceBytes (r_statusCode res) EmptyString header)) r = true ∧
    r_body res = written u c0 ∧ cl_body c' = cl_body o ∧ ((∀ a b, cl_accepts c a b = true) → r_body res = cl_body c') ∧ effects = [Publish res requested keys; Complete] ∧
    requested = cr_Time r ∧ head keys = Some (Key_String (cr_Key r)) ∧ closing l = false ∧
    ∀ name, name ∉ ["Age"; ProxyDateHeader]%string →
      r_header res !! name = header !! name ∨ Shared h = true ∧ r_header res !! name = None.
Proof.
  destruct (passUpstreamWithHandler h n stage l r u t c) as [c2 effects] eqn:E. intros c0 o Hc Hempty Hin.
  assert (final_first u = true) as Hu.
  { apply not_false_iff_true. intros Hu. rewrite (informational_not_stored h _ _ _ _ _ _ _ _ _ E Hu) in Hin. by apply list_elem_of_singleton in Hin. }
  destruct (pass_outcome h _ _ _ _ _ _ _ _ _ E Hu Hc) as (code & header & header' & Ho & Hwire & _ & _ & Heff). fold o in Ho, Hwire, Heff.
  destruct Heff as [->|(piped & Hcan & _ & -> & Hpiped)]; [by apply list_elem_of_singleton in Hin|].
  pose proof (f_equal (λ x, x.1.2) Hwire : cl_body _ = _) as Hbody. pose proof (can_stage_storeable _ _ _ _ _ Hcan) as Hst. cbn in Hst.
  fold c0 in Hpiped. unfold storeResource in *. destruct (closing l) eqn:El.
  { unfold beginWrite in Hin. rewrite El in Hin. by apply list_elem_of_singleton in Hin. }
  unfold beginWrite in Hin |- *. rewrite El in Hin |- *. cbn [fst negb] in Hin |- *.
  apply elem_of_cons in Hin as [Hin|Hin]; [|by apply list_elem_of_singleton in Hin]. injection Hin as -> -> ->.
  exists header. set (res0 := set_requestTime t _). assert (r_statusCode (if Shared h then RemovePrivateHeaders res0 else res0) = code) as -> by by destruct (Shared h).
  split; [done|]. split; [done|]. split; [done|]. assert (r_body (if Shared h then RemovePrivateHeaders res0 else res0) = written u c0) as -> by by destruct (Shared h).
  split; [done|]. split; [done|]. split.
  { intros Hacc. rewrite Hbody. unfold o. rewrite written_accepted; [cbn; by rewrite Hempty|exact Hacc|].
    intros status hd Hsent. fold o in Hsent. rewrite Ho in Hsent. injection Hsent as <- <-. by apply storeable_body. }
  split; [done|]. split; [done|].
  split; [by destruct (nonempty _)|]. split; [done|]. intros name Hname.
  assert (r_header res0 !! name = header !! name) as <- by by apply receipt_other.
  destruct (Shared h); [|by left]. destruct (private_other res0 name) as [->| ->]; [by left|by right].
Qed.
End Theorems.

(** ** Witnesses *)

#[local] Existing Instance stamp_date.
#[local] Existing Instance latin1_print.
#[local] Existing Instance http_parser.

Definition private_cache : Handler := {| Shared := false; hasStagingBudget := false |}.
Definition budgeted_cache : Handler := {| Shared := true; hasStagingBudget := true |}.
Definition roomy : staging := {| stage_opens := true; stage_takes _ := true; stage_rewinds := true |}.
Definition no_shutdown : lifecycle := {| closing := false; writes := 0 |}.
Definition one_instant : pass_clock :=
  {| at_maxAge := example_now; at_heuristic := example_now; at_date := example_now; at_response := example_now; at_age := example_now |}.
Definition connected : client := new_client (λ _ _, true).
Definition get_item : cacheRequest := as_cache_request (get_of (example_url "/item" "")).
Definition post_item : cacheRequest := as_cache_request (post_to (example_url "/item" "")).

(** An origin: fields, a status, two writes. *)
Definition origin_of (cc : string) (status : Z) : script :=
  Edit (λ h, Set_ h "Cache-Control" cc) (Status status (Body "hel" (λ _, Body "lo" (λ _, Return)))).

Lemma piped_is_transparent_witness :
  cl_sent (pipeUpstream None get_item (origin_of "no-store" 404) connected).1 =
    Some (404, {[ "Cache-Control" := ["no-store"] ]}%string).
Proof. rewrite (proj2 (piped_is_transparent None client_sent get_item (origin_of "no-store" 404) connected) eq_refl). vm_compute. reflexivity. Defined.

Definition item_keys : list string := ["GET:/item"; "HEAD:/item"]%string.

Lemma mutation_invalidates_first_witness :
  (pipeUpstream None post_item (origin_of "no-store" 200) connected).2 = [Invalidate item_keys connected].
Proof.
  pose proof (mutation_invalidates_first None post_item (origin_of "no-store" 200) connected eq_refl eq_refl) as Hm.
  destruct (pipeUpstream None post_item (origin_of "no-store" 200) connected) as [c' effects] eqn:E.
  destruct Hm as [Hm _]. destruct (Hm eq_refl) as (status & header & Hs & Heff). assert (cl_sent c' = Some (200, {[ "Cache-Control" := ["no-store"] ]}%string)) as Hs'.
  { change c' with (c', effects).1. rewrite <- E. vm_compute. reflexivity. }
  rewrite Hs in Hs'. injection Hs' as Hst Hh. cbn [snd]. rewrite Heff, Hst, Hh. vm_compute. reflexivity.
Defined.

Lemma fetched_is_delivered_witness :
  let c' := (passUpstreamWithHandler budgeted_cache one_instant roomy no_shutdown get_item (origin_of "max-age=60" 200) example_now connected).1 in
  cl_body c' = "hello"%string ∧ ∃ header, cl_sent c' = Some (200, header) ∧ header !! "Cache-Control"%string = Some ["max-age=60"]%string.
Proof.
  destruct (fetched_is_delivered budgeted_cache one_instant roomy no_shutdown get_item (origin_of "max-age=60" 200) example_now connected
    eq_refl eq_refl) as (status & header & header' & Ho & Hs & Hb & _ & _ & Hoff).
  assert (∀ o, o = Some (status, header) → o = Some (200, {[ CacheHeader := ["MISS"]; "Cache-Control" := ["max-age=60"] ]}%string) →
    status = 200 ∧ header !! "Cache-Control"%string = Some ["max-age=60"]%string) as Hknown by (intros o -> [= -> ->]; by split).
  destruct (Hknown _ Ho ltac:(vm_compute; reflexivity)) as [Hst Hh].
  split; [rewrite Hb; vm_compute; reflexivity|]. exists header'. rewrite Hs, Hst. split; [reflexivity|].
  rewrite Hoff; [exact Hh|]. unfold budget_fields. rewrite !elem_of_cons, elem_of_nil. intuition discriminate.
Defined.

(** The run of a stored fetch, and what it publishes. *)
Definition stored_run :=
  passUpstreamWithHandler private_cache one_instant roomy no_shutdown get_item (origin_of "max-age=60" 200) example_now connected.
Definition published : Resource := match stored_run.2 with Publish res _ _ :: _ => res | _ => NewResourceBytes 0 EmptyString ∅ end.

Lemma stored_is_delivered_witness :
  Publish published 0 ["GET:/item"]%string ∈ stored_run.2 ∧ r_body published = cl_body stored_run.1.
Proof.
  assert (Publish published 0 ["GET:/item"]%string ∈ stored_run.2) as Hin by (vm_compute; left).
  split; [exact Hin|].
  pose proof (stored_is_delivered private_cache one_instant roomy no_shutdown get_item (origin_of "max-age=60" 200) example_now connected
    published 0 ["GET:/item"]%string) as Ht.
  fold stored_run in Ht. rewrite (surjective_pairing stored_run) in Ht.
  destruct (Ht eq_refl eq_refl Hin) as (header & _ & _ & _ & _ & _ & Hb & _). exact (Hb (λ _ _, eq_refl)).
Defined.

(** An informational status takes the place of the final one: the client of a
    404 is sent 200, and a mutation answered 204 invalidates nothing. *)
Example early_hints_lose_the_status :
  let u := Status 103 (Status 404 (Body "gone" (λ _, Return))) in
  cl_sent (serve_upstream u connected) = Some (404, ∅) ∧ cl_sent (pipeUpstream None get_item u connected).1 = Some (200, ∅) ∧
  (pipeUpstream None post_item (Status 204 Return) connected).2 = [Invalidate item_keys connected] ∧
  (pipeUpstream None post_item (Status 103 (Status 204 Return)) connected).2 = [].
Proof. split_and!; vm_compute; reflexivity. Qed.

(** An upstream that stops when the client is gone ends the pipe like one that
    is done: what it wrote so far is published as the response. *)
Definition stops_early : script :=
  Edit (λ h, Set_ h "Cache-Control" "max-age=60")
    (Body "hel" (λ ok, if ok then Body "lo " (λ ok, if ok then Body "world" (λ _, Return) else Return) else Return)).

Example truncated_body_is_published :
  let leaves := new_client (λ sent _, negb (nonempty sent)) in
  let run := passUpstreamWithHandler private_cache one_instant roomy no_shutdown get_item stops_early example_now leaves in
  match run.2 with Publish res _ _ :: _ => r_body res = "hello "%string | _ => False end ∧
  cl_body (serve_upstream stops_early connected) = "hello world"%string.
Proof. split; vm_compute; reflexivity. Qed.
