(* ===== verification/Preconditions.v ===== *)
(** * Client preconditions ([client_preconditions.go], [handler.go], [conditional_response.go])

    The conditions of a request as [http.ServeContent] evaluates them, the
    writer that applies them to a response which is stored whole, and the two
    ways a response meets them: a stored one in [serveResource], a validation
    response in [deliverValidationExchange].  The sniffed content type and a
    multipart body of several ranges are arguments. *)

From Stdlib Require Import SpecFloat.
From S2P Require Import Prelude GoStrings GoTime GoQuote GoHttp GoUrl CacheControl Keys Resource Policy Validator Publication Program Lookup Serve Origin Flights Streamer.
Import Headers.

(** ** [http.ServeContent] *)

(** [textproto.TrimString] *)
Definition is_text_space (c : ascii) : bool := match byte_val c with 9 | 10 | 13 | 32 => true | _ => false end.
Definition TrimString : string → string := trim is_text_space.

Definition is_etag_byte (c : ascii) : bool :=
  (byte_val c =? 33) || ((35 <=? byte_val c) && (byte_val c <=? 126)) || (128 <=? byte_val c).

(** The opaque part of an entity tag, after its opening quote. *)
Definition scan_opaque (s : string) : option (string * string) :=
  match drop_while is_etag_byte s with
  | String c remain => if Ascii.eqb c dquote then Some (take_while is_etag_byte s +:+ str1 dquote, remain)%string else None
  | EmptyString => None
  end.

(** [scanETag]: [None] when no entity tag leads the string. *)
Definition scanETag (s : string) : option (string * string) :=
  let s := TrimString s in
  let '(weak, s) := if HasPrefix s "W/" then ("W/"%string, String.substring 2 (String.length s) s) else (EmptyString, s) in
  match s with
  | String c s =>
      if Ascii.eqb c dquote then (λ '(opaque, remain), (weak +:+ String dquote opaque, remain)%string) <$> scan_opaque s else None
  | EmptyString => None
  end.

Definition strip_weak (etag : string) : string :=
  if HasPrefix etag "W/" then String.substring 2 (String.length etag) etag else etag.
Definition etagStrongMatch (a b : string) : bool := (a =?s b) && HasPrefix a (str1 dquote).
Definition etagWeakMatch (a b : string) : bool := strip_weak a =?s strip_weak b.

(** The loop of [checkIfMatch] and [checkIfNoneMatch] over a list of entity
    tags: [true] when one matches or the list is a star. *)
Fixpoint etag_loop (fuel : nat) (matches : string → bool) (s : string) : bool :=
  match fuel with
  | O => false
  | S fuel =>
      match TrimString s with
      | EmptyString => false
      | String "," s => etag_loop fuel matches s
      | String "*" _ => true
      | s =>
          match scanETag s with
          | None => false
          | Some (etag, remain) => if matches etag then true else etag_loop fuel matches remain
          end
      end%char
  end.
Definition etag_listed (matches : string → bool) (s : string) : bool := etag_loop (S (String.length s)) matches s.

Inductive condResult := condNone | condTrue | condFalse.
Definition cond (b : bool) : condResult := if b then condTrue else condFalse.

(** [unixEpochTime] on the scale of the model *)
Definition unixEpochTime : Time := 62135596800 * second.
Definition isZeroTime (t : Time) : bool := IsZero t || (t =? unixEpochTime).
Definition truncate_second (t : Time) : Time := t - t mod second.

Section Conditions.
Context `{D : HttpDate}.

Definition checkIfMatch (hd req : Header) : condResult :=
  let im := Get req "If-Match" in
  if negb (nonempty im) then condNone else cond (etag_listed (λ etag, etagStrongMatch etag (Get hd "Etag")) im).

Definition checkIfUnmodifiedSince (req : Header) (modtime : Time) : condResult :=
  let ius := Get req "If-Unmodified-Since" in
  if negb (nonempty ius) || isZeroTime modtime then condNone
  else match ParseTime ius with
       | None => condNone
       | Some t => cond (truncate_second modtime <=? t)
       end.

Definition checkIfNoneMatch (hd req : Header) : condResult :=
  let inm := Get req "If-None-Match" in
  if negb (nonempty inm) then condNone else cond (negb (etag_listed (λ etag, etagWeakMatch etag (Get hd "Etag")) inm)).

Definition checkIfModifiedSince (method : string) (req : Header) (modtime : Time) : condResult :=
  let ims := Get req "If-Modified-Since" in
  if ((method <>?s "GET") && (method <>?s "HEAD")) || negb (nonempty ims) || isZeroTime modtime then condNone
  else match ParseTime ims with
       | None => condNone
       | Some t => cond (negb (truncate_second modtime <=? t))
       end.

Definition checkIfRange (method : string) (hd req : Header) (modtime : Time) : condResult :=
  let ir := Get req "If-Range" in
  if ((method <>?s "GET") && (method <>?s "HEAD")) || negb (nonempty ir) then condNone
  else match scanETag ir with
       | Some (etag, _) => cond (etagStrongMatch etag (Get hd "Etag"))
       | None =>
           if IsZero modtime then condFalse
           else match ParseTime ir with
                | None => condFalse
                | Some t => cond (t / second =? modtime / second)
                end
       end.

(** [setLastModified] *)
Definition setLastModified (hd : Header) (modtime : Time) : Header :=
  if isZeroTime modtime then hd else Set_ hd "Last-Modified" (FormatTime modtime).

(** The header changes of [writeNotModified]. *)
Definition notModifiedHeader (hd : Header) : Header :=
  let hd := delete "Content-Type"%string (delete "Content-Length"%string (delete "Content-Encoding"%string hd)) in
  if nonempty (Get hd "Etag") then delete "Last-Modified"%string hd else hd.

(** [checkPreconditions]: the status that answers the request, or the range
    that remains. *)
Definition checkPreconditions (method : string) (hd req : Header) (modtime : Time) : Z + string :=
  let ch := match checkIfMatch hd req with condNone => checkIfUnmodifiedSince req modtime | ch => ch end in
  match ch with
  | condFalse => inl 412
  | _ =>
      let not_modified :=
        match checkIfNoneMatch hd req with
        | condFalse => Some (if (method =?s "GET") || (method =?s "HEAD") then 304 else 412)
        | condNone => match checkIfModifiedSince method req modtime with condFalse => Some 304 | _ => None end
        | condTrue => None
        end in
      match not_modified with
      | Some status => inl status
      | None =>
          let range := Get req "Range" in
          inr (if nonempty range && match checkIfRange method hd req modtime with condFalse => true | _ => false end
               then EmptyString else range)
      end
  end.

(** The header that goes with the status. *)
Definition conditionHeader (status : Z) (hd : Header) : Header := if status =? 304 then notModifiedHeader hd else hd.
End Conditions.

(** The byte ranges of [parseRange]: starts and lengths; [None] is an invalid
    range, [Some None] no overlap. *)
Definition Cut (s : string) (sep : ascii) : option (string * string) :=
  match drop_while (λ c, negb (Ascii.eqb c sep)) s with
  | String _ after => Some (take_while (λ c, negb (Ascii.eqb c sep)) s, after)
  | EmptyString => None
  end.

Definition parse_one_range (size : Z) (start end_ : string) : option (option (Z * Z)) :=
  if negb (nonempty start) then
    if negb (nonempty end_) || HasPrefix end_ "-" then None
    else match ParseInt end_ with
         | Some i => if i <? 0 then None else let i := Z.min i size in Some (Some (size - i, i))
         | None => None
         end
  else
    match ParseInt start with
    | Some i =>
        if i <? 0 then None
        else if size <=? i then Some None
        else if negb (nonempty end_) then Some (Some (i, size - i))
        else match ParseInt end_ with
             | Some j => if j <? i then None else Some (Some (i, Z.min j (size - 1) - i + 1))
             | None => None
             end
    | None => None
    end.

Fixpoint parse_ranges (size : Z) (parts : list string) : option (list (Z * Z) * bool) :=
  match parts with
  | [] => Some ([], false)
  | ra :: parts =>
      let ra := TrimString ra in
      if negb (nonempty ra) then parse_ranges size parts
      else match Cut ra "-" with
           | None => None
           | Some (start, end_) =>
               match parse_one_range size (TrimString start) (TrimString end_) with
               | None => None
               | Some r =>
                   match parse_ranges size parts with
                   | None => None
                   | Some (ranges, noOverlap) =>
                       Some match r with Some r => (r :: ranges, noOverlap) | None => (ranges, true) end
                   end
               end
           end
  end.

Inductive range_result := Ranges (ranges : list (Z * Z)) | NoOverlap | InvalidRange.

Definition parseRange (s : string) (size : Z) : range_result :=
  if negb (nonempty s) then Ranges []
  else if negb (HasPrefix s "bytes=") then InvalidRange
  else match parse_ranges size (Split "," (String.substring 6 (String.length s) s)) with
       | None => InvalidRange
       | Some ([], true) => NoOverlap
       | Some (ranges, _) => Ranges ranges
       end.

Definition contentRange (r : Z * Z) (size : Z) : string :=
  ("bytes " +:+ Itoa (fst r) +:+ "-" +:+ Itoa (fst r + snd r - 1) +:+ "/" +:+ Itoa size)%string.

Definition sumRangesSize (ranges : list (Z * Z)) : Z := foldr (λ r n, snd r + n) 0 ranges.

(** What the library decides by itself: the sniffed type of a body, and the
    content type and body of several ranges. *)
Class ContentLibrary := {
  DetectContentType : string → string;
  multipart : list (Z * Z) → string → string * string;
}.

Section Serve.
Context {W : Type} `{!ResponseWriter W} `{D : HttpDate, CL : ContentLibrary}.
Implicit Types w : W.

Definition w_body (body : string) w : W := if nonempty body then (w_Write body w).2 else w.

(** [http.serveError] and [http.Error] *)
Definition error_fields (h : Header) : Header :=
  Set_ (Set_ (Del h "Content-Length") "Content-Type" "text/plain; charset=utf-8") "X-Content-Type-Options" "nosniff".
Definition http_Error (msg : string) (code : Z) w : W :=
  w_body (msg +:+ str1 lf)%string (w_WriteHeader code (w_edit error_fields w)).
Definition serveError (msg : string) (code : Z) w : W :=
  http_Error msg code (w_edit (λ h, Del (Del (Del (Del h "Cache-Control") "Content-Encoding") "Etag") "Last-Modified") w).

(** [http.ServeContent] of a body in memory, with an empty name *)
Definition ServeContent (req : Request) (modtime : Time) (content : string) w : W :=
  let w := w_edit (λ h, setLastModified h modtime) w in
  match checkPreconditions (req_Method req) (w_Header w) (req_Header req) modtime with
  | inl status => w_WriteHeader status (w_edit (conditionHeader status) w)
  | inr rangeReq =>
      let w := match w_Header w !! "Content-Type"%string with
               | None => w_edit (λ h, Set_ h "Content-Type" (DetectContentType content)) w
               | Some _ => w
               end in
      let size := str_len content in
      match (match parseRange rangeReq size with NoOverlap => if size =? 0 then Ranges [] else NoOverlap | r => r end) with
      | InvalidRange => serveError "invalid range" 416 w
      | NoOverlap => serveError "invalid range: failed to overlap" 416 (w_edit (λ h, Set_ h "Content-Range" ("bytes */" +:+ Itoa size)%string) w)
      | Ranges ranges =>
          let ranges := if size <? sumRangesSize ranges then [] else ranges in
          let '(code, w, body) :=
            match ranges with
            | [] => (200, w, content)
            | [ra] => (206, w_edit (λ h, Set_ h "Content-Range" (contentRange ra size)) w,
                       String.substring (Z.to_nat (fst ra)) (Z.to_nat (snd ra)) content)
            | _ => let '(ctype, body) := multipart ranges content in (206, w_edit (λ h, Set_ h "Content-Type" ctype) w, body)
            end in
          let w := w_edit (λ h, Set_ h "Accept-Ranges" "bytes") w in
          let w := if (0 <? Z.of_nat (length ranges)) || negb (nonempty (Get (w_Header w) "Content-Encoding"))
                   then w_edit (λ h, Set_ h "Content-Length" (Itoa (str_len body))) w else w in
          let w := w_WriteHeader code w in
          if req_Method req =?s "HEAD" then w else w_body body w
      end
  end.
End Serve.

(** ** [clientPreconditionWriter] *)

(** [type clientPreconditionWriter struct]; [pw_pending] is [pendingStatus]
    with [pendingHeader], absent while [pendingStatus] is 0. *)
Record preconditioned (W : Type) := {
  pw_ResponseWriter : W;
  pw_req : Request;
  pw_header : Header;
  pw_suppress : bool;
  pw_deferStaging : bool;
  pw_pending : option (Z * Header);
}.
Arguments pw_ResponseWriter {W}.
Arguments pw_req {W}.
Arguments pw_header {W}.
Arguments pw_suppress {W}.
Arguments pw_deferStaging {W}.
Arguments pw_pending {W}.

Section Preconditioned.
Context {W : Type} `{!ResponseWriter W} `{D : HttpDate}.
Implicit Types (w : W) (pw : preconditioned W).

(** [newClientPreconditionWriter]: the writer itself when the request has no
    condition. *)
Definition newClientPreconditionWriter w (req : Request) : W + preconditioned W :=
  let h := req_Header req in
  if negb (nonempty (Get h "If-None-Match")) && negb (nonempty (Get h "If-Modified-Since")) &&
     negb (nonempty (Get h "If-Match")) && negb (nonempty (Get h "If-Unmodified-Since")) then inl w
  else inr {| pw_ResponseWriter := w; pw_req := req; pw_header := w_Header w; pw_suppress := false; pw_deferStaging := false;
              pw_pending := None |}.

Definition pw_with (w : W) pw : preconditioned W :=
  {| pw_ResponseWriter := w; pw_req := pw_req pw; pw_header := pw_header pw; pw_suppress := pw_suppress pw;
     pw_deferStaging := pw_deferStaging pw; pw_pending := pw_pending pw |}.

Definition pw_edit (f : Header → Header) pw : preconditioned W :=
  {| pw_ResponseWriter := pw_ResponseWriter pw; pw_req := pw_req pw; pw_header := f (pw_header pw); pw_suppress := pw_suppress pw;
     pw_deferStaging := pw_deferStaging pw; pw_pending := pw_pending pw |}.

(** The probe: [ServeContent] of nothing, without [Range]; the status and the
    header when a precondition answers. *)
Definition probe (req : Request) (header : Header) : option (Z * Header) :=
  let modified := default zero_time (ParseTime (Get header "Last-Modified")) in
  let header := setLastModified header modified in
  match checkPreconditions (req_Method req) header (Del (req_Header req) "Range") modified with
  | inl status => Some (status, conditionHeader status header)
  | inr _ => None
  end.

(** [clientPreconditionWriter.commitHeader] *)
Definition commitHeader (status : Z) (header : Header) w : W := w_WriteHeader status (w_edit (λ _, header) w).

(** [clientPreconditionWriter.WriteHeader] *)
Definition pw_WriteHeader (status : Z) pw : preconditioned W :=
  let '(status, header, suppress) :=
    match (if (200 <=? status) && (status <? 300) then probe (pw_req pw) (pw_header pw) else None) with
    | Some (status, header) => (status, header, true)
    | None => (status, pw_header pw, pw_suppress pw)
    end in
  let pw := {| pw_ResponseWriter := pw_ResponseWriter pw; pw_req := pw_req pw; pw_header := pw_header pw; pw_suppress := suppress;
               pw_deferStaging := pw_deferStaging pw; pw_pending := pw_pending pw |} in
  if pw_deferStaging pw && suppress then
    {| pw_ResponseWriter := pw_ResponseWriter pw; pw_req := pw_req pw; pw_header := pw_header pw; pw_suppress := suppress;
       pw_deferStaging := pw_deferStaging pw; pw_pending := Some (status, header) |}
  else pw_with (commitHeader status header (pw_ResponseWriter pw)) pw.

(** [clientPreconditionWriter.Write] *)
Definition pw_Write (b : string) pw : bool * preconditioned W :=
  if pw_suppress pw then (true, pw)
  else let '(ok, w) := w_Write b (pw_ResponseWriter pw) in (ok, pw_with w pw).

Definition pw_DeferStagingHeaders pw : preconditioned W :=
  {| pw_ResponseWriter := pw_ResponseWriter pw; pw_req := pw_req pw; pw_header := pw_header pw; pw_suppress := pw_suppress pw;
     pw_deferStaging := true; pw_pending := pw_pending pw |}.

(** [clientPreconditionWriter.finishTrailers] *)
Definition finishTrailers pw : preconditioned W :=
  if pw_suppress pw then pw
  else pw_with (w_edit (λ dst, copyValidationTrailers dst (pw_header pw) (pw_header pw)) (pw_ResponseWriter pw)) pw.

(** The header a pending status is committed with. *)
Definition finish_header (header current : Header) : Header :=
  let header := foldl (λ h name, match current !! name with Some values => <[name := values]> h | None => delete name h end) header
                  [CacheHeader; "Age"; ProxyDateHeader]%string in
  let header := Del (Del (Del (Del header "Trailer") CacheStagingHeader) "Content-Length") "Transfer-Encoding" in
  filter (λ '(name, _), HasPrefix name TrailerPrefix = false) header.

(** [clientPreconditionWriter.FinishStagingHeaders] *)
Definition pw_FinishStagingHeaders pw : preconditioned W :=
  match pw_pending pw with
  | None => finishTrailers pw
  | Some (status, header) =>
      let header := finish_header header (pw_header pw) in
      {| pw_ResponseWriter := commitHeader status header (pw_ResponseWriter pw); pw_req := pw_req pw; pw_header := pw_header pw;
         pw_suppress := pw_suppress pw; pw_deferStaging := pw_deferStaging pw; pw_pending := None |}
  end.

#[export] Instance preconditioned_writer : ResponseWriter (preconditioned W) := {
  w_Header := pw_header; w_edit := pw_edit; w_WriteHeader := pw_WriteHeader; w_Write := pw_Write;
  w_DeferStagingHeaders := pw_DeferStagingHeaders; w_FinishStagingHeaders := pw_FinishStagingHeaders }.
End Preconditioned.

(** The writer [newClientPreconditionWriter] returns, whichever it is. *)
#[export] Instance either_writer `{ResponseWriter A, ResponseWriter B} : ResponseWriter (A + B) := {
  w_Header w := match w with inl a => w_Header a | inr b => w_Header b end;
  w_edit f w := match w with inl a => inl (w_edit f a) | inr b => inr (w_edit f b) end;
  w_WriteHeader s w := match w with inl a => inl (w_WriteHeader s a) | inr b => inr (w_WriteHeader s b) end;
  w_Write s w := match w with inl a => let '(ok, a) := w_Write s a in (ok, inl a) | inr b => let '(ok, b) := w_Write s b in (ok, inr b) end;
  w_DeferStagingHeaders w := match w with inl a => inl (w_DeferStagingHeaders a) | inr b => inr (w_DeferStagingHeaders b) end;
  w_FinishStagingHeaders w := match w with inl a => inl (w_FinishStagingHeaders a) | inr b => inr (w_FinishStagingHeaders b) end }.

Definition innermost {W} (w : W + preconditioned W) : W := match w with inl w => w | inr pw => pw_ResponseWriter pw end.

(** ** The two responses that meet them *)

(** The instants of [serveResource]: [Age], [heuristicFreshness], and the
    three of [freshness]. *)
Record serve_clock := { on_age : Time; on_heuristic : Time; on_f1 : Time; on_f2 : Time; on_f3 : Time }.

Definition add_fields (fields h : Header) : Header :=
  foldl (λ h '(key, values), foldl (λ h v, Add_ h key v) h values) h (map_to_list fields).

(** A response of the origin captured by [validationExchange]: the chunks of
    its body, and whether the pipe ended without an error. *)
Record exchange := { ex_status : Z; ex_snapshot : Header; ex_header : Header; ex_chunks : list string; ex_complete : bool }.

(** [validationExchange.WriteHeader]: the first status from 200 on, with the
    header of that moment. *)
Definition exchange_WriteHeader (status : Z) (header : Header) (got : option (Z * Header)) : option (Z * Header) :=
  if status <? 200 then got else match got with Some _ => got | None => Some (status, header) end.

(** [validationExchange.serve] of an upstream, over its [Header] and [Write]:
    the reader takes every chunk, and [Abort] is a panic, which is
    recovered. *)
Fixpoint exchange_serve (u : script) (header : Header) (got : option (Z * Header)) (chunks : list string) : exchange :=
  let finish status complete :=
    let '(status, snapshot) := default (status, header) (exchange_WriteHeader status header got) in
    {| ex_status := status; ex_snapshot := snapshot; ex_header := header; ex_chunks := chunks; ex_complete := complete |} in
  match u with
  | Return => finish 200 true
  | Abort => finish 502 false
  | Edit f u => exchange_serve u (f header) got chunks
  | Status code u => exchange_serve u header (exchange_WriteHeader code header got) chunks
  | Body b k => exchange_serve (k true) header (exchange_WriteHeader 200 header got) (chunks ++ [b])
  end.

(** [newValidationExchange], served. *)
Definition capture (u : script) : exchange := exchange_serve u ∅ None [].

Fixpoint copy_script (chunks : list string) (complete : bool) : script :=
  match chunks with
  | [] => if complete then Return else Abort
  | b :: chunks => Body b (λ ok, if ok then copy_script chunks complete else Abort)
  end.

(** The handler [deliverValidationExchange] runs as the upstream. *)
Definition exchange_script (ex : exchange) : script :=
  Edit (λ h, ex_snapshot ex ∪ h) (Status (ex_status ex) (copy_script (ex_chunks ex) (ex_complete ex))).

(** [validationResponse]: the first final status; 0 is none yet. *)
Definition vr_WriteHeader (status got : Z) : Z := if (status <? 200) || negb (got =? 0) then got else status.
(** [validationResponse.Write] and [Flush]. *)
Definition vr_Write (got : Z) : Z := if got =? 0 then vr_WriteHeader 200 got else got.

(** An upstream served to a [validationResponse]: its status and its header
    map, [None] when the upstream panics. *)
Fixpoint validation_serve (u : script) (header : Header) (got : Z) : option (Z * Header) :=
  match u with
  | Return => Some (got, header)
  | Abort => None
  | Edit f u => validation_serve u (f header) got
  | Status code u => validation_serve u header (vr_WriteHeader code got)
  | Body b k => validation_serve (k true) header (vr_Write got)
  end.

(** [Validator.Validate]: the resource when the origin confirmed it.  The first
    cancellation is checked at the start, the second at the end. *)
Definition Validator_Validate `{HttpDate} (upstream : Request → script) (n1 n2 n3 n4 : Time) (cancelled0 cancelled : bool)
    (t : Time) (req : Request) (res : Resource) : option Resource :=
  if cancelled0 then None
  else match conditionalRequest req res with
       | None => None
       | Some outreq =>
           match validation_serve (upstream outreq) ∅ 0 with
           | None => None
           | Some (status, header) => applyValidationResponse n1 n2 n3 n4 cancelled res status header t
           end
       end.

Section Respond.
Context {W : Type} `{!ResponseWriter W} `{D : HttpDate, U : Unicode, P : UrlParser, CL : ContentLibrary} (h : Handler).
Implicit Types w : W.

(** The fields of a stored response and its warnings. *)
Definition stored_fields (n : serve_clock) (res : Resource) (req : cacheRequest) (age : Duration) (hd : Header) : Header :=
  let hd := if (24 * hour <? age) && (24 * hour <? heuristicFreshness (on_heuristic n) res (Shared h))
            then Add_ hd "Warning" ("113 - " +:+ str1 dquote +:+ "Heuristic Expiration" +:+ str1 dquote) else hd in
  let hd := match freshness (on_f1 n) (on_f2 n) (on_f3 n) h res req with
            | Some fresh => if fresh <=? 0 then Add_ hd "Warning" ("110 - " +:+ str1 dquote +:+ "Response is Stale" +:+ str1 dquote) else hd
            | None => Add_ hd "Warning" ("110 - " +:+ str1 dquote +:+ "Response is Stale" +:+ str1 dquote)
            end in
  Set_ (Set_ hd "Age" (Itoa (float_floor (Seconds age)))) "Via" (Via res).

(** [Handler.serveResource]; [age_error] is the text of the error of [Age]. *)
Definition serveResource (n : serve_clock) (age_error : string) (res : Resource) (req : cacheRequest) w : W :=
  let w := w_edit (add_fields (r_header res)) w in
  match Age (on_age n) res with
  | None => http_Error ("Error calculating age: " +:+ age_error)%string 500 w
  | Some age =>
      let w := w_edit (stored_fields n res req age) w in
      if negb (r_statusCode res =? 200) then
        let cw := newClientPreconditionWriter w (cr_Request req) in
        innermost (w_body (r_body res) (w_WriteHeader (r_statusCode res) cw))
      else ServeContent (cr_Request req) (LastModified res) (r_body res) w
  end.

(** [finishValidationTrailers], when the copy ended before the client. *)
Definition finishValidationTrailers (ex : exchange) (cw : W + preconditioned W) : W + preconditioned W :=
  let cw := w_edit (λ dst, copyValidationTrailers dst (ex_header ex) (ex_snapshot ex)) cw in
  match cw with inl w => inl w | inr pw => inr (finishTrailers pw) end.

(** [Handler.deliverValidationExchange]: [gone] tells that the context of the
    request ended before the copy. *)
Definition deliverValidationExchange (n : pass_clock) (stage : staging) (l : lifecycle) (gone : bool) (storageReq : cacheRequest)
    (original : Request) (ex : exchange) (start : Time) w : W * list (effect (W + preconditioned W)) :=
  let client := newClientPreconditionWriter w original in
  let '(rw, effects) := pass_stream h n stage l storageReq (exchange_script ex) start client in
  let client := rw_ResponseWriter rw in
  let client := if hasStagingBudget h then w_FinishStagingHeaders client else client in
  let client := if rw_broken rw || gone then client else finishValidationTrailers ex client in
  (innermost client, effects).
End Respond.

(** ** Lemmas *)

(** [io.Copy] of the chunks of a body. *)
Fixpoint write_all {W} `{ResponseWriter W} (chunks : list string) (w : W) : bool * W :=
  match chunks with
  | [] => (true, w)
  | b :: chunks => let '(ok, w) := w_Write b w in if ok then write_all chunks w else (false, w)
  end.

Section Copy.
Context {W : Type} `{!ResponseWriter W}.
Implicit Types (rw : streamer W) (w : W).

Lemma copy_writes chunks complete rw :
  rw_ResponseWriter (finish_upstream (copy_script chunks complete) rw) = (write_all chunks (rw_ResponseWriter rw)).2.
Proof.
  revert rw. induction chunks as [|b chunks IH]; intros rw; cbn [copy_script write_all].
  - by destruct complete.
  - cbn [finish_upstream]. unfold rw_Write. cbn [rw_ResponseWriter rw_pipe]. destruct (w_Write b _) as [[] w]; [|done].
    by rewrite IH.
Qed.

(** A copy that did not break took every chunk. *)
Lemma copy_whole chunks complete rw :
  rw_broken (finish_upstream (copy_script chunks complete) rw) = false →
  complete = true ∧ rw_piped (finish_upstream (copy_script chunks complete) rw) = (rw_piped rw +:+ String.concat EmptyString chunks)%string.
Proof.
  revert rw. induction chunks as [|b chunks IH]; intros rw; cbn [copy_script].
  - destruct complete; cbn [finish_upstream]; intros Hb; [|cbn in Hb; by rewrite orb_true_r in Hb]. cbn. by rewrite str_app_nil_r.
  - cbn [finish_upstream]. unfold rw_Write. destruct (w_Write b _) as [[] w]; intros Hb; [|cbn in Hb; by rewrite orb_true_r in Hb].
    destruct (IH _ Hb) as [Hc ->]. split; [done|]. cbn [rw_piped rw_with_writer rw_pipe]. rewrite <- str_app_assoc. f_equal.
    destruct chunks as [|b2 chunks]; [by rewrite str_app_nil_r|done].
Qed.

Lemma copy_broken chunks complete rw :
  rw_broken (finish_upstream (copy_script chunks complete) rw) = rw_broken rw || negb ((write_all chunks (rw_ResponseWriter rw)).1 && complete).
Proof.
  revert rw. induction chunks as [|b chunks IH]; intros rw; cbn [copy_script write_all].
  - destruct complete; cbn; by rewrite ?orb_false_r.
  - cbn [finish_upstream]. unfold rw_Write. cbn [rw_ResponseWriter rw_pipe]. destruct (w_Write b _) as [[] w]; [|cbn; by rewrite !orb_true_r].
    rewrite IH. cbn [rw_broken rw_with_writer rw_pipe rw_ResponseWriter]. by rewrite orb_false_r.
Qed.

Lemma rw_edit_keeps f rw : rw_piped (rw_edit f rw) = rw_piped rw ∧ rw_broken (rw_edit f rw) = rw_broken rw ∧ rw_StatusCode (rw_edit f rw) = rw_StatusCode rw.
Proof. unfold rw_edit. by case_match. Qed.

Lemma commitStaging_keeps req status admitted rw :
  rw_piped (commitStagingHeaders req status admitted rw) = rw_piped rw ∧ rw_broken (commitStagingHeaders req status admitted rw) = rw_broken rw ∧
  rw_StatusCode (commitStagingHeaders req status admitted rw) = rw_StatusCode rw.
Proof. unfold commitStagingHeaders. destruct (negb _); [done|]. unfold CommitHeaders. by case_match. Qed.

Lemma finishStaging_keeps status rw :
  rw_piped (finishStaging status rw) = rw_piped rw ∧ rw_broken (finishStaging status rw) = rw_broken rw ∧
  rw_StatusCode (finishStaging status rw) = rw_StatusCode rw.
Proof. unfold finishStaging. by repeat case_match; cbn; rewrite ?(proj1 (rw_edit_keeps _ _)), ?(proj1 (proj2 (rw_edit_keeps _ _))), ?(proj2 (proj2 (rw_edit_keeps _ _))). Qed.

Lemma WriteHeader_keeps status rw :
  rw_responseHeader rw = None → rw_piped (rw_WriteHeader status rw) = rw_piped rw ∧ rw_broken (rw_WriteHeader status rw) = rw_broken rw ∧
  rw_StatusCode (rw_WriteHeader status rw) = status.
Proof. unfold rw_WriteHeader. intros ->. case_match; [done|]. unfold CommitHeaders. by case_match. Qed.
End Copy.

Section Exchange.
Context {W : Type} `{!ResponseWriter W} `{D : HttpDate, U : Unicode} (h : Handler).
Implicit Types (rw : streamer W) (w : W).

Lemma copy_status chunks complete rw :
  rw_StatusCode (finish_upstream (copy_script chunks complete) rw) = rw_StatusCode rw ∧
  rw_committed (finish_upstream (copy_script chunks complete) rw) = rw_committed rw.
Proof.
  revert rw. induction chunks as [|b chunks IH]; intros rw; cbn [copy_script].
  - by destruct complete.
  - cbn [finish_upstream]. unfold rw_Write. destruct (w_Write b _) as [[] w]; [|done].
    by destruct (IH (rw_with_writer w (rw_pipe b false rw))) as [-> ->].
Qed.

(** What the background store of an exchange is given. *)
Lemma exchange_published n stage l r ex t w res requested keys :
  Publish res requested keys ∈ (pass_stream h n stage l r (exchange_script ex) t w).2 →
  ex_complete ex = true ∧ r_body res = String.concat EmptyString (ex_chunks ex) ∧ r_statusCode res = ex_status ex ∧
  stage_takes stage (r_body res) = true.
Proof.
  unfold pass_stream. cbv zeta. cbn [exchange_script WaitHeaders].
  set (w0 := if hasStagingBudget h then w_DeferStagingHeaders w else w).
  set (rw0 := rw_edit (λ hd, ex_snapshot ex ∪ hd) (rw_edit (λ h, Set_ h CacheHeader "MISS") (newResponseStreamer (hasStagingBudget h) (hasStagingBudget h) w0))).
  assert (rw_responseHeader rw0 = None ∧ rw_piped rw0 = EmptyString) as [Hn Hp].
  { unfold rw0, rw_edit. by repeat case_match. }
  destruct (WriteHeader_keeps (ex_status ex) rw0 Hn) as (Hp1 & _ & Hs1). rewrite Hp in Hp1. set (rw1 := rw_WriteHeader (ex_status ex) rw0) in *.
  destruct (negb (canStageResponse _ _ _ _ _)); cbn [snd]; [by intros Hin%list_elem_of_singleton|].
  set (rw2 := commitStagingHeaders (cr_Request r) "MISS" (stage_opens stage) rw1).
  destruct (commitStaging_keeps (cr_Request r) "MISS"%string (stage_opens stage) rw1) as (Hp2 & _ & Hs2). fold rw2 in Hp2, Hs2. rewrite Hp1 in Hp2. rewrite Hs1 in Hs2.
  destruct (stage_opens stage && _ && _ && _) eqn:Est; cbn [negb snd]; [|by intros Hin%list_elem_of_singleton].
  apply andb_true_iff in Est as [[[_ Hbr%negb_true_iff]%andb_true_iff Htake]%andb_true_iff _].
  destruct (copy_whole _ _ _ Hbr) as [Hc Hpiped]. destruct (copy_status (ex_chunks ex) (ex_complete ex) rw2) as [Hs3 _].
  set (rw3 := finish_upstream (copy_script (ex_chunks ex) (ex_complete ex)) rw2) in *. rewrite Hp2 in Hpiped. cbn in Hpiped.
  unfold storeResource. destruct (negb (beginWrite l).1); [by intros Hin%list_elem_of_singleton|].
  intros [Hin|Hin%list_elem_of_singleton]%elem_of_cons; [|done]. injection Hin as -> _ _.
  set (rw4 := rw_edit _ (finishStaging _ rw3)).
  assert (rw_piped rw4 = rw_piped rw3 ∧ rw_StatusCode rw4 = rw_StatusCode rw3) as [Hp4 Hs4].
  { unfold rw4. destruct (finishStaging_keeps "ADMITTED"%string rw3) as (H1 & _ & H2). destruct (rw_edit_keeps (receipt_fields n (default ∅ (rw_responseHeader rw1)) t) (finishStaging "ADMITTED" rw3)) as (H3 & _ & H4). by rewrite H3, H4. }
  split; [done|].
  assert (∀ res0, r_body (if Shared h then RemovePrivateHeaders res0 else res0) = r_body res0 ∧ r_statusCode (if Shared h then RemovePrivateHeaders res0 else res0) = r_statusCode res0) as Hpriv
    by (intros res0; by destruct (Shared h)).
  rewrite (proj1 (Hpriv _)), (proj2 (Hpriv _)). cbn [r_body r_statusCode set_requestTime NewResourceBytes].
  rewrite Hp4, Hs4, Hs3, Hs2. split; [done|]. by split.
Qed.
End Exchange.

(** The writer of a validation: that of the client, or one with its conditions. *)
Abbreviation conditional := (client + preconditioned client)%type.

(** Fields a staging budget may change on the way to the client, those it
    brings up to date before a late commit included. *)
Definition deferred_fields : list string := budget_fields ++ ["Age"; ProxyDateHeader; CacheStagingHeader]%string.
Definition agree (h1 h2 : Header) : Prop := ∀ name, name ∉ deferred_fields → h1 !! name = h2 !! name.

Section Passing.
Context `{D : HttpDate, U : Unicode} (h : Handler).
Implicit Types (rw : streamer conditional) (cw : conditional).

(** Changes of header maps after the response. *)
Definition edited : conditional → conditional → Prop := rtc (λ w w', ∃ f, w' = w_edit f w).

Lemma edit_edited f rw :
  rw_committed rw = true → edited (rw_ResponseWriter rw) (rw_ResponseWriter (rw_edit f rw)) ∧ rw_committed (rw_edit f rw) = true.
Proof. intros Hc. unfold rw_edit. rewrite Hc, orb_true_r. split; [|done]. apply rtc_once. by exists f. Qed.

Lemma finishStaging_edited status rw :
  rw_committed rw = true →
  edited (rw_ResponseWriter rw) (rw_ResponseWriter (finishStaging status rw)) ∧ rw_committed (finishStaging status rw) = true.
Proof.
  intros Hc. unfold finishStaging. cbv zeta. set (rw' := if _ && _ then _ else _).
  assert (edited (rw_ResponseWriter rw) (rw_ResponseWriter rw') ∧ rw_committed rw' = true) as [He Hc'].
  { unfold rw'. destruct (_ && _); [by apply edit_edited|]. split; [apply rtc_refl|done]. }
  destruct (rw_stagingTrailer rw'); [|done]. destruct (edit_edited (λ h, Set_ h CacheStagingHeader status) rw' Hc') as [He2 ?].
  split; [by etrans|done].
Qed.

Lemma either_edits f g cw : w_edit f (w_edit g cw) = w_edit (λ hd, f (g hd)) cw.
Proof. by destruct cw. Qed.
Lemma either_edit_constant f cw : w_edit f cw = w_edit (λ _, f (w_Header cw)) cw.
Proof. by destruct cw. Qed.
Lemma either_header f cw : w_Header (w_edit f cw) = f (w_Header cw).
Proof. by destruct cw. Qed.

(** What was captured, with the mark of a miss, and the writer it goes to. *)
Definition exchange_header (ex : exchange) cw : Header := ex_snapshot ex ∪ Set_ (w_Header cw) CacheHeader "MISS".
Definition deferring cw : conditional := if hasStagingBudget h then w_DeferStagingHeaders cw else cw.

Lemma deferring_header cw : w_Header (deferring cw) = w_Header cw.
Proof. unfold deferring. by destruct (hasStagingBudget h), cw. Qed.

(** The commit of an exchange: its status, with the captured header but for the
    fields of the budget. *)
Lemma exchange_commit ex cw :
  let w0 := deferring cw in
  let rw1 := rw_WriteHeader (ex_status ex) (rw_edit (λ hd, ex_snapshot ex ∪ hd)
    (rw_edit (λ h, Set_ h CacheHeader "MISS") (newResponseStreamer (hasStagingBudget h) (hasStagingBudget h) w0))) in
  rw_responseHeader rw1 = Some (exchange_header ex cw) ∧ rw_StatusCode rw1 = ex_status ex ∧
  ∀ req status admitted, let rw2 := commitStagingHeaders req status admitted rw1 in
    rw_committed rw2 = true ∧ rw_broken rw2 = false ∧ rw_piped rw2 = EmptyString ∧ rw_StatusCode rw2 = ex_status ex ∧
    ∃ hd, (hasStagingBudget h = false → hd = exchange_header ex cw) ∧ agree hd (exchange_header ex cw) ∧
      rw_ResponseWriter rw2 = w_WriteHeader (ex_status ex) (w_edit (λ _, hd) w0).
Proof.
  intros w0 rw1. unfold exchange_header. rewrite <- (deferring_header cw). fold w0. clearbody w0. unfold rw1. clear rw1.
  destruct (hasStagingBudget h).
  - unfold rw_WriteHeader, rw_edit, rw_Header. cbn -[w_edit w_Header w_WriteHeader]. rewrite either_edits, either_header. split; [done|]. split; [done|].
    intros req status admitted. unfold commitStagingHeaders, CommitHeaders. cbn -[w_edit w_Header w_WriteHeader].
    split_and!; try done. set (hd := if _ && _ then _ else _). exists hd. split; [done|]. split.
    + intros name Hn. assert (name ≠ CacheHeader ∧ name ≠ "Trailer" ∧ name ≠ "Content-Length" ∧ name ≠ "Transfer-Encoding")%string as (? & ? & ? & ?)
        by (unfold deferred_fields, budget_fields in Hn; rewrite elem_of_app, !elem_of_cons in Hn; tauto).
      unfold hd. repeat case_match; rewrite ?Del_other, ?Add_other, ?Set_other by done; done.
    + f_equal. rewrite either_edits, either_edit_constant. by rewrite commit_header_eq.
  - unfold rw_WriteHeader, rw_edit, rw_Header, CommitHeaders. cbn -[w_edit w_Header w_WriteHeader]. rewrite either_edits, either_header. split; [done|]. split; [done|].
    intros req status admitted. unfold commitStagingHeaders. cbn -[w_edit w_Header w_WriteHeader]. split_and!; try done.
    eexists. split; [done|]. split; [done|]. f_equal. apply either_edit_constant.
Qed.

(** An exchange passed on: what the writer gets, and when it is stored. *)
Lemma exchange_passed n stage l r ex t cw :
  let header := exchange_header ex cw in
  let whole := String.concat EmptyString (ex_chunks ex) in
  ∃ hd res, (hasStagingBudget h = false → hd = header) ∧ agree hd header ∧ r_body res = whole ∧ r_statusCode res = ex_status ex ∧
    let copied := write_all (ex_chunks ex) (w_WriteHeader (ex_status ex) (w_edit (λ _, hd) (deferring cw))) in
    let '(rw, effects) := pass_stream h n stage l r (exchange_script ex) t cw in
    edited copied.2 (rw_ResponseWriter rw) ∧
    effects = if canStageResponse (at_maxAge n) (at_heuristic n) h (set_requestTime t (NewResourceBytes (ex_status ex) EmptyString header)) r &&
                 (stage_opens stage && (copied.1 && ex_complete ex) && stage_takes stage whole && stage_rewinds stage)
              then storeResource h l res r else [Complete].
Proof.
  intros header whole. unfold pass_stream. cbv zeta. fold (deferring cw). cbn [exchange_script WaitHeaders].
  destruct (exchange_commit ex cw) as (Hh & Hst & Hcommit). cbv zeta in Hcommit. set (rw1 := rw_WriteHeader (ex_status ex) _) in *. rewrite Hh, Hst. cbn [default from_option].
  fold header. destruct (canStageResponse _ _ _ _ _); cbn [negb andb].
  - destruct (Hcommit (cr_Request r) "MISS"%string (stage_opens stage)) as (Hc & Hb & Hp & Hs & hd & Hno & Hag & Hw).
    set (rw2 := commitStagingHeaders _ _ _ rw1) in *.
    pose proof (copy_broken (ex_chunks ex) (ex_complete ex) rw2) as Hbr. rewrite Hb, Hw in Hbr. cbn [orb] in Hbr.
    pose proof (copy_whole (ex_chunks ex) (ex_complete ex) rw2) as Hwhole. rewrite Hp, str_app_nil_l in Hwhole. fold whole in Hwhole.
    destruct (copy_status (ex_chunks ex) (ex_complete ex) rw2) as [Hs3 Hc3]. rewrite Hc in Hc3. rewrite Hs in Hs3.
    pose proof (copy_writes (ex_chunks ex) (ex_complete ex) rw2) as Hw3. rewrite Hw in Hw3.
    set (rw3 := finish_upstream _ rw2) in *. set (copied := write_all _ _) in *.
    assert (rw_broken rw3 = false → rw_piped rw3 = whole) as Hpiped by (intros Hbf; exact (proj2 (Hwhole Hbf))).
    assert (stage_opens stage && negb (rw_broken rw3) && stage_takes stage (rw_piped rw3) && stage_rewinds stage =
      stage_opens stage && (copied.1 && ex_complete ex) && stage_takes stage whole && stage_rewinds stage) as ->.
    { destruct (copied.1 && ex_complete ex); rewrite Hbr; cbn [negb]; [by rewrite Hpiped by (by rewrite Hbr)|by rewrite !andb_false_r]. }
    destruct (_ && _ && _ && _) eqn:Est; cbn [negb].
    + assert (rw_broken rw3 = false) as Hbf.
      { rewrite Hbr. apply andb_true_iff in Est as [[[_ Hcc]%andb_true_iff _]%andb_true_iff _]. by rewrite Hcc. }
      destruct (finishStaging_edited "ADMITTED"%string rw3 Hc3) as [H1 H2].
      destruct (finishStaging_keeps "ADMITTED"%string rw3) as (K1 & _ & K2).
      destruct (rw_edit_keeps (receipt_fields n header t) (finishStaging "ADMITTED" rw3)) as (K3 & _ & K4).
      set (rw4 := rw_edit (receipt_fields n header t) (finishStaging "ADMITTED" rw3)) in *.
      exists hd, (set_requestTime t (NewResourceBytes (rw_StatusCode rw4) (rw_piped rw4) (receipt_fields n header t header))).
      split; [done|]. split; [done|].
      split; [cbn [r_body set_requestTime NewResourceBytes]; rewrite K3, K1; by apply Hpiped|].
      split; [cbn [r_statusCode set_requestTime NewResourceBytes]; congruence|]. fold copied. split; [|by rewrite Est].
      rewrite <- Hw3. etrans; [exact H1|by apply edit_edited].
    + exists hd, (NewResourceBytes (ex_status ex) whole ∅). split; [done|]. split; [done|]. split; [done|]. split; [done|]. fold copied. split; [|by rewrite Est].
      rewrite <- Hw3. destruct (edit_edited (λ h, Set_ h CacheHeader "SKIP") rw3 Hc3) as [H1 H2]. etrans; [exact H1|by apply finishStaging_edited].
  - destruct (Hcommit (cr_Request r) "SKIP"%string false) as (Hc & _ & _ & _ & hd & Hno & Hag & Hw).
    set (rw2 := commitStagingHeaders _ _ _ rw1) in *.
    destruct (copy_status (ex_chunks ex) (ex_complete ex) rw2) as [_ Hc3]. rewrite Hc in Hc3.
    pose proof (copy_writes (ex_chunks ex) (ex_complete ex) rw2) as Hw3. rewrite Hw in Hw3.
    set (rw3 := finish_upstream _ rw2) in *.
    exists hd, (NewResourceBytes (ex_status ex) whole ∅). split; [done|]. split; [done|]. split; [done|]. split; [done|]. split; [|done].
    rewrite <- Hw3. destruct (edit_edited (λ h, Set_ h CacheHeader "SKIP") rw3 Hc3) as [H1 H2]. etrans; [exact H1|by apply finishStaging_edited].
Qed.
End Passing.

(** What has gone to the client behind the preconditions. *)
Section Delivery.
Context `{D : HttpDate, U : Unicode} (h : Handler).
Implicit Types (c : client) (cw : client + preconditioned client).

Lemma edited_wire cw cw' : edited cw cw' → wire (innermost cw') = wire (innermost cw).
Proof. induction 1 as [|cw1 cw2 cw3 [f ->] _ IH]; [done|]. rewrite IH. by destruct cw1. Qed.

Lemma finishTrailers_wire pw : wire (pw_ResponseWriter (finishTrailers pw)) = wire (pw_ResponseWriter (W := client) pw).
Proof. unfold finishTrailers. by destruct (pw_suppress pw). Qed.

(** What a connection takes of the chunks of a body after [got]: whether all. *)
Fixpoint taken (accepts : string → string → bool) (got : string) (chunks : list string) : bool * string :=
  match chunks with
  | [] => (true, got)
  | b :: chunks => if accepts got b then taken accepts (got +:+ b)%string chunks else (false, got)
  end.

Lemma write_all_taken chunks c status hd :
  cl_sent c = Some (status, hd) →
  let r := taken (λ a b, bodyAllowedForStatus status && cl_accepts c a b) (cl_body c) chunks in
  (write_all chunks c).1 = r.1 ∧ wire (write_all chunks c).2 = (Some (status, hd), r.2, cl_informational c).
Proof.
  revert c. induction chunks as [|b chunks IH]; intros c Hs; cbn [write_all taken]; [cbn; unfold wire; by rewrite Hs|].
  rewrite (Write_again _ _ _ _ Hs). destruct (_ && _); [by apply (IH (client_push b c))|]. unfold wire. cbn. by rewrite Hs.
Qed.

Lemma taken_all accepts got chunks :
  (∀ a b, accepts a b = true) → taken accepts got chunks = (true, (got +:+ String.concat EmptyString chunks)%string).
Proof.
  intros Ha. revert got. induction chunks as [|b chunks IH]; intros got; cbn [taken]; [by rewrite str_app_nil_r|].
  rewrite Ha, IH. f_equal. rewrite <- str_app_assoc. f_equal. destruct chunks; [by rewrite str_app_nil_r|done].
Qed.

(** Changes of the header map leave a late commit as it is. *)
Lemma edited_conditional cw cw' :
  edited cw cw' →
  match cw, cw' with
  | inl c, inl c' => wire c' = wire c
  | inr pw, inr pw' => pw_ResponseWriter pw' = pw_ResponseWriter pw ∧ pw_pending pw' = pw_pending pw ∧ pw_suppress pw' = pw_suppress pw
  | _, _ => False
  end.
Proof.
  induction 1 as [cw|cw1 cw2 cw3 [f ->] _ IH]; [by destruct cw|]. destruct cw1 as [c|pw], cw3 as [c3|pw3]; done.
Qed.

Lemma write_all_either chunks cw :
  write_all chunks cw = match cw with
                        | inl c => ((write_all chunks c).1, inl (write_all chunks c).2)
                        | inr pw => ((write_all chunks pw).1, inr (write_all chunks pw).2)
                        end.
Proof.
  revert cw. induction chunks as [|b chunks IH]; intros [c|pw]; cbn [write_all]; [done|done| |];
    cbn [w_Write either_writer]; (destruct (w_Write b _) as [[] x]; [by rewrite IH|done]).
Qed.

Lemma write_all_preconditioned chunks (pw : preconditioned client) :
  write_all chunks pw = if pw_suppress pw then (true, pw)
                        else ((write_all chunks (pw_ResponseWriter pw)).1, pw_with (write_all chunks (pw_ResponseWriter pw)).2 pw).
Proof.
  revert pw. induction chunks as [|b chunks IH]; intros pw; cbn [write_all]; [by destruct (pw_suppress pw), pw|].
  cbn [w_Write preconditioned_writer]. unfold pw_Write. destruct (pw_suppress pw) eqn:E; [rewrite IH; by rewrite E|].
  destruct (w_Write b (pw_ResponseWriter pw)) as [[] x]; [|done]. rewrite IH. cbn [pw_suppress pw_with]. by rewrite E.
Qed.
End Delivery.

(** What a request is answered, and what the client is sent. *)
Section Answer.
Context `{D : HttpDate}.

Definition has_condition (req : Request) : bool :=
  let hd := req_Header req in
  nonempty (Get hd "If-None-Match") || nonempty (Get hd "If-Modified-Since") || nonempty (Get hd "If-Match") ||
  nonempty (Get hd "If-Unmodified-Since").

(** What a request is answered when the origin sends [status] and [header]:
    the status, the header, and whether the body follows. *)
Definition conditional_answer (req : Request) (status : Z) (header : Header) : Z * Header * bool :=
  match (if has_condition req && (200 <=? status) && (status <? 300) then probe req header else None) with
  | Some (status, header) => (status, header, false)
  | None => (status, header, true)
  end.


Lemma newClient_unconditional c (req : Request) :
  newClientPreconditionWriter c req =
  if has_condition req then inr {| pw_ResponseWriter := c; pw_req := req; pw_header := cl_live c; pw_suppress := false; pw_deferStaging := false; pw_pending := None |}
  else inl c.
Proof. unfold newClientPreconditionWriter, has_condition. by repeat destruct (nonempty _). Qed.

Lemma commitHeader_wire status header (c : client) :
  cl_sent c = None → informational status = false →
  cl_sent (commitHeader status header c) = Some (status, header) ∧ cl_body (commitHeader status header c) = cl_body c ∧
  cl_informational (commitHeader status header c) = cl_informational c ∧ cl_accepts (commitHeader status header c) = cl_accepts c.
Proof. intros Hs Hi. unfold commitHeader. cbn. unfold client_WriteHeader. cbn. by rewrite Hs, Hi. Qed.

Lemma probe_status req header status header' : probe req header = Some (status, header') → status = 304 ∨ status = 412.
Proof.
  unfold probe, checkPreconditions. intros Hp. repeat case_match; simplify_eq; auto.
Qed.

Ltac not_deferred := apply (bool_decide_unpack _); vm_compute; exact I.

(** Fields of the budget decide nothing. *)
Lemma agree_Get h1 h2 name : agree h1 h2 → CanonicalHeaderKey name ∉ deferred_fields → Get h1 name = Get h2 name.
Proof. intros Ha Hn. unfold Get, Values. by rewrite Ha. Qed.

Lemma agree_probe req h1 h2 :
  agree h1 h2 →
  match probe req h1, probe req h2 with
  | Some (s1, h1'), Some (s2, h2') => s1 = s2 ∧ agree h1' h2'
  | None, None => True
  | _, _ => False
  end.
Proof.
  intros Ha. unfold probe.
  assert (Get h1 "Last-Modified" = Get h2 "Last-Modified") as <- by (by apply agree_Get; [|not_deferred]).
  set (t := default zero_time (ParseTime (Get h1 "Last-Modified"))).
  assert (agree (setLastModified h1 t) (setLastModified h2 t)) as Hs.
  { intros name Hn. unfold setLastModified. case_match; [by apply Ha|]. unfold Set_. destruct (decide (name = CanonicalHeaderKey "Last-Modified")) as [->|Hne].
    - by rewrite !lookup_insert_eq.
    - rewrite !lookup_insert_ne by congruence. by apply Ha. }
  assert (Get (setLastModified h1 t) "Etag" = Get (setLastModified h2 t) "Etag") as He
    by (by apply agree_Get; [|not_deferred]).
  assert (checkPreconditions (req_Method req) (setLastModified h1 t) (Del (req_Header req) "Range") t =
    checkPreconditions (req_Method req) (setLastModified h2 t) (Del (req_Header req) "Range") t) as ->.
  { unfold checkPreconditions, checkIfMatch, checkIfNoneMatch, checkIfRange. by rewrite He. }
  destruct (checkPreconditions _ _ _ _) as [status|]; [|done]. split; [done|]. unfold conditionHeader. destruct (status =? 304); [|done].
  assert (agree (delete "Content-Type"%string (delete "Content-Length"%string (delete "Content-Encoding"%string (setLastModified h1 t))))
    (delete "Content-Type"%string (delete "Content-Length"%string (delete "Content-Encoding"%string (setLastModified h2 t))))) as Hd.
  { intros name Hn. rewrite !lookup_delete. repeat case_decide; try done. by apply Hs. }
  unfold notModifiedHeader. cbv zeta. rewrite <- (agree_Get _ _ "Etag" Hd) by (not_deferred).
  case_match; [|done]. intros name Hn. rewrite !(lookup_delete _ "Last-Modified"%string). case_decide; [done|]. by apply Hd.
Qed.

Lemma agree_answer req status h1 h2 :
  agree h1 h2 →
  let '(s1, h1', b1) := conditional_answer req status h1 in
  let '(s2, h2', b2) := conditional_answer req status h2 in
  s1 = s2 ∧ b1 = b2 ∧ agree h1' h2'.
Proof.
  intros Ha. unfold conditional_answer. destruct (_ && _); [|done]. pose proof (agree_probe req h1 h2 Ha) as Hp.
  destruct (probe req h1) as [[]|], (probe req h2) as [[]|]; naive_solver.
Qed.

Lemma finish_header_other header current name :
  name ∉ deferred_fields → HasPrefix name TrailerPrefix = false → finish_header header current !! name = header !! name.
Proof.
  intros Hn Ht. assert (name ≠ CacheHeader ∧ name ≠ "Trailer" ∧ name ≠ "Content-Length" ∧ name ≠ "Transfer-Encoding" ∧ name ≠ "Age" ∧
    name ≠ ProxyDateHeader ∧ name ≠ CacheStagingHeader)%string as (H1 & H2 & H3 & H4 & H5 & H6 & H7)
    by (unfold deferred_fields, budget_fields in Hn; rewrite elem_of_app, !elem_of_cons in Hn; tauto).
  unfold finish_header. cbn [foldl]. cbv zeta. set (h3 := match current !! ProxyDateHeader with Some _ => _ | None => _ end).
  assert (h3 !! name = header !! name) as <-.
  { unfold h3. repeat case_match; repeat ((rewrite lookup_insert_ne by congruence) || (rewrite lookup_delete_ne by congruence)); done. }
  assert (Del (Del (Del (Del h3 "Trailer") CacheStagingHeader) "Content-Length") "Transfer-Encoding" !! name = h3 !! name) as Hdel
    by (by rewrite !Del_other).
  destruct (h3 !! name) as [v|].
  - apply map_lookup_filter_Some. by rewrite Hdel.
  - apply map_lookup_filter_None. left. by rewrite Hdel.
Qed.

(** What the client is sent when the exchange is passed on with [hd], and its
    header maps are changed after that. *)
Lemma exchange_wire h original ex c hd :
  cl_sent c = None → cl_body c = EmptyString → informational (ex_status ex) = false →
  let copied := write_all (ex_chunks ex) (w_WriteHeader (ex_status ex) (w_edit (λ _, hd) (deferring h (newClientPreconditionWriter c original)))) in
  let '(status, header, body) := conditional_answer original (ex_status ex) hd in
  let '(whole, bytes) := if body then taken (λ a b, bodyAllowedForStatus status && cl_accepts c a b) EmptyString (ex_chunks ex) else (true, EmptyString) in
  copied.1 = whole ∧
  ∀ cw', edited copied.2 cw' →
    let cw := if hasStagingBudget h then w_FinishStagingHeaders cw' else cw' in
    ∃ header', cl_sent (innermost cw) = Some (status, header') ∧ cl_body (innermost cw) = bytes ∧
      (hasStagingBudget h = false → header' = header) ∧
      (∀ name, name ∉ deferred_fields → HasPrefix name TrailerPrefix = false → header' !! name = header !! name).
Proof.
  intros Hs Hb Hi copied. unfold copied, deferring. clear copied. rewrite newClient_unconditional. unfold conditional_answer. destruct (has_condition original); cbn [andb].
  - set (pw := {| pw_ResponseWriter := c; pw_req := original; pw_header := hd; pw_suppress := false;
                  pw_deferStaging := hasStagingBudget h; pw_pending := None |}).
    assert (w_edit (λ _, hd) (if hasStagingBudget h then w_DeferStagingHeaders (inr {| pw_ResponseWriter := c; pw_req := original; pw_header := cl_live c;
      pw_suppress := false; pw_deferStaging := false; pw_pending := None |} : conditional) else
      inr {| pw_ResponseWriter := c; pw_req := original; pw_header := cl_live c; pw_suppress := false; pw_deferStaging := false; pw_pending := None |})
      = inr pw) as -> by (unfold pw; by destruct (hasStagingBudget h)).
    cbn [w_WriteHeader either_writer preconditioned_writer]. rewrite write_all_either, write_all_preconditioned. unfold pw_WriteHeader.
    cbn [pw_req pw_header pw_suppress pw_deferStaging pw_ResponseWriter pw_pending pw].
    destruct (if (200 <=? ex_status ex) && (ex_status ex <? 300) then probe original hd else None) as [[status header]|] eqn:E.
    + assert (informational status = false) as Hi' by (destruct ((200 <=? _) && _); [|done]; by destruct (probe_status _ _ _ _ E) as [-> | ->]).
      rewrite andb_true_r. destruct (hasStagingBudget h); cbn [pw_suppress pw_with pw_ResponseWriter fst snd]; (split; [done|]); intros cw' Hed%edited_conditional;
        destruct cw' as [c'|pw']; try done; destruct Hed as (Hw & Hp & Hsup); cbn [pw_ResponseWriter pw_pending pw_suppress pw_with] in Hw, Hp, Hsup.
      * cbn [w_FinishStagingHeaders either_writer preconditioned_writer]. unfold pw_FinishStagingHeaders. rewrite Hp. cbn [innermost pw_ResponseWriter]. rewrite Hw.
        destruct (commitHeader_wire status (finish_header header (pw_header pw')) c Hs Hi') as (H1 & H2 & _). exists (finish_header header (pw_header pw')).
        rewrite H1, H2, Hb. split; [done|]. split; [done|]. split; [done|]. apply finish_header_other.
      * cbn [innermost]. rewrite Hw. destruct (commitHeader_wire status header c Hs Hi') as (H1 & H2 & _). exists header. by rewrite H1, H2, Hb.
    + rewrite andb_false_r. cbn [pw_suppress pw_with pw_ResponseWriter fst snd].
      destruct (commitHeader_wire (ex_status ex) hd c Hs Hi) as (H1 & H2 & _ & H4).
      destruct (write_all_taken (ex_chunks ex) _ _ _ H1) as [Ht Hwire]. rewrite H2, H4, Hb in Ht, Hwire.
      destruct (taken _ _ _) as [whole bytes]. cbn [fst snd] in Ht, Hwire. split; [exact Ht|]. intros cw' Hed%edited_conditional. destruct cw' as [c'|pw']; [done|].
      destruct Hed as (Hw & Hp & Hsup). cbn [pw_ResponseWriter pw_pending pw_suppress pw_with] in Hw, Hp, Hsup. exists hd.
      assert (wire (innermost (if hasStagingBudget h then w_FinishStagingHeaders (inr pw' : conditional) else inr pw')) = wire (pw_ResponseWriter pw')) as Hfin.
      { destruct (hasStagingBudget h); [|done]. cbn [w_FinishStagingHeaders either_writer preconditioned_writer innermost]. unfold pw_FinishStagingHeaders.
        rewrite Hp. apply finishTrailers_wire. }
      rewrite Hw, Hwire in Hfin. split; [exact (f_equal (λ x, x.1.1) Hfin)|]. split; [exact (f_equal (λ x, x.1.2) Hfin)|done].
  - assert (w_edit (λ _, hd) (if hasStagingBudget h then w_DeferStagingHeaders (inl c : conditional) else inl c) = inl (client_edit (λ _, hd) c)) as ->
      by (by destruct (hasStagingBudget h)).
    cbn [w_WriteHeader either_writer]. rewrite write_all_either. cbn [fst snd].
    destruct (commitHeader_wire (ex_status ex) hd c Hs Hi) as (H1 & H2 & _ & H4).
    destruct (write_all_taken (ex_chunks ex) _ _ _ H1) as [Ht Hwire]. rewrite H2, H4, Hb in Ht, Hwire.
    destruct (taken _ _ _) as [whole bytes]. cbn [fst snd] in Ht, Hwire. split; [exact Ht|]. intros cw' Hed%edited_conditional. destruct cw' as [c'|pw']; [|done].
    assert (innermost (if hasStagingBudget h then w_FinishStagingHeaders (inl c' : conditional) else inl c') = c') as -> by (by destruct (hasStagingBudget h)).
    pose proof (eq_trans Hed Hwire) as Hw. exists hd. split; [exact (f_equal (λ x, x.1.1) Hw)|]. split; [exact (f_equal (λ x, x.1.2) Hw)|done].
Qed.
End Answer.

(** ** Lists of entity tags *)

Definition etag (weak : bool) (opaque : string) : string :=
  ((if weak then "W/" else EmptyString) +:+ String dquote (opaque +:+ str1 dquote))%string.
Definition well_formed (e : string) : Prop := ∃ weak opaque, str_forall is_etag_byte opaque = true ∧ e = etag weak opaque.

Lemma trim_right_snoc p s c : p c = false → trim_right p (s +:+ str1 c)%string = (s +:+ str1 c)%string.
Proof.
  intros Hc. induction s as [|d s IH]; [rewrite str_app_nil_l; cbn; by rewrite Hc|]. rewrite str_app_cons. cbn [trim_right]. rewrite IH.
  by destruct s.
Qed.

(** A text that starts and ends outside white space. *)
Lemma TrimString_id d s : is_text_space d = false → TrimString (String d (s +:+ str1 dquote))%string = String d (s +:+ str1 dquote)%string.
Proof.
  intros Hd. unfold TrimString, trim. cbn [drop_while]. rewrite Hd. rewrite <- str_app_cons. by apply trim_right_snoc.
Qed.

Lemma substring_over t n : (String.length t ≤ n)%nat → String.substring 0 n t = t.
Proof. revert n. induction t as [|c t IH]; intros [|n] Hn; cbn in *; [done|done|lia|]. by rewrite IH by lia. Qed.

Definition ends_quoted (s : string) : Prop := s = EmptyString ∨ ∃ s', s = (s' +:+ str1 dquote)%string.

Lemma etag_shape weak opaque rest :
  ends_quoted rest → ∃ d s, (etag weak opaque +:+ rest)%string = String d (s +:+ str1 dquote)%string ∧ is_text_space d = false ∧ d ≠ ","%char ∧ d ≠ "*"%char.
Proof.
  intros [-> |[s ->]]; unfold etag; destruct weak; rewrite ?str_app_nil_l, ?str_app_nil_r.
  - exists "W"%char, ("/" +:+ String dquote opaque)%string. by rewrite !str_app_cons.
  - exists dquote, opaque. done.
  - exists "W"%char, ("/" +:+ String dquote (opaque +:+ str1 dquote +:+ s))%string. split; [|done]. rewrite !str_app_cons, !str_app_nil_l, !str_app_assoc. done.
  - exists dquote, (opaque +:+ str1 dquote +:+ s)%string. split; [|done]. rewrite !str_app_cons, !str_app_assoc. done.
Qed.

Lemma scan_opaque_spec opaque rest :
  str_forall is_etag_byte opaque = true → scan_opaque ((opaque +:+ str1 dquote) +:+ rest)%string = Some (opaque +:+ str1 dquote, rest)%string.
Proof.
  intros Ho. unfold scan_opaque. rewrite <- !str_app_assoc. by rewrite drop_while_stop, take_while_stop by done.
Qed.

Lemma scanETag_spec weak opaque rest :
  str_forall is_etag_byte opaque = true → ends_quoted rest → scanETag (etag weak opaque +:+ rest)%string = Some (etag weak opaque, rest).
Proof.
  intros Ho Hr. unfold scanETag. destruct (etag_shape weak opaque rest Hr) as (d & s & Es & Hd & _). rewrite Es, TrimString_id, <- Es by done.
  unfold etag. destruct weak; rewrite ?str_app_nil_l.
  - assert (HasPrefix (("W/" +:+ String dquote (opaque +:+ str1 dquote)) +:+ rest)%string "W/" = true) as -> by done.
    rewrite <- str_app_assoc. set (t := (String dquote (opaque +:+ str1 dquote) +:+ rest)%string).
    assert (String.substring 2 (String.length ("W/" +:+ t)) ("W/" +:+ t)%string = t) as ->.
    { change (String.substring 0 (S (S (String.length t))) t = t). apply substring_over. lia. }
    unfold t. rewrite str_app_cons, Ascii.eqb_refl, scan_opaque_spec by done. done.
  - rewrite str_app_cons. change (HasPrefix (String dquote ((opaque +:+ str1 dquote) +:+ rest))%string "W/") with false. cbv iota.
    rewrite Ascii.eqb_refl, scan_opaque_spec by done. done.
Qed.

Lemma Join_quoted e es : Forall well_formed (e :: es) → ∃ s, Join (e :: es) ", " = (s +:+ str1 dquote)%string.
Proof.
  revert e. induction es as [|e2 es IH]; intros e [(weak & o & _ & ->) Hes]%Forall_cons.
  - unfold etag. destruct weak; [exists ("W/" +:+ String dquote o)%string|exists (String dquote o)]; by rewrite ?str_app_nil_l.
  - rewrite Join_cons. destruct (IH e2 Hes) as [s ->]. exists (etag weak o +:+ ", " +:+ s)%string. by rewrite !str_app_assoc.
Qed.

Lemma etag_loop_step fuel m e rest :
  well_formed e → ends_quoted rest → etag_loop (S fuel) m (e +:+ rest)%string = if m e then true else etag_loop fuel m rest.
Proof.
  intros (weak & o & Ho & ->) Hr. destruct (etag_shape weak o rest Hr) as (d & s & Es & Hd & Hcomma & Hstar).
  pose proof (scanETag_spec weak o rest Ho Hr) as Hscan. rewrite Es in Hscan |- *. cbn [etag_loop]. rewrite TrimString_id by done.
  destruct d as [[][][][][][][][]]; try done; rewrite Hscan; done.
Qed.

Lemma etag_loop_comma fuel m s : ends_quoted s → etag_loop (S fuel) m (", " +:+ s)%string = etag_loop fuel m (" " +:+ s)%string.
Proof.
  intros [->|[s' ->]]; [by destruct fuel|]. cbn [etag_loop].
  replace (TrimString (", " +:+ (s' +:+ str1 dquote)))%string with (", " +:+ (s' +:+ str1 dquote))%string; [done|].
  symmetry. apply (TrimString_id ","%char (" " +:+ s')%string). done.
Qed.

Lemma etag_loop_space fuel m s : etag_loop fuel m (" " +:+ s)%string = etag_loop fuel m s.
Proof. by destruct fuel. Qed.

Lemma etag_loop_list fuel m es :
  Forall well_formed es → (2 * length es < fuel)%nat → etag_loop fuel m (Join es ", ") = existsb m es.
Proof.
  intros Hes. revert fuel. induction Hes as [|e es He Hes IH]; intros fuel Hf; [by destruct fuel|].
  destruct fuel as [|fuel]; [cbn in Hf; lia|]. destruct es as [|e2 es].
  - rewrite <- (str_app_nil_r (Join [e] ", ")). cbn [Join String.concat]. rewrite etag_loop_step by (done || by left).
    cbn. by destruct (m e), fuel.
  - rewrite Join_cons. destruct (Join_quoted e2 es Hes) as [s Es].
    rewrite etag_loop_step; [|done|right; exists (", " +:+ s)%string; by rewrite Es, str_app_assoc].
    cbn [existsb]. destruct (m e); [done|]. cbn [orb]. destruct fuel as [|fuel]; [cbn in Hf; lia|].
    rewrite etag_loop_comma, etag_loop_space by (right; by exists s). rewrite IH by (cbn in *; lia). done.
Qed.

Lemma etag_length weak o : (2 ≤ String.length (etag weak o))%nat.
Proof. unfold etag. rewrite str_length_app. cbn [String.length]. rewrite str_length_app. cbn [String.length str1]. lia. Qed.

(** What the conditions read in a list of entity tags. *)
Lemma etag_listed_list m es : Forall well_formed es → etag_listed m (Join es ", ") = existsb m es.
Proof.
  intros Hes. unfold etag_listed. apply etag_loop_list; [done|]. apply Nat.lt_succ_r.
  induction Hes as [|e es (weak & o & _ & ->) Hes IH]; [done|]. destruct es as [|e2 es].
  - pose proof (etag_length weak o). cbn [length Join String.concat]. lia.
  - rewrite Join_cons, !str_length_app. pose proof (etag_length weak o). cbn [length String.length] in *. lia.
Qed.

(** ** The fields of a hit *)

Definition canonical_names (hd : Header) : Prop := ∀ k, is_Some (hd !! k) → CanonicalHeaderKey k = k.

Lemma add_values key values hd k :
  default [] (foldl (λ h v, Add_ h key v) hd values !! k) =
  default [] (hd !! k) ++ if decide (CanonicalHeaderKey key = k) then values else [].
Proof.
  revert hd. induction values as [|v values IH]; intros hd; cbn [foldl]; [by case_decide; rewrite app_nil_r|].
  rewrite IH. unfold Add_, Values. case_decide as Hk; [|by rewrite lookup_insert_ne by done].
  subst k. rewrite lookup_insert_eq. simpl. by rewrite <- app_assoc.
Qed.

Lemma add_fields_list l hd k :
  NoDup l.*1 → (∀ name, name ∈ l.*1 → CanonicalHeaderKey name = name) →
  default [] (foldl (λ h '(key, values), foldl (λ h v, Add_ h key v) h values) hd l !! k) =
  default [] (hd !! k) ++ default [] ((list_to_map l : Header) !! k).
Proof.
  revert hd. induction l as [|[key values] l IH]; intros hd Hnd Hcan; [cbn [foldl list_to_map fmap list_fmap foldr]; by rewrite lookup_empty, app_nil_r|].
  cbn in Hnd, Hcan |- *. apply NoDup_cons in Hnd as [Hnot Hnd]. rewrite IH; [|done|intros; apply Hcan; by right].
  rewrite add_values, Hcan by by left. case_decide as Hk.
  - subst k. by rewrite lookup_insert_eq, (not_elem_of_list_to_map_1 l key Hnot), app_nil_r.
  - by rewrite app_nil_r, lookup_insert_ne.
Qed.

Lemma add_fields_values fields hd k :
  canonical_names fields → hd !! CanonicalHeaderKey k = None → Values (add_fields fields hd) k = Values fields k.
Proof.
  intros Hcan Hk. unfold Values, add_fields. rewrite add_fields_list.
  - by rewrite Hk, list_to_map_to_list.
  - apply NoDup_fst_map_to_list.
  - intros name ([k' v] & -> & Hin%elem_of_map_to_list)%list_elem_of_fmap. apply Hcan. by exists v.
Qed.

(** The fields a hit sets itself. *)
Definition served_fields : list string :=
  ["Age"; "Via"; "Warning"; "Last-Modified"; "Content-Type"; "Accept-Ranges"; "Content-Length"]%string.

Section Served.
Context `{D : HttpDate}.

Ltac other_field := rewrite ?Set_other, ?Add_other by done.

Lemma stored_fields_other h n res req age hd name : name ∉ served_fields → stored_fields h n res req age hd !! name = hd !! name.
Proof.
  intros Hn. unfold served_fields in Hn. rewrite !elem_of_cons in Hn.
  assert (name ≠ "Age" ∧ name ≠ "Via" ∧ name ≠ "Warning")%string as (? & ? & ?) by tauto.
  unfold stored_fields. cbv zeta. rewrite !Set_other by done. repeat case_match; by other_field.
Qed.

Lemma setLastModified_other hd modtime name : name ≠ "Last-Modified"%string → setLastModified hd modtime !! name = hd !! name.
Proof. intros Hn. unfold setLastModified. case_match; [done|]. by apply Set_other. Qed.
Lemma no_range method hd req modtime r : Get req "Range" = EmptyString → checkPreconditions method hd req modtime = inr r → r = EmptyString.
Proof. unfold checkPreconditions. intros ->. by repeat case_match; intros [= <-]. Qed.

Lemma precondition_status method hd req modtime status : checkPreconditions method hd req modtime = inl status → status = 304 ∨ status = 412.
Proof. unfold checkPreconditions. intros Hp. repeat case_match; simplify_eq; auto. Qed.

Lemma w_body_sent b (c : client) status hd :
  cl_sent c = Some (status, hd) → bodyAllowedForStatus status = true →
  cl_sent (w_body b c) = Some (status, hd) ∧ cl_body (w_body b c) = if cl_accepts c (cl_body c) b then (cl_body c +:+ b)%string else cl_body c.
Proof.
  intros Hs Hok. unfold w_body. destruct (nonempty b) eqn:E.
  - rewrite (Write_again _ _ _ _ Hs), Hok. cbn [andb]. by destruct (cl_accepts c _ b).
  - destruct b; [|done]. rewrite str_app_nil_r. by destruct (cl_accepts c _ _).
Qed.

(** [ServeContent] without a range, at a client that has been sent nothing. *)
Lemma ServeContent_answer `{CL : ContentLibrary} req modtime content (c : client) :
  cl_sent c = None → cl_body c = EmptyString → Get (req_Header req) "Range" = EmptyString →
  let c' := ServeContent req modtime content c in
  let hd := setLastModified (cl_live c) modtime in
  match checkPreconditions (req_Method req) hd (req_Header req) modtime with
  | inl status => cl_sent c' = Some (status, conditionHeader status hd) ∧ cl_body c' = EmptyString
  | inr _ => ∃ header, cl_sent c' = Some (200, header) ∧
      cl_body c' = (if (req_Method req <>?s "HEAD") && cl_accepts c EmptyString content then content else EmptyString) ∧
      ∀ name, name ∉ served_fields → header !! name = hd !! name
  end.
Proof.
  intros Hs Hb Hr c' hd. unfold c', ServeContent.
  change (w_Header (w_edit (λ h, setLastModified h modtime) c)) with hd.
  destruct (checkPreconditions _ hd _ _) as [status|range] eqn:E.
  { assert (informational status = false) as Hi by (by destruct (precondition_status _ _ _ _ _ E) as [-> | ->]).
    cbn. unfold client_WriteHeader. cbn. by rewrite Hs, Hi. }
  rewrite (no_range _ _ _ _ _ Hr E). cbn [parseRange nonempty negb]. cbv zeta.
  set (c1 := match hd !! "Content-Type"%string with Some _ => _ | None => _ end).
  assert (wire c1 = (None, EmptyString, cl_informational c) ∧ cl_accepts c1 = cl_accepts c ∧
    ∀ name, name ∉ served_fields → cl_live c1 !! name = hd !! name) as (Hw1 & Ha1 & Hl1).
  { unfold c1. destruct (hd !! "Content-Type"%string); cbn; unfold wire; cbn; rewrite Hs, Hb; split_and!; try done.
    intros name Hn. unfold served_fields in Hn. rewrite !elem_of_cons in Hn. apply Set_other; [done|tauto]. }
  clearbody c1. cbn [sumRangesSize foldr length]. replace (str_len content <? 0) with false by (symmetry; apply Z.ltb_ge; unfold str_len; lia).
  cbn iota. set (c2 := if _ || _ then _ else _).
  assert (wire c2 = (None, EmptyString, cl_informational c) ∧ cl_accepts c2 = cl_accepts c ∧
    ∀ name, name ∉ served_fields → cl_live c2 !! name = hd !! name) as (Hw2 & Ha2 & Hl2).
  { unfold c2. destruct (_ || _); (split; [done|]; split; [done|]); intros name Hn; rewrite <- (Hl1 name Hn);
      unfold served_fields in Hn; rewrite !elem_of_cons in Hn; cbn; rewrite ?Set_other by (done || tauto); done. }
  clearbody c2. injection Hw2 as Hs2 Hb2 _. exists (cl_live c2).
  assert (cl_sent (w_WriteHeader 200 c2) = Some (200, cl_live c2) ∧ cl_body (w_WriteHeader 200 c2) = EmptyString ∧
    cl_accepts (w_WriteHeader 200 c2) = cl_accepts c) as (Hs3 & Hb3 & Ha3) by (cbn; unfold client_WriteHeader; by rewrite Hs2).
  destruct (req_Method req =?s "HEAD"); cbn [negb andb]; [by rewrite Hs3, Hb3|].
  destruct (w_body_sent content _ _ _ Hs3 eq_refl) as [-> ->]. rewrite Hb3, Ha3, str_app_nil_l. done.
Qed.
End Served.

(** ** Conditions, in the terms of RFC 9110 *)

Inductive tag_list := AnyTag | Tags (es : list string).

(** The conditions a request states; a date that does not parse is none. *)
Record request_conditions := {
  if_match : option tag_list;
  if_none_match : option tag_list;
  if_unmodified_since : option Time;
  if_modified_since : option Time;
}.

Definition tags_field (ts : option tag_list) : string :=
  match ts with None => EmptyString | Some AnyTag => "*" | Some (Tags es) => Join es ", " end.
Definition tags_ok (ts : option tag_list) : Prop := match ts with Some (Tags es) => es ≠ [] ∧ Forall well_formed es | _ => True end.
Definition tags_match (m : string → bool) (ts : tag_list) : bool := match ts with AnyTag => true | Tags es => existsb m es end.

Definition date_field `{HttpDate} (hd : Header) (name : string) : option Time :=
  if nonempty (Get hd name) then ParseTime (Get hd name) else None.

(** The header fields of a request that state [q]. *)
Record asks_for `{HttpDate} (hd : Header) (q : request_conditions) : Prop := {
  ask_match : Get hd "If-Match" = tags_field (if_match q) ∧ tags_ok (if_match q);
  ask_none_match : Get hd "If-None-Match" = tags_field (if_none_match q) ∧ tags_ok (if_none_match q);
  ask_unmodified : date_field hd "If-Unmodified-Since" = if_unmodified_since q;
  ask_modified : date_field hd "If-Modified-Since" = if_modified_since q;
}.

(** What a GET or HEAD for a stored 200 is answered: the order of the conditions
    (RFC 9110, 13.2.2), strong and weak comparison, dates to the second. *)
Definition conditional_status (etag : string) (modified : option Time) (q : request_conditions) : Z :=
  let failed :=
    match if_match q with
    | Some ts => negb (tags_match (λ e, etagStrongMatch e etag) ts)
    | None => match if_unmodified_since q, modified with Some t, Some m => t <? m | _, _ => false end
    end in
  let held :=
    match if_none_match q with
    | Some ts => tags_match (λ e, etagWeakMatch e etag) ts
    | None => match if_modified_since q, modified with Some t, Some m => m <=? t | _, _ => false end
    end in
  if failed then 412 else if held then 304 else 200.

(** The instant of the last change, where one is known. *)
Definition modified_at (t : Time) : option Time := if isZeroTime t then None else Some (truncate_second t).

Lemma tags_field_nonempty ts : tags_ok (Some ts) → nonempty (tags_field (Some ts)) = true.
Proof.
  destruct ts as [|[|e es]]; [done|by intros []|]. intros [_ Hes]. cbn [tags_field]. destruct (Join_quoted e es Hes) as [s ->]. by destruct s.
Qed.

Lemma tags_field_listed m ts : tags_ok (Some ts) → etag_listed m (tags_field (Some ts)) = tags_match m ts.
Proof. destruct ts as [|es]; [done|]. intros [_ Hes]. by apply etag_listed_list. Qed.

(** What the conditions of a request decide. *)
Lemma conditions_decide `{D : HttpDate} method hd req modtime q :
  method = "GET"%string ∨ method = "HEAD"%string → asks_for req q →
  match checkPreconditions method hd req modtime with
  | inl status => status = conditional_status (Get hd "Etag") (modified_at modtime) q ∧ status ≠ 200
  | inr _ => conditional_status (Get hd "Etag") (modified_at modtime) q = 200
  end.
Proof.
  intros Hm [[Him Hmok] [Hinm Hnok] Hius Hims]. unfold date_field in Hius, Hims.
  assert ((method =?s "GET") || (method =?s "HEAD") = true) as Hgh by (by destruct Hm as [->| ->]).
  assert ((method <>?s "GET") && (method <>?s "HEAD") = false) as Hgh' by (by destruct Hm as [->| ->]).
  set (etag := Get hd "Etag"). unfold conditional_status, modified_at.
  assert (checkIfMatch hd req = match if_match q with Some ts => cond (tags_match (λ e, etagStrongMatch e etag) ts) | None => condNone end) as E1.
  { unfold checkIfMatch. rewrite Him. destruct (if_match q) as [ts|]; [|done]. by rewrite tags_field_nonempty, tags_field_listed. }
  assert (checkIfNoneMatch hd req = match if_none_match q with Some ts => cond (negb (tags_match (λ e, etagWeakMatch e etag) ts)) | None => condNone end) as E2.
  { unfold checkIfNoneMatch. rewrite Hinm. destruct (if_none_match q) as [ts|]; [|done]. by rewrite tags_field_nonempty, tags_field_listed. }
  assert (checkIfUnmodifiedSince req modtime = match if_unmodified_since q, (if isZeroTime modtime then None else Some (truncate_second modtime)) with
    Some t, Some m => cond (m <=? t) | _, _ => condNone end) as E3.
  { unfold checkIfUnmodifiedSince. rewrite <- Hius. destruct (nonempty _), (isZeroTime modtime); cbn [negb orb]; repeat case_match; done. }
  assert (checkIfModifiedSince method req modtime = match if_modified_since q, (if isZeroTime modtime then None else Some (truncate_second modtime)) with
    Some t, Some m => cond (negb (m <=? t)) | _, _ => condNone end) as E4.
  { unfold checkIfModifiedSince. rewrite Hgh', <- Hims. destruct (nonempty _), (isZeroTime modtime); cbn [negb orb]; repeat case_match; done. }
  unfold checkPreconditions. rewrite E1, E2, E3, E4, Hgh. set (m := if isZeroTime modtime then None else _).
  clearbody m. clear.
  destruct (if_match q) as [ts1|]; [generalize (tags_match (λ e, etagStrongMatch e etag) ts1)|];
    (destruct (if_none_match q) as [ts2|]; [generalize (tags_match (λ e, etagWeakMatch e etag) ts2)|]);
    (destruct (if_unmodified_since q) as [t1|], (if_modified_since q) as [t2|], m as [m'|]); intros; rewrite ?Z.ltb_antisym;
    repeat match goal with
    | b : bool |- _ => destruct b
    | |- context [m' <=? ?t] => destruct (m' <=? t)
    end; first [reflexivity | by split].
Qed.

(** An origin that sends a final status, after informational ones or none. *)
Fixpoint sends_final (u : script) : Prop :=
  match u with
  | Return | Body _ _ => True
  | Abort => False
  | Edit _ u => sends_final u
  | Status code u => 200 ≤ code ∨ informational code = true ∧ sends_final u
  end.

Lemma exchange_settled u header got chunks :
  ex_status (exchange_serve u header (Some got) chunks) = fst got ∧ ex_snapshot (exchange_serve u header (Some got) chunks) = snd got.
Proof.
  revert header chunks. induction u as [| |f u IH|code u IH|b k IH]; intros header chunks; cbn [exchange_serve].
  - by destruct got.
  - by destruct got.
  - apply IH.
  - unfold exchange_WriteHeader. destruct (code <? 200); apply IH.
  - apply IH.
Qed.

(** [Validate] sees the status of the exchange. *)
Lemma validation_settled u header got status h : got ≠ 0 → validation_serve u header got = Some (status, h) → status = got.
Proof.
  intros Hg. revert header. induction u as [| |f u IH|code u IH|b k IH]; intros header E; cbn [validation_serve] in E.
  - by injection E as <- _.
  - done.
  - by eapply IH.
  - unfold vr_WriteHeader in E. rewrite (proj2 (Z.eqb_neq got 0) Hg), orb_true_r in E. by eapply IH.
  - unfold vr_Write in E. rewrite (proj2 (Z.eqb_neq got 0) Hg) in E. by eapply IH.
Qed.

Lemma validation_status u header chunks status h :
  validation_serve u header 0 = Some (status, h) → status ≠ 0 → ex_status (exchange_serve u header None chunks) = status.
Proof.
  revert header chunks. induction u as [| |f u IH|code u IH|b k IH]; intros header chunks E Hs; cbn [validation_serve exchange_serve] in *.
  - by injection E as <- _.
  - done.
  - by apply IH.
  - unfold vr_WriteHeader, exchange_WriteHeader in *. rewrite orb_false_r in E. destruct (Z.ltb_spec code 200); [by apply IH|].
    destruct (exchange_settled u header (code, header) chunks) as [-> _]. apply validation_settled in E; [done|lia].
  - destruct (exchange_settled (k true) header (200, header) (chunks ++ [b])) as [H1 _]. unfold exchange_WriteHeader. cbn in H1 |- *. rewrite H1.
    by apply validation_settled in E.
Qed.

Lemma exchange_sent u c :
  sends_final u → cl_sent c = None → ∀ chunks,
  cl_sent (serve_upstream u c) = Some (ex_status (exchange_serve u (cl_live c) None chunks), ex_snapshot (exchange_serve u (cl_live c) None chunks)).
Proof.
  revert c. induction u as [| |f u IH|code u IH|b k IH]; intros c Hu Hc chunks; cbn [exchange_serve serve_upstream sends_final] in *.
  - cbn. unfold client_WriteHeader. by rewrite Hc.
  - done.
  - by apply (IH (client_edit f c)).
  - unfold exchange_WriteHeader. destruct (code <? 200) eqn:E.
    + apply Z.ltb_lt in E. destruct Hu as [?|[Hinfo Hu]]; [lia|]. cbn [w_WriteHeader client_writer]. unfold client_WriteHeader. rewrite Hc, Hinfo.
      match goal with |- cl_sent (serve_upstream _ ?x) = _ => by apply (IH x) end.
    + apply Z.ltb_ge in E. assert (informational code = false) as Hi by (unfold informational; rewrite (proj2 (Z.leb_gt code 199)) by lia; by rewrite andb_false_r).
      destruct (exchange_settled u (cl_live c) (code, cl_live c) chunks) as [-> ->]. apply serve_sent. cbn. unfold client_WriteHeader. by rewrite Hc, Hi.
  - change (exchange_WriteHeader 200 (cl_live c) None) with (Some (200, cl_live c)).
    destruct (exchange_settled (k true) (cl_live c) (200, cl_live c) (chunks ++ [b])) as [-> ->].
    rewrite <- (Write_implies_200 (W := client)).
    assert (cl_sent (w_WriteHeader 200 c) = Some (200, cl_live c)) as Hs by (cbn; unfold client_WriteHeader; by rewrite Hc).
    rewrite (Write_again _ _ _ _ Hs). destruct (_ && _); by apply serve_sent.
Qed.

(** ** Theorems *)

Section Theorems.
Context `{D : HttpDate, U : Unicode, P : UrlParser} (h : Handler).

(** A validation captures the answer of the origin: the status and headers
    that a client of the origin would be sent, whatever informational statuses
    come first. *)
Theorem exchange_captures_origin u accepts :
  sends_final u →
  cl_sent (serve_upstream u (new_client accepts)) = Some (ex_status (capture u), ex_snapshot (capture u)).
Proof. intros Hu. by apply (exchange_sent u (new_client accepts)). Qed.

(** C14: a full response to a validation is delivered under the conditions of
    the client that asked, and stored whole whether they let it through or not.
    The client is sent what [ServeContent] would answer to its conditions: a
    success that meets them with the status, header and body of the origin
    (what its connection takes of it), one that fails them as a bodyless 304 or
    412.  A staging budget changes [X-Cache], [Age], [Proxy-Date] and the
    framing fields and announced trailers, nothing else.  The response is
    published exactly when the policy lets it be staged, the staging file can
    be created, filled and rewound, the origin ended its body without an error,
    the handler is not closing, and the client took the whole body or was not
    sent any; and then it is every byte of it. *)
Theorem conditional_delivery n stage l gone storageReq original ex t c :
  cl_sent c = None → cl_body c = EmptyString → informational (ex_status ex) = false →
  let '(c', effects) := deliverValidationExchange h n stage l gone storageReq original ex t c in
  let captured := ex_snapshot ex ∪ Set_ (cl_live c) CacheHeader "MISS" in
  let content := String.concat EmptyString (ex_chunks ex) in
  let '(status, header, body) := conditional_answer original (ex_status ex) captured in
  let '(whole, bytes) := if body then taken (λ a b, bodyAllowedForStatus status && cl_accepts c a b) EmptyString (ex_chunks ex) else (true, EmptyString) in
  (∃ header', cl_sent c' = Some (status, header') ∧ (hasStagingBudget h = false → header' = header) ∧
     ∀ name, name ∉ deferred_fields → HasPrefix name TrailerPrefix = false → header' !! name = header !! name) ∧
  cl_body c' = bytes ∧
  ((∃ res requested keys, Publish res requested keys ∈ effects) ↔
     canStageResponse (at_maxAge n) (at_heuristic n) h (set_requestTime t (NewResourceBytes (ex_status ex) EmptyString captured)) storageReq = true ∧
     stage_opens stage = true ∧ stage_takes stage content = true ∧ stage_rewinds stage = true ∧
     ex_complete ex = true ∧ whole = true ∧ closing l = false) ∧
  ∀ res requested keys, Publish res requested keys ∈ effects → r_body res = content ∧ r_statusCode res = ex_status ex.
Proof.
  intros Hsent Hbody Hinfo. unfold deliverValidationExchange.
  pose proof (exchange_published h n stage l storageReq ex t (newClientPreconditionWriter c original)) as Hpub.
  destruct (exchange_passed h n stage l storageReq ex t (newClientPreconditionWriter c original)) as (hd & res0 & Hno & Hag & Hrb & Hrs & Hpass). cbv zeta in Hpass.
  pose proof (exchange_wire h original ex c hd Hsent Hbody Hinfo) as Hwire. cbv zeta in Hwire.
  assert (exchange_header ex (newClientPreconditionWriter c original) = ex_snapshot ex ∪ Set_ (cl_live c) CacheHeader "MISS") as Ecap
    by (unfold exchange_header; rewrite newClient_unconditional; by destruct (has_condition original)).
  rewrite Ecap in Hno, Hag, Hpass. destruct (pass_stream _ _ _ _ _ _ _ _) as [rw effects]. cbn beta iota zeta.
  destruct Hpass as [Hed Heff]. cbn [fst snd] in Hpub. set (captured := ex_snapshot ex ∪ _) in *. set (content := String.concat _ _) in *.
  pose proof (agree_answer original (ex_status ex) hd captured Hag) as Hagree.
  pose proof (f_equal (conditional_answer original (ex_status ex))) as Hsame. specialize (Hsame hd captured).
  destruct (conditional_answer original (ex_status ex) captured) as [[status header] body].
  destruct (conditional_answer original (ex_status ex) hd) as [[status1 header1] body1]. destruct Hagree as (-> & -> & Hag').
  destruct (if body then _ else _) as [whole bytes]. destruct Hwire as [Hwhole Hwire].
  destruct (Hwire _ Hed) as (header' & H1 & H2 & H3 & H4). rewrite Hwhole in Heff.
  set (cw := if hasStagingBudget h then _ else _) in *. set (cw' := if _ || _ then cw else _).
  assert (wire (innermost cw') = wire (innermost cw)) as Hcw.
  { unfold cw'. destruct (_ || _); [done|]. unfold finishValidationTrailers. destruct cw as [c1|pw]; [done|].
    cbn [w_edit either_writer innermost]. by rewrite finishTrailers_wire. }
  split; [|split; [|split]].
  - exists header'. split; [rewrite <- H1; exact (f_equal (λ x, x.1.1) Hcw)|]. split.
    + intros Hb. rewrite (H3 Hb). by injection (Hsame (Hno Hb)).
    + intros name Hn Ht. rewrite (H4 name Hn Ht). by apply Hag'.
  - rewrite <- H2. exact (f_equal (λ x, x.1.2) Hcw).
  - rewrite Heff. destruct (canStageResponse _ _ _ _ _); cbn [andb].
    2: { split; [intros (res & at_ & keys & Hin); by apply list_elem_of_singleton in Hin|by intros [? _]]. }
    destruct (stage_opens stage), whole, (ex_complete ex), (stage_takes stage content), (stage_rewinds stage); cbn [andb];
      try (split; [intros (res & at_ & keys & Hin); by apply list_elem_of_singleton in Hin|by intros (_ & ? & ? & ? & ? & ? & _)]).
    unfold storeResource, beginWrite. destruct (closing l); cbn [fst negb].
    + split; [intros (res & at_ & keys & Hin); by apply list_elem_of_singleton in Hin|by intros (_ & _ & _ & _ & _ & _ & ?)].
    + split; [done|]. intros _. eexists _, _, _. by left.
  - intros res requested keys Hin. by destruct (Hpub res requested keys Hin) as (_ & ? & ? & _).
Qed.

(** C28: what a stored 200 is answered with.  A GET or HEAD without a range is
    answered as its conditions decide, in the order of RFC 9110: 412 when its
    [If-Match] lists no tag that matches the stored [Etag] strongly, or without
    one when the response changed after [If-Unmodified-Since]; then 304 when
    its [If-None-Match] lists one that matches weakly (or is a star), or
    without one when the response did not change after [If-Modified-Since];
    200 otherwise.  With 200 a GET gets the stored body, whole (or nothing, when
    its connection drops the write), a HEAD and the other statuses none; every
    field but the ones serving sets, those already set on the client's header
    and the [Content-Encoding] a 304 drops, is the stored one.  The tags are well formed and listed with commas; the
    age of the response can be computed (else the answer is 500). *)
Theorem hit_answers_conditions `{CL : ContentLibrary} n age_error res req age c q :
  cl_sent c = None → cl_body c = EmptyString → cl_live c !! "Etag"%string = None →
  (req_Method (cr_Request req) = "GET"%string ∨ req_Method (cr_Request req) = "HEAD"%string) →
  r_statusCode res = 200 → Age (on_age n) res = Some age → canonical_names (r_header res) →
  Get (req_Header (cr_Request req)) "Range" = EmptyString → asks_for (req_Header (cr_Request req)) q →
  let c' := serveResource h n age_error res req c in
  let status := conditional_status (Get (r_header res) "Etag") (modified_at (LastModified res)) q in
  ∃ header, cl_sent c' = Some (status, header) ∧
    cl_body c' = (if (status =? 200) && (req_Method (cr_Request req) =?s "GET") && cl_accepts c EmptyString (r_body res) then r_body res else EmptyString) ∧
    ∀ name, CanonicalHeaderKey name ∉ served_fields → cl_live c !! CanonicalHeaderKey name = None →
      (status = 304 → CanonicalHeaderKey name ≠ "Content-Encoding"%string) → Values header name = Values (r_header res) name.
Proof.
  intros Hs Hb Hl Hm Hst Hage Hcan Hr Hq c' status. unfold c', serveResource. rewrite Hage, Hst. cbn [Z.eqb Pos.eqb negb].
  set (c1 := w_edit (stored_fields h n res req age) (w_edit (add_fields (r_header res)) c)).
  set (hd := setLastModified (cl_live c1) (LastModified res)).
  assert (∀ name, CanonicalHeaderKey name ∉ served_fields → cl_live c !! CanonicalHeaderKey name = None → Values hd name = Values (r_header res) name) as Hval.
  { intros name Hn Hlive. rewrite <- (add_fields_values (r_header res) (cl_live c) name Hcan Hlive). unfold Values. f_equal.
    unfold hd. rewrite setLastModified_other; [apply stored_fields_other, Hn|]. unfold served_fields in Hn. rewrite !elem_of_cons in Hn. tauto. }
  pose proof (ServeContent_answer (cr_Request req) (LastModified res) (r_body res) c1 Hs Hb Hr) as Hserve. cbv zeta in Hserve. fold hd in Hserve.
  pose proof (conditions_decide (req_Method (cr_Request req)) hd (req_Header (cr_Request req)) (LastModified res) q Hm Hq) as Hdec.
  assert (Get hd "Etag" = Get (r_header res) "Etag") as Het by (unfold Get; rewrite Hval; [done|apply (bool_decide_unpack _); vm_compute; exact I|exact Hl]).
  rewrite Het in Hdec. fold status in Hdec. destruct (checkPreconditions _ _ _ _) as [st|range] eqn:Ech.
  - destruct Hdec as [-> Hne]. destruct Hserve as [H1 H2]. exists (conditionHeader status hd). split; [exact H1|].
    rewrite (proj2 (Z.eqb_neq status 200) Hne). split; [exact H2|]. intros name Hn Hlive H304. rewrite <- Hval by done.
    unfold conditionHeader. destruct (Z.eqb_spec status 304) as [E|]; [|done]. specialize (H304 E).
    unfold served_fields in Hn. rewrite !elem_of_cons in Hn. unfold notModifiedHeader, Values. f_equal. cbv zeta.
    case_match; rewrite !lookup_delete_ne by (intros Hx; symmetry in Hx; tauto); done.
  - destruct Hserve as (header & H1 & H2 & H3). rewrite Hdec. exists header. split; [exact H1|]. cbn [Z.eqb Pos.eqb andb]. split.
    + rewrite H2. by destruct Hm as [->| ->].
    + intros name Hn Hlive _. rewrite <- Hval by done. unfold Values. by rewrite H3.
Qed.
End Theorems.

(** ** Witnesses *)

#[local] Existing Instance stamp_date.
#[local] Existing Instance latin1_print.
#[local] Existing Instance http_parser.

Definition plain_library : ContentLibrary := {| DetectContentType _ := "text/plain; charset=utf-8"; multipart _ body := ("multipart/byteranges"%string, body) |}.
#[local] Existing Instance plain_library.

Definition tag (v : string) : string := etag false v.
Definition holding (v : string) : Request := with_header (get_of (example_url "/item" "")) {[ "If-None-Match" := [tag v] ]}%string.

(** A full answer to a validation: a new representation, in two chunks. *)
Definition new_version : exchange :=
  {| ex_status := 200; ex_snapshot := {[ "Etag" := [tag "v2"]; "Cache-Control" := ["max-age=60"] ]}%string; ex_header := ∅;
     ex_chunks := ["new "; "body"]%string; ex_complete := true |}.
Definition replaced_run (h : Handler) := deliverValidationExchange h one_instant roomy no_shutdown false get_item (holding "v2") new_version example_now connected.

(** The client holds the new version: it is told so, and the cache stores it,
    with and without a staging budget. *)
Definition told_and_stored (h : Handler) : Prop :=
  (∃ header, cl_sent (replaced_run h).1 = Some (304, header)) ∧ cl_body (replaced_run h).1 = EmptyString ∧
  ∃ res requested keys, Publish res requested keys ∈ (replaced_run h).2.

Lemma conditional_delivery_witness : told_and_stored private_cache ∧ told_and_stored {| Shared := false; hasStagingBudget := true |}.
Proof.
  enough (∀ h, h = private_cache ∨ h = {| Shared := false; hasStagingBudget := true |} → told_and_stored h) as Hall by (split; apply Hall; auto).
  intros h Hh.
  pose proof (conditional_delivery h one_instant roomy no_shutdown false get_item (holding "v2") new_version example_now connected
    eq_refl eq_refl eq_refl) as Hd.
  fold (replaced_run h) in Hd. rewrite (surjective_pairing (replaced_run h)) in Hd. cbv zeta in Hd.
  destruct (conditional_answer _ _ _) as [[status header] body] eqn:E.
  assert (status = 304 ∧ body = false) as [-> ->].
  { assert ((conditional_answer (holding "v2") (ex_status new_version) (ex_snapshot new_version ∪ Set_ (cl_live connected) CacheHeader "MISS")).1.1 = 304 ∧
      (conditional_answer (holding "v2") (ex_status new_version) (ex_snapshot new_version ∪ Set_ (cl_live connected) CacheHeader "MISS")).2 = false) as [H1 H2]
      by (split; vm_compute; reflexivity). rewrite E in H1, H2. by split. }
  destruct Hd as ((header' & Hs & _) & Hb & Hpub & _). split; [by exists header'|]. split; [exact Hb|].
  apply Hpub. split; [destruct Hh as [->| ->]; vm_compute; reflexivity|]. by split_and!.
Defined.

Lemma exchange_captures_origin_witness :
  let u := Status 103 (Status 404 (Body "gone" (λ _, Return))) in
  cl_sent (serve_upstream u connected) = Some (ex_status (capture u), ex_snapshot (capture u)) ∧ ex_status (capture u) = 404.
Proof.
  intros u. split; [|reflexivity]. apply (exchange_captures_origin u). right. split; [reflexivity|]. left. discriminate.
Defined.

(** A stored response and two clients: one holds it, the other an older one. *)
Definition stored_item : Resource :=
  NewResourceBytes 200 "body" {[ "Etag" := [tag "v2"]; "Date" := [FormatTime example_now] ]}%string.
Definition five_instants : serve_clock :=
  {| on_age := example_now + minute; on_heuristic := example_now + minute; on_f1 := example_now + minute; on_f2 := example_now + minute; on_f3 := example_now + minute |}.
Definition asks (v : string) : cacheRequest := as_cache_request (holding v).

Lemma tag_well_formed v : str_forall is_etag_byte v = true → Forall well_formed [tag v].
Proof. intros Hv. apply Forall_singleton. exists false, v. split; [exact Hv|reflexivity]. Qed.

Definition if_other (v : string) : request_conditions :=
  {| if_match := None; if_none_match := Some (Tags [tag v]); if_unmodified_since := None; if_modified_since := None |}.

Lemma asks_holding v : str_forall is_etag_byte v = true → asks_for (req_Header (holding v)) (if_other v).
Proof.
  intros Hv. split; [split; [vm_compute; reflexivity|exact I]| |vm_compute; reflexivity|vm_compute; reflexivity].
  split; [unfold Get, Values, holding; cbn; by rewrite ?lookup_singleton_eq|]. split; [done|by apply tag_well_formed].
Qed.

Lemma hit_answers_conditions_witness :
  (∃ header, cl_sent (serveResource private_cache five_instants "none" stored_item (asks "v2") connected) = Some (304, header)) ∧
  cl_body (serveResource private_cache five_instants "none" stored_item (asks "v1") connected) = "body"%string.
Proof.
  assert (Age (on_age five_instants) stored_item = Some minute) as Hage by (vm_compute; reflexivity).
  assert (canonical_names (r_header stored_item)) as Hcan.
  { intros k [v Hv]. cbn in Hv. apply lookup_insert_Some in Hv as [[<- _]|[_ Hv]]; [reflexivity|].
    by apply lookup_singleton_Some in Hv as [<- _]. }
  split.
  - destruct (hit_answers_conditions private_cache five_instants "none" stored_item (asks "v2") minute connected (if_other "v2")
      ltac:(reflexivity) ltac:(reflexivity) ltac:(reflexivity) ltac:(by left) ltac:(reflexivity) Hage Hcan
      ltac:(vm_compute; reflexivity) (asks_holding "v2"%string ltac:(reflexivity))) as (header & Hs & _).
    exists header. rewrite Hs. vm_compute. reflexivity.
  - destruct (hit_answers_conditions private_cache five_instants "none" stored_item (asks "v1") minute connected (if_other "v1")
      ltac:(reflexivity) ltac:(reflexivity) ltac:(reflexivity) ltac:(by left) ltac:(reflexivity) Hage Hcan
      ltac:(vm_compute; reflexivity) (asks_holding "v1"%string ltac:(reflexivity))) as (header & _ & Hb & _).
    rewrite Hb. vm_compute. reflexivity.
Defined.

(** [Validate] compares the header map the upstream leaves, not the one it sent:
    a field set after the 304 changes its verdict, and the exchange of the
    request path does not see that field. *)
Definition late_edit : script := Edit (λ h, Set_ h "Etag" "a") (Status 304 (Edit (λ h, Set_ h "Etag" "b") Return)).
Definition tagged : Resource := NewResourceBytes 200 "item" (Set_ ∅ "Etag" "a").

Example late_field_is_compared :
  let n := example_now in
  Validator_Validate (λ _, late_edit) n n n n false false n (cr_Request get_item) tagged = None ∧
  is_Some (applyValidationResponse n n n n false tagged (ex_status (capture late_edit)) (ex_snapshot (capture late_edit)) n).
Proof. split; [vm_compute; reflexivity|]. vm_compute. eexists. reflexivity. Qed.
