(* ===== verification/Lifecycle.v ===== *)
(** * The life of a cache and of what it hands out ([cache.go], [cache_provenance.go])

    The constructors over a virtual file system, in memory or below a
    directory; the cleanup goroutine, which runs until [Close] and is joined by
    it, whatever the application calls at the same time; and the open files
    that a retrieved resource keeps until it is closed. *)

From S2P Require Import Prelude GoStrings GoTime GoQuote GoHttp CacheControl Keys Resource Policy Validator Config Vfs CacheState Ledger Admission Markers StoredHeader Staged Startup Metrics.

(** ** Constructors *)

Section Constructors.
Context `{V : VFS, O : !OsFiles V, F : !VfsDirs V, J : MarkerJSON, D : HttpDate, R : RecordText}.
(** [vfs.Memory()]; [filepath.Abs]; [os.MkdirAll]; [vfs.FS] and [vfs.Chroot]. *)
Context (Memory : fs_state) (Abs : string → option string) (MkdirAll : string → bool) (FS : string → option fs_state)
  (Chroot : fs_state → option fs_state).

Definition NewMemoryCacheWithConfig (cfg : option CacheConfig) (now : Time) : cache := NewVFSCacheWithConfig Memory cfg now.
Definition NewMemoryCache (now : Time) : cache := NewVFSCache Memory now.

(** [None] is an error. *)
Definition NewDiskCacheWithConfig (dir : string) (cfg : option CacheConfig) (now : Time) : option cache :=
  root ← Abs dir;
  if MkdirAll root then
    fs ← FS root;
    fs ← Chroot fs;
    Some (newVFSCacheWithConfig fs cfg root now)
  else None.
Definition NewDiskCache (dir : string) (now : Time) : option cache := NewDiskCacheWithConfig dir None now.
End Constructors.

(** ** The cleanup goroutine and [Close] *)

(** What a cleanup records: its duration, and the statistics after it. *)
Definition cleanup_recordings `{V : VFS} (start finish : Time) (c : cache) : list recording :=
  [RecordedCleanup (Seconds (Sub finish start)); RecordedStats (Stats c)].

(** [cleanupLoop]: none was started, it waits in its [select], it returned. *)
Inductive loop := NoLoop | Selecting | LoopEnded.
(** [closeOnce] *)
Inductive once := Unused | Running | Used.
(** A call of [Close]: before [Do], in its function waiting for [cleanupDone],
    returned. *)
Inductive closer := Entering | Joining | Returned.

Section Running.
Context `{V : VFS, J : MarkerJSON, O : !OsFiles V} `{R : Metrics M}.

(** [crashed]: a goroutine panicked, on a recorder or on a closed channel. *)
Record running := {
  rn_cache : cache;
  rn_metrics : M;
  rn_loop : loop;
  rn_stopChan : bool;      (* closed *)
  rn_cleanupDone : bool;   (* closed *)
  rn_once : once;
  rn_closers : list closer;
  rn_crashed : bool;
}.

(** The end of [newVFSCacheWithConfig]. *)
Definition start_cleanup (c : cache) (m : M) : running :=
  let loops := 0 <? CleanupInterval (config c) in
  {| rn_cache := c; rn_metrics := m; rn_loop := if loops then Selecting else NoLoop; rn_stopChan := false; rn_cleanupDone := negb loops;
     rn_once := Unused; rn_closers := []; rn_crashed := false |}.

Definition with_closers (l : list closer) (s : running) : running :=
  {| rn_cache := rn_cache s; rn_metrics := rn_metrics s; rn_loop := rn_loop s; rn_stopChan := rn_stopChan s; rn_cleanupDone := rn_cleanupDone s;
     rn_once := rn_once s; rn_closers := l; rn_crashed := rn_crashed s |}.

(** A tick of the ticker: [Cleanup], which records. *)
Definition cleanup_tick (start finish : Time) (s : running) : running :=
  let c := (Markers.Cleanup start (rn_cache s)).2 in
  let m := record_all (cleanup_recordings start finish c) (rn_metrics s) in
  {| rn_cache := c; rn_metrics := default (rn_metrics s) m; rn_loop := rn_loop s; rn_stopChan := rn_stopChan s;
     rn_cleanupDone := rn_cleanupDone s; rn_once := rn_once s; rn_closers := rn_closers s;
     rn_crashed := match m with Some _ => rn_crashed s | None => true end |}.

(** The loop returns: the deferred [close(c.cleanupDone)]. *)
Definition loop_return (s : running) : running :=
  {| rn_cache := rn_cache s; rn_metrics := rn_metrics s; rn_loop := LoopEnded; rn_stopChan := rn_stopChan s; rn_cleanupDone := true;
     rn_once := rn_once s; rn_closers := rn_closers s; rn_crashed := rn_crashed s || rn_cleanupDone s |}.

(** The function of [closeOnce.Do], up to its wait, and its end. *)
Definition close_begin (i : nat) (s : running) : running :=
  {| rn_cache := rn_cache s; rn_metrics := rn_metrics s; rn_loop := rn_loop s; rn_stopChan := true; rn_cleanupDone := rn_cleanupDone s;
     rn_once := Running; rn_closers := <[i := Joining]> (rn_closers s); rn_crashed := rn_crashed s || rn_stopChan s |}.
Definition close_end (i : nat) (s : running) : running :=
  {| rn_cache := rn_cache s; rn_metrics := rn_metrics s; rn_loop := rn_loop s; rn_stopChan := rn_stopChan s; rn_cleanupDone := rn_cleanupDone s;
     rn_once := Used; rn_closers := <[i := Returned]> (rn_closers s); rn_crashed := rn_crashed s |}.

(** A step towards the end of the calls of [Close] under way. *)
Inductive closing_step : running → running → Prop :=
  | step_stop s : rn_loop s = Selecting → rn_stopChan s = true → closing_step s (loop_return s)
  | step_enter s i : rn_closers s !! i = Some Entering → rn_once s = Unused → closing_step s (close_begin i s)
  | step_joined s i : rn_closers s !! i = Some Joining → rn_cleanupDone s = true → closing_step s (close_end i s)
  | step_again s i : rn_closers s !! i = Some Entering → rn_once s = Used → closing_step s (with_closers (<[i := Returned]> (rn_closers s)) s).

(** Any step: also a tick (when both are ready, [select] may take either), a
    call of [Close], and whatever else uses the cache. *)
Inductive running_step : running → running → Prop :=
  | step_closing s s' : closing_step s s' → running_step s s'
  | step_tick s start finish : rn_loop s = Selecting → running_step s (cleanup_tick start finish s)
  | step_call s : running_step s (with_closers (rn_closers s ++ [Entering]) s)
  | step_use s c :
      running_step s {| rn_cache := c; rn_metrics := rn_metrics s; rn_loop := rn_loop s; rn_stopChan := rn_stopChan s;
        rn_cleanupDone := rn_cleanupDone s; rn_once := rn_once s; rn_closers := rn_closers s; rn_crashed := rn_crashed s |}.

(** *** The invariant *)

Record running_inv (s : running) : Prop := {
  r_sound : rn_crashed s = false;
  r_done : rn_cleanupDone s = match rn_loop s with Selecting => false | _ => true end;
  r_stop : rn_stopChan s = match rn_once s with Unused => false | _ => true end;
  r_ended : rn_loop s = LoopEnded → rn_stopChan s = true;
  r_joining : ∀ i, rn_closers s !! i = Some Joining → rn_once s = Running;
  r_one : rn_once s = Running → ∃ i, rn_closers s !! i = Some Joining ∧ ∀ j, rn_closers s !! j = Some Joining → j = i;
  r_returned : ∀ i, rn_closers s !! i = Some Returned → rn_once s = Used;
  r_used : rn_once s = Used → rn_loop s ≠ Selecting;
}.

Lemma inv_start c m : running_inv (start_cleanup c m).
Proof. unfold start_cleanup. split; cbn; try done; by destruct (0 <? _). Qed.

Lemma insert_cases {A} (l : list A) i j x y : <[i := x]> l !! j = Some y → (j = i ∧ y = x) ∨ (j ≠ i ∧ l !! j = Some y).
Proof.
  destruct (decide (i = j)) as [<-|Hne]; intros H; [left|right; by rewrite list_lookup_insert_ne in H].
  pose proof (lookup_lt_Some _ _ _ H) as Hlt. rewrite length_insert in Hlt. rewrite list_lookup_insert_eq in H by done. by injection H as <-.
Qed.

Lemma inv_closing s s' : running_inv s → closing_step s s' → running_inv s'.
Proof.
  intros Hinv Hstep. destruct Hstep as [t El Es|t i Ei Eo|t i Ei Ed|t i Ei Eo]; destruct Hinv as [Hs Hd Hst He Hj Ho Hr Hu].
  - rewrite El in Hd. split; cbn; rewrite ?Hs, ?Hd; try done.
  - rewrite Eo in Hst. split; cbn; rewrite ?Hs, ?Hst; try done.
    + intros _. exists i. split; [apply list_lookup_insert_eq; by eapply lookup_lt_Some|].
      intros j [[-> _]|[_ Hj']]%insert_cases; [done|]. apply Hj in Hj'. congruence.
    + intros j [[_ Hx]|[_ Hj']]%insert_cases; [done|]. apply Hr in Hj'. congruence.
  - pose proof (Hj i Ei) as Eo. rewrite Eo in Hst. destruct (Ho Eo) as (i0 & Hi0 & Hone). assert (i = i0) as <- by (by apply Hone).
    split; cbn; try done.
    + intros j [[_ Hx]|[Hne Hj']]%insert_cases; [done|]. by apply Hone in Hj'.
    + intros _ Hl. rewrite Hl in Hd. congruence.
  - split; cbn; try done.
    + intros j [[_ Hx]|[Hne Hj']]%insert_cases; [done|by apply (Hj j)].
    + intros Hrun. congruence.
Qed.

Lemma inv_running s s' : (∀ r m, is_Some (record r m)) → running_inv s → running_step s s' → running_inv s'.
Proof.
  intros Hrec Hinv Hrun. destruct Hrun as [t t' Hstep|t start finish El|t|t c]; [by eapply inv_closing|..]; destruct Hinv as [Hs Hd Hst He Hj Ho Hr Hu].
  - assert (∀ rs m, is_Some (record_all rs m)) as Hall.
    { intros rs. induction rs as [|r rs IH]; intros m; cbn [record_all]; [done|]. destruct (Hrec r m) as [m' ->]. apply IH. }
    unfold cleanup_tick. cbv zeta. destruct (Hall (cleanup_recordings start finish (Markers.Cleanup start (rn_cache t)).2) (rn_metrics t)) as [m' ->].
    by split.
  - assert (∀ i x, x ≠ Entering → (rn_closers t ++ [Entering]) !! i = Some x → rn_closers t !! i = Some x) as Happ.
    { intros i x Hx Hl. apply lookup_app_Some in Hl as [Hl|[_ Hl]]; [done|]. by apply list_lookup_singleton_Some in Hl as [_ <-]. }
    split; cbn; try done.
    + intros i Hi%Happ; [by apply (Hj i)|done].
    + intros Hrun. destruct (Ho Hrun) as (i & Hi & Hone). exists i. split; [by apply lookup_app_l_Some|]. intros j Hj'%Happ; [by apply Hone|done].
    + intros i Hi%Happ; [by apply (Hr i)|done].
  - by split.
Qed.

(** What the calls of [Close] and the loop still have to do. *)
Definition owed (x : closer) : nat := match x with Entering => 2 | Joining => 1 | Returned => 0 end.
Definition closing_measure (s : running) : nat :=
  (match rn_loop s with Selecting => 1 | _ => 0 end) + sum_list_with owed (rn_closers s).

Lemma owed_insert l i x y : l !! i = Some x → (sum_list_with owed (<[i := y]> l) + owed x = sum_list_with owed l + owed y)%nat.
Proof.
  revert i. induction l as [|z l IH]; intros [|i] Hi; try done; cbn in *; [by injection Hi as ->; lia|]. specialize (IH i Hi). unfold insert in *. lia.
Qed.

Lemma closing_decreases s s' : closing_step s s' → (closing_measure s' < closing_measure s)%nat.
Proof.
  unfold closing_measure. intros [t El Es|t i Ei Eo|t i Ei Ed|t i Ei Eo]; cbn [rn_loop rn_closers loop_return close_begin close_end with_closers];
    [rewrite El; lia|..]; match goal with |- context [<[i := ?y]> _] => pose proof (owed_insert _ _ _ y Ei) as Hsum end; cbn [owed] in Hsum; lia.
Qed.

Lemma closing_bound n s s' : nsteps closing_step n s s' → (n + closing_measure s' ≤ closing_measure s)%nat.
Proof. induction 1 as [s|n s1 s2 s3 Hstep _ IH]; [lia|]. apply closing_decreases in Hstep. lia. Qed.

(** Where no step is left, every call has returned. *)
Lemma closing_stuck s : running_inv s → (∀ s', ¬ closing_step s s') → ∀ i x, rn_closers s !! i = Some x → x = Returned.
Proof.
  intros [_ Hd Hst _ Hj Ho _ _] Hstuck.
  assert (∀ i, rn_closers s !! i ≠ Some Joining) as Hnone.
  { intros i Hi. pose proof (Hj i Hi) as Er. rewrite Er in Hst. destruct (rn_loop s) eqn:El.
    - eapply Hstuck, step_joined; [exact Hi|exact Hd].
    - by eapply Hstuck, step_stop.
    - eapply Hstuck, step_joined; [exact Hi|exact Hd]. }
  intros i [| |] Hi; [|by apply Hnone in Hi|done]. destruct (rn_once s) eqn:Eo.
  - exfalso. by eapply Hstuck, step_enter.
  - destruct (Ho eq_refl) as (j & Hj' & _). by apply Hnone in Hj'.
  - exfalso. by eapply Hstuck, step_again.
Qed.
End Running.

(** ** The files of a retrieved resource ([headerRetainingBody]) *)

(** Its open files by identity, and what the first [Close] returned. *)
Record retaining := { rb_body : nat; rb_header : nat; rb_closed : bool; rb_err : bool }.

Section Retained.
(** Whether closing a file fails. *)
Context (fails : nat → bool).

(** [headerRetainingBody.Close] and [replaceHeader], each under the mutex: the
    error, and the files closed, in order. *)
Definition body_Close (b : retaining) : bool * list nat * retaining :=
  if rb_closed b then (rb_err b, [], b)
  else
    let err := fails (rb_body b) || fails (rb_header b) in
    (err, [rb_body b; rb_header b], {| rb_body := rb_body b; rb_header := rb_header b; rb_closed := true; rb_err := err |}).

Definition replaceHeader (f : nat) (b : retaining) : bool * list nat * retaining :=
  if rb_closed b then (true, [f], b)
  else (fails (rb_header b), [rb_header b], {| rb_body := rb_body b; rb_header := f; rb_closed := rb_closed b; rb_err := rb_err b |}).

Inductive retained_call := CloseBody | ReplaceHeader (f : nat).

Definition retained_run (x : retained_call) (b : retaining) : bool * list nat * retaining :=
  match x with CloseBody => body_Close b | ReplaceHeader f => replaceHeader f b end.

(** What every [Close] returned, and every file closed. *)
Fixpoint retained_calls (xs : list retained_call) (b : retaining) : list bool * list nat * retaining :=
  match xs with
  | [] => ([], [], b)
  | x :: xs =>
      let '(err, closed, b) := retained_run x b in
      let '(errs, closed', b) := retained_calls xs b in
      ((match x with CloseBody => [err] | _ => [] end) ++ errs, closed ++ closed', b)
  end.

Definition is_close (x : retained_call) : bool := match x with CloseBody => true | _ => false end.
Definition replacements (xs : list retained_call) : list nat := omap (λ x, match x with ReplaceHeader f => Some f | _ => None end) xs.
Definition open_files (b : retaining) : list nat := if rb_closed b then [] else [rb_body b; rb_header b].

Lemma retained_closed xs b :
  rb_closed b = true → let '(errs, closed, b') := retained_calls xs b in
  closed = replacements xs ∧ b' = b ∧ ∀ e, e ∈ errs → e = rb_err b.
Proof.
  intros Hc. induction xs as [|x xs IH]; cbn [retained_calls]; [by split_and!; [..|by intros e ?%elem_of_nil]|].
  destruct x as [|f]; cbn [retained_run]; [unfold body_Close|unfold replaceHeader]; rewrite Hc;
    destruct (retained_calls xs b) as [[errs closed] b']; destruct IH as (-> & -> & He); (split; [done|split; [done|]]); cbn [app].
  - by intros e [->|?%He]%elem_of_cons.
  - exact He.
Qed.
End Retained.

(** ** Theorems *)

(** C33: [Close] joins the cleanup goroutine, and always returns.  Whatever
    ticks, calls of [Close] and other uses of the cache interleave, nothing
    panics (no channel is closed twice), and a [Close] that has returned leaves
    no cleanup goroutine behind.  Between two ticks the goroutines under way
    take at most two steps for each call and one for the loop, and when they
    can take no more every call of [Close], the first and the others, has
    returned. *)
Theorem Close_joins_the_cleanup `{V : VFS, J : MarkerJSON, O : !OsFiles V, R : Metrics M} c (m : M) s :
  (∀ r m, is_Some (record r m)) → rtc running_step (start_cleanup c m) s →
  rn_crashed s = false ∧ (∀ i, rn_closers s !! i = Some Returned → rn_loop s ≠ Selecting) ∧
  ∀ n s', nsteps closing_step n s s' →
    (n ≤ 1 + 2 * length (rn_closers s))%nat ∧
    ((∀ s'', ¬ closing_step s' s'') → ∀ i x, rn_closers s' !! i = Some x → x = Returned).
Proof.
  intros Hrec Hr. assert (running_inv s) as Hinv.
  { assert (running_inv (start_cleanup c m)) as H0 by apply inv_start. induction Hr as [|s1 s2 s3 Hstep _ IH]; [done|]. apply IH. by eapply inv_running. }
  split; [apply Hinv|]. split; [intros i Hi; by apply (r_used s Hinv), (r_returned s Hinv i)|]. intros n s' Hn. split.
  - apply closing_bound in Hn. assert (sum_list_with owed (rn_closers s) ≤ 2 * length (rn_closers s))%nat as Ho.
    { induction (rn_closers s) as [|x l IH]; cbn [sum_list_with length]; [lia|]. assert (owed x ≤ 2)%nat by (destruct x; cbn; lia). lia. }
    unfold closing_measure in Hn at 2. destruct (rn_loop s); lia.
  - apply closing_stuck. clear Hr Hrec. induction Hn as [|n s1 s2 s3 Hstep _ IH]; [done|]. apply IH. by eapply inv_closing.
Qed.

(** Each file of a resource is closed exactly once.  Whatever calls of
    [Close] and [replaceHeader] reach a [headerRetainingBody], in any order,
    the files closed, together with those still open, are the body, the header
    it began with and every header given to it, each once; after a [Close]
    nothing is open, and every [Close] reports what the first one did. *)
Theorem retained_files_close_once fails b xs :
  rb_closed b = false →
  let '(errs, closed, b') := retained_calls fails xs b in
  closed ++ open_files b' ≡ₚ rb_body b :: rb_header b :: replacements xs ∧
  rb_closed b' = existsb is_close xs ∧ ∀ e, e ∈ errs → e = rb_err b'.
Proof.
  revert b. induction xs as [|x xs IH]; intros b Hc; cbn [retained_calls].
  - unfold open_files. rewrite Hc. split; [done|]. split; [done|]. by intros e ?%elem_of_nil.
  - destruct x as [|f]; cbn [retained_run]; [unfold body_Close|unfold replaceHeader]; rewrite Hc.
    + set (b1 := {| rb_closed := true |}). pose proof (retained_closed fails xs b1 eq_refl) as H.
      destruct (retained_calls fails xs b1) as [[errs closed] b']. destruct H as (-> & -> & He). unfold open_files. cbn [rb_closed b1].
      rewrite app_nil_r. split; [done|]. split; [done|]. by intros e [->|?%He]%elem_of_cons.
    + set (b1 := {| rb_header := f |}). specialize (IH b1 eq_refl). destruct (retained_calls fails xs b1) as [[errs closed] b'].
      destruct IH as (Hp & Hcl & He). split; [|by split]. cbn [app]. cbn [rb_body rb_header b1] in Hp. rewrite Hp.
      cbn [replacements omap list_omap]. apply Permutation_swap.
Qed.

(** ** Witnesses *)

#[local] Existing Instance mem_fs.
#[local] Existing Instance mem_os.
#[local] Existing Instance binary_json.

(** An hourly cleanup, and two calls of [Close]. *)
Definition at_work : running := start_cleanup (@new_cache mem_fs mem_empty DefaultCacheConfig "/cache") tt.
Definition two_calls : running := with_closers [Entering; Entering] (with_closers [Entering] (cleanup_tick 0 0 at_work)).
Definition all_closed : running :=
  let s := close_end 0 (loop_return (close_begin 0 two_calls)) in with_closers (<[1%nat := Returned]> (rn_closers s)) s.

Lemma Close_joins_the_cleanup_witness : rn_crashed all_closed = false ∧ rn_closers all_closed = [Returned; Returned] ∧ rn_loop all_closed ≠ Selecting.
Proof.
  assert (rtc running_step at_work all_closed) as Hr.
  { eapply rtc_l; [by apply (step_tick at_work 0 0)|]. eapply rtc_l; [apply step_call|]. eapply rtc_l; [apply step_call|].
    eapply rtc_l; [by apply step_closing, (step_enter two_calls 0)|]. eapply rtc_l; [by apply step_closing, (step_stop (close_begin 0 two_calls))|].
    eapply rtc_l; [by apply step_closing, (step_joined (loop_return (close_begin 0 two_calls)) 0)|].
    apply rtc_once, step_closing. by apply (step_again (close_end 0 (loop_return (close_begin 0 two_calls))) 1). }
  destruct (Close_joins_the_cleanup (@new_cache mem_fs mem_empty DefaultCacheConfig "/cache") tt all_closed ltac:(by intros ? u; exists u) Hr) as (Hc & Hret & _).
  split; [exact Hc|]. split; [reflexivity|]. by apply (Hret 0%nat).
Defined.

Lemma retained_files_close_once_witness :
  retained_calls (Nat.eqb 2) [ReplaceHeader 3; CloseBody; ReplaceHeader 4; CloseBody] {| rb_body := 1; rb_header := 2; rb_closed := false; rb_err := false |} =
    ([false; false], [2; 1; 3; 4], {| rb_body := 1; rb_header := 3; rb_closed := true; rb_err := false |})%nat ∧
  [2; 1; 3; 4]%nat ≡ₚ [1; 2; 3; 4]%nat.
Proof.
  split; [reflexivity|].
  exact (proj1 (retained_files_close_once (Nat.eqb 2) {| rb_body := 1; rb_header := 2; rb_closed := false; rb_err := false |}
    [ReplaceHeader 3; CloseBody; ReplaceHeader 4; CloseBody] eq_refl)).
Defined.
