(* ===== verification/System.v ===== *)
(** * The whole system

    The request path of [Serve] over the components it calls: any cache behind
    the interface, the flights, the background writes, the handler's own
    records, a metrics recorder, and, for each request, a client and an
    exchange with the origin.  [hop_run] interprets the operations of the
    path; [system_step] interleaves any number of requests, operation by
    operation, with the background stores, with what the cache does by itself
    and with a shutdown.  An operation that would wait is not enabled. *)

From S2P Require Import Prelude GoStrings GoTime GoQuote GoHttp GoUrl CacheControl CacheState Metrics Keys Resource Policy Validator Publication Program Lookup Serve Origin Flights Streamer Preconditions CacheInterface.
Import Headers.

(** ** Making a handler *)

(** [HandlerOptions], but for the logger and the staging directory. *)
Record HandlerOptions := {
  opt_StaleMarkerTTL : Duration;
  opt_StagingBudget : bool;
  opt_RequestKey : option (Request → option Key);
  opt_MissCoordinator : bool;
}.

(** The optional interfaces that a cache implements. *)
Record abilities := { can_StaleAt : bool; can_recheck : bool; can_coordinate : bool }.

(** A handler: what its requests depend on, [localStaleTTL], its recorder. *)
Record handler := { hd_server : Server; hd_localStaleTTL : Duration; hd_metrics : handler_metrics }.

Definition NewHandlerWithOptions `{Metrics M} (cache : abilities) (opts : option HandlerOptions) (p : process M) : handler :=
  let metrics := new_handler_metrics p in
  {| hd_server := {| sv_handler := {| Shared := false; hasStagingBudget := from_option opt_StagingBudget false opts |};
       sv_staleAtChecker := can_StaleAt cache; sv_cacheRechecker := can_recheck cache; sv_coordinationRetriever := can_coordinate cache;
       sv_requestKey := opts ≫= opt_RequestKey; sv_missCoordinator := from_option opt_MissCoordinator false opts;
       sv_metrics := bool_decide (is_Some (h_metrics metrics)) |};
     hd_localStaleTTL := let ttl := from_option opt_StaleMarkerTTL 0 opts in if 0 <? ttl then ttl else 0;
     hd_metrics := metrics |}.

Definition NewHandler `{Metrics M} (cache : abilities) (p : process M) : handler := NewHandlerWithOptions cache None p.

(** The same, with [Shared] set. *)
Definition share (s : Server) : Server :=
  {| sv_handler := {| Shared := true; hasStagingBudget := hasStagingBudget (sv_handler s) |};
     sv_staleAtChecker := sv_staleAtChecker s; sv_cacheRechecker := sv_cacheRechecker s; sv_coordinationRetriever := sv_coordinationRetriever s;
     sv_requestKey := sv_requestKey s; sv_missCoordinator := sv_missCoordinator s; sv_metrics := sv_metrics s |}.
Definition NewSharedHandler `{Metrics M} (cache : abilities) (p : process M) : handler :=
  let h := NewHandlerWithOptions cache None p in
  {| hd_server := share (hd_server h); hd_localStaleTTL := hd_localStaleTTL h; hd_metrics := hd_metrics h |}.

(** ** The state *)

(** What the origin was asked, under which key, and what it did. *)
(** An answer of the origin: the request, what the origin did, and which of its
    writes were accepted. *)
Record answer := { an_req : cacheRequest; an_script : script; an_accepts : string → string → bool }.

(** A goroutine of [storeResource] that has not run yet. *)
Record pending := { pd_res : Resource; pd_at : Time; pd_keys : list string; pd_complete : option completion }.

(** What the requests share.  The last two fields are history: what the origin
    answered, and the keys whose store or refresh reported a failure. *)
Record shared (C M : Type) := Shared_ {
  sh_cache : C;
  sh_local : local;
  sh_flights : flight_map;
  sh_lifecycle : lifecycle;
  sh_stores : list pending;
  sh_recorder : M;
  sh_next : nat;
  sh_answers : list answer;
  sh_doubtful : list string;
}.
Arguments Shared_ {C M}.
Arguments sh_cache {C M}.
Arguments sh_local {C M}.
Arguments sh_flights {C M}.
Arguments sh_lifecycle {C M}.
Arguments sh_stores {C M}.
Arguments sh_recorder {C M}.
Arguments sh_next {C M}.
Arguments sh_answers {C M}.
Arguments sh_doubtful {C M}.

(** A request's client, and its exchange with the origin: what the origin did
    and what was captured of it. *)
Record conversation := { cv_client : client; cv_exchange : option (script * exchange) }.
Definition with_client (c : client) (cv : conversation) : conversation := {| cv_client := c; cv_exchange := cv_exchange cv |}.
Definition with_exchange (x : option (script * exchange)) (cv : conversation) : conversation :=
  {| cv_client := cv_client cv; cv_exchange := x |}.

(** What the surroundings answer to one operation: an instant, a yes or no
    (the context has ended, the lease has expired, the drain failed), what the
    origin does, the instants and staging of the streaming operations, the
    surroundings of the cache, the coordinator. *)
Record oracle (Oc : Type) := {
  or_now : Time;
  or_flag : bool;
  or_script : script;
  or_instants : pass_clock;
  or_serve : serve_clock;
  or_stage : staging;
  or_text : string;
  or_choice : Oc;
  or_acquired : acquired;
}.
Arguments or_now {Oc}.
Arguments or_flag {Oc}.
Arguments or_script {Oc}.
Arguments or_instants {Oc}.
Arguments or_serve {Oc}.
Arguments or_stage {Oc}.
Arguments or_text {Oc}.
Arguments or_choice {Oc}.
Arguments or_acquired {Oc}.

(** The recorder's method for a [metric] of the request path. *)
Definition recording_of (m : metric) (method : string) : recording :=
  match m with CacheSkip => RecordedSkip | CacheMiss => RecordedMiss method | CacheHit => RecordedHit method end.

Section System.
Context `{D : HttpDate, U : Unicode, P : UrlParser, CL : ContentLibrary}.
Context `{K : Cache C Oc} `{R : Metrics M}.
(** The handler, its [StaleMarkerTTL], and the fuel of [resolveMiss]. *)
Context (sv : Server) (ttl : Duration) (fuel : nat).
Implicit Types (s : shared C M) (cv : conversation) (o : oracle Oc).

Definition set_cache c s : shared C M :=
  Shared_ c (sh_local s) (sh_flights s) (sh_lifecycle s) (sh_stores s) (sh_recorder s) (sh_next s) (sh_answers s) (sh_doubtful s).
Definition set_local l s : shared C M :=
  Shared_ (sh_cache s) l (sh_flights s) (sh_lifecycle s) (sh_stores s) (sh_recorder s) (sh_next s) (sh_answers s) (sh_doubtful s).
Definition set_flights f s : shared C M :=
  Shared_ (sh_cache s) (sh_local s) f (sh_lifecycle s) (sh_stores s) (sh_recorder s) (sh_next s) (sh_answers s) (sh_doubtful s).
Definition set_stores l p s : shared C M :=
  Shared_ (sh_cache s) (sh_local s) (sh_flights s) l p (sh_recorder s) (sh_next s) (sh_answers s) (sh_doubtful s).
Definition set_recorder m s : shared C M :=
  Shared_ (sh_cache s) (sh_local s) (sh_flights s) (sh_lifecycle s) (sh_stores s) m (sh_next s) (sh_answers s) (sh_doubtful s).
Definition next_handle c s : shared C M :=
  Shared_ c (sh_local s) (sh_flights s) (sh_lifecycle s) (sh_stores s) (sh_recorder s) (S (sh_next s)) (sh_answers s) (sh_doubtful s).
Definition answered_by a s : shared C M :=
  Shared_ (sh_cache s) (sh_local s) (sh_flights s) (sh_lifecycle s) (sh_stores s) (sh_recorder s) (sh_next s) (a :: sh_answers s) (sh_doubtful s).
Definition doubt_keys keys s : shared C M :=
  Shared_ (sh_cache s) (sh_local s) (sh_flights s) (sh_lifecycle s) (sh_stores s) (sh_recorder s) (sh_next s) (sh_answers s) (keys ++ sh_doubtful s).

(** The handler's records are kept for a cache without its own. *)
Definition on_local (f : local → local) s : shared C M := if sv_staleAtChecker sv then s else set_local (f (sh_local s)) s.

(** ** Operations on the shared state *)

Definition record_metric (r : recording) s : option (shared C M) :=
  m ← record r (sh_recorder s); Some (set_recorder m s).

(** [Handler.recordStale] and [cache.Invalidate] *)
Definition invalidate o (keys : list string) s : shared C M :=
  let s := on_local (recordStale ttl (or_now o) keys) s in
  set_cache (cache_Invalidate (or_choice o) keys (sh_cache s)) s.

(** [cache.Freshen]: the keys of a failure are remembered. *)
Definition cache_freshen o (res : Resource) (keys : list string) s : option (bool * shared C M) :=
  '(ok, c) ← cache_Freshen (or_choice o) res keys (sh_cache s);
  Some (ok, (if ok : bool then id else doubt_keys keys) (set_cache c s)).

(** [Handler.freshenResource] *)
Definition freshen_resource o (res : Resource) (keys : list string) s : option (bool * shared C M) :=
  let at_ := publication_time (r_RequestTime res) (or_now o) in
  let s := on_local (beginLocalPublication keys) s in
  '(ok, s) ← cache_freshen o res keys s;
  Some (ok, on_local (finishLocalPublication ttl (or_now o) at_ (publication_keys keys) ok) s).

(** [Handler.publishResource] *)
Definition publishResource o (res : Resource) (at_ : Time) (keys : list string) s : option (bool * shared C M) :=
  let at_ := publication_time at_ (or_now o) in
  let s := on_local (beginLocalPublication keys) s in
  '(unsettled, c) ← cache_Store (or_choice o) res keys (sh_cache s);
  let s := doubt_keys (default [] unsettled) (set_cache c s) in
  let ok := bool_decide (unsettled = None) in
  Some (ok, on_local (finishLocalPublication ttl (or_now o) at_ (publication_keys keys) ok) s).

(** [callComplete]: the lease has no state here. *)
Definition callComplete (complete : option completion) s : shared C M :=
  match complete with
  | Some {| co_flight := Some (key, flight) |} => set_flights (finishMiss key flight (sh_flights s)) s
  | _ => s
  end.

(** The end of [passUpstreamWithHandler]: [storeResource] starts a goroutine,
    every other end completes the fill. *)
Definition after_fetch {W} (r : cacheRequest) (u : script) (accepts : string → string → bool) (complete : option completion) (effects : list (effect W)) s : shared C M :=
  let s := answered_by {| an_req := r; an_script := u; an_accepts := accepts |} s in
  match effects with
  | Publish res at_ keys :: _ =>
      set_stores (beginWrite (sh_lifecycle s)).2 (sh_stores s ++ [{| pd_res := res; pd_at := at_; pd_keys := keys; pd_complete := complete |}]) s
  | _ => callComplete complete s
  end.

(** The effects of [pipeUpstream]. *)
Definition after_pipe {W} o (effects : list (effect W)) s : option (shared C M) :=
  match effects with
  | Invalidate keys _ :: _ => Some (invalidate o keys s)
  | Freshen res key :: _ => snd <$> freshen_resource o res [key] s
  | _ => Some s
  end.

(** A background store, from the goroutine's start to its end. *)
Definition run_store o (p : pending) s : option (shared C M) :=
  '(ok, s) ← publishResource o (pd_res p) (pd_at p) (pd_keys p) s;
  s ← (if sv_metrics sv then record_metric (RecordedStore ok) s else Some s);
  let s := callComplete (pd_complete p) s in
  Some (set_stores (endWrite (sh_lifecycle s)) (sh_stores s) s).

(** ** The operations of the request path *)

Definition retrieved_as (id : nat) (a : lookup_answer) : retrieved :=
  match a with Gives res => Found id res | Missing => NotFoundInCache | Failing => RetrieveFailed end.

Definition hop_run o {X} (e : hop X) : shared C M → conversation → option (X * shared C M * conversation) :=
  match e in hop X return shared C M → conversation → option (X * shared C M * conversation) with
  | Clock => λ s cv, Some (or_now o, s, cv)
  | ContextErr | LeaseErr => λ s cv, Some (or_flag o, s, cv)
  | RetrieveKey m key => λ s cv,
      let '(a, c) := cache_Retrieve (or_choice o) (match m with Retrieve => true | _ => false end) key (sh_cache s) in
      Some (retrieved_as (sh_next s) a, next_handle c s, cv)
  | PublicationSnapshot key => λ s cv, Some (localPublicationSnapshot key (sh_local s), s, cv)
  | StaleAtKey key => λ s cv,
      Some (if sv_staleAtChecker sv then cache_StaleAt key (sh_cache s) else staleAt_local key (sh_local s), s, cv)
  | StaleSnapshotKeys keys => λ s cv,
      Some (if sv_staleAtChecker sv then cache_StaleSnapshot keys (sh_cache s) else staleSnapshot_local keys (sh_local s), s, cv)
  | RecordStale keys => λ s cv, Some (tt, set_local (recordStale ttl (or_now o) keys (sh_local s)) s, cv)
  | CacheInvalidate keys => λ s cv, Some (tt, set_cache (cache_Invalidate (or_choice o) keys (sh_cache s)) s, cv)
  | BeginPublication _ keys => λ s cv, Some (tt, set_local (foldl begin_key (sh_local s) keys) s, cv)
  | FinishPublication at_ keys ok => λ s cv,
      Some (tt, set_local (finishLocalPublication ttl (or_now o) at_ keys ok (sh_local s)) s, cv)
  | CacheFreshen res keys => λ s cv, '(ok, s) ← cache_freshen o res keys s; Some (ok, s, cv)
  | StartExchange _ => λ s cv,
      if or_flag o then Some (ExchangeCancelled, s, cv)
      else
        let ex := capture (or_script o) in
        Some (Exchanged (ex_status ex) (ex_snapshot ex), s, with_exchange (Some (or_script o, ex)) cv)
  | DrainExchange => λ s cv,
      '(_, ex) ← cv_exchange cv; Some (ex_complete ex && negb (or_flag o), s, cv)
  | CloseExchange => λ s cv, Some (tt, s, with_exchange None cv)
  | DeliverExchange storage original start => λ s cv,
      '(u, ex) ← cv_exchange cv;
      let '(c, effects) := deliverValidationExchange (sv_handler sv) (or_instants o) (or_stage o) (sh_lifecycle s) (or_flag o)
                             storage original ex start (cv_client cv) in
      Some (tt, after_fetch storage u (λ _ _, true) None effects s, with_client c cv)
  | PassUpstream r complete => λ s cv,
      let '(c, effects) := passUpstream (sv_handler sv) (or_now o) (or_instants o) (or_stage o) (sh_lifecycle s) r
                             (λ _, or_script o) (cv_client cv) in
      Some (tt, after_fetch r (or_script o) (cl_accepts (cv_client cv)) complete effects s, with_client c cv)
  | PipeUpstream r => λ s cv,
      let '(c, effects) := pipeUpstream (sv_requestKey sv) r (or_script o) (cv_client cv) in
      s ← after_pipe o effects s; Some (tt, s, with_client c cv)
  | HttpError status => λ s cv, Some (tt, s, with_client (http_Error (or_text o) status (cv_client cv)) cv)
  | SetClientHeader name value => λ s cv, Some (tt, s, with_client (w_edit (λ h, Set_ h name value) (cv_client cv)) cv)
  | ServeResource _ res r => λ s cv,
      Some (tt, s, with_client (serveResource (sv_handler sv) (or_serve o) (or_text o) res r (cv_client cv)) cv)
  | ClaimMiss key => λ s cv, let '(x, f) := claimMiss key (sh_flights s) in Some (x, set_flights f s, cv)
  | FinishMiss key flight => λ s cv, Some (tt, set_flights (finishMiss key flight (sh_flights s)) s, cv)
  | AwaitFlight flight => λ s cv,
      if or_flag o then Some (false, s, cv)
      else if bool_decide (flight ∈ landed (sh_flights s)) then Some (true, s, cv) else None
  | AcquireLease _ => λ s cv, Some (or_acquired o, s, cv)
  | CloseResource _ | CloseLease => λ s cv, Some (tt, s, cv)
  | RecordMetric m method => λ s cv, s ← record_metric (recording_of m method) s; Some (tt, s, cv)
  | OutOfFuel => λ _ _, None
  end.

(** ** Requests side by side *)

(** A request under way: what it has done and what it has left to do. *)
Record session := {
  ss_request : Request;
  ss_trace : list (event (E := hop));
  ss_task : task ();
  ss_conv : conversation;
}.

(** Each request comes with a client of its own, whose connection accepts
    [accepts]. *)
Definition new_session (req : Request) (accepts : string → string → bool) : session :=
  {| ss_request := req; ss_trace := []; ss_task := ServeHTTP sv fuel req;
     ss_conv := {| cv_client := new_client accepts; cv_exchange := None |} |}.

(** One operation of a request. *)
Definition session_step o (se : session) s : option (session * shared C M) :=
  match ss_task se with
  | Ret _ => None
  | Vis e k =>
      '(x, s, cv) ← hop_run o e s (ss_conv se);
      Some ({| ss_request := ss_request se; ss_trace := ss_trace se ++ [Event e x]; ss_task := k x; ss_conv := cv |}, s)
  end.

(** Operations one after the other, for one request that runs alone. *)
Fixpoint session_run (os : list (oracle Oc)) (se : session) s : option (session * shared C M) :=
  match os with
  | [] => Some (se, s)
  | o :: os => '(se, s) ← session_step o se s; session_run os se s
  end.

Record system := { sy_shared : shared C M; sy_sessions : list session }.

(** The statuses of an origin, up to the first final one: informational ones
    before it, and no switch of protocols, which needs a hijacked connection. *)
Fixpoint valid_statuses (u : script) : bool :=
  match u with
  | Return | Abort | Body _ _ => true
  | Edit _ u => valid_statuses u
  | Status code u => (200 <=? code) || (informational code && valid_statuses u)
  end.

Definition sys_init (c : C) (m : M) : system :=
  {| sy_shared := Shared_ c local_init no_flights {| closing := false; writes := 0 |} [] m O [] []; sy_sessions := [] |}.
End System.
Arguments system C M : clear implicits.

(** ** Steps *)

Section Steps.
Context `{D : HttpDate, U : Unicode, P : UrlParser, CL : ContentLibrary}.
Context `{K : Cache C Oc, L : !CacheLaws C Oc} `{R : Metrics M}.
Context (sv : Server) (ttl : Duration) (fuel : nat).
Implicit Types (s : shared C M) (o : oracle Oc).

(** What the world outside keeps to: the surroundings of the cache are those
    it is made for, the statuses of an origin are valid ones, and the fields of
    a refresh are those a header can carry. *)
Definition in_order o {X} (e : hop X) (cv : conversation) : Prop :=
  plausible (or_choice o) ∧ valid_statuses (or_script o) = true ∧
  match e with
  | CacheFreshen res _ => refreshable res
  | PipeUpstream r => ∀ res key, Freshen res key ∈ (pipeUpstream (sv_requestKey sv) r (or_script o) (cv_client cv)).2 → refreshable res
  | _ => True
  end.

Inductive system_step : system C M → system C M → Prop :=
  | sys_arrive s sessions req accepts :
      system_step {| sy_shared := s; sy_sessions := sessions |}
        {| sy_shared := s; sy_sessions := sessions ++ [new_session sv fuel req accepts] |}
  | sys_hop s sessions i se se' X (e : hop X) k o s' :
      sessions !! i = Some se → ss_task se = Vis e k → in_order o e (ss_conv se) →
      session_step sv ttl o se s = Some (se', s') →
      system_step {| sy_shared := s; sy_sessions := sessions |} {| sy_shared := s'; sy_sessions := <[i := se']> sessions |}
  | sys_store s sessions l1 p l2 o s' :
      sh_stores s = l1 ++ p :: l2 → plausible (or_choice o) → storable (or_choice o) (sh_cache s) (pd_res p) (pd_keys p) →
      run_store sv ttl o p (set_stores (sh_lifecycle s) (l1 ++ l2) s) = Some s' →
      system_step {| sy_shared := s; sy_sessions := sessions |} {| sy_shared := s'; sy_sessions := sessions |}
  | sys_upkeep s sessions c :
      cache_upkeep (sh_cache s) c →
      system_step {| sy_shared := s; sy_sessions := sessions |} {| sy_shared := set_cache c s; sy_sessions := sessions |}
  | sys_shutdown s sessions :
      system_step {| sy_shared := s; sy_sessions := sessions |}
        {| sy_shared := set_stores (Shutdown_begin (sh_lifecycle s)) (sh_stores s) s; sy_sessions := sessions |}.
End Steps.
