(* ===== verification/Transparency.v ===== *)
(** * Where cached bodies come from

    The composition: whatever requests, background stores, cleanups and
    restarts run side by side, a stored response that the handler gives to a
    client has the status and the body the origin gave earlier to a request of
    the same key; and a stored response that is fresh is given without asking
    the origin.  The proofs use the cache through its interface only. *)

From S2P Require Import Prelude GoStrings GoTime GoQuote GoHttp GoUrl CacheControl Config Vfs Ledger Admission Markers Generations StoredHeader Store Staged Transaction Retrieve Startup Contract CacheState CacheInterface DiskCache Metrics Keys Resource Policy Validator Publication Program Lookup Serve Path Conduct Reuse Origin Flights Streamer Preconditions System.
Import Headers.

(** ** What the origin gave *)

(** A client that asks the origin itself: its writer has the fields [start],
    and its connection accepts [accepts]. *)
Definition asking (start : Header) (accepts : string → string → bool) : client := client_edit (λ _, start) (new_client accepts).

Definition handler_fields : list string := ["Age"; ProxyDateHeader; CacheHeader]%string.

(** [res] is the answer the origin [u] gives to a client that asks itself: the
    status, every byte it writes, which is the body of a client whose
    connection holds, and the fields; the handler adds its own and drops
    private ones. *)
Definition gave (u : script) (accepts : string → string → bool) (res : Resource) : Prop :=
  ∃ start header, (∀ name, name ≠ CacheHeader → start !! name = None) ∧
    let o := serve_upstream u (asking start accepts) in
    cl_sent o = Some (r_statusCode res, header) ∧ r_body res = written u (asking start accepts) ∧
    ((∀ a b, accepts a b = true) → cl_body o = r_body res) ∧
    ∀ name, name ∉ handler_fields → r_header res !! name = header !! name ∨ r_header res !! name = None.
Definition answered_with (a : answer) (res : Resource) : Prop := gave (an_script a) (an_accepts a) res.

(** The keys a response to [r] is stored under. *)
Definition names `{U : Unicode} (r : cacheRequest) (k : string) : Prop :=
  k = Key_String (cr_Key r) ∨ ∃ vary, k = Key_String (Key_Vary (cr_Key r) vary (cr_Request r)).

Definition unsent (c : client) : Prop :=
  cl_sent c = None ∧ cl_body c = EmptyString ∧ ∀ name, name ≠ CacheHeader → cl_live c !! name = None.

Section Gave.
Context `{D : HttpDate, U : Unicode, P : UrlParser}.

(** Two clients in the same position are given the same. *)
Lemma serve_twin u c1 c2 :
  cl_live c1 = cl_live c2 → cl_sent c1 = cl_sent c2 → cl_body c1 = cl_body c2 → cl_accepts c1 = cl_accepts c2 →
  cl_sent (serve_upstream u c1) = cl_sent (serve_upstream u c2) ∧ cl_body (serve_upstream u c1) = cl_body (serve_upstream u c2) ∧
  written u c1 = written u c2.
Proof.
  assert (∀ code c1 c2, cl_live c1 = cl_live c2 → cl_sent c1 = cl_sent c2 → cl_body c1 = cl_body c2 → cl_accepts c1 = cl_accepts c2 →
    let d1 := client_WriteHeader code c1 in let d2 := client_WriteHeader code c2 in
    cl_live d1 = cl_live d2 ∧ cl_sent d1 = cl_sent d2 ∧ cl_body d1 = cl_body d2 ∧ cl_accepts d1 = cl_accepts d2) as Hw.
  { intros code d1 d2 Hl Hs Hb Ha. cbv zeta. unfold client_WriteHeader. destruct (cl_sent d1) eqn:E1, (cl_sent d2) eqn:E2; try congruence; [|destruct (informational code)]; cbn; split_and!; congruence. }
  revert c1 c2. induction u as [| |f u IH|code u IH|b k IH]; cbn [serve_upstream written w_WriteHeader w_edit w_Write client_writer]; intros c1 c2 Hl Hs Hb Ha.
  - by destruct (Hw 200 c1 c2 Hl Hs Hb Ha) as (_ & ? & ? & _).
  - by destruct (Hw 200 c1 c2 Hl Hs Hb Ha) as (_ & ? & ? & _).
  - apply IH; try done. cbn. by rewrite Hl.
  - destruct (Hw code c1 c2 Hl Hs Hb Ha) as (? & ? & ? & ?). by apply IH.
  - unfold client_Write. destruct (Hw 200 c1 c2 Hl Hs Hb Ha) as (Hl' & Hs' & Hb' & Ha'). rewrite Ha', Hb', Hs'. destruct (_ && _).
    + destruct (IH true (client_push b (client_WriteHeader 200 c1)) (client_push b (client_WriteHeader 200 c2))) as (-> & -> & ->); cbn; by rewrite ?Hb'.
    + by destruct (IH false (client_WriteHeader 200 c1) (client_WriteHeader 200 c2) Hl' Hs' Hb' Ha') as (-> & -> & ->).
Qed.

(** A client that has been sent nothing is one that asks itself. *)
Lemma serve_asking u c :
  cl_sent c = None → cl_body c = EmptyString →
  let d := asking (cl_live c) (cl_accepts c) in
  cl_sent (serve_upstream u c) = cl_sent (serve_upstream u d) ∧ cl_body (serve_upstream u c) = cl_body (serve_upstream u d) ∧
  written u c = written u d.
Proof. intros Hs Hb. by apply serve_twin. Qed.

(** What it is given is what the origin writes, if its connection holds. *)
Lemma asking_body u start accepts status header :
  cl_sent (serve_upstream u (asking start accepts)) = Some (status, header) → bodyAllowedForStatus status = true →
  (∀ a b, accepts a b = true) → cl_body (serve_upstream u (asking start accepts)) = written u (asking start accepts).
Proof. intros Hs Hst Ha. rewrite written_accepted; [done|exact Ha|]. intros status' h'. rewrite Hs. by intros [= <- <-]. Qed.

Context (h : Handler).

Lemma storeResource_publishes {W} l res r res' at_ keys :
  (Publish res' at_ keys : effect W) ∈ storeResource h l res r →
  res' = (if Shared h then RemovePrivateHeaders res else res) ∧ at_ = cr_Time r ∧ (∀ k, k ∈ keys → names r k) ∧
  head keys = Some (Key_String (cr_Key r)).
Proof.
  unfold storeResource. destruct (negb _); [by intros ?%list_elem_of_singleton|]. cbv zeta.
  intros [[= -> -> ->]|Hin%list_elem_of_singleton]%elem_of_cons; [|done]. split; [done|]. split; [done|].
  destruct (nonempty _); [|split; [by intros k ->%list_elem_of_singleton; left|done]]. split; [|done].
  intros k [->|Hk%list_elem_of_singleton]%elem_of_cons; [by left|]. right. by eexists.
Qed.

(** The header of what is stored, beside that of what was received. *)
Lemma stored_header n header t res :
  r_header res = receipt_fields n header t header →
  let res' := if Shared h then RemovePrivateHeaders res else res in
  r_statusCode res' = r_statusCode res ∧ r_body res' = r_body res ∧
  ∀ name, name ∉ ["Age"; ProxyDateHeader]%string → r_header res' !! name = header !! name ∨ r_header res' !! name = None.
Proof.
  intros Hr res'. assert (r_statusCode res' = r_statusCode res ∧ r_body res' = r_body res) as [-> ->] by (unfold res'; by destruct (Shared h)).
  split; [done|]. split; [done|]. intros name Hn.
  assert (r_header res !! name = header !! name) as <- by (rewrite Hr; by apply receipt_other).
  unfold res'. destruct (Shared h); [|by left]. destruct (private_other res name) as [->| ->]; [by left|by right].
Qed.

(** A full fetch publishes what the origin gave. *)
Lemma pass_gave n stage l r u t c c' effects res at_ keys :
  passUpstreamWithHandler h n stage l r u t c = (c', effects) → unsent c →
  Publish res at_ keys ∈ effects → gave u (cl_accepts c) res ∧ ∀ k, k ∈ keys → names r k.
Proof.
  intros E (Hs & Hb & Hl) Hin. assert (final_first u = true) as Hu.
  { apply not_false_iff_true. intros Hu. rewrite (informational_not_stored h _ _ _ _ _ _ _ _ _ E Hu) in Hin. by apply list_elem_of_singleton in Hin. }
  destruct (pass_outcome h _ _ _ _ _ _ _ _ _ E Hu Hs) as (code & header & header' & Ho & _ & _ & _ & Heff).
  destruct Heff as [->|(piped & Hcan & _ & -> & Hpiped)]; [by apply list_elem_of_singleton in Hin|].
  apply storeResource_publishes in Hin as (-> & _ & Hk & _). split; [|exact Hk].
  pose proof (can_stage_storeable _ _ _ _ _ Hcan) as Hst. cbn in Hst.
  set (start := Set_ (cl_live c) CacheHeader "MISS"). set (c0 := client_edit (λ h, Set_ h CacheHeader "MISS") c) in *.
  destruct (serve_asking u c0 Hs Hb) as (Hd1 & _ & Hd3). change (cl_live c0) with start in Hd1, Hd3. change (cl_accepts c0) with (cl_accepts c) in Hd1, Hd3.
  destruct (stored_header n header t (set_requestTime t (NewResourceBytes code piped (receipt_fields n header t header))) eq_refl)
    as (Hst' & Hb' & Hfields).
  exists start, header. rewrite Hst', Hb'. cbn [r_statusCode r_body set_requestTime NewResourceBytes]. rewrite Hd1 in Ho. cbv zeta.
  split; [|split; [exact Ho|split; [congruence|split]]].
  - intros name Hn. unfold start. rewrite Set_other by done. by apply Hl.
  - intros Ha. rewrite Hpiped, Hd3. eapply asking_body; [exact Ho|by apply storeable_body|exact Ha].
  - intros name Hn. apply Hfields. unfold handler_fields in Hn. intros Hin. apply Hn. by apply (elem_of_app [_; _] [CacheHeader] name); left.
Qed.
End Gave.

(** ** The exchange of a validation *)

Section Exchanged.
Context `{D : HttpDate, U : Unicode, P : UrlParser}.
Implicit Types c : client.

Lemma complete_final u hd chunks : valid_statuses u = true → ex_complete (exchange_serve u hd None chunks) = true → sends_final u.
Proof.
  revert hd chunks. induction u as [| |f u IH|code u IH|b k IH]; cbn [valid_statuses exchange_serve sends_final]; intros hd chunks Hf Hc; try done.
  - by apply (IH (f hd) chunks).
  - unfold exchange_WriteHeader in Hc. destruct (Z.ltb_spec code 200); [|by left]. right.
    destruct (Z.leb_spec 200 code); [lia|]. apply andb_true_iff in Hf as [Hi Hf]. split; [done|]. by apply (IH hd chunks).
Qed.

(** The chunks captured are the body a client of the origin is sent. *)
Lemma exchange_body u hd got chunks c :
  let ex := exchange_serve u hd got chunks in
  ex_complete ex = true → bodyAllowedForStatus (ex_status ex) = true → (∀ a b, cl_accepts c a b = true) →
  match got with Some (status, _) => fst <$> cl_sent c = Some status | None => cl_sent c = None ∧ sends_final u end →
  ∃ new, ex_chunks ex = chunks ++ new ∧ cl_body (serve_upstream u c) = (cl_body c +:+ String.concat EmptyString new)%string.
Proof.
  assert (∀ code c, cl_body (client_WriteHeader code c) = cl_body c ∧ cl_accepts (client_WriteHeader code c) = cl_accepts c) as Hkeep.
  { intros code d. unfold client_WriteHeader. destruct (cl_sent d); [done|]. by destruct (informational code). }
  revert hd got chunks c. induction u as [| |f u IH|code u IH|b k IH]; intros hd got chunks c; cbn [exchange_serve serve_upstream];
    intros Hc Hb Ha Hgot.
  - exists []. rewrite app_nil_r, str_app_nil_r. split; [by destruct got as [[]|]|]. apply Hkeep.
  - by destruct got as [[]|].
  - destruct (IH (f hd) got chunks (client_edit f c) Hc Hb Ha) as (new & ? & ?); [by destruct got as [[]|]|]. by exists new.
  - cbn [w_WriteHeader client_writer]. destruct (Hkeep code c) as [Eb Ea]. rewrite <- Eb.
    apply (IH hd (exchange_WriteHeader code hd got) chunks (client_WriteHeader code c) Hc Hb); [by rewrite Ea|].
    destruct got as [[status h0]|].
    + assert (exchange_WriteHeader code hd (Some (status, h0)) = Some (status, h0)) as -> by (unfold exchange_WriteHeader; by destruct (code <? 200)).
      unfold client_WriteHeader. destruct (cl_sent c) eqn:Es; [by rewrite Es|done].
    + destruct Hgot as [Hn Hfin]. cbn [sends_final] in Hfin. unfold exchange_WriteHeader, client_WriteHeader. rewrite Hn. destruct (Z.ltb_spec code 200).
      * destruct Hfin as [|[Hi Hfin]]; [lia|]. rewrite Hi. by split.
      * assert (informational code = false) as -> by (unfold informational; destruct (Z.leb_spec code 199); [lia|by rewrite andb_false_r]). done.
  - cbn [w_Write client_writer]. unfold client_Write. destruct (Hkeep 200 c) as [Eb Ea].
    set (got' := exchange_WriteHeader 200 hd got) in *.
    assert (∃ status h0, got' = Some (status, h0) ∧ fst <$> cl_sent (client_WriteHeader 200 c) = Some status) as (status & h0 & Eg & Esent).
    { unfold got', exchange_WriteHeader, client_WriteHeader. cbn [Z.ltb Z.compare Pos.compare Pos.compare_cont]. destruct got as [[status h0]|].
      - exists status, h0. split; [done|]. destruct (cl_sent c) eqn:Es; [by rewrite Es|done].
      - destruct Hgot as [-> _]. exists 200, hd. by split. }
    rewrite Eg in Hc, Hb |- *. destruct (exchange_settled (k true) hd (status, h0) (chunks ++ [b])) as [Est _]. cbn [fst] in Est.
    rewrite Esent, Ea, Ha. change (default 200 (Some status)) with status. rewrite Est in Hb. rewrite Hb. cbn [andb].
    destruct (IH true hd (Some (status, h0)) (chunks ++ [b]) (client_push b (client_WriteHeader 200 c)) Hc) as (new & E1 & E2).
    + by rewrite Est.
    + cbn. by rewrite Ea.
    + exact Esent.
    + exists (b :: new). rewrite E1, <- app_assoc. split; [done|]. rewrite E2. cbn [client_push cl_body]. rewrite Eb, <- str_app_assoc. f_equal.
      cbn [String.concat]. destruct new; [by rewrite str_app_nil_r|done].
Qed.

Lemma asking_exchange u :
  let d := asking ∅ (λ _ _, true) in
  valid_statuses u = true → ex_complete (capture u) = true → bodyAllowedForStatus (ex_status (capture u)) = true →
  cl_sent (serve_upstream u d) = Some (ex_status (capture u), ex_snapshot (capture u)) ∧
  cl_body (serve_upstream u d) = String.concat EmptyString (ex_chunks (capture u)).
Proof.
  intros d Hf Hc Hb. pose proof (complete_final u ∅ [] Hf Hc) as Hfin. split; [by apply (exchange_sent u d)|].
  destruct (exchange_body u ∅ None [] d Hc Hb) as (new & E1 & E2); [done|by split|].
  unfold capture. rewrite E2, E1. done.
Qed.

(** What [pass_stream] publishes of an exchange. *)
Lemma exchange_header (h : Handler) n stage l r ex t (w : client + preconditioned client) res at_ keys :
  Publish res at_ keys ∈ (pass_stream h n stage l r (exchange_script ex) t w).2 →
  storeable (ex_status ex) = true ∧ (∀ k, k ∈ keys → names r k) ∧
  ∀ name, name ∉ handler_fields → (w_Header w !! name = None) →
    r_header res !! name = ex_snapshot ex !! name ∨ r_header res !! name = None.
Proof.
  unfold pass_stream. cbv zeta. cbn [exchange_script WaitHeaders].
  set (w0 := if hasStagingBudget h then w_DeferStagingHeaders w else w).
  set (rw0 := rw_edit (λ hd, ex_snapshot ex ∪ hd) (rw_edit (λ h, Set_ h CacheHeader "MISS") (newResponseStreamer (hasStagingBudget h) (hasStagingBudget h) w0))).
  assert (∀ f (w : client + preconditioned client), w_Header (w_edit f w) = f (w_Header w)) as Hedit by (by intros f [c|pw]).
  assert (w_Header w0 = w_Header w) as Hw0 by (unfold w0; destruct (hasStagingBudget h); [by destruct w|done]).
  assert (rw_responseHeader (rw_WriteHeader (ex_status ex) rw0) = Some (ex_snapshot ex ∪ Set_ (w_Header w) CacheHeader "MISS") ∧
    rw_StatusCode (rw_WriteHeader (ex_status ex) rw0) = ex_status ex) as [Hh Hs].
  { rewrite <- Hw0. unfold rw_WriteHeader, rw0, rw_edit, rw_Header. destruct (hasStagingBudget h); cbn -[w_Header w_edit]; rewrite !Hedit; split; done. }
  rewrite Hh, Hs. cbn [default from_option]. unfold id. destruct (negb (canStageResponse _ _ _ _ _)) eqn:Ecan; cbn [snd]; [by intros Hin%list_elem_of_singleton|].
  apply negb_false_iff, can_stage_storeable in Ecan. cbn in Ecan. destruct (negb _); cbn [snd]; [by intros Hin%list_elem_of_singleton|].
  intros Hin. apply storeResource_publishes in Hin as (-> & _ & Hk & _). split; [done|]. split; [done|]. intros name Hn Hw.
  match goal with |- context [set_requestTime t ?r0] => destruct (stored_header h n (ex_snapshot ex ∪ Set_ (w_Header w) CacheHeader "MISS") t (set_requestTime t r0) eq_refl) as (_ & _ & Hf) end.
  assert (name ∉ ["Age"; ProxyDateHeader]%string ∧ name ≠ CacheHeader) as [Hn1 Hn2].
  { unfold handler_fields in Hn. split; [intros Hin; apply Hn; by apply (elem_of_app [_; _] [CacheHeader] name); left|].
    intros ->. apply Hn. by right; right; left. }
  destruct (Hf name Hn1) as [->|?]; [left|by right].
  rewrite lookup_union, Set_other, Hw by done. by destruct (ex_snapshot ex !! name).
Qed.

Lemma deliver_gave (h : Handler) n stage l gone storage original u start c c' effects res at_ keys :
  deliverValidationExchange h n stage l gone storage original (capture u) start c = (c', effects) → valid_statuses u = true → unsent c →
  Publish res at_ keys ∈ effects → gave u (λ _ _, true) res ∧ ∀ k, k ∈ keys → names storage k.
Proof.
  intros E Hu (_ & _ & Hl) Hin. unfold deliverValidationExchange in E.
  pose proof (exchange_published h n stage l storage (capture u) start (newClientPreconditionWriter c original) res at_ keys) as Hpub.
  pose proof (exchange_header h n stage l storage (capture u) start (newClientPreconditionWriter c original) res at_ keys) as Hhd.
  destruct (pass_stream _ _ _ _ _ _ _ _) as [rw effects']. injection E as _ <-. cbn [snd] in *.
  destruct (Hpub Hin) as (Hc & Hb & Hs & _). destruct (Hhd Hin) as (Hst & Hk & Hf). split; [|exact Hk].
  pose proof (storeable_body _ Hst) as Hok. destruct (asking_exchange u Hu Hc Hok) as [E1 E2]. exists ∅, (ex_snapshot (capture u)).
  split; [by intros|]. cbv zeta. rewrite <- (asking_body u ∅ _ _ _ E1 Hok), E1, E2, Hs, Hb by done. split; [done|]. split; [done|]. split; [done|].
  intros name Hn. apply Hf; [exact Hn|].
  assert (w_Header (newClientPreconditionWriter c original) = cl_live c) as -> by (rewrite newClient_unconditional; by destruct (has_condition original)).
  apply Hl. intros ->. apply Hn. by right; right; left.
Qed.
End Exchanged.

(** ** The invariant of a running system *)

Section Reachable.
Context `{D : HttpDate, U : Unicode, P : UrlParser, CL : ContentLibrary}.
Context `{K : Cache C Oc, L : !CacheLaws C Oc} `{R : Metrics M}.
Context (sv : Server) (ttl : Duration) (fuel : nat).
Implicit Types (s : shared C M) (o : oracle Oc) (se : session) (cv : conversation).

(** A status and a body the origin gave before under a key of this slot. *)
Definition origin_gave s (h : string) (st : Z) (b : string) : Prop :=
  (∃ k, k ∈ sh_doubtful s ∧ slot k = h) ∨
  ∃ a k res, a ∈ sh_answers s ∧ names (an_req a) k ∧ slot k = h ∧ answered_with a res ∧ st = r_statusCode res ∧ b = stored_body res.

Definition store_ok s (p : pending) : Prop :=
  ∃ a, a ∈ sh_answers s ∧ answered_with a (pd_res p) ∧ ∀ k, k ∈ pd_keys p → names (an_req a) k.

Definition shared_ok s : Prop := holds (origin_gave s) (sh_cache s) ∧ ∀ p, p ∈ sh_stores s → store_ok s p.

(** What a retrieved resource is: an answer the origin gave for such a key. *)
Definition found_ok s (req : Request) (res : Resource) : Prop :=
  ∃ key, looked_for sv req key ∧ origin_gave s (slot key) (r_statusCode res) (r_body res).

Definition conversation_ok (c : conduct) cv : Prop :=
  (answered c = false → unsent (cv_client cv)) ∧
  match cv_exchange cv with Some (u, ex) => ex = capture u ∧ valid_statuses u = true | None => True end.

(** What a request holds after its operations so far. *)
Definition conduct_of (tr : list (event (E := hop))) : conduct := observe_all (conduct_monitor (sv_missCoordinator sv)) tr conduct_init.

Lemma conduct_of_snoc tr X (e : hop X) x : conduct_of (tr ++ [Event e x]) = conduct_next e x (conduct_of tr).
Proof. unfold conduct_of, observe_all. by rewrite foldl_app. Qed.

(** What is left of a request keeps to the three monitors. *)
Definition session_ok s se : Prop :=
  safe (path_monitor sv (ss_request se) (λ _, True)) (ss_task se) (λ _ _, True) tt ∧
  (let c := conduct_of (ss_trace se) in
     safe (conduct_monitor (sv_missCoordinator sv)) (ss_task se) (λ _, settled ∅) c ∧
     (∀ id, id ∈ opened c → (id < sh_next s)%nat) ∧ conversation_ok c (ss_conv se)) ∧
  ∃ hst, safe (reuse_monitor sv (must_be_cached (ss_request se))) (ss_task se) (λ _ _, True) hst ∧
     ∀ id res, (id, res) ∈ u_got hst → found_ok s (ss_request se) res.

(** Every answer was given to one of the requests. *)
Definition answers_ok (requests : list Request) s : Prop :=
  ∀ a, a ∈ sh_answers s → ∃ req, req ∈ requests ∧ own_key sv req = Some (cr_Key (an_req a)).

Definition system_ok (y : system C M) : Prop :=
  shared_ok (sy_shared y) ∧ (∀ se, se ∈ sy_sessions y → session_ok (sy_shared y) se) ∧
  answers_ok (ss_request <$> sy_sessions y) (sy_shared y).

(** *** What a step adds *)

Definition grown s s' : Prop :=
  sh_answers s ⊆ sh_answers s' ∧ sh_doubtful s ⊆ sh_doubtful s' ∧ (sh_next s ≤ sh_next s')%nat.

#[export] Instance grown_preorder : PreOrder grown.
Proof.
  split; [by intros s; split_and!|]. intros s1 s2 s3 (A1 & D1 & N1) (A2 & D2 & N2).
  split; [by etrans|]. split; [by etrans|]. lia.
Qed.

Lemma origin_gave_grown s s' h st b : grown s s' → origin_gave s h st b → origin_gave s' h st b.
Proof.
  intros (HA & HD & _) [(k & Hk & Hs)|(a & k & res & Ha & Hrest)]; [left; exists k; split; [by apply HD|done]|].
  right. exists a, k, res. split; [by apply HA|done].
Qed.

Lemma holds_grown s s' c : grown s s' → holds (origin_gave s) c → holds (origin_gave s') c.
Proof. intros Hg. apply holds_mono. intros h st b. by apply origin_gave_grown. Qed.

Lemma store_ok_grown s s' p : grown s s' → store_ok s p → store_ok s' p.
Proof. intros (HA & _) (a & Ha & Hrest). exists a. split; [by apply HA|done]. Qed.

Lemma session_ok_grown s s' se : grown s s' → session_ok s se → session_ok s' se.
Proof.
  intros Hg (Hp & (Hc & Ho & Hcv) & hst & Hh & Hgot). split; [done|]. split.
  - split; [done|]. split; [|done]. intros id Hid. destruct Hg as (_ & _ & Hn). specialize (Ho id Hid). lia.
  - exists hst. split; [done|]. intros id res (key & Hl & Hor)%Hgot. exists key. split; [done|]. by eapply origin_gave_grown.
Qed.

(** A state that differs in nothing the invariant speaks of. *)
Definition alike s s' : Prop :=
  sh_cache s' = sh_cache s ∧ sh_answers s' = sh_answers s ∧ sh_doubtful s' = sh_doubtful s ∧ sh_next s' = sh_next s.

Lemma alike_grown s s' : alike s s' → grown s s'.
Proof. intros (_ & HA & HD & HN). unfold grown. rewrite HA, HD, HN. by split_and!. Qed.

(** The cache changes, the answers stay, and what is stored is still the
    origin's; [doubts] is what became doubtful. *)
Definition moved s s' : Prop := grown s s' ∧ sh_answers s' = sh_answers s ∧ sh_stores s' = sh_stores s ∧
  (holds (origin_gave s) (sh_cache s) → holds (origin_gave s') (sh_cache s')).

#[export] Instance moved_preorder : PreOrder moved.
Proof.
  split; [by intros s; split_and!|]. intros s1 s2 s3 (G1 & A1 & S1 & H1) (G2 & A2 & S2 & H2).
  split; [by etrans|]. split; [congruence|]. split; [congruence|]. auto.
Qed.

Lemma moved_shared s s' : moved s s' → shared_ok s → shared_ok s'.
Proof.
  intros (Hg & _ & Hs & Hh) [Hc Hp]. split; [by apply Hh|]. rewrite Hs. intros p Hin. eapply store_ok_grown; [exact Hg|by apply Hp].
Qed.

Lemma alike_moved s s' : alike s s' → sh_stores s' = sh_stores s → moved s s'.
Proof.
  intros Ha Hs. split; [by apply alike_grown|]. pose proof Ha as (Hc & HA & HD & HN). split; [done|]. split; [done|].
  rewrite Hc. apply holds_grown. by apply alike_grown.
Qed.

Lemma on_local_moved f s : moved s (on_local sv f s).
Proof. apply alike_moved; unfold on_local; by destruct (sv_staleAtChecker sv). Qed.

Lemma cache_moved c s : (∀ Q, holds Q (sh_cache s) → holds Q c) → moved s (set_cache c s).
Proof. intros Hh. split; [by split_and!|]. split; [done|]. split; [done|]. intros H. apply (Hh (origin_gave s)) in H. done. Qed.

(** *** Each operation on the shared state *)

Lemma doubt_moved keys c s :
  (∀ Q, (∀ k, k ∈ keys → ∀ st b, Q (slot k) st b) → holds Q (sh_cache s) → holds Q c) → moved s (doubt_keys keys (set_cache c s)).
Proof.
  intros Hh. assert (grown s (doubt_keys keys (set_cache c s))) as Hg.
  { split; [done|]. split; [|done]. intros k Hk. apply elem_of_app. by right. }
  split; [exact Hg|]. split; [done|]. split; [done|]. intros H. apply (Hh (origin_gave (doubt_keys keys (set_cache c s)))).
  - intros k Hk st b. left. exists k. split; [|done]. apply elem_of_app. by left.
  - eapply holds_grown; [exact Hg|exact H].
Qed.

Lemma record_metric_moved r s s' : record_metric r s = Some s' → moved s s'.
Proof. unfold record_metric. intros (m & _ & [= <-])%bind_Some. by apply alike_moved. Qed.

Lemma invalidate_moved o keys s : moved s (invalidate sv ttl o keys s).
Proof.
  unfold invalidate. cbv zeta. etrans; [|apply cache_moved; intros Q; apply Invalidate_holds]. apply on_local_moved.
Qed.

Lemma cache_freshen_moved o res keys s ok s' :
  cache_freshen o res keys s = Some (ok, s') → plausible (or_choice o) → refreshable res → moved s s'.
Proof.
  unfold cache_freshen. intros ([ok' c] & E & [= <- <-])%bind_Some Hpl Hr. destruct ok'.
  - apply cache_moved. intros Q. by eapply Freshen_holds.
  - apply doubt_moved. intros Q. by eapply Freshen_failed_holds.
Qed.

Lemma freshen_resource_moved o res keys s ok s' :
  freshen_resource sv ttl o res keys s = Some (ok, s') → plausible (or_choice o) → refreshable res → moved s s'.
Proof.
  unfold freshen_resource. cbv zeta. intros ([ok' s1] & E & [= <- <-])%bind_Some Hpl Hr.
  etrans; [apply on_local_moved|]. etrans; [by eapply cache_freshen_moved|]. apply on_local_moved.
Qed.

Lemma publishResource_moved o res at_ keys s ok s' :
  publishResource sv ttl o res at_ keys s = Some (ok, s') → plausible (or_choice o) → storable (or_choice o) (sh_cache s) res keys →
  (∀ k, k ∈ keys → origin_gave s (slot k) (r_statusCode res) (stored_body res)) → moved s s'.
Proof.
  unfold publishResource. cbv zeta. set (s0 := on_local _ _ _). intros ([left c] & E & [= <- <-])%bind_Some Hpl Hst Hk.
  assert (sh_cache s0 = sh_cache s ∧ grown s s0) as [Hc Hg].
  { pose proof (on_local_moved (beginLocalPublication keys) s) as (? & _). split; [|done]. unfold s0, on_local. by destruct (sv_staleAtChecker sv). }
  etrans; [apply on_local_moved|]. fold s0. etrans; [|apply on_local_moved]. destruct left as [left|]; cbn [default from_option].
  - apply (doubt_moved left). intros Q. by eapply Store_failed_holds.
  - change (doubt_keys [] (set_cache c s0)) with (set_cache c s0). split; [by split_and!|]. split; [done|]. split; [done|]. intros H.
    change (holds (origin_gave s0) c). eapply Store_holds; [exact E|done|by rewrite Hc| |exact H].
    intros k Hin. eapply origin_gave_grown; [exact Hg|by apply Hk].
Qed.

Lemma callComplete_moved complete s : moved s (callComplete complete s).
Proof. apply alike_moved; by destruct complete as [[[[]|] ?]|]. Qed.

Lemma after_pipe_moved {W} o (effects : list (effect W)) s s' :
  after_pipe sv ttl o effects s = Some s' → plausible (or_choice o) →
  (∀ res key, Freshen res key ∈ effects → refreshable res) → moved s s'.
Proof.
  unfold after_pipe. intros E Hpl Hr.
  assert (Some s = Some s' → moved s s') as Hsame by (by intros [= <-]).
  destruct effects as [|[keys seen|res key| |] effects]; try by apply Hsame.
  - injection E as <-. apply invalidate_moved.
  - apply fmap_Some in E as ([ok s1] & E & ->). eapply freshen_resource_moved; [exact E|done|]. apply (Hr res key). by left.
Qed.

(** What a fetch leaves: its answer, and the store it starts. *)
Lemma after_fetch_ok {W} (r : cacheRequest) u accepts complete (effects : list (effect W)) s :
  (∀ res at_ keys, Publish res at_ keys ∈ effects → gave u accepts res ∧ ∀ k, k ∈ keys → names r k) →
  let s' := after_fetch r u accepts complete effects s in
  grown s s' ∧ sh_answers s' = {| an_req := r; an_script := u; an_accepts := accepts |} :: sh_answers s ∧ (shared_ok s → shared_ok s').
Proof.
  intros Hpub s'. set (s1 := answered_by {| an_req := r; an_script := u; an_accepts := accepts |} s).
  assert (grown s s1) as Hg by (split; [by intros a Ha; right|by split]).
  assert (shared_ok s → shared_ok s1) as Hok.
  { intros [Hc Hp]. split; [by apply (holds_grown s)|]. intros p Hin. eapply store_ok_grown; [exact Hg|by apply Hp]. }
  assert (moved s1 s' → grown s s' ∧ sh_answers s' = {| an_req := r; an_script := u; an_accepts := accepts |} :: sh_answers s ∧ (shared_ok s → shared_ok s')) as Hmoved.
  { intros Hm. split; [by etrans; [exact Hg|apply Hm]|]. split; [apply Hm|]. intros H. eapply moved_shared; [exact Hm|by apply Hok]. }
  unfold s', after_fetch in *. fold s1 in Hmoved |- *. cbv zeta in *.
  destruct effects as [|[keys seen|res key|res at_ keys|] effects]; try (apply Hmoved, callComplete_moved).
  destruct (Hpub res at_ keys) as [Hgave Hk]; [by left|]. split; [exact Hg|]. split; [done|]. intros [Hc Hp]%Hok. split; [exact Hc|].
  intros p [Hin|Hin%list_elem_of_singleton]%elem_of_app; [by apply Hp|subst p]. eexists. split; [by left|by split].
Qed.

(** A background store. *)
Lemma run_store_ok o s l1 p l2 s' :
  sh_stores s = l1 ++ p :: l2 → plausible (or_choice o) → storable (or_choice o) (sh_cache s) (pd_res p) (pd_keys p) →
  run_store sv ttl o p (set_stores (sh_lifecycle s) (l1 ++ l2) s) = Some s' → shared_ok s →
  grown s s' ∧ shared_ok s' ∧ sh_answers s' = sh_answers s.
Proof.
  intros Hs Hpl Hst E [Hc Hp]. set (s0 := set_stores (sh_lifecycle s) (l1 ++ l2) s) in *.
  assert (grown s s0) as Hg by (apply alike_grown; done).
  assert (shared_ok s0) as H0.
  { split; [done|]. intros q Hq. apply (Hp q). rewrite Hs. apply elem_of_app in Hq as [?|?]; apply elem_of_app; [by left|right; by right]. }
  assert (∀ k, k ∈ pd_keys p → origin_gave s0 (slot k) (r_statusCode (pd_res p)) (stored_body (pd_res p))) as Hgave.
  { intros k Hk. destruct (Hp p) as (a & Ha & Hga & Hn); [rewrite Hs; apply elem_of_app; right; by left|].
    right. exists a, k, (pd_res p). split_and!; auto. }
  unfold run_store in E. apply bind_Some in E as ([ok s1] & E1 & E). apply bind_Some in E as (s2 & E2 & [= <-]).
  assert (moved s0 s1) as M1 by (by eapply publishResource_moved).
  assert (moved s1 s2) as M2 by (destruct (sv_metrics sv); [by eapply record_metric_moved|injection E2 as <-; reflexivity]).
  match goal with |- grown s ?s3 ∧ _ => assert (moved s0 s3) as M12 end.
  { etrans; [exact M1|]. etrans; [exact M2|]. etrans; [apply (callComplete_moved (pd_complete p))|]. by apply alike_moved. }
  split; [etrans; [exact Hg|apply M12]|]. split; [exact (moved_shared _ _ M12 H0)|apply M12].
Qed.

(** *** One operation of a request *)

Definition within s s' (req : Request) : Prop :=
  grown s s' ∧ (shared_ok s → shared_ok s') ∧
  ∀ a, a ∈ sh_answers s' → a ∈ sh_answers s ∨ own_key sv req = Some (cr_Key (an_req a)).

Lemma moved_within s s' req : moved s s' → within s s' req.
Proof. intros Hm. split; [apply Hm|]. split; [by apply moved_shared|]. destruct Hm as (_ & -> & _). by left. Qed.

Lemma fetch_within {W} r u accepts complete (effects : list (effect W)) s req :
  (∀ res at_ keys, Publish res at_ keys ∈ effects → gave u accepts res ∧ ∀ k, k ∈ keys → names r k) →
  own_key sv req = Some (cr_Key r) → within s (after_fetch r u accepts complete effects s) req.
Proof.
  intros Hpub Hown. destruct (after_fetch_ok r u accepts complete effects s Hpub) as (Hg & HA & Hok). split; [done|]. split; [done|].
  rewrite HA. intros a [->|Ha]%elem_of_cons; [by right|by left].
Qed.

Lemma hop_within o {X} (e : hop X) x s s' cv cv' req c :
  hop_run sv ttl o e s cv = Some (x, s', cv') → path_allowed sv req (λ _, True) e → conduct_allowed (sv_missCoordinator sv) e c →
  conversation_ok c cv → in_order sv o e cv → within s s' req.
Proof.
  intros E Hpath Hcond [Hun Hex] (Hpl & Hfin & Hin).
  destruct e; cbn [hop_run] in E; cbn [path_allowed] in Hpath; cbn [conduct_allowed] in Hcond; cbn beta iota in Hin;
    try (injection E as _ <- _; apply moved_within; first [by apply alike_moved|apply cache_moved; intros Q; by apply Invalidate_holds]).
  - destruct (cache_Retrieve _ _ _ _) as [a c'] eqn:Er. injection E as _ <- _. apply moved_within.
    split; [split; [done|]; split; [done|]; cbn; lia|]. split; [done|]. split; [done|]. intros H.
    destruct (Retrieve_holds _ _ _ _ _ _ _ Er H) as [H' _]. exact H'.
  - apply bind_Some in E as ([ok s1] & E & [= _ <- _]). apply moved_within. by eapply cache_freshen_moved.
  - destruct (or_flag o); injection E as _ <- _; by apply moved_within.
  - apply bind_Some in E as ([u ex] & Ecv & [= _ <- _]). by apply moved_within.
  - apply bind_Some in E as ([u ex] & Ecv & E). rewrite Ecv in Hex. destruct Hex as [-> Hfu].
    destruct (deliverValidationExchange _ _ _ _ _ _ _ _ _ _) as [c1 effects] eqn:Ed. injection E as _ <- _.
    apply fetch_within; [|done]. intros res at_ keys Hp. destruct Hcond as [_ Hans]. eapply deliver_gave; [exact Ed|done|by apply Hun|exact Hp].
  - destruct (passUpstream _ _ _ _ _ _ _ _) as [c1 effects] eqn:Ep. injection E as _ <- _.
    apply fetch_within; [|done]. intros res at_ keys Hp. destruct Hcond as [Hans _]. 
    eapply pass_gave; [exact Ep|by apply Hun|exact Hp].
  - destruct (pipeUpstream _ _ _ _) as [c1 effects] eqn:Ep. apply bind_Some in E as (s1 & E & [= _ <- _]).
    apply moved_within. eapply after_pipe_moved; [exact E|done|exact Hin].
  - destruct (claimMiss _ _) as [y f]. injection E as _ <- _. apply moved_within. by apply alike_moved.
  - destruct (or_flag o); [injection E as _ <- _; by apply moved_within|]. case_bool_decide; [|done]. injection E as _ <- _. by apply moved_within.
  - apply bind_Some in E as (s1 & E & [= _ <- _]). apply moved_within. by eapply record_metric_moved.
  - done.
Qed.

(** What a retrieval answers. *)
Definition retrieval {X} (e : hop X) : X → option (string * nat * Resource) :=
  match e in hop X return X → option (string * nat * Resource) with
  | RetrieveKey _ key => λ x, match x with Found id res => Some (key, id, res) | _ => None end
  | _ => λ _, None
  end.

Lemma hop_retrieval o {X} (e : hop X) x s s' cv cv' key id res :
  hop_run sv ttl o e s cv = Some (x, s', cv') → retrieval e x = Some (key, id, res) → shared_ok s →
  id = sh_next s ∧ sh_next s' = S id ∧ origin_gave s (slot key) (r_statusCode res) (r_body res).
Proof.
  intros E Hr [Hc _]. destruct e; cbn [retrieval] in Hr; try done. cbn [hop_run] in E.
  destruct (cache_Retrieve _ _ _ _) as [a c'] eqn:Er. injection E as <- <- <-. destruct a as [res0| |]; cbn [retrieved_as] in Hr; try done.
  injection Hr as <- <- <-. destruct (Retrieve_holds _ _ _ _ _ _ _ Er Hc) as [_ H]. done.
Qed.

Lemma got_next {X} (e : hop X) x hst id res :
  (id, res) ∈ u_got (reuse_next e x hst) → (id, res) ∈ u_got hst ∨ ∃ key, retrieval e x = Some (key, id, res).
Proof.
  destruct e; cbn [reuse_next]; try (by left).
  - destruct x; cbn [retrieval]; try (by left). intros [[= -> ->]|H]%elem_of_cons; [right; by eexists|by left].
  - destruct (u_stage hst); try (by left). destruct (superseded _ _); by left.
  - destruct x, (u_stage hst); by left.
  - destruct x; by left.
  - destruct x, (u_stage hst); by left.
Qed.

Lemma opened_next {X} (e : hop X) x c id :
  id ∈ opened (conduct_next e x c) → id ∈ opened c ∨ ∃ key res, retrieval e x = Some (key, id, res).
Proof.
  destruct e; cbn [conduct_next opened]; try (by left); [destruct x; cbn [opened retrieval]|]; try (by left); [|set_solver].
  intros [->%elem_of_singleton|]%elem_of_union; [right; by do 2 eexists|by left].
Qed.

Lemma possible_new {X} (e : hop X) x c : (∀ key id res, retrieval e x = Some (key, id, res) → id ∉ opened c) → conduct_possible e x c.
Proof. destruct e; cbn [conduct_possible]; try done. destruct x; try done. intros H. by eapply H. Qed.

Lemma retrieval_looked_for {X} (e : hop X) x key id res req : retrieval e x = Some (key, id, res) → path_allowed sv req (λ _, True) e → looked_for sv req key.
Proof. destruct e; cbn [retrieval]; try done. destruct x; [|done..]. by intros [= <- _ _]. Qed.

Lemma hop_conversation o {X} (e : hop X) x s s' cv cv' req c :
  hop_run sv ttl o e s cv = Some (x, s', cv') → path_allowed sv req (λ _, True) e → valid_statuses (or_script o) = true →
  conversation_ok c cv → conversation_ok (conduct_next e x c) cv'.
Proof.
  intros E Hpath Hfin [Hun Hex].
  assert (∀ c1 cv1, answered c1 = answered c ∨ answered c1 = true → cv_exchange cv1 = cv_exchange cv →
    (answered c1 = true ∨ cv_client cv1 = cv_client cv) → conversation_ok c1 cv1) as Hkeep.
  { intros c1 cv1 Ha He Hc. split; [|by rewrite He]. destruct Hc as [Ht|Hc]; [by rewrite Ht|]. rewrite Hc. intros Hf. apply Hun. destruct Ha; congruence. }
  destruct e; cbn [hop_run] in E; cbn [path_allowed] in Hpath; cbn [conduct_next];
    try (injection E as _ _ <-; apply Hkeep; cbn; by auto).
  - destruct (cache_Retrieve _ _ _ _) as [a c']. injection E as <- _ <-. destruct a; apply Hkeep; cbn; by auto.
  - apply bind_Some in E as ([ok s1] & _ & [= _ _ <-]). apply Hkeep; by auto.
  - destruct (or_flag o); injection E as <- _ <-; [apply Hkeep; cbn; by auto|]. split; [exact Hun|by split].
  - apply bind_Some in E as ([u ex] & _ & [= _ _ <-]). apply Hkeep; by auto.
  - injection E as _ _ <-. split; [exact Hun|done].
  - apply bind_Some in E as ([u ex] & _ & E). destruct (deliverValidationExchange _ _ _ _ _ _ _ _ _ _) as [c1 effects].
    injection E as _ _ <-. apply Hkeep; cbn; by auto.
  - destruct (passUpstream _ _ _ _ _ _ _ _) as [c1 effects]. injection E as _ _ <-. apply Hkeep; cbn; by auto.
  - destruct (pipeUpstream _ _ _ _) as [c1 effects]. apply bind_Some in E as (s1 & _ & [= _ _ <-]). apply Hkeep; cbn; by auto.
  - injection E as _ _ <-. split; [|exact Hex]. intros Ha. destruct (Hun Ha) as (Hs & Hb & Hl).
    split; [exact Hs|]. split; [exact Hb|]. intros n Hn. cbn. rewrite Hpath, Set_other by done. by apply Hl.
  - destruct (claimMiss _ _) as [y f]. injection E as _ _ <-. apply Hkeep; cbn; by auto.
  - destruct (or_flag o); [injection E as _ _ <-; apply Hkeep; cbn; by auto|]. case_bool_decide; [|done]. injection E as _ _ <-. apply Hkeep; cbn; by auto.
  - apply bind_Some in E as (s1 & _ & [= _ _ <-]). apply Hkeep; by auto.
  - done.
Qed.

(** *** Steps keep the invariant *)

Lemma session_step_ok o {X} (e : hop X) k s se se' s' :
  ss_task se = Vis e k → session_step sv ttl o se s = Some (se', s') → in_order sv o e (ss_conv se) → shared_ok s → session_ok s se →
  ss_request se' = ss_request se ∧ within s s' (ss_request se) ∧ session_ok s' se'.
Proof.
  intros Et E Hin Hok (Hp & (Hc & Ho & Hcv) & hst & Hh & Hgot). set (c := conduct_of (ss_trace se)) in *. rewrite Et in *. destruct Hp as [Hpa Hp], Hc as [Hca Hc], Hh as [_ Hh].
  unfold session_step in E. rewrite Et in E. apply bind_Some in E as ([[x s1] cv1] & E & [= <- <-]).
  pose proof (hop_within _ _ _ _ _ _ _ _ _ E Hpa Hca Hcv Hin) as Hw. split; [done|]. split; [exact Hw|]. destruct Hw as (Hg & _ & _).
  cbn [ss_request ss_task ss_conv]. split; [apply (Hp x); by destruct e|]. split.
  - cbn [ss_trace]. rewrite conduct_of_snoc. fold c. split; [apply Hc, possible_new; intros key id res Hr Hid|].
    + destruct (hop_retrieval _ _ _ _ _ _ _ _ _ _ E Hr Hok) as (-> & _). specialize (Ho _ Hid). lia.
    + split; [|by eapply hop_conversation; [exact E|exact Hpa|apply Hin|]]. intros id [Hid|(key & res & Hr)]%opened_next.
      * destruct Hg as (_ & _ & Hn). specialize (Ho id Hid). lia.
      * destruct (hop_retrieval _ _ _ _ _ _ _ _ _ _ E Hr Hok) as (_ & -> & _). lia.
  - exists (reuse_next e x hst). split; [by apply Hh|]. intros id res [(key & Hl & Hor)%Hgot|(key & Hr)]%got_next.
    + exists key. split; [done|]. by eapply origin_gave_grown.
    + exists key. split; [by eapply retrieval_looked_for|].
      destruct (hop_retrieval _ _ _ _ _ _ _ _ _ _ E Hr Hok) as (_ & _ & Hor). by eapply origin_gave_grown.
Qed.

Lemma new_session_ok s req accepts : (sv_missCoordinator sv = false → fuel ≠ O) → session_ok s (new_session sv fuel req accepts).
Proof.
  intros Hf. split; [apply ServeHTTP_path|]. split.
  - split; [by apply ServeHTTP_conduct|]. split; [by intros id []%not_elem_of_empty|]. by split.
  - exists history_init. split; [apply ServeHTTP_reuse|]. by intros id res []%elem_of_nil.
Qed.

Lemma answers_ok_grown requests s s' req :
  within s s' req → req ∈ requests → answers_ok requests s → answers_ok requests s'.
Proof. intros (_ & _ & HA) Hr Ha a [Hin|Hown]%HA; [by apply Ha|by exists req]. Qed.

Lemma system_step_ok (y y' : system C M) :
  (sv_missCoordinator sv = false → fuel ≠ O) → system_step sv ttl fuel y y' → system_ok y → system_ok y'.
Proof.
  intros Hf Hstep (Hsh & Hse & Han). destruct Hstep as [s sessions req accepts|s sessions i se se' X e k o s' Hi Et Hin E|s sessions l1 p l2 o s' Hs Hpl Hst E|s sessions c Hup|s sessions];
    unfold system_ok; cbn [sy_shared sy_sessions] in *.
  - split; [exact Hsh|]. split.
    + intros se [H|H%list_elem_of_singleton]%elem_of_app; [by apply Hse|subst se]. by apply new_session_ok.
    + intros a (r & Hr & Ho)%Han. exists r. split; [|done]. rewrite fmap_app. apply elem_of_app. by left.
  - pose proof (list_elem_of_lookup_2 _ _ _ Hi) as Hmem.
    destruct (session_step_ok o e k s se se' s' Et E Hin Hsh (Hse se Hmem)) as (Hr & Hw & Hse').
    split; [by apply Hw|]. split.
    + intros se0 (j & Hj)%list_elem_of_lookup_1. destruct (decide (i = j)) as [<-|Hne].
      * rewrite list_lookup_insert_eq in Hj by (by eapply lookup_lt_Some). by injection Hj as <-.
      * rewrite list_lookup_insert_ne in Hj by done. eapply session_ok_grown; [apply Hw|]. apply Hse. by eapply list_elem_of_lookup_2.
    + rewrite list_fmap_insert, Hr, list_insert_id by (by rewrite list_lookup_fmap, Hi).
      eapply answers_ok_grown; [exact Hw| |exact Han]. by apply list_elem_of_fmap_2.
  - destruct (run_store_ok o s l1 p l2 s' Hs Hpl Hst E Hsh) as (Hg & Hok & HA). split; [exact Hok|]. split.
    + intros se H. eapply session_ok_grown; [exact Hg|by apply Hse].
    + unfold answers_ok. by rewrite HA.
  - assert (moved s (set_cache c s)) as Hm by (apply cache_moved; intros Q; by apply upkeep_holds).
    split; [exact (moved_shared _ _ Hm Hsh)|]. split; [|exact Han]. intros se H. eapply session_ok_grown; [apply Hm|by apply Hse].
  - assert (moved s (set_stores (Shutdown_begin (sh_lifecycle s)) (sh_stores s) s)) as Hm by (by apply alike_moved).
    split; [exact (moved_shared _ _ Hm Hsh)|]. split; [|exact Han]. intros se H. eapply session_ok_grown; [apply Hm|by apply Hse].
Qed.

Lemma reachable_ok c m (y : system C M) :
  (sv_missCoordinator sv = false → fuel ≠ O) → (∀ Q, holds Q c) → rtc (system_step sv ttl fuel) (sys_init c m) y → system_ok y.
Proof.
  intros Hf Hc Hr. assert (system_ok (sys_init c m)) as H0.
  { split; [split; [apply Hc|by intros p []%elem_of_nil]|]. split; [by intros se []%elem_of_nil|by intros a []%elem_of_nil]. }
  clear Hc. induction Hr as [|y1 y2 y3 Hstep _ IH]; [done|]. apply IH. by eapply system_step_ok.
Qed.

(** *** A justified response is one of those retrieved *)

Lemma justified_retrieved hst id r res :
  justified sv hst id r res → ∃ stored, (id, stored) ∈ u_got hst ∧ r_statusCode res = r_statusCode stored ∧ r_body res = r_body stored.
Proof.
  intros [stored res0 n1 n2 n3 _ _ _ _ Hg (Hb & _ & Hs) _|stored res0 v a n1 n2 n3 n4 n5 n6 Hg (Hb & _ & Hs) _ _ Ha _ _ kept _];
    exists stored; (split; [done|]); [by rewrite Hb, Hs|].
  assert (r_statusCode v = r_statusCode res0 ∧ r_body v = r_body res0) as [Hvs Hvb].
  { unfold applyValidationResponse in Ha. cbv zeta in Ha. destruct (_ || _); [done|]. by injection Ha as <-. }
  unfold kept, hit, markFresh. cbn. destruct (Shared _); cbn; rewrite ?Hvs, ?Hvb; by split.
Qed.

(** The stored response a request is about to give to its client. *)
Definition serving (t : task ()) : option (nat * Resource * cacheRequest) :=
  match t with Vis (ServeResource id res r) _ => Some (id, res, r) | _ => None end.

Lemma serving_allowed t hst offline id res r :
  serving t = Some (id, res, r) → safe (reuse_monitor sv offline) t (λ _ _, True) hst → justified sv hst id r res.
Proof. destruct t as [|X e k]; [done|]. destruct e; cbn [serving]; try done. by intros [= -> -> ->] [H _]. Qed.

(** ** Theorems *)

(** C1: a cached body is the origin's.  However requests, background stores,
    cleanups, purges, restarts and a shutdown interleave, and whichever writes
    the connections of the clients accept, when a request is about to give a
    stored response to its client, then an earlier answer of the origin to a
    request of this run has its status, and its body is every byte that the
    origin wrote in that answer, cut at the [Content-Length] it declared: the
    whole body of the answer, where the connection it was sent on held (a
    connection that drops is what the origin may have stopped at).  And that
    answer was stored under a key that the cache does not tell from one the
    client's own request is looked up under: its key or that of the GET, or
    their variant by the fields that the response varies on.  The only
    exception are keys that a failed store could not put right or whose refresh
    failed.  It holds of any cache that keeps the laws of the interface, for
    origins with valid statuses ([valid_statuses]) and headers that a header
    file can carry. *)
Theorem cached_bodies_come_from_the_origin c m (y : system C M) i se id res r :
  (sv_missCoordinator sv = false → fuel ≠ O) → (∀ Q, holds Q c) →
  rtc (system_step sv ttl fuel) (sys_init c m) y →
  sy_sessions y !! i = Some se → serving (ss_task se) = Some (id, res, r) →
  ∃ key, looked_for sv (ss_request se) key ∧
    ((∃ k, k ∈ sh_doubtful (sy_shared y) ∧ slot k = slot key) ∨
     ∃ a asker given k, a ∈ sh_answers (sy_shared y) ∧ asker ∈ sy_sessions y ∧
       own_key sv (ss_request asker) = Some (cr_Key (an_req a)) ∧ names (an_req a) k ∧ slot k = slot key ∧
       answered_with a given ∧ r_statusCode res = r_statusCode given ∧ r_body res = stored_body given).
Proof.
  intros Hf Hc Hr Hi Hs. destruct (reachable_ok c m y Hf Hc Hr) as (_ & Hse & Han).
  destruct (Hse se (list_elem_of_lookup_2 _ _ _ Hi)) as (_ & _ & hst & Hh & Hgot).
  destruct (justified_retrieved _ _ _ _ (serving_allowed _ _ _ _ _ _ Hs Hh)) as (stored & Hin & -> & ->).
  destruct (Hgot _ _ Hin) as (key & Hl & Hor). exists key. split; [exact Hl|].
  destruct Hor as [?|(a & k & given & Ha & Hn & Hsl & Hga & Hst & Hb)]; [by left|right].
  destruct (Han a Ha) as (req & (asker & -> & Hm)%list_elem_of_fmap & Ho). exists a, asker, given, k. by split_and!.
Qed.
End Reachable.

(** ** A stored response is found again *)

Section Found.
Context `{D : HttpDate, U : Unicode, P : UrlParser, CL : ContentLibrary}.
Context `{K : Cache C Oc, L : !CacheLaws C Oc} `{R : Metrics M}.
Context (sv : Server) (ttl : Duration) (fuel : nat).
Implicit Types (s : shared C M) (o : oracle Oc).

(** One operation, and the rest. *)
Lemma session_run_step X (e : hop X) k req tr cv s o os x s' cv' :
  hop_run sv ttl o e s cv = Some (x, s', cv') →
  session_run sv ttl (o :: os) {| ss_request := req; ss_trace := tr; ss_task := Vis e k; ss_conv := cv |} s =
  session_run sv ttl os {| ss_request := req; ss_trace := tr ++ [Event e x]; ss_task := k x; ss_conv := cv' |} s'.
Proof. intros E. cbn [session_run]. unfold session_step. cbn [ss_task ss_conv]. by rewrite E. Qed.

(** A store that reports success, by the cache. *)
Lemma publish_stores o res at_ keys s s' :
  publishResource sv ttl o res at_ keys s = Some (true, s') → sv_staleAtChecker sv = true →
  cache_Store (or_choice o) res keys (sh_cache s) = Some (None, sh_cache s').
Proof.
  unfold publishResource, on_local. intros E Hst. rewrite Hst in E. apply bind_Some in E as ([un c] & E & [= Hu <-]).
  apply bool_decide_eq_true in Hu. subst un. exact E.
Qed.

(** The request as [lookupUsing] leaves it. *)
Definition as_found (k : Key) (r : cacheRequest) : cacheRequest := set_discovery (Key_String k) EmptyString (with_key k r).

Definition hit_oracles (o0 oR oM o1 o2 o3 oT o5 o6 : oracle Oc) : list (oracle Oc) :=
  [o0; oR; oM; o1; o2; o3] ++ (if sv_metrics sv then [oT] else []) ++ [o5; o6].

Lemma ServeHTTP_keyed now req r k :
  newCacheRequest now req = Some r → own_key sv req = Some k →
  match newCacheRequest now req with
  | None => call (HttpError 400)
  | Some cReq =>
      match sv_requestKey sv with
      | None => serve_request sv fuel cReq
      | Some requestKey => match requestKey req with None => call (HttpError 400) | Some key => serve_request sv fuel (with_key key cReq) end
      end
  end = serve_request sv fuel (with_key k r).
Proof.
  intros E. rewrite E. unfold own_key. destruct (sv_requestKey sv) as [rk|]; [by intros ->|]. intros [= <-].
  unfold newCacheRequest in E. destruct (ParseCacheControlHeaders _); [|done]. destruct (_ && _); [|injection E as <-]; done.
Qed.

(** A request whose key the cache answers, unmarked and fresh. *)
Lemma hit_run o0 oR oM o1 o2 o3 oT o5 o6 req accepts r0 k s given c2 :
  sv_staleAtChecker sv = true → newCacheRequest (or_now o0) req = Some r0 → request_isCacheable r0 = true → own_key sv req = Some k →
  cache_Retrieve (or_choice oR) true (Key_String k) (sh_cache s) = (Gives given, c2) → cache_StaleAt (Key_String k) c2 = None →
  combinedHeaderValues (r_header given) "Vary" = EmptyString →
  needsValidation (or_now o1) (or_now o2) (or_now o3) (sv_handler sv) given (as_found k r0) = false →
  (sv_metrics sv = true → is_Some (record (RecordedHit (req_Method (cr_Request r0))) (sh_recorder s))) →
  ∃ se s2, session_run sv ttl (hit_oracles o0 oR oM o1 o2 o3 oT o5 o6) (new_session sv fuel req accepts) s = Some (se, s2) ∧ ss_task se = Ret tt ∧
    cv_client (ss_conv se) = serveResource (sv_handler sv) (or_serve o5) (or_text o5) (hit given) (as_found k r0) (new_client accepts) ∧
    sh_cache s2 = c2 ∧ sh_answers s2 = sh_answers s ∧ sh_stores s2 = sh_stores s ∧
    if sv_metrics sv then record (RecordedHit (req_Method (cr_Request r0))) (sh_recorder s) = Some (sh_recorder s2) else sh_recorder s2 = sh_recorder s.
Proof.
  intros Hst Enew Hcacheable Hown Eret Hmark Hvary Hfresh Hrec. unfold hit_oracles, new_session, ServeHTTP.
  cbn [app]. prog_simpl.
  erewrite session_run_step by reflexivity. rewrite (ServeHTTP_keyed _ _ _ _ Enew Hown).
  unfold serve_request. change (request_isCacheable (with_key k r0)) with (request_isCacheable r0). rewrite Hcacheable. cbn [negb].
  unfold lookup_resource, lookupUsing, lookupBaseUsing, generationRetriever. rewrite Hst. prog_simpl.
  erewrite session_run_step by (cbn [hop_run]; unfold with_key; cbn; rewrite Eret; reflexivity).
  cbn [retrieved_as]. prog_simpl.
  match goal with |- context [set_discovery (Key_String ?a) (cr_servedKey ?b) ?c] => change (set_discovery (Key_String a) (cr_servedKey b) c) with (as_found k r0) end.
  change (cr_Key (set_discovery EmptyString EmptyString (with_key k r0))) with k.
  unfold mark_invalidated. rewrite String.eqb_refl. cbn [negb]. prog_simpl.
  erewrite session_run_step by (cbn [hop_run sh_cache next_handle]; rewrite Hst, Hmark; reflexivity).
  prog_simpl. unfold markInvalidatedResource. rewrite String.eqb_refl. cbn [negb]. rewrite Hvary. cbn [nonempty]. prog_simpl.
  unfold serveCachedResponse. do 3 (prog_simpl; erewrite session_run_step by reflexivity).
  rewrite Hfresh. prog_simpl. unfold Serve.metrics, when.
  change (set_header (Set_ (r_header given) CacheHeader "HIT") (r_cc given) given) with (hit given). destruct (sv_metrics sv).
  - destruct (Hrec eq_refl) as [m Em]. cbn [app]. prog_simpl.
    erewrite session_run_step by (cbn [hop_run recording_of]; unfold record_metric; change (sh_recorder (next_handle c2 s)) with (sh_recorder s);
      change (cr_Request (as_found k r0)) with (cr_Request r0); rewrite Em; reflexivity).
    do 2 (prog_simpl; unfold call; erewrite session_run_step by reflexivity). by do 2 eexists.
  - cbn [app]. do 2 (prog_simpl; unfold call; erewrite session_run_step by reflexivity). by do 2 eexists.
Qed.

(** C3: what has been stored is given again without the origin.  After
    [publishResource] has stored a response without a Vary field, without an
    error, under keys that carry no marker, a request for its first key whose
    lookup needs no validation runs to its end: it gives its client the stored
    response (the status, the body up to its declared [Content-Length], and
    the fields that were stored) through [serveResource], marked as a hit; the
    origin is asked nothing, nothing is stored, and the recorder counts one
    hit.  It holds of any cache that keeps the laws of the interface and
    reports its own markers ([StaleAt]; not of an opaque one), and of any
    recorder that does not panic. *)
Theorem stored_then_hit oS res at_ keys s s1 Q o0 oR oM o1 o2 o3 oT o5 o6 req accepts r0 k :
  sv_staleAtChecker sv = true →
  publishResource sv ttl oS res at_ (Key_String k :: keys) s = Some (true, s1) →
  plausible (or_choice oS) → storable (or_choice oS) (sh_cache s) res (Key_String k :: keys) → holds Q (sh_cache s) →
  (∀ x, x ∈ Key_String k :: keys → cache_StaleAt x (sh_cache s) = None) →
  newCacheRequest (or_now o0) req = Some r0 → request_isCacheable r0 = true → own_key sv req = Some k →
  combinedHeaderValues (written_fields (r_header res)) "Vary" = EmptyString →
  (∀ given c2, cache_Retrieve (or_choice oR) true (Key_String k) (sh_cache s1) = (Gives given, c2) →
     needsValidation (or_now o1) (or_now o2) (or_now o3) (sv_handler sv) given (as_found k r0) = false) →
  (sv_metrics sv = true → is_Some (record (RecordedHit (req_Method (cr_Request r0))) (sh_recorder s1))) →
  ∃ given se s2,
    session_run sv ttl (hit_oracles o0 oR oM o1 o2 o3 oT o5 o6) (new_session sv fuel req accepts) s1 = Some (se, s2) ∧ ss_task se = Ret tt ∧
    cv_client (ss_conv se) = serveResource (sv_handler sv) (or_serve o5) (or_text o5) (hit given) (as_found k r0) (new_client accepts) ∧
    r_statusCode given = r_statusCode res ∧ r_body given = stored_body res ∧ r_header given = written_fields (r_header res) ∧
    sh_answers s2 = sh_answers s1 ∧ sh_stores s2 = sh_stores s1 ∧
    if sv_metrics sv then record (RecordedHit (req_Method (cr_Request r0))) (sh_recorder s1) = Some (sh_recorder s2)
    else sh_recorder s2 = sh_recorder s1.
Proof.
  intros Hst Hpub Hpl Hstore Hh Hmarks Enew Hcacheable Hown Hvary Hfresh Hrec.
  destruct (Store_found _ _ _ _ _ _ _ (publish_stores _ _ _ _ _ _ Hpub Hst) Hpl Hstore Hh Hmarks) as [Hm1 Hfound].
  destruct (Hfound (or_choice oR) true) as (given & c2 & Eret & Hs & Hb & Hhd & _ & Hm2).
  destruct (hit_run o0 oR oM o1 o2 o3 oT o5 o6 req accepts r0 k s1 given c2 Hst Enew Hcacheable Hown Eret) as (se & s2 & E & Ht & Hc & _ & Ha & Hp & Hr);
    [|by rewrite Hhd|by eapply Hfresh|done|].
  - rewrite Hm2, Hm1. apply Hmarks. by left.
  - exists given, se, s2. by split_and!.
Qed.
End Found.

(** ** Witnesses *)

(** A request that runs alone is one of the interleavings; [calm_event]: the
    operations whose fields need no more to be said. *)
Definition calm_event (v : event (E := hop)) : bool :=
  match v with Event (CacheFreshen _ _) _ | Event (PipeUpstream _) _ => false | _ => true end.

Section Alone.
Context `{D : HttpDate, U : Unicode, P : UrlParser, CL : ContentLibrary}.
Context `{K : Cache C Oc, L : !CacheLaws C Oc} `{R : Metrics M}.
Context (sv : Server) (ttl : Duration) (fuel : nat) (o : oracle Oc).
Implicit Types (s : shared C M).

Lemma session_run_trace os se s se' s' : session_run sv ttl os se s = Some (se', s') → ss_trace se `prefix_of` ss_trace se'.
Proof.
  revert se s. induction os as [|a os IH]; intros se s; cbn [session_run]; [by intros [= <- <-]|].
  intros ([se1 s1] & E & Hrun)%bind_Some. etrans; [|by eapply IH]. unfold session_step in E.
  destruct (ss_task se) as [|X e k]; [done|]. apply bind_Some in E as ([[x s2] cv] & _ & [= <- <-]). by apply prefix_app_r.
Qed.

Lemma alone_reaches n se s se' s' sessions i :
  sessions !! i = Some se → session_run sv ttl (replicate n o) se s = Some (se', s') → forallb calm_event (ss_trace se') = true →
  plausible (or_choice o) → valid_statuses (or_script o) = true →
  rtc (system_step sv ttl fuel) {| sy_shared := s; sy_sessions := sessions |} {| sy_shared := s'; sy_sessions := <[i := se']> sessions |}.
Proof.
  intros Hi Hrun Hcalm Hpl Hfin. revert se s sessions Hi Hrun. induction n as [|n IH]; intros se s sessions Hi; cbn [replicate session_run].
  - intros [= <- <-]. by rewrite list_insert_id.
  - intros ([se1 s1] & E & Hrun)%bind_Some. destruct (ss_task se) as [|X e k] eqn:Et; [unfold session_step in E; by rewrite Et in E|].
    assert (calm_event (default (Event Clock 0) (last (ss_trace se1))) = true ∧
      ∃ x, ss_trace se1 = ss_trace se ++ [Event e x]) as [Hc (x & Htr)].
    { unfold session_step in E. rewrite Et in E. apply bind_Some in E as ([[x s2] cv] & _ & [= <- <-]). cbn [ss_trace]. split; [|by exists x].
      rewrite last_snoc. destruct (session_run_trace _ _ _ _ _ Hrun) as [tr Htr]. cbn [ss_trace] in Htr. rewrite Htr, !forallb_app in Hcalm.
      by apply andb_true_iff in Hcalm as [[_ Hc]%andb_true_iff _]; cbn [forallb] in Hc; rewrite andb_true_r in Hc. }
    rewrite Htr, last_snoc in Hc. eapply rtc_l.
    + apply (sys_hop sv ttl fuel s sessions i se se1 X e k o s1 Hi Et); [|exact E]. split; [exact Hpl|]. split; [exact Hfin|]. by destruct e.
    + replace (<[i:=se']> sessions) with (<[i:=se']> (<[i:=se1]> sessions)) by apply list_insert_insert_eq.
      apply (IH se1); [|exact Hrun]. apply list_lookup_insert_eq. by eapply lookup_lt_Some.
Qed.
End Alone.

#[local] Existing Instance stamp_date.
#[local] Existing Instance latin1_print.
#[local] Existing Instance http_parser.
#[local] Existing Instance plain_library.
#[local] Existing Instance mem_fs.
#[local] Existing Instance mem_os.
#[local] Existing Instance mem_dirs.
#[local] Existing Instance binary_json.
#[local] Existing Instance hex_records.

(** The handler over the disk cache, on files in memory; nothing fails, and
    the origin answers every request with "hello", fresh for a minute. *)
#[local] Instance example_cache : Cache world disk_choice := disk_cache false.
#[local] Instance example_laws : CacheLaws world disk_choice :=
  disk_cache_laws (VL := mem_fs_laws) (OL := mem_os_laws) (FL := mem_dirs_laws) (RL := hex_records_laws) false.

Definition calm : oracle disk_choice := {|
  or_now := example_now; or_flag := false; or_script := origin_of "max-age=60" 200; or_instants := one_instant; or_serve := five_instants;
  or_stage := roomy; or_text := EmptyString; or_choice := {| dc_env := calm_env; dc_now := example_now |}; or_acquired := Acquired |}.

(** [NewSharedHandler] over the disk cache, which has every optional interface. *)
Definition shared_server : Server := hd_server (NewSharedHandler {| can_StaleAt := true; can_recheck := true; can_coordinate := true |} (new_process (M := ()))).

Definition item_request : Request := get_of (example_url "/item" "").
Definition started : shared world () := sy_shared (sys_init disk_world ()).
Definition alone (n : nat) (s : shared world ()) : option (session * shared world ()) :=
  session_run shared_server hour (replicate n calm) (new_session shared_server 1 item_request (λ _ _, true)) s.

(** A header whose fields are plain, and sizes that fit, by computation. *)
Lemma plain_computes h :
  forallb (λ p : string * list string, ValidHeaderFieldName p.1 && String.eqb (CanonicalHeaderKey p.1) p.1 && forallb plain_value p.2) (map_to_list h) = true →
  plain_header h.
Proof.
  intros Hall k vs Hk _. rewrite forallb_forall in Hall. specialize (Hall (k, vs)). rewrite <- list_elem_of_In, elem_of_map_to_list in Hall.
  apply Hall in Hk as [[H1 H2%String.eqb_eq]%andb_true_iff H3]%andb_true_iff. split; [exact H1|]. split; [exact H2|].
  apply Forall_forall. intros v Hv. rewrite forallb_forall in H3. by apply H3, list_elem_of_In.
Qed.

Lemma fits_computes res integrity keys :
  forallb (λ n, forallb (λ k,
    match serializeCacheHeader integrity (r_statusCode res) (r_header res) (example_now + Z.of_nat n * second) k (str_len (stored_body res)) (sha256_hex (stored_body res)) with
    | Some raw => str_len (stored_body res) + str_len raw <=? max_int64
    | None => true
    end) keys) (seq 0 1001) = true → fits calm_env res integrity keys.
Proof.
  intros Hall i k raw Hk Hraw. rewrite forallb_forall in Hall. specialize (Hall (Z.to_nat (Z.min (Z.of_nat i) 1000))).
  rewrite forallb_forall in Hall. specialize (Hall ltac:(apply in_seq; lia) k ltac:(by apply list_elem_of_In)).
  cbn [clock calm_env] in Hraw. rewrite Z2Nat.id, Hraw in Hall by lia. lia.
Qed.

(** The first request misses and is fetched; its store runs; the second one
    is about to be given what was stored. *)
Definition nobody : session := {| ss_request := item_request; ss_trace := []; ss_task := Ret tt; ss_conv := {| cv_client := connected; cv_exchange := None |} |}.
Definition first_run : session * shared world () := default (nobody, started) (alone 6 started).
Definition item_store : pending :=
  default {| pd_res := NewResourceBytes 0 EmptyString ∅; pd_at := 0; pd_keys := []; pd_complete := None |} (head (sh_stores first_run.2)).
Definition without_stores (s : shared world ()) : shared world () := set_stores (sh_lifecycle s) [] s.
Definition item_stored : shared world () := default started (run_store shared_server hour calm item_store (without_stores first_run.2)).
Definition second_run : session * shared world () := default (nobody, started) (alone 7 item_stored).

Lemma default_eq {A} (d : A) (x : option A) : bool_decide (is_Some x) = true → x = Some (default d x).
Proof. intros [a ->]%bool_decide_eq_true. done. Qed.

Lemma calm_plausible : plausible (or_choice calm).
Proof. exact calm_clock_bounds. Qed.

Lemma item_storable w keys : config (w_cache w) = DefaultCacheConfig → keys = ["GET:/item"]%string → storable (or_choice calm) w (pd_res item_store) keys.
Proof.
  intros Hw ->. split; [vm_compute; split; discriminate|]. split; [apply plain_computes; vm_compute; reflexivity|].
  split; [vm_compute; discriminate|]. unfold integrity_on. rewrite Hw. apply fits_computes. vm_compute. reflexivity.
Qed.

Lemma first_fetched : alone 6 started = Some first_run.
Proof. apply default_eq. vm_compute. reflexivity. Qed.

Lemma first_reached :
  rtc (system_step shared_server hour 1) (sys_init disk_world ()) {| sy_shared := first_run.2; sy_sessions := [first_run.1] |}.
Proof.
  pose proof first_fetched as E. rewrite (surjective_pairing first_run) in E.
  eapply rtc_l; [apply (sys_arrive _ _ _ started [] item_request (λ _ _, true))|].
  apply (alone_reaches shared_server hour 1 calm 6 (new_session shared_server 1 item_request (λ _ _, true)) started first_run.1 first_run.2
    [new_session shared_server 1 item_request (λ _ _, true)] 0 eq_refl E); [vm_compute; reflexivity|exact calm_plausible|reflexivity].
Qed.

Lemma disk_starts_empty Q : holds Q disk_world.
Proof. exact (disk_empty Q disk_world (conj (new_ledger _ _ _) (λ p _, eq_refl))). Qed.

Lemma cached_bodies_come_from_the_origin_witness :
  ∃ id res r key a given, serving (ss_task second_run.1) = Some (id, res, r) ∧ r_body res = "hello"%string ∧
    looked_for shared_server item_request key ∧ a ∈ sh_answers second_run.2 ∧ answered_with a given ∧ r_body res = stored_body given.
Proof.
  assert (sh_stores first_run.2 = [item_store]) as Es by (vm_compute; reflexivity).
  assert (run_store shared_server hour calm item_store (without_stores first_run.2) = Some item_stored) as E2 by (apply default_eq; vm_compute; reflexivity).
  assert (alone 7 item_stored = Some second_run) as E3 by (apply default_eq; vm_compute; reflexivity).
  rewrite (surjective_pairing second_run) in E3.
  assert (rtc (system_step shared_server hour 1) (sys_init disk_world ()) {| sy_shared := second_run.2; sy_sessions := [first_run.1; second_run.1] |}) as Hr.
  { etrans; [exact first_reached|].
    eapply rtc_l; [apply (sys_store _ _ _ first_run.2 _ [] item_store [] calm item_stored Es); [exact calm_plausible| |exact E2]|].
    { apply item_storable; vm_compute; reflexivity. }
    eapply rtc_l; [apply sys_arrive|].
    apply (alone_reaches shared_server hour 1 calm 7 (new_session shared_server 1 item_request (λ _ _, true)) item_stored second_run.1 second_run.2
      [first_run.1; new_session shared_server 1 item_request (λ _ _, true)] 1 eq_refl E3);
      [vm_compute; reflexivity|exact calm_plausible|reflexivity]. }
  destruct (serving (ss_task second_run.1)) as [[[id res] r]|] eqn:Eserve; [|exfalso; vm_compute in Eserve; discriminate Eserve].
  destruct (cached_bodies_come_from_the_origin shared_server hour 1 disk_world () _ 1 second_run.1 id res r ltac:(discriminate)
    disk_starts_empty Hr eq_refl Eserve)
    as (key & Hl & [(k & Hk & _)|(a & asker & given & k & Ha & _ & _ & _ & _ & Hg & _ & Hb)]).
  - exfalso. assert (sh_doubtful second_run.2 = []) as Hd by (vm_compute; reflexivity). cbn [sy_shared] in Hk. rewrite Hd in Hk. by apply elem_of_nil in Hk.
  - exists id, res, r, key, a, given. split; [reflexivity|]. split; [|split_and!; [exact Hl|exact Ha|exact Hg|exact Hb]].
    assert ((λ x, r_body x.1.2) <$> serving (ss_task second_run.1) = Some "hello"%string) as Hbody by (vm_compute; reflexivity).
    rewrite Eserve in Hbody. by injection Hbody.
Defined.

Lemma without_stores_cache s : sh_cache (without_stores s) = sh_cache s.
Proof. reflexivity. Qed.

Definition item_key : string := Key_String (NewRequestKey item_request).
Definition item_published : bool * shared world () :=
  default (false, started) (publishResource shared_server hour calm (pd_res item_store) (pd_at item_store) [item_key] (without_stores first_run.2)).
Definition item_asked : cacheRequest := default (as_cache_request item_request) (newCacheRequest example_now item_request).

Lemma stored_then_hit_witness :
  ∃ given se s2, alone 9 item_published.2 = Some (se, s2) ∧ ss_task se = Ret tt ∧ r_body given = "hello"%string ∧
    cv_client (ss_conv se) = serveResource shared_handler five_instants EmptyString (hit given) (as_found (NewRequestKey item_request) item_asked) connected ∧
    sh_answers s2 = sh_answers item_published.2.
Proof.
  assert (publishResource shared_server hour calm (pd_res item_store) (pd_at item_store) [item_key] (without_stores first_run.2) =
    Some item_published) as E by (apply default_eq; vm_compute; reflexivity).
  assert (item_published.1 = true) as Hok by (vm_compute; reflexivity). rewrite (surjective_pairing item_published), Hok in E.
  destruct (reachable_ok shared_server hour 1 disk_world () _ ltac:(discriminate) disk_starts_empty first_reached) as ((Hh & _) & _).
  cbn [sy_shared] in Hh. rewrite <- without_stores_cache in Hh.
  destruct (stored_then_hit shared_server hour 1 calm (pd_res item_store) (pd_at item_store) [] (without_stores first_run.2) item_published.2
    (origin_gave first_run.2) calm calm calm calm calm calm calm calm calm item_request (λ _ _, true) item_asked (NewRequestKey item_request)
    eq_refl E calm_plausible ltac:(apply item_storable; vm_compute; reflexivity) Hh) as (given & se & s2 & Hrun & Ht & Hc & _ & Hb & _ & Ha & _).
  - intros x ->%list_elem_of_singleton. vm_compute. reflexivity.
  - vm_compute. reflexivity.
  - vm_compute. reflexivity.
  - reflexivity.
  - vm_compute. reflexivity.
  - intros given c2 Eg. assert (match (cache_Retrieve (or_choice calm) true item_key (sh_cache item_published.2)).1 with
      | Gives g => needsValidation example_now example_now example_now shared_handler g (as_found (NewRequestKey item_request) item_asked)
      | _ => false end = false) as Hn by (vm_compute; reflexivity).
    change (Key_String (NewRequestKey item_request)) with item_key in Eg. rewrite Eg in Hn. exact Hn.
  - intros _. by eexists.
  - exists given, se, s2. split_and!; [exact Hrun|exact Ht| |exact Hc|exact Ha]. rewrite Hb. vm_compute. reflexivity.
Defined.
