(* ===== verification/Coalescing.v ===== *)
(** * Who a coalesced request waits for

    The flights of [Flights] in the whole system of [System]: every flight
    under way belongs to one request that runs, and does not wait itself, or to
    one background store; so a request that waits for a flight never waits for
    nobody, nor in a circle. *)

From S2P Require Import Prelude GoStrings GoTime GoQuote GoHttp GoUrl CacheControl Config Vfs Markers StoredHeader Store Staged Transaction Retrieve Startup CacheState CacheInterface DiskCache Metrics Keys Resource Policy Validator Publication Program Lookup Serve Path Conduct Reuse Origin Flights Streamer Preconditions System Transparency.
Import Headers.

(** ** The owners of the flights *)

(** The flight a background store ends when it is done. *)
Definition store_flight (p : pending) : option (string * nat) := pd_complete p ≫= co_flight.

(** The flight a request has claimed and not ended or handed over. *)
Definition held (sv : Server) (se : session) : option (string * nat) := held_flight (conduct_of sv (ss_trace se)).

Definition owners {C M} (sv : Server) (y : system C M) : list (string * nat) :=
  omap (held sv) (sy_sessions y) ++ omap store_flight (sh_stores (sy_shared y)).

(** The flight whose end a request waits for. *)
Definition waiting_for (t : task ()) : option nat := match t with Vis (AwaitFlight flight) _ => Some flight | _ => None end.
Definition finished (t : task ()) : bool := match t with Ret _ => true | _ => false end.

(** ** Flight maps *)

(** Identities in use are old, and an old one has landed or is in use. *)
Definition flights_wf (m : flight_map) : Prop :=
  (∀ k f, flights m !! k = Some f → (f < nextFlight m)%nat) ∧
  ∀ f, (f < nextFlight m)%nat → f ∈ landed m ∨ ∃ k, flights m !! k = Some f.

(** [l] are the flights of the map, each once. *)
Definition owned (l : list (string * nat)) (m : flight_map) : Prop := l ≡ₚ map_to_list (flights m).

Lemma claim_wf key m x m' : claimMiss key m = (x, m') → flights_wf m → flights_wf m' ∧ (nextFlight m ≤ nextFlight m')%nat ∧ (x.1 < nextFlight m')%nat.
Proof.
  unfold claimMiss. intros E [Hlt Hold]. destruct (flights m !! key) as [f|] eqn:El; injection E as <- <-.
  - split; [by split|]. split; [lia|]. by apply (Hlt key).
  - cbn [fst flights nextFlight landed]. split; [|split; lia]. split; cbn.
    + intros k f [[_ <-]|[_ Hf]]%lookup_insert_Some; [lia|]. apply Hlt in Hf. lia.
    + intros f Hf. destruct (decide (f = nextFlight m)) as [->|Hne]; [right; exists key; apply lookup_insert_eq|].
      destruct (Hold f ltac:(lia)) as [?|[k Hk]]; [by left|right; exists k]. rewrite lookup_insert_ne; [done|]. intros ->. congruence.
Qed.

Lemma finish_wf key f m : flights_wf m → flights_wf (finishMiss key f m) ∧ nextFlight (finishMiss key f m) = nextFlight m.
Proof.
  unfold finishMiss. intros [Hlt Hold]. case_bool_decide as Hf; [|by split]. split; [|done]. split; cbn.
  - intros k f' [_ Hk]%lookup_delete_Some. by apply (Hlt k).
  - intros f' Hf'. destruct (Hold f' Hf') as [?|[k Hk]]; [left; set_solver|]. destruct (decide (k = key)) as [->|Hne].
    + left. assert (f' = f) as -> by congruence. set_solver.
    + right. exists k. by rewrite lookup_delete_ne.
Qed.

Lemma claim_owned key m f m' l : claimMiss key m = ((f, true), m') → owned l m → owned ((key, f) :: l) m'.
Proof.
  unfold claimMiss, owned. intros E Hl. destruct (flights m !! key) eqn:El; [done|]. injection E as <- <-. cbn. by rewrite map_to_list_insert, Hl by done.
Qed.

Lemma claim_shared key m f m' : claimMiss key m = ((f, false), m') → m' = m.
Proof. unfold claimMiss. destruct (flights m !! key); [by intros [= _ <-]|done]. Qed.

Lemma finish_owned key f m l : owned ((key, f) :: l) m → owned l (finishMiss key f m).
Proof.
  unfold owned. intros Hl. assert (flights m !! key = Some f) as Hf by (apply elem_of_map_to_list; rewrite <- Hl; by left).
  unfold finishMiss. rewrite bool_decide_eq_true_2 by done. cbn. apply (Permutation_cons_inv (a := (key, f))).
  by rewrite Hl, (map_to_list_delete _ _ _ Hf).
Qed.

Lemma omap_middle {A B} (g : A → option B) (l1 l2 : list A) a : omap g (l1 ++ a :: l2) ≡ₚ option_list (g a) ++ omap g (l1 ++ l2).
Proof. rewrite !omap_app. cbn. destruct (g a) as [b|]; cbn; [by rewrite Permutation_middle|done]. Qed.

(** ** One operation *)

Section Coalescing.
Context `{D : HttpDate, U : Unicode, P : UrlParser, CL : ContentLibrary}.
Context `{K : Cache C Oc, L : !CacheLaws C Oc} `{R : Metrics M}.
Context (sv : Server) (ttl : Duration) (fuel : nat).
Implicit Types (s : shared C M) (o : oracle Oc) (se : session) (cv : conversation) (l : list (string * nat)).

Definition store_flights s : list (string * nat) := omap store_flight (sh_stores s).

(** [mine] and [others] and those of the background stores own the flights. *)
Definition coalesced (mine others : list (string * nat)) s : Prop :=
  owned (mine ++ store_flights s ++ others) (sh_flights s) ∧ flights_wf (sh_flights s).

Definition quiet s s' : Prop := sh_flights s' = sh_flights s ∧ sh_stores s' = sh_stores s ∧ sh_lifecycle s' = sh_lifecycle s.

#[export] Instance quiet_preorder : PreOrder quiet.
Proof. split; [done|]. intros s1 s2 s3 (F1 & S1 & L1) (F2 & S2 & L2). split_and!; congruence. Qed.

Lemma quiet_local f s : quiet s (on_local sv f s).
Proof. unfold on_local. by destruct (sv_staleAtChecker sv). Qed.

Lemma quiet_metric r s s' : record_metric r s = Some s' → quiet s s'.
Proof. unfold record_metric. by intros (m & _ & [= <-])%bind_Some. Qed.

Lemma quiet_freshen o res keys s ok s' : cache_freshen o res keys s = Some (ok, s') → quiet s s'.
Proof. unfold cache_freshen. intros ([ok' c] & _ & [= <- <-])%bind_Some. by destruct ok'. Qed.

Lemma quiet_pipe {W} o (effects : list (effect W)) s s' : after_pipe sv ttl o effects s = Some s' → quiet s s'.
Proof.
  unfold after_pipe. destruct effects as [|[keys seen|res key| |] effects]; try by intros [= <-].
  - intros [= <-]. unfold invalidate. exact (quiet_local _ s).
  - intros ([ok s1] & E & ->)%fmap_Some. unfold freshen_resource in E. cbv zeta in E. apply bind_Some in E as ([ok' s2] & E & [= <- <-]).
    etrans; [apply quiet_local|]. etrans; [by eapply quiet_freshen|]. apply quiet_local.
Qed.

Lemma quiet_publish o res at_ keys s ok s' : publishResource sv ttl o res at_ keys s = Some (ok, s') → quiet s s'.
Proof.
  unfold publishResource. cbv zeta. intros ([un c] & _ & [= <- <-])%bind_Some.
  etrans; [|apply quiet_local]. exact (quiet_local (beginLocalPublication keys) s).
Qed.

Lemma quiet_coalesced mine others s s' : quiet s s' → coalesced mine others s → coalesced mine others s'.
Proof. intros (HF & HS & _). unfold coalesced, store_flights. by rewrite HF, HS. Qed.

(** The completion of a fill ends the flight it was given. *)
Definition completion_flight (complete : option completion) : option (string * nat) := complete ≫= co_flight.

Lemma callComplete_coalesced complete l s :
  owned (option_list (completion_flight complete) ++ l) (sh_flights s) → flights_wf (sh_flights s) →
  let s' := callComplete complete s in
  owned l (sh_flights s') ∧ flights_wf (sh_flights s') ∧ nextFlight (sh_flights s') = nextFlight (sh_flights s) ∧ sh_stores s' = sh_stores s.
Proof.
  intros Hl Hwf. destruct complete as [[[[key f]|] lease]|]; cbn in *; [|done..].
  destruct (finish_wf key f _ Hwf) as [? ->]. split; [by apply finish_owned|done].
Qed.

Lemma after_fetch_coalesced {W} r u accepts complete (effects : list (effect W)) others s :
  coalesced (option_list (completion_flight complete)) others s →
  let s' := after_fetch r u accepts complete effects s in coalesced [] others s' ∧ nextFlight (sh_flights s') = nextFlight (sh_flights s).
Proof.
  intros [Hl Hwf] s'. pose proof (callComplete_coalesced complete _ (answered_by {| an_req := r; an_script := u; an_accepts := accepts |} s) Hl Hwf) as (Ho & Hw & Hn & Hs).
  assert (s' = callComplete complete (answered_by {| an_req := r; an_script := u; an_accepts := accepts |} s) →
    coalesced [] others s' ∧ nextFlight (sh_flights s') = nextFlight (sh_flights s)) as Hdone.
  { intros ->. split; [|exact Hn]. split; [|exact Hw]. unfold store_flights in *. by rewrite Hs. }
  unfold s', after_fetch in *. cbv zeta in *. destruct effects as [|[keys seen|res key|res at_ keys|] effects]; try by apply Hdone.
  split; [|done]. split; [|exact Hwf]. unfold store_flights, owned in *. cbn [sh_stores sh_flights set_stores answered_by app]. rewrite <- Hl, omap_app.
  assert (omap store_flight [{| pd_res := res; pd_at := at_; pd_keys := keys; pd_complete := complete |}] = option_list (completion_flight complete)) as ->.
  { cbn. unfold store_flight, completion_flight. cbn [pd_complete]. by destruct (complete ≫= co_flight). }
  rewrite <- app_assoc. apply Permutation_app_swap_app.
Qed.

Lemma hop_coalesced o {X} (e : hop X) x s s' cv cv' c others :
  hop_run sv ttl o e s cv = Some (x, s', cv') → conduct_allowed (sv_missCoordinator sv) e c →
  coalesced (option_list (held_flight c)) others s →
  coalesced (option_list (held_flight (conduct_next e x c))) others s' ∧ (nextFlight (sh_flights s) ≤ nextFlight (sh_flights s'))%nat ∧
  match e in hop X return X → Prop with ClaimMiss _ => λ x, (x.1 < nextFlight (sh_flights s'))%nat | _ => λ _, True end x.
Proof.
  intros E Hca Hco.
  assert (∀ c', quiet s s' → held_flight c' = held_flight c →
    coalesced (option_list (held_flight c')) others s' ∧ (nextFlight (sh_flights s) ≤ nextFlight (sh_flights s'))%nat ∧ True) as Hq.
  { intros c' Hq ->. split; [by eapply quiet_coalesced|]. destruct Hq as [-> _]. by split. }
  destruct e; cbn [hop_run] in E; cbn [conduct_allowed] in Hca; cbn [conduct_next]; try (injection E as _ <- _; by apply Hq).
  - destruct (cache_Retrieve _ _ _ _) as [a c']. injection E as <- <- _. destruct a; by apply Hq.
  - apply bind_Some in E as ([ok s1] & E & [= _ <- _]). apply Hq; [by eapply quiet_freshen|done].
  - destruct (or_flag o); injection E as <- <- _; by apply Hq.
  - apply bind_Some in E as ([u ex] & _ & [= _ <- _]). by apply Hq.
  - apply bind_Some in E as ([u ex] & _ & E). destruct (deliverValidationExchange _ _ _ _ _ _ _ _ _ _) as [c1 effects]. injection E as _ <- _.
    destruct (after_fetch_coalesced storage u (λ _ _, true) None effects (option_list (held_flight c) ++ others) s) as [[Ho Hw] Hn].
    { destruct Hco as [Hl Hw]. split; [|exact Hw]. unfold owned in *. rewrite <- Hl. cbn. apply Permutation_app_swap_app. }
    split; [split; [|exact Hw]|by rewrite Hn]. unfold owned in *. rewrite <- Ho. cbn. apply Permutation_app_swap_app.
  - destruct (passUpstream _ _ _ _ _ _ _ _) as [c1 effects]. injection E as _ <- _. destruct Hca as [_ Hheld].
    destruct (after_fetch_coalesced r (or_script o) (cl_accepts (cv_client cv)) complete effects others s) as [Hafter Hn].
    { destruct complete as [co|]; [destruct Hheld as [Hf _]; cbn; by rewrite <- Hf|]. destruct Hheld as [Hf _]. by rewrite Hf in Hco. }
    split; [exact Hafter|]. by rewrite Hn.
  - destruct (pipeUpstream _ _ _ _) as [c1 effects]. apply bind_Some in E as (s1 & E & [= _ <- _]). apply Hq; [by eapply quiet_pipe|done].
  - destruct (claimMiss _ _) as [y m] eqn:Ec. injection E as <- <- _. destruct Hco as [Hl Hw]. rewrite Hca in Hl.
    destruct (claim_wf _ _ _ _ Ec Hw) as (Hw' & Hle & Hlt). split; [|by split]. split; [|exact Hw']. destruct y as [f []]; cbn [snd fst held_flight option_list app].
    + by apply (claim_owned _ _ _ _ _ Ec).
    + by rewrite (claim_shared _ _ _ _ Ec).
  - injection E as _ <- _. destruct Hco as [Hl Hw]. rewrite Hca in Hl. destruct (finish_wf key flight _ Hw) as [Hw' Hn].
    split; [split; [by apply finish_owned|exact Hw']|]. cbn [sh_flights set_flights]. by rewrite Hn.
  - destruct (or_flag o); [injection E as _ <- _; by apply Hq|]. case_bool_decide; [|done]. injection E as _ <- _. by apply Hq.
  - apply bind_Some in E as (s1 & E & [= _ <- _]). apply Hq; [by eapply quiet_metric|done].
  - done.
Qed.

(** ** The system *)

(** A request waits for flights of the past only. *)
Definition waits_ok s se : Prop :=
  ∀ good : nat → Prop, (∀ f, (f < nextFlight (sh_flights s))%nat → good f) →
    safe (path_monitor sv (ss_request se) good) (ss_task se) (λ _ _, True) tt.

Definition flights_ok (y : system C M) : Prop :=
  owned (owners sv y) (sh_flights (sy_shared y)) ∧ flights_wf (sh_flights (sy_shared y)) ∧
  ∀ se, se ∈ sy_sessions y → waits_ok (sy_shared y) se.

Lemma waits_ok_later s s' se : (nextFlight (sh_flights s) ≤ nextFlight (sh_flights s'))%nat → waits_ok s se → waits_ok s' se.
Proof. intros Hle Hw good Hg. apply Hw. intros f Hf. apply Hg. lia. Qed.

Lemma hop_flights_ok o s s' sessions i se se' :
  sessions !! i = Some se → session_step sv ttl o se s = Some (se', s') → session_ok sv s se →
  flights_ok {| sy_shared := s; sy_sessions := sessions |} → flights_ok {| sy_shared := s'; sy_sessions := <[i := se']> sessions |}.
Proof.
  intros Hi E (_ & (Hc & _ & _) & _) (Hown & Hwf & Hwaits). unfold session_step in E.
  pose proof (Hwaits se (list_elem_of_lookup_2 _ _ _ Hi)) as Hwait. cbn [sy_shared sy_sessions] in *.
  destruct (ss_task se) as [|X e k] eqn:Et; [done|]. apply bind_Some in E as ([[x s1] cv] & E & [= <- <-]). destruct Hc as [Hca _].
  pose proof (take_drop_middle _ _ _ Hi) as Hsplit. set (l1 := take i sessions) in *. set (l2 := drop (S i) sessions) in *.
  destruct (hop_coalesced o e x s s1 (ss_conv se) cv _ (omap (held sv) (l1 ++ l2)) E Hca) as ([Hown' Hwf'] & Hle & Hx).
  { split; [|exact Hwf]. unfold owned in *. rewrite <- Hown. unfold owners. cbn [sy_shared sy_sessions]. rewrite <- Hsplit, omap_middle.
    unfold held at 2. rewrite <- app_assoc. apply Permutation_app_head, Permutation_app_comm. }
  split; [|split; [exact Hwf'|]]; cbn [sy_shared sy_sessions].
  - unfold owned in *. rewrite <- Hown'. unfold owners. cbn [sy_shared sy_sessions].
    rewrite (insert_take_drop _ _ _ (lookup_lt_Some _ _ _ Hi)). fold l1 l2. rewrite omap_middle. unfold held at 1. cbn [ss_trace].
    rewrite conduct_of_snoc, <- app_assoc. apply Permutation_app_head, Permutation_app_comm.
  - intros se0 (j & Hj)%list_elem_of_lookup_1. destruct (decide (i = j)) as [<-|Hne].
    + rewrite list_lookup_insert_eq in Hj by (by eapply lookup_lt_Some). injection Hj as <-. intros good Hg. cbn [ss_request ss_task].
      assert (safe (path_monitor sv (ss_request se) good) (ss_task se) (λ _ _, True) tt) as Hsafe by (apply Hwait; intros f Hf; apply Hg; lia).
      rewrite Et in Hsafe. destruct Hsafe as [_ Hsafe]. apply (Hsafe x). destruct e; try done. by apply Hg.
    + rewrite list_lookup_insert_ne in Hj by done. eapply waits_ok_later; [exact Hle|]. apply Hwaits. by eapply list_elem_of_lookup_2.
Qed.

Lemma step_flights_ok (y y' : system C M) :
  system_step sv ttl fuel y y' → system_ok sv y → flights_ok y → flights_ok y'.
Proof.
  intros Hstep (_ & Hse & _) Hok. destruct Hstep as [s sessions req|s sessions i se se' X e k o s' Hi Et Hin E|s sessions l1 p l2 o s' Hs Hpl Hst E|s sessions c Hup|s sessions].
  - destruct Hok as (Hown & Hwf & Hw). split; [|split; [exact Hwf|]].
    + unfold owned, owners in *. cbn [sy_shared sy_sessions] in *. rewrite omap_app. cbn. by rewrite app_nil_r.
    + intros se [H|H%list_elem_of_singleton]%elem_of_app; [by apply Hw|subst se]. intros good _. apply ServeHTTP_path.
  - eapply hop_flights_ok; [exact Hi|exact E| |exact Hok]. apply Hse. by eapply list_elem_of_lookup_2.
  - destruct Hok as (Hown & Hwf & Hw). set (s0 := set_stores (sh_lifecycle s) (l1 ++ l2) s) in *.
    unfold run_store in E. apply bind_Some in E as ([ok s1] & E1 & E). apply bind_Some in E as (s2 & E2 & [= <-]).
    assert (quiet s0 s2) as (HF & HS & _).
    { etrans; [by eapply quiet_publish|]. destruct (sv_metrics sv); [by eapply quiet_metric|by injection E2 as <-]. }
    destruct (callComplete_coalesced (pd_complete p) (omap (held sv) sessions ++ omap store_flight (l1 ++ l2)) s2) as (Ho' & Hw' & Hn & Hs').
    { rewrite HF. change (sh_flights s0) with (sh_flights s). unfold owned, owners in *. cbn [sy_shared sy_sessions] in *. rewrite <- Hown, Hs, omap_middle. apply Permutation_app_swap_app. }
    { rewrite HF. exact Hwf. }
    split; [|split; [exact Hw'|]].
    + unfold owners. cbn [sy_shared sy_sessions sh_stores sh_flights set_stores]. rewrite Hs', HS. exact Ho'.
    + intros se H. eapply waits_ok_later; [|by apply Hw]. cbn [sy_shared sh_flights set_stores]. rewrite Hn, HF. done.
  - exact Hok.
  - exact Hok.
Qed.

Lemma reachable_flights_ok c m (y : system C M) :
  (sv_missCoordinator sv = false → fuel ≠ O) → (∀ Q, holds Q c) → rtc (system_step sv ttl fuel) (sys_init c m) y → system_ok sv y ∧ flights_ok y.
Proof.
  intros Hf Hc Hr. assert (system_ok sv (sys_init c m) ∧ flights_ok (sys_init c m)) as H0.
  { split; [by apply (reachable_ok sv ttl fuel c m); [..|apply rtc_refl]|]. split; [by apply Permutation_refl'|].
    split; [split; [done|intros f Hlt; cbn in Hlt; lia]|by intros se ?%elem_of_nil]. }
  clear Hc. induction Hr as [|y1 y2 y3 Hstep _ IH]; [done|]. destruct H0 as [H1 H2]. apply IH. split; [by eapply system_step_ok|by eapply step_flights_ok].
Qed.

(** ** Theorem *)

(** C4: a coalesced request waits for somebody who works.  However requests,
    background stores and a shutdown interleave, the flights in the map are
    owned each by exactly one request or background store, and a request that
    waits for a flight waits for one that has landed, or for one owned by a
    request that is neither at its end nor waiting for a flight itself, or by a
    background store that ends it: nobody waits in vain or in a circle. *)
Theorem coalesced_requests_have_a_leader c m (y : system C M) :
  (sv_missCoordinator sv = false → fuel ≠ O) → (∀ Q, holds Q c) → rtc (system_step sv ttl fuel) (sys_init c m) y →
  owners sv y ≡ₚ map_to_list (flights (sh_flights (sy_shared y))) ∧
  ∀ se flight, se ∈ sy_sessions y → waiting_for (ss_task se) = Some flight →
    flight ∈ landed (sh_flights (sy_shared y)) ∨
    ∃ key, flights (sh_flights (sy_shared y)) !! key = Some flight ∧
      ((∃ leader, leader ∈ sy_sessions y ∧ held sv leader = Some (key, flight) ∧ finished (ss_task leader) = false ∧ waiting_for (ss_task leader) = None) ∨
       ∃ p, p ∈ sh_stores (sy_shared y) ∧ store_flight p = Some (key, flight)).
Proof.
  intros Hf Hc Hr. destruct (reachable_flights_ok c m y Hf Hc Hr) as [(_ & Hse & _) (Hown & [_ Hold] & Hw)]. split; [exact Hown|].
  intros se flight Hin Hwait. assert (flight < nextFlight (sh_flights (sy_shared y)))%nat as Hlt.
  { pose proof (Hw se Hin (λ f, (f < nextFlight (sh_flights (sy_shared y)))%nat) ltac:(done)) as Hsafe.
    destruct (ss_task se) as [|X e k]; [done|]. destruct e; cbn [waiting_for] in Hwait; try done. injection Hwait as ->. by destruct Hsafe. }
  destruct (Hold flight Hlt) as [?|[key Hk]]; [by left|right; exists key]. split; [exact Hk|].
  apply elem_of_map_to_list in Hk. rewrite <- Hown in Hk. unfold owners in Hk.
  apply elem_of_app in Hk as [(leader & Hl & Hheld)%list_elem_of_omap|(p & Hp & Hfl)%list_elem_of_omap]; [left|right; by exists p].
  exists leader. destruct (Hse leader Hl) as (_ & (Hsafe & _ & _) & _). unfold held in Hheld. split; [exact Hl|]. split; [exact Hheld|].
  destruct (ss_task leader) as [a|X e k]; [destruct Hsafe as (? & ? & Hs & _); rewrite Hs in Hheld; done|]. split; [done|].
  destruct e; try done. destruct Hsafe as [Hnone _]. cbn in Hnone. congruence.
Qed.
End Coalescing.

(** ** What a shutdown waits for *)

Section Draining.
Context `{D : HttpDate, U : Unicode, P : UrlParser, CL : ContentLibrary}.
Context `{K : Cache C Oc, L : !CacheLaws C Oc} `{R : Metrics M}.
Context (sv : Server) (ttl : Duration) (fuel : nat).
Implicit Types (s : shared C M) (o : oracle Oc) (cv : conversation).

(** A fetch stores nothing once the handler is closing. *)
Lemma pass_stream_open `{ResponseWriter W} h n stage l r u t (w : W) res at_ keys :
  Publish res at_ keys ∈ (pass_stream h n stage l r u t w).2 → closing l = false.
Proof.
  unfold pass_stream. cbv zeta. destruct (WaitHeaders _ _) as [rw rest]. destruct (negb (canStageResponse _ _ _ _ _)); [by intros ?%list_elem_of_singleton|].
  destruct (negb _); [by intros ?%list_elem_of_singleton|]. cbn [snd]. unfold storeResource, beginWrite.
  destruct (closing l); [by intros ?%list_elem_of_singleton|done].
Qed.

(** The writes counted are the stores that have not run. *)
Definition counted s : Prop := writes (sh_lifecycle s) = Z.of_nat (length (sh_stores s)).

(** No step opens a handler again, and a closing one gets no more stores. *)
Definition drains s s' : Prop :=
  (counted s → counted s') ∧ (closing (sh_lifecycle s) = true → closing (sh_lifecycle s') = true ∧ sh_stores s' `sublist_of` sh_stores s).

#[export] Instance drains_preorder : PreOrder drains.
Proof.
  split; [by intros s|]. intros s1 s2 s3 [C1 H1] [C2 H2]. split; [auto|]. intros Hc. destruct (H1 Hc) as [Hc2 Hs]. destruct (H2 Hc2) as [? ?].
  split; [done|by etrans].
Qed.

Lemma quiet_drains s s' : quiet s s' → drains s s'.
Proof. intros (_ & HS & HL). unfold drains, counted. by rewrite HS, HL. Qed.

Lemma callComplete_drains complete s : drains s (callComplete complete s).
Proof. unfold drains, counted. by destruct complete as [[[[]|] ?]|]. Qed.

Lemma after_fetch_drains {W} r u accepts complete (effects : list (effect W)) s :
  (∀ res at_ keys, Publish res at_ keys ∈ effects → closing (sh_lifecycle s) = false) → drains s (after_fetch r u accepts complete effects s).
Proof.
  intros Hopen. unfold after_fetch. cbv zeta. etrans; [exact (quiet_drains s (answered_by {| an_req := r; an_script := u; an_accepts := accepts |} s) ltac:(done))|].
  destruct effects as [|[keys seen|res key|res at_ keys|] effects]; try apply callComplete_drains.
  pose proof (Hopen res at_ keys ltac:(by left)) as Hc. unfold drains, counted. cbn [sh_lifecycle sh_stores set_stores answered_by].
  unfold beginWrite. rewrite Hc. cbn [snd writes closing]. split; [rewrite length_app; cbn; lia|done].
Qed.

Lemma hop_drains o {X} (e : hop X) x s s' cv cv' : hop_run sv ttl o e s cv = Some (x, s', cv') → drains s s'.
Proof.
  intros E. destruct e; cbn [hop_run] in E; try (injection E as _ <- _; first [by apply quiet_drains|by split]).
  - destruct (cache_Retrieve _ _ _ _) as [a c']. injection E as _ <- _. by apply quiet_drains.
  - apply bind_Some in E as ([ok s1] & E & [= _ <- _]). apply quiet_drains. by eapply quiet_freshen.
  - destruct (or_flag o); injection E as _ <- _; by apply quiet_drains.
  - apply bind_Some in E as ([u ex] & _ & [= _ <- _]). by apply quiet_drains.
  - apply bind_Some in E as ([u ex] & _ & E). destruct (deliverValidationExchange _ _ _ _ _ _ _ _ _ _) as [c1 effects] eqn:Ed. injection E as _ <- _.
    apply after_fetch_drains. intros res at_ keys Hin. unfold deliverValidationExchange in Ed.
    destruct (pass_stream _ _ _ _ _ _ _ _) as [rw effects'] eqn:Ep. injection Ed as _ <-. apply (f_equal snd) in Ep. cbn [snd] in Ep. rewrite <- Ep in Hin. exact (pass_stream_open _ _ _ _ _ _ _ _ _ _ _ Hin).
  - destruct (passUpstream _ _ _ _ _ _ _ _) as [c1 effects] eqn:Ed. injection E as _ <- _. apply after_fetch_drains. intros res at_ keys Hin.
    unfold passUpstream, passUpstreamWithHandler in Ed. destruct (pass_stream _ _ _ _ _ _ _ _) as [rw effects'] eqn:Ep. injection Ed as _ <-.
    apply (f_equal snd) in Ep. cbn [snd] in Ep. rewrite <- Ep in Hin. exact (pass_stream_open _ _ _ _ _ _ _ _ _ _ _ Hin).
  - destruct (pipeUpstream _ _ _ _) as [c1 effects]. apply bind_Some in E as (s1 & E & [= _ <- _]). apply quiet_drains. by eapply quiet_pipe.
  - destruct (claimMiss _ _) as [y m]. injection E as _ <- _. by split.
  - destruct (or_flag o); [injection E as _ <- _; by apply quiet_drains|]. case_bool_decide; [|done]. injection E as _ <- _. by apply quiet_drains.
  - apply bind_Some in E as (s1 & E & [= _ <- _]). apply quiet_drains. by eapply quiet_metric.
  - done.
Qed.

Lemma step_drains (y y' : system C M) : system_step sv ttl fuel y y' → drains (sy_shared y) (sy_shared y').
Proof.
  intros [s sessions req|s sessions i se se' X e k o s' Hi Et Hin E|s sessions l1 p l2 o s' Hs Hpl Hst E|s sessions c Hup|s sessions]; cbn [sy_shared]; try done.
  - unfold session_step in E. rewrite Et in E. apply bind_Some in E as ([[x s1] cv] & E & [= _ <-]). by eapply hop_drains.
  - unfold run_store in E. apply bind_Some in E as ([ok s1] & E1 & E). apply bind_Some in E as (s2 & E2 & [= <-]).
    assert (quiet (set_stores (sh_lifecycle s) (l1 ++ l2) s) s2) as (_ & HS & HL).
    { etrans; [by eapply quiet_publish|]. destruct (sv_metrics sv); [by eapply quiet_metric|by injection E2 as <-]. }
    assert (sh_stores (callComplete (pd_complete p) s2) = sh_stores s2 ∧ sh_lifecycle (callComplete (pd_complete p) s2) = sh_lifecycle s2) as [HS' HL']
      by (by destruct (pd_complete p) as [[[[]|] ?]|]).
    unfold drains, counted. cbn [sh_stores sh_lifecycle set_stores]. rewrite HS', HL', HS, HL, Hs. cbn [sh_stores sh_lifecycle set_stores].
    unfold endWrite. cbn [writes closing]. rewrite !length_app. cbn [length]. split; [lia|]. intros Hc. split; [done|].
    apply sublist_app; [done|by apply sublist_cons].
Qed.

(** C32: what a shutdown waits for ends.  In every reachable state the background
    writes that [Shutdown] waits for are the stores that have not ended; once
    the handler is closing it stays so and no store begins, whatever requests
    are still under way; so from the moment the wait returns there is none, and
    nothing a request fetches later is stored. *)
Theorem shutdown_drains c m (y y' : system C M) :
  rtc (system_step sv ttl fuel) (sys_init c m) y → rtc (system_step sv ttl fuel) y y' →
  writes (sh_lifecycle (sy_shared y)) = Z.of_nat (length (sh_stores (sy_shared y))) ∧
  (closing (sh_lifecycle (sy_shared y)) = true →
     closing (sh_lifecycle (sy_shared y')) = true ∧ sh_stores (sy_shared y') `sublist_of` sh_stores (sy_shared y) ∧
     (Wait_returns (sh_lifecycle (sy_shared y)) = true → sh_stores (sy_shared y') = [])).
Proof.
  assert (∀ y1 y2 : system C M, rtc (system_step sv ttl fuel) y1 y2 → drains (sy_shared y1) (sy_shared y2)) as Hall.
  { induction 1 as [|y1 y2 y3 Hstep _ IH]; [reflexivity|]. etrans; [by apply step_drains|done]. }
  intros Hr Hr'. destruct (Hall _ _ Hr) as [Hcount _]. specialize (Hcount eq_refl). split; [exact Hcount|]. intros Hc.
  destruct (Hall _ _ Hr') as [_ Hd]. destruct (Hd Hc) as [Hc' Hsub]. split; [done|]. split; [done|]. unfold Wait_returns. intros Hz%Z.eqb_eq.
  unfold counted in Hcount. rewrite Hz in Hcount. apply sublist_nil_r. destruct (sh_stores (sy_shared y)); [done|cbn in Hcount; lia].
Qed.
End Draining.

(** ** Witness *)

#[local] Existing Instance stamp_date.
#[local] Existing Instance latin1_print.
#[local] Existing Instance http_parser.
#[local] Existing Instance plain_library.
#[local] Existing Instance mem_fs.
#[local] Existing Instance mem_os.
#[local] Existing Instance mem_dirs.
#[local] Existing Instance binary_json.
#[local] Existing Instance hex_records.
#[local] Existing Instance example_cache.
#[local] Existing Instance example_laws.

(** Two requests for one item: the first claims the flight, the second waits. *)
Definition leading : session * shared world () := default (nobody, started) (alone 5 started).
Definition following : session * shared world () := default (nobody, started) (alone 5 leading.2).

Lemma coalesced_requests_have_a_leader_witness :
  waiting_for (ss_task following.1) = Some 0%nat ∧ held shared_server leading.1 = Some ("GET:/item"%string, 0%nat) ∧
  finished (ss_task leading.1) = false ∧ waiting_for (ss_task leading.1) = None.
Proof.
  assert (alone 5 started = Some leading) as E1 by (apply default_eq; vm_compute; reflexivity).
  assert (alone 5 leading.2 = Some following) as E2 by (apply default_eq; vm_compute; reflexivity).
  rewrite (surjective_pairing leading) in E1. rewrite (surjective_pairing following) in E2.
  assert (rtc (system_step shared_server hour 1) (sys_init disk_world ()) {| sy_shared := following.2; sy_sessions := [leading.1; following.1] |}) as Hr.
  { eapply rtc_l; [apply (sys_arrive _ _ _ started [] item_request (λ _ _, true))|].
    etrans; [apply (alone_reaches shared_server hour 1 calm 5 (new_session shared_server 1 item_request (λ _ _, true)) started leading.1 leading.2
      [new_session shared_server 1 item_request (λ _ _, true)] 0 eq_refl E1); [vm_compute; reflexivity|exact calm_plausible|reflexivity]|].
    eapply rtc_l; [apply sys_arrive|].
    apply (alone_reaches shared_server hour 1 calm 5 (new_session shared_server 1 item_request (λ _ _, true)) leading.2 following.1 following.2
      [leading.1; new_session shared_server 1 item_request (λ _ _, true)] 1 eq_refl E2); [vm_compute; reflexivity|exact calm_plausible|reflexivity]. }
  assert (waiting_for (ss_task following.1) = Some 0%nat) as Hw by (vm_compute; reflexivity). split; [exact Hw|].
  destruct (coalesced_requests_have_a_leader shared_server hour 1 disk_world () _ ltac:(discriminate) disk_starts_empty Hr) as [_ Hall].
  destruct (Hall following.1 0%nat ltac:(right; by left) Hw) as [Hl|(key & Hk & [(leader & Hin & Hheld & Hfin & Hnw)|(p & Hp & _)])].
  - exfalso. apply (bool_decide_eq_true_2 _) in Hl. vm_compute in Hl. discriminate Hl.
  - apply elem_of_cons in Hin as [->|Hin%list_elem_of_singleton].
    + split; [|split; [exact Hfin|exact Hnw]]. vm_compute. reflexivity.
    + exfalso. subst leader. rewrite Hw in Hnw. discriminate Hnw.
  - exfalso. assert (sh_stores following.2 = []) as Hs by (vm_compute; reflexivity). cbn [sy_shared] in Hp. rewrite Hs in Hp. by apply elem_of_nil in Hp.
Defined.

(** A shutdown with one store under way, which then runs. *)
Definition at_shutdown : shared world () := set_stores (Shutdown_begin (sh_lifecycle first_run.2)) (sh_stores first_run.2) first_run.2.
Definition without_store (s : shared world ()) : shared world () := set_stores (sh_lifecycle s) [] s.
Definition after_store : shared world () := default started (run_store shared_server hour calm item_store (without_store at_shutdown)).

Lemma shutdown_drains_witness :
  writes (sh_lifecycle at_shutdown) = 1 ∧ closing (sh_lifecycle after_store) = true ∧ sh_stores after_store `sublist_of` [item_store].
Proof.
  assert (sh_stores at_shutdown = [item_store]) as Es by (vm_compute; reflexivity).
  assert (run_store shared_server hour calm item_store (without_store at_shutdown) = Some after_store) as E by (apply default_eq; vm_compute; reflexivity).
  assert (rtc (system_step shared_server hour 1) {| sy_shared := at_shutdown; sy_sessions := [first_run.1] |} {| sy_shared := after_store; sy_sessions := [first_run.1] |}) as Hr'.
  { apply rtc_once, (sys_store _ _ _ at_shutdown _ [] item_store [] calm after_store Es); [exact calm_plausible| |exact E].
    apply item_storable; vm_compute; reflexivity. }
  destruct (shutdown_drains shared_server hour 1 disk_world () {| sy_shared := at_shutdown; sy_sessions := [first_run.1] |} _ (rtc_r _ _ _ first_reached (sys_shutdown _ _ _ first_run.2 [first_run.1])) Hr')
    as [Hw Hd].
  cbn [sy_shared] in Hw, Hd. rewrite Es in Hw, Hd. split; [exact Hw|]. destruct (Hd eq_refl) as (Hc & Hs & _). by split.
Defined.
